(** * Computers, Waves, Simulations: the matrix assembly and leapfrog core

    A shallow embedding of the numerical core shared by the course
    notebooks (spectral elements, finite elements, Chebyshev and Fourier
    pseudospectral methods) and the properties of it that the
    specification states.

    Conventions of the embedding.
    - [np.float64] values are idealised as exact real numbers ([R]);
      rounding and overflow are outside the model.  Where the source
      divides by a zero [np.float64] (which yields an infinity and a
      warning, not an exception) the value type is extended with the
      IEEE non-finite values ([Cheby.fval]).
    - Python integers are [Z]; indexing follows Python: a negative index
      counts from the end and an index out of range raises [IndexError].
    - A Python statement either returns or raises: effectful code lives
      in the [outcome] monad.
    - One-dimensional arrays are [list R], two-dimensional arrays are
      lists of rows.  Arrays that the time loops bind to several names
      live in a [store] of objects, so that aliasing is explicit.
    - The time loops use the operators that check the shapes of their
      operands as numpy does ([Np.matmul], [Np.badd], ...) and raise
      [ValueError] on a mismatch; the plain operators ([Np.matvec],
      [Np.add], ...) give the values on operands of matching shapes.
    - [gll], [lagrange1st] and [ricker] are imported by the notebooks from
      modules of their own: their results
      ([w], [l1d], [src]) are parameters of the definitions. *)

From Stdlib Require Import Reals Lra Lia ZArith.
From stdpp Require Import base option list gmap.

(** Numerals stay as they are written when a term is simplified. *)
Arguments IZR : simpl never.

(** ** Python outcomes *)

Inductive exn : Set :=
  | IndexError
  | ValueError
  | ZeroDivisionError
  | InvalidMaterial.

Inductive outcome (A : Type) : Type :=
  | Returned (a : A)
  | Raised (e : exn).
Arguments Returned {A} a.
Arguments Raised {A} e.

#[global] Instance outcome_ret : MRet outcome := @Returned.
#[global] Instance outcome_bind : MBind outcome :=
  fun A B f m => match m with Returned a => f a | Raised e => Raised e end.

(** [for i in l: s = body(i, s)] *)
Fixpoint for_ {I S : Type} (l : list I) (body : I -> S -> outcome S) (s : S)
  : outcome S :=
  match l with
  | [] => Returned s
  | i :: l' => s' ← body i s; for_ l' body s'
  end.

(** [range(a, b)] *)
Definition range (a b : Z) : list Z :=
  map (fun k : nat => (a + Z.of_nat k)%Z) (seq 0 (Z.to_nat (b - a))).

(** ** Indexing *)

Module Py.

(** Position designated by the Python index [i] in a sequence of
    length [n]. *)
Definition index (n : nat) (i : Z) : outcome nat :=
  if ((0 <=? i) && (i <? Z.of_nat n))%Z then Returned (Z.to_nat i)
  else if ((- Z.of_nat n <=? i) && (i <? 0))%Z
       then Returned (Z.to_nat (Z.of_nat n + i))
       else Raised IndexError.

(** [a[i]] *)
Definition getitem {A : Type} (a : list A) (i : Z) : outcome A :=
  k ← index (length a) i;
  match a !! k with
  | Some v => Returned v
  | None => Raised IndexError
  end.

(** [a[i] = v] *)
Definition setitem {A : Type} (a : list A) (i : Z) (v : A)
  : outcome (list A) :=
  k ← index (length a) i; Returned (<[k:=v]> a).

(** [m[i, j]] *)
Definition getitem2 {A : Type} (m : list (list A)) (i j : Z) : outcome A :=
  row ← getitem m i; getitem row j.

(** [m[i, j] = v] *)
Definition setitem2 {A : Type} (m : list (list A)) (i j : Z) (v : A)
  : outcome (list (list A)) :=
  row ← getitem m i; row' ← setitem row j v; setitem m i row'.

(** The element at a position that is not negative, if there is one. *)
Definition cell {A : Type} (m : list (list A)) (x y : Z) : option A :=
  if ((0 <=? x) && (0 <=? y))%Z
  then m !! Z.to_nat x ≫= fun row => row !! Z.to_nat y
  else None.

(** Shape [(r, c)]. *)
Definition shape2 {A : Type} (r c : Z) (m : list (list A)) : Prop :=
  Z.of_nat (length m) = r /\ Forall (fun row => Z.of_nat (length row) = c) m.

(** [math.ceil(a / b)] for integers [a] and [b]. *)
Definition ceil_div (a b : Z) : outcome Z :=
  if (b =? 0)%Z then Raised ZeroDivisionError
  else Returned (- ((- a) / b))%Z.

End Py.

(** ** Arrays of numbers *)

Module Np.

Local Open Scope R_scope.

(** [np.zeros(n)] and [np.zeros((r, c))] *)
Definition zeros (n : Z) : list R := replicate (Z.to_nat n) 0.
Definition zeros2 (r c : Z) : list (list R) := replicate (Z.to_nat r) (zeros c).

(** [np.sum] of a vector and of a matrix. *)
Definition sum (v : list R) : R := foldr Rplus 0 v.
Definition sum2 (m : list (list R)) : R := sum (map sum m).

(** The values of the elementwise operators on two arrays of one
    length. *)
Definition add (u v : list R) : list R := zip_with Rplus u v.
Definition sub (u v : list R) : list R := zip_with Rminus u v.
Definition mul (u v : list R) : list R := zip_with Rmult u v.
Definition div (u v : list R) : list R := zip_with Rdiv u v.
Definition scale (c : R) (v : list R) : list R := map (Rmult c) v.
Definition scale2 (c : R) (m : list (list R)) : list (list R) :=
  map (scale c) m.

(** The values of [r @ v] for two vectors of one length and of [m @ v]
    for a matrix and a vector that has as many entries as the matrix has
    columns. *)
Definition dot (r v : list R) : R := sum (mul r v).
Definition matvec (m : list (list R)) (v : list R) : list R :=
  map (fun r => dot r v) m.

(** The operators with numpy's check of the shapes.  [u + v] and the
    like on two one-dimensional arrays: a one-element operand is
    broadcast, two other lengths that differ are refused. *)
Definition broadcast (f : R -> R -> R) (u v : list R) : outcome (list R) :=
  if (length u =? length v)%nat then Returned (zip_with f u v)
  else match u, v with
       | [a], _ => Returned (map (f a) v)
       | _, [b] => Returned (map (fun a => f a b) u)
       | _, _ => Raised ValueError
       end.
Definition badd : list R -> list R -> outcome (list R) := broadcast Rplus.
Definition bsub : list R -> list R -> outcome (list R) := broadcast Rminus.
Definition bmul : list R -> list R -> outcome (list R) := broadcast Rmult.
Definition bdiv : list R -> list R -> outcome (list R) := broadcast Rdiv.

(** [m @ v]: every row of [m] must have the length of [v]. *)
Definition matmul (m : list (list R)) (v : list R) : outcome (list R) :=
  if forallb (fun r => (length r =? length v)%nat) m
  then Returned (matvec m v) else Raised ValueError.

(** [v * m] for a vector and a matrix: the vector is broadcast along
    the rows. *)
Fixpoint rowwise (f : list R -> outcome (list R)) (m : list (list R))
  : outcome (list (list R)) :=
  match m with
  | [] => Returned []
  | r :: m' => r' ← f r; m'' ← rowwise f m'; Returned (r' :: m'')
  end.
Definition bmul_rows (v : list R) (m : list (list R))
  : outcome (list (list R)) := rowwise (bmul v) m.

(** [m[k, :] = v]: the values of [v] are copied into row [k]; a
    one-element [v] is broadcast over the row. *)
Definition setrow (m : list (list R)) (k : Z) (v : list R)
  : outcome (list (list R)) :=
  row ← Py.getitem m k;
  if (length v =? length row)%nat then Py.setitem m k v
  else match v with
       | [x] => Py.setitem m k (replicate (length row) x)
       | _ => Raised ValueError
       end.

(** Entry of a matrix at a position, [0] outside of the matrix: the
    vocabulary of the statements about assembled matrices. *)
Definition entry (m : list (list R)) (x y : Z) : R :=
  default 0 (Py.cell m x y).

Definition item (v : list R) (x : Z) : R :=
  if (0 <=? x)%Z then default 0 (v !! Z.to_nat x) else 0.

Definition symmetric (m : list (list R)) : Prop :=
  forall x y : Z, entry m x y = entry m y x.

End Np.

(** ** The store of array objects *)

Record store : Type := Store {
  cells : gmap nat (list R);
  next : nat
}.

(** A new array object. *)
Definition alloc (a : list R) (h : store) : nat * store :=
  (next h, Store (<[next h := a]> (cells h)) (S (next h))).

(** The array a reference designates. *)
Definition load (h : store) (l : nat) : list R := default [] (cells h !! l).

(** [x[i] = v] through the reference [l]. *)
Definition store_setitem (h : store) (l : nat) (i : Z) (v : R) : outcome store :=
  a ← Py.setitem (load h l) i v;
  Returned (Store (<[l := a]> (cells h)) (next h)).

Module PyInt.

(** [a % b], [a // b] and [int(a / b)] on integers. *)
Definition mod_ (a b : Z) : outcome Z :=
  if (b =? 0)%Z then Raised ZeroDivisionError else Returned (a mod b)%Z.
Definition floordiv (a b : Z) : outcome Z :=
  if (b =? 0)%Z then Raised ZeroDivisionError else Returned (a / b)%Z.
Definition int_truediv (a b : Z) : outcome Z :=
  if (b =? 0)%Z then Raised ZeroDivisionError else Returned (a ÷ b)%Z.

End PyInt.

(** ** The leapfrog extrapolation shared by the element notebooks *)

Module Leapfrog.

Local Open Scope R_scope.

(** [dt**2 * Minv @ (f - K @ u) + 2 * u - uold], with Python's
    precedences: the matrix is scaled first.  Every operator checks the
    shapes of its operands. *)
Definition extrapolate (dt : R) (Minv K : list (list R)) (f u uold : list R)
  : outcome (list R) :=
  Ku ← Np.matmul K u;
  r ← Np.bsub f Ku;
  a ← Np.matmul (Np.scale2 (dt ^ 2) Minv) r;
  b ← Np.badd a (Np.scale 2 u);
  Np.bsub b uold.

(** The update as the specification words it:
    next = dt² · InverseMass · (source − Stiffness · current)
           + 2 · current − previous. *)
Definition next_field (dt : R) (InverseMass Stiffness : list (list R))
    (source current previous : list R) : list R :=
  Np.sub
    (Np.add
       (Np.scale (dt ^ 2)
          (Np.matvec InverseMass (Np.sub source (Np.matvec Stiffness current))))
       (Np.scale 2 current))
    previous.

End Leapfrog.

(** ** Spectral elements, homogeneous case (W9_se_homo_1d_solution) *)

Module SeHomo.

Definition ng (N ne : Z) : Z := ((ne - 1) * N + N + 1)%Z.

Section Assembly.

Local Open Scope R_scope.

Variables (xmax vs rho : R) (N ne : Z).
(** [[xi, w] = gll(N)] and [l1d = lagrange1st(N)] *)
Variables (w : list R) (l1d : list (list R)).

(** The set-up cell of the notebook: [le = xmax/ne], [J = le/2] and
    [Ji = 1/J].  The last division is one of Python floats and raises
    [ZeroDivisionError] when [J] is zero, before any matrix is
    assembled: the statements about the stiffness matrix, the only
    reader of [Ji], assume [xmax <> 0]. *)
Definition mu : R := rho * vs ^ 2.
Definition le : R := xmax / IZR ne.
Definition J : R := le / 2.
Definition Ji : R := 1 / J.

(** Elemental mass matrix, stored as a vector. *)
Definition Me : outcome (list R) :=
for_ (range 0 (N + 1))
  (fun i Me => wi ← Py.getitem w i; Py.setitem Me i (rho * wi * J))
  (Np.zeros (N + 1)).

(** Global mass matrix: the running index [k] steps back by one at the
  first node of every element but the first. *)
Definition M : outcome (list R) :=
Me ← Me;
kM ← for_ (range 1 (ne + 1))
  (fun i => for_ (range 0 (N + 1))
     (fun j '(k, M) =>
        let k := (k + 1)%Z in
        let k := if ((1 <? i) && (j =? 0))%Z then (k - 1)%Z else k in
        mk ← Py.getitem M k;
        mej ← Py.getitem Me j;
        M ← Py.setitem M k (mk + mej);
        Returned (k, M)))
  ((-1)%Z, Np.zeros (2 * ng N ne));
Returned (snd kM).

(** Elemental stiffness matrix. *)
Definition Ke : outcome (list (list R)) :=
for_ (range 0 (N + 1))
  (fun i => for_ (range 0 (N + 1))
     (fun j => for_ (range 0 (N + 1))
        (fun k Ke =>
           kij ← Py.getitem2 Ke i j;
           wk ← Py.getitem w k;
           lik ← Py.getitem2 l1d i k;
           ljk ← Py.getitem2 l1d j k;
           Py.setitem2 Ke i j (kij + mu * wk * Ji * lik * ljk))))
  (Np.zeros2 (N + 1) (N + 1)).

(** Global stiffness matrix: the element blocks are assigned ... *)
Definition K_blocks (Ke : list (list R)) : outcome (list (list R)) :=
for_ (range 1 (ne + 1))
  (fun k =>
     let i0 := ((k - 1) * N + 1)%Z in
     let j0 := i0 in
     for_ (range (-1) N)
       (fun i => for_ (range (-1) N)
          (fun j K =>
             v ← Py.getitem2 Ke (i + 1) (j + 1);
             Py.setitem2 K (i0 + i) (j0 + j) v)))
  (Np.zeros2 (ng N ne) (ng N ne)).

(** ... and the entries at the element boundaries are set afterwards. *)
Definition K_boundaries (Ke K : list (list R)) : outcome (list (list R)) :=
for_ (range 2 (ne + 1))
  (fun k K =>
     let i0 := ((k - 1) * N)%Z in
     let j0 := i0 in
     a ← Py.getitem2 Ke 0 0;
     b ← Py.getitem2 Ke N N;
     Py.setitem2 K i0 j0 (a + b))
  K.

Definition K : outcome (list (list R)) :=
Ke ← Ke; K ← K_blocks Ke; K_boundaries Ke K.

End Assembly.

(** *** Time extrapolation *)

Section TimeLoop.

Local Open Scope R_scope.

Variables (N ne nt idisp : Z) (dt : R).
(** [src = ricker(dt, Tdom)]; [Minv] and [K] are the inverse mass and
  the stiffness matrix of the cells above. *)
Variables (src : list R) (Minv K : list (list R)).

(** The names of the time loop: [u], [uold], [unew] and [f] are
  references into the store, [u_results] is the snapshot buffer. *)
Record state : Type := State {
heap : store;
u : nat;
uold : nat;
unew : nat;
f : nat;
u_results : list (list R)
}.

Definition isrc : Z := (ng N ne / 2)%Z.

(** [u = np.zeros(ng); uold = u; unew = u; f = u]: one object under
  four names; [u_results = np.zeros((math.ceil(nt/idisp), N*ne+1))]. *)
Definition init : outcome state :=
let '(l, h) := alloc (Np.zeros (ng N ne)) (Store ∅ 0) in
rows ← Py.ceil_div nt idisp;
Returned (State h l l l l (Np.zeros2 rows (N * ne + 1))).

(** [f = np.zeros(ng)] and the injection of the source sample. *)
Definition source (it : Z) (st : state) : outcome state :=
let '(lf, h) := alloc (Np.zeros (ng N ne)) (heap st) in
h ← (if (it <? Z.of_nat (length src))%Z
     then a ← Py.getitem src (it - 1); store_setitem h lf (isrc - 1) a
     else Returned h);
Returned (State h (u st) (uold st) (unew st) lf (u_results st)).

(** [unew = ...; uold, u = u, unew] *)
Definition extrapolation (st : state) : outcome state :=
a ← Leapfrog.extrapolate dt Minv K
       (load (heap st) (f st)) (load (heap st) (u st))
       (load (heap st) (uold st));
let '(ln, h) := alloc a (heap st) in
Returned (State h ln (u st) ln (f st) (u_results st)).

(** [if it % idisp == 0: u_results[int(it/idisp), :] = u] *)
Definition save (it : Z) (st : state) : outcome state :=
r ← PyInt.mod_ it idisp;
if (r =? 0)%Z
then row ← PyInt.int_truediv it idisp;
     res ← Np.setrow (u_results st) row (load (heap st) (u st));
     Returned (State (heap st) (u st) (uold st) (unew st) (f st) res)
else Returned st.

Definition step (it : Z) (st : state) : outcome state :=
st ← source it st; st ← extrapolation st; save it st.

Definition run (st : state) : outcome state := for_ (range 0 nt) step st.

(** The invariant of the loop: [u] and [uold] designate arrays of [ng]
  numbers, and the snapshot buffer has [rows] rows of [N*ne+1]. *)
Definition ready (rows : Z) (st : state) : Prop :=
(u st < next (heap st))%nat /\ (uold st < next (heap st))%nat /\
Z.of_nat (length (load (heap st) (u st))) = ng N ne /\
Z.of_nat (length (load (heap st) (uold st))) = ng N ne /\
Py.shape2 rows (N * ne + 1) (u_results st).

End TimeLoop.
End SeHomo.

(** ** Spectral elements, heterogeneous case (W9_se_hetero_1d_solution) *)

Module SeHetero.
Section Assembly.

Local Open Scope R_scope.

Variables (xmax : R) (N ne : Z).
(** The material field: density and shear modulus at the grid points. *)
Variables (rho mu : list R).
Variables (w : list R) (l1d : list (list R)).

(** The set-up cell, as in the homogeneous notebook: [Ji = 1/J] raises
    [ZeroDivisionError] when [J] is zero, and the statements about the
    stiffness matrix assume [xmax <> 0]. *)
Definition le : R := xmax / IZR ne.
Definition J : R := le / 2.
Definition Ji : R := 1 / J.
Definition ng : Z := SeHomo.ng N ne.

(** Elemental mass of the element that starts after grid point [m]. *)
Definition Me_loop (m : Z) (Me : list R) : outcome (Z * list R) :=
for_ (range 0 (N + 1))
  (fun l '(m, Me) =>
     let m := (m + 1)%Z in
     r ← Py.getitem rho m;
     wl ← Py.getitem w l;
     Me ← Py.setitem Me l (r * wl * J);
     Returned (m, Me))
  (m, Me).

(** Global mass matrix. *)
Definition M : outcome (list R) :=
s ← for_ (range 1 (ne + 1))
  (fun i '(k, m, Me, M) =>
     '(m, Me) ← Me_loop m Me;
     let m := (m - 1)%Z in
     '(k, M) ← for_ (range 0 (N + 1))
       (fun j '(k, M) =>
          let k := (k + 1)%Z in
          let k := if ((1 <? i) && (j =? 0))%Z then (k - 1)%Z else k in
          mk ← Py.getitem M k;
          mej ← Py.getitem Me j;
          M ← Py.setitem M k (mk + mej);
          Returned (k, M))
       (k, M);
     Returned (k, m, Me, M))
  ((-1)%Z, (-1)%Z, Np.zeros (N + 1), Np.zeros (2 * ng));
Returned (snd s).

(** Elemental stiffness matrix of the element whose first grid point is
  [xe]. *)
Definition Ke_loop (xe : Z) (Ke : list (list R)) : outcome (list (list R)) :=
for_ (range (-1) N)
  (fun i => for_ (range (-1) N)
     (fun j Ke =>
        sum ← for_ (range (-1) N)
          (fun k sum =>
             m ← Py.getitem mu (k + 1 + xe);
             wk ← Py.getitem w (k + 1);
             lik ← Py.getitem2 l1d (i + 1) (k + 1);
             ljk ← Py.getitem2 l1d (j + 1) (k + 1);
             Returned (sum + m * wk * Ji ^ 2 * J * lik * ljk))
          0;
        Py.setitem2 Ke (i + 1) (j + 1) sum))
  Ke.

(** [K[i0+i, j0+j] += Ke[i+1, j+1]] over the block of one element. *)
Definition K_block (i0 j0 : Z) (Ke K : list (list R))
: outcome (list (list R)) :=
for_ (range (-1) N)
  (fun i => for_ (range (-1) N)
     (fun j K =>
        kij ← Py.getitem2 K (i0 + i) (j0 + j);
        v ← Py.getitem2 Ke (i + 1) (j + 1);
        Py.setitem2 K (i0 + i) (j0 + j) (kij + v)))
  K.

(** Global stiffness matrix. *)
Definition K : outcome (list (list R)) :=
s ← for_ (range 1 (ne + 1))
  (fun e '(xe, Ke, K) =>
     let i0 := ((e - 1) * N + 1)%Z in
     let j0 := i0 in
     Ke ← Ke_loop xe Ke;
     let xe := (xe + N)%Z in
     K ← K_block i0 j0 Ke K;
     Returned (xe, Ke, K))
  (0%Z, Np.zeros2 (N + 1) (N + 1), Np.zeros2 ng ng);
Returned (snd s).

End Assembly.

Section TimeLoop.

Variables (N ne nt idisp : Z) (dt : R).
Variables (src : list R) (Minv K : list (list R)).

(** The loop has the statements of the homogeneous notebook and, in
  between, [x_t.append(u)]: [x_t] holds references. *)
Record state : Type := State {
se : SeHomo.state;
x_t : list nat
}.

Definition init : outcome state :=
s ← SeHomo.init N ne nt idisp; Returned (State s []).

Definition step (it : Z) (st : state) : outcome state :=
s ← SeHomo.source N ne src it (se st);
s ← SeHomo.extrapolation dt Minv K s;
let x_t := x_t st ++ [SeHomo.u s] in
s ← SeHomo.save idisp it s;
Returned (State s x_t).

Definition run (st : state) : outcome state := for_ (range 0 nt) step st.

End TimeLoop.
End SeHetero.

(** ** Finite elements, elastic 1D (W7_fe_elastic_1d_solution) *)

Module FeElastic.

Section Setup.

Local Open Scope R_scope.

Variables (nx : Z) (xmax vs ro0 : R).

Definition dx : R := xmax / IZR (nx - 1).
(** [x = np.arange(0, nx)*dx] and [h = np.diff(x)] *)
Definition x : list R := map (fun i => IZR i * dx) (range 0 nx).
Definition diff (v : list R) : list R := Np.sub (drop 1 v) v.
Definition h : list R := diff x.
(** [ro = x*0 + ro0] and [mu = x*0 + ro*vs**2] *)
Definition ro : list R := map (fun xi => xi * 0 + ro0) x.
Definition mu : list R :=
Np.add (map (fun xi => xi * 0) x) (map (fun r => r * vs ^ 2) ro).

End Setup.

Section Assembly.

Local Open Scope R_scope.

Variables (nx : Z) (ro mu h : list R).

(** Mass matrix [M_ij]. *)
Definition M : outcome (list (list R)) :=
M ← for_ (range 1 (nx - 1))
  (fun i => for_ (range 1 (nx - 1))
     (fun j M =>
        if (j =? i)%Z then
          a ← Py.getitem ro (i - 1); b ← Py.getitem h (i - 1);
          c ← Py.getitem ro i; d ← Py.getitem h i;
          Py.setitem2 M i j ((a * b + c * d) / 3)
        else if (j =? i + 1)%Z then
          c ← Py.getitem ro i; d ← Py.getitem h i;
          Py.setitem2 M i j (c * d / 6)
        else if (j =? i - 1)%Z then
          a ← Py.getitem ro (i - 1); b ← Py.getitem h (i - 1);
          Py.setitem2 M i j (a * b / 6)
        else Py.setitem2 M i j 0))
  (Np.zeros2 nx nx);
(* Corner elements *)
a ← Py.getitem ro 0; b ← Py.getitem h 0;
M ← Py.setitem2 M 0 0 (a * b / 3);
a ← Py.getitem ro (nx - 1); b ← Py.getitem h (nx - 2);
Py.setitem2 M (nx - 1) (nx - 1) (a * b / 3).

(** Stiffness matrix [K_ij].  The divisions by the element sizes are
    divisions of [np.float64]: a size of zero gives an infinity or a
    NaN, not an exception, and the statements about the values of [K]
    assume sizes other than zero. *)
Definition K : outcome (list (list R)) :=
K ← for_ (range 1 (nx - 1))
  (fun i => for_ (range 1 (nx - 1))
     (fun j K =>
        if (i =? j)%Z then
          a ← Py.getitem mu (i - 1); b ← Py.getitem h (i - 1);
          c ← Py.getitem mu i; d ← Py.getitem h i;
          Py.setitem2 K i j (a / b + c / d)
        else if (i =? j + 1)%Z then
          a ← Py.getitem mu (i - 1); b ← Py.getitem h (i - 1);
          Py.setitem2 K i j (- a / b)
        else if (i + 1 =? j)%Z then
          c ← Py.getitem mu i; d ← Py.getitem h i;
          Py.setitem2 K i j (- c / d)
        else Py.setitem2 K i j 0))
  (Np.zeros2 nx nx);
a ← Py.getitem mu 0; b ← Py.getitem h 0;
K ← Py.setitem2 K 0 0 (a / b);
a ← Py.getitem mu (nx - 1); b ← Py.getitem h (nx - 2);
Py.setitem2 K (nx - 1) (nx - 1) (a / b).

End Assembly.

Section TimeLoop.

Local Open Scope R_scope.

Variables (nt idisp : Z) (dt dx : R).
(** [src] is the source time function, [f] the spatial source vector;
  [Mfd] and [D] are the finite-difference matrices of the comparison. *)
Variables (src f : list R) (Minv K Mfd D : list (list R)).

(** The fields are distinct arrays and are only ever rebound. *)
Record state : Type := State {
u : list R; uold : list R; unew : list R;
p : list R; pold : list R; pnew : list R;
u_results : list (list R);
p_results : list (list R)
}.

(** [f*src[it]] *)
Definition times (v : list R) (c : R) : list R := map (fun a => a * c) v.
Definition over (v : list R) (c : R) : list R := map (fun a => a / c) v.

(** The two extrapolations of one step. *)
Definition update (it : Z) (st : state) : outcome state :=
(* Finite Element Method *)
s ← Py.getitem src it;
unew ← Leapfrog.extrapolate dt Minv K (times f s) (u st) (uold st);
let '(uold, u) := (u st, unew) in
(* Finite Difference Method *)
s ← Py.getitem src it;
Dp ← Np.matmul D (p st);
r ← Np.badd (times (over f dx) s) Dp;
a ← Np.matmul (Np.scale2 (dt ^ 2) Mfd) r;
b ← Np.badd a (Np.scale 2 (p st));
pnew ← Np.bsub b (pold st);
let '(pold, p) := (p st, pnew) in
Returned (State u uold unew p pold pnew (u_results st) (p_results st)).

(** Save Results *)
Definition save (it : Z) (st : state) : outcome state :=
r ← PyInt.mod_ it idisp;
if (r =? 0)%Z then
  row ← PyInt.int_truediv it idisp;
  ur ← Np.setrow (u_results st) row (u st);
  row ← PyInt.int_truediv it idisp;
  pr ← Np.setrow (p_results st) row (p st);
  Returned (State (u st) (uold st) (unew st) (p st) (pold st) (pnew st)
              ur pr)
else Returned st.

Definition step (it : Z) (st : state) : outcome state :=
st ← update it st; save it st.

Definition run (st : state) : outcome state := for_ (range 0 nt) step st.

End TimeLoop.
End FeElastic.

(** ** Chebyshev pseudospectral method (W5_ps_cheby_elastic_1d_solution) *)

Module Cheby.

Local Open Scope R_scope.

(** A [np.float64]: a real number or one of the IEEE non-finite values. *)
Inductive fval : Type :=
  | Fin (r : R)
  | PInf
  | NInf
  | NaN.

Definition finite (v : fval) : Prop :=
  match v with Fin _ => True | _ => False end.

(** [a / b] on finite operands: dividing by zero gives an infinity (or
    a NaN for [0 / 0]) and a warning, never an exception. *)
Definition fdiv (a b : R) : fval :=
  if Req_dec_T b 0 then
    if Req_dec_T a 0 then NaN
    else if Rlt_dec 0 a then PInf else NInf
  else Fin (a / b).

(** [-v] *)
Definition fneg (v : fval) : fval :=
  match v with
  | Fin r => Fin (- r)
  | PInf => NInf
  | NInf => PInf
  | NaN => NaN
  end.

(** [cx[a:b] = c] for bounds that are not negative. *)
Definition fill (v : list R) (a b : Z) (c : R) : list R :=
  imap (fun k e =>
          if ((a <=? Z.of_nat k) && (Z.of_nat k <? b))%Z then c else e) v.

(** The entry the [else] branch of the double loop computes. *)
Definition off_diagonal (cx x : list R) (i j : Z) : outcome fval :=
  ci ← Py.getitem cx i;
  cj ← Py.getitem cx j;
  xi ← Py.getitem x i;
  xj ← Py.getitem x j;
  Returned (fdiv (ci * IZR ((-1) ^ (i + j))) (cj * (xi - xj))).

(** The entry the [if] branch computes. *)
Definition diagonal (x : list R) (i : Z) : outcome fval :=
  a ← Py.getitem x i;
  b ← Py.getitem x i;
  c ← Py.getitem x i;
  Returned (fdiv (- a) (2 * (1 - b * c))).

(** The collocation points [x[ix] = cos(pi * ix / nx)]. *)
Definition nodes (nx : Z) : outcome (list R) :=
  for_ (range 0 (nx + 1))
    (fun ix x =>
       if (nx =? 0)%Z then Raised ZeroDivisionError
       else Py.setitem x ix (cos (PI * IZR ix / IZR nx)))
    (Np.zeros (nx + 1)).

Definition weights (nx : Z) : outcome (list R) :=
  cx ← Py.setitem (Np.zeros (nx + 1)) 0 2;
  cx ← Py.setitem cx nx 2;
  Returned (fill cx 1 nx 1).

(** The double loop over the entries. *)
Definition entries (nx : Z) (cx x : list R) : outcome (list (list fval)) :=
  for_ (range 0 (nx + 1))
    (fun i => for_ (range 0 (nx + 1))
       (fun j D =>
          if ((i =? j) && negb (i =? 0) && negb (i =? nx))%Z
          then v ← diagonal x i; Py.setitem2 D i i v
          else v ← off_diagonal cx x i j; Py.setitem2 D i j v))
    (replicate (Z.to_nat (nx + 1)) (replicate (Z.to_nat (nx + 1)) (Fin 0))).

Definition get_cheby_matrix (nx : Z) : outcome (list (list fval)) :=
  x ← nodes nx;
  cx ← weights nx;
  D ← entries nx cx x;
  D ← Py.setitem2 D 0 0 (Fin ((2 * IZR nx ^ 2 + 1) / 6));
  d ← Py.getitem2 D 0 0;
  D ← Py.setitem2 D nx nx (fneg d);
  Returned D.

Section TimeLoop.

Variables (nx nt idisp : Z) (dt : R).
(** [D] is the differentiation matrix, [sg] the spatial source. *)
Variables (mu rho sg src : list R) (D : list (list R)).

Record state : Type := State {
heap : store;
u : nat;
uold : nat;
unew : nat;
u_results : list (list R)
}.

(** [u], [unew] and [uold] are three arrays. *)
Definition init : outcome state :=
let '(lu, h) := alloc (Np.zeros (nx + 1)) (Store ∅ 0) in
let '(ln, h) := alloc (Np.zeros (nx + 1)) h in
let '(lo, h) := alloc (Np.zeros (nx + 1)) h in
rows ← Py.ceil_div nt idisp;
Returned (State h lu lo ln (Np.zeros2 rows (nx + 1))).

Definition times (v : list R) (c : R) : list R := map (fun a => a * c) v.

(** The statements of one step up to the remapping; in [mu * D] the
    vector is broadcast along the rows. *)
Definition update (it : Z) (st : state) : outcome state :=
(* Space derivatives *)
muD ← Np.bmul_rows mu D;
du ← Np.matmul muD (load (heap st) (u st));
Ddu ← Np.matmul D du;
du ← Np.bdiv Ddu rho;
(* Time extrapolation *)
a ← Np.bsub (Np.scale 2 (load (heap st) (u st))) (load (heap st) (uold st));
unew ← Np.badd a (times du (dt ^ 2));
let '(ln, h) := alloc unew (heap st) in
(* Source injection *)
s ← Py.getitem src it;
g ← Np.bdiv (times (times sg s) (dt ^ 2)) rho;
unew ← Np.badd (load h ln) g;
let '(ln, h) := alloc unew h in
(* Remapping *)
Returned (State h ln (u st) ln (u_results st)).

(** [u[0] = 0; u[nx] = 0] *)
Definition boundaries (st : state) : outcome state :=
h ← store_setitem (heap st) (u st) 0 0;
h ← store_setitem h (u st) nx 0;
Returned (State h (u st) (uold st) (unew st) (u_results st)).

(** [if it % idisp == 0: u_results[it//idisp] = u] *)
Definition save (it : Z) (st : state) : outcome state :=
r ← PyInt.mod_ it idisp;
if (r =? 0)%Z
then row ← PyInt.floordiv it idisp;
     res ← Np.setrow (u_results st) row (load (heap st) (u st));
     Returned (State (heap st) (u st) (uold st) (unew st) res)
else Returned st.

Definition step (it : Z) (st : state) : outcome state :=
st ← update it st; st ← boundaries st; save it st.

Definition run (st : state) : outcome state := for_ (range 0 nt) step st.

End TimeLoop.
End Cheby.

(** ** Fourier pseudospectral method, acoustic 1D (W5_ps_fourier_acoustic_1d) *)

Module Fourier1D.
Section TimeLoop.

Local Open Scope R_scope.

Variables (nx nt idisp : Z) (c dt dx : R).
Variables (sg src : list R).
(** [fourier_derivative_2nd] goes through [np.fft]: it is a parameter
  here, a function that returns a new array or raises;
  [FourierDerivative.fourier_derivative_2nd] is the function of the
  notebook, with the transform as its parameter. *)
Variable fourier_derivative_2nd : list R -> R -> outcome (list R).

Record state : Type := State {
heap : store;
p : nat; pnew : nat; pold : nat; d2p : nat;
ap : nat; apnew : nat; apold : nat; ad2p : nat;
sp : nat; spnew : nat; spold : nat; sd2p : nat;
p_results : list (list R);
ap_results : list (list R);
sp_results : list (list R)
}.

(** [p = np.zeros(nx); pnew = p; pold = p; d2p = p; dp = p] and the like:
  every method starts from one array under all of its names. *)
Definition init : outcome state :=
let '(lp, h) := alloc (Np.zeros nx) (Store ∅ 0) in
let '(la, h) := alloc (Np.zeros nx) h in
let '(ls, h) := alloc (Np.zeros nx) h in
rows ← Py.ceil_div nt idisp;
Returned (State h lp lp lp lp la la la la ls ls ls ls
            (Np.zeros2 rows nx) (Np.zeros2 rows nx) (Np.zeros2 rows nx)).

Definition times (v : list R) (a : R) : list R := map (fun e => e * a) v.

(** [2*p - pold + k * d2p] *)
Definition extrapolate (k : R) (p pold d2p : list R) : outcome (list R) :=
a ← Np.bsub (Np.scale 2 p) pold; Np.badd a (Np.scale k d2p).

(** [sg*src[it]*dt**2] *)
Definition source (it : Z) : outcome (list R) :=
s ← Py.getitem src it; Returned (times (times sg s) (dt ^ 2)).

(** Fourier pseudospectral method. *)
Definition fourier (it : Z) (st : state) : outcome state :=
d ← fourier_derivative_2nd (load (heap st) (sp st)) dx;
let '(ld, h) := alloc d (heap st) in
a ← extrapolate (c ^ 2 * dt ^ 2)
      (load h (sp st)) (load h (spold st)) (load h ld);
let '(ln, h) := alloc a h in
s ← source it;
b ← Np.badd (load h ln) s;
let '(ln, h) := alloc b h in
let '(spold, sp) := (sp st, ln) in
h ← store_setitem h sp 1 0;
h ← store_setitem h sp (nx - 1) 0;
Returned (State h (p st) (pnew st) (pold st) (d2p st)
            (ap st) (apnew st) (apold st) (ad2p st)
            sp ln spold ld
            (p_results st) (ap_results st) (sp_results st)).

(** Finite differences, 3 points: the derivative is written into the
  array [d2p] designates. *)
Definition fd3 (it : Z) (st : state) : outcome state :=
h ← for_ (range 1 (nx - 1))
  (fun i h =>
     a ← Py.getitem (load h (p st)) (i + 1);
     b ← Py.getitem (load h (p st)) i;
     e ← Py.getitem (load h (p st)) (i - 1);
     store_setitem h (d2p st) i ((a - 2 * b + e) / dx ^ 2))
  (heap st);
a ← extrapolate (dt ^ 2 * c ^ 2)
      (load h (p st)) (load h (pold st)) (load h (d2p st));
let '(ln, h) := alloc a h in
s ← source it;
b ← Np.badd (load h ln) s;
let '(ln, h) := alloc b h in
let '(pold, p) := (p st, ln) in
h ← store_setitem h p 0 0;
h ← store_setitem h p (nx - 1) 0;
Returned (State h p ln pold (d2p st)
            (ap st) (apnew st) (apold st) (ad2p st)
            (sp st) (spnew st) (spold st) (sd2p st)
            (p_results st) (ap_results st) (sp_results st)).

(** Finite differences, 5 points. *)
Definition fd5 (it : Z) (st : state) : outcome state :=
h ← for_ (range 2 (nx - 2))
  (fun i h =>
     a ← Py.getitem (load h (ap st)) (i + 2);
     b ← Py.getitem (load h (ap st)) (i + 1);
     e ← Py.getitem (load h (ap st)) i;
     g ← Py.getitem (load h (ap st)) (i - 1);
     k ← Py.getitem (load h (ap st)) (i - 2);
     store_setitem h (ad2p st) i
       ((- 1 / 12 * a + 4 / 3 * b - 5 / 2 * e + 4 / 3 * g - 1 / 12 * k)
        / dx ^ 2))
  (heap st);
a ← extrapolate (dt ^ 2 * c ^ 2)
      (load h (ap st)) (load h (apold st)) (load h (ad2p st));
let '(ln, h) := alloc a h in
s ← source it;
b ← Np.badd (load h ln) s;
let '(ln, h) := alloc b h in
let '(apold, ap) := (ap st, ln) in
h ← store_setitem h ap 0 0;
h ← store_setitem h ap (nx - 1) 0;
Returned (State h (p st) (pnew st) (pold st) (d2p st)
            ap ln apold (ad2p st)
            (sp st) (spnew st) (spold st) (sd2p st)
            (p_results st) (ap_results st) (sp_results st)).

Definition save (it : Z) (st : state) : outcome state :=
r ← PyInt.mod_ it idisp;
if (r =? 0)%Z
then row ← PyInt.floordiv it idisp;
     pr ← Np.setrow (p_results st) row (load (heap st) (p st));
     row ← PyInt.floordiv it idisp;
     ar ← Np.setrow (ap_results st) row (load (heap st) (ap st));
     row ← PyInt.floordiv it idisp;
     sr ← Np.setrow (sp_results st) row (load (heap st) (sp st));
     Returned (State (heap st) (p st) (pnew st) (pold st) (d2p st)
                 (ap st) (apnew st) (apold st) (ad2p st)
                 (sp st) (spnew st) (spold st) (sd2p st) pr ar sr)
else Returned st.

Definition step (it : Z) (st : state) : outcome state :=
st ← fourier it st; st ← fd3 it st; st ← fd5 it st; save it st.

Definition run (st : state) : outcome state := for_ (range 0 nt) step st.

End TimeLoop.
End Fourier1D.

(** ** Closed forms of the assembled matrices

    What the assembly loops leave in every cell, written as functions of
    the position; the loops are proved to compute them. *)

Module FeClosed.

Local Open Scope R_scope.

(** The value the loop body assigns to [M[i,j]]. *)
Definition mass_value (ro h : list R) (i j : Z) : R :=
  if (j =? i)%Z then
    (Np.item ro (i - 1) * Np.item h (i - 1) + Np.item ro i * Np.item h i) / 3
  else if (j =? i + 1)%Z then Np.item ro i * Np.item h i / 6
  else if (j =? i - 1)%Z then Np.item ro (i - 1) * Np.item h (i - 1) / 6
  else 0.

Definition mass_entry (nx : Z) (ro h : list R) (x y : Z) : R :=
  if ((x =? nx - 1) && (y =? nx - 1))%Z
  then Np.item ro (nx - 1) * Np.item h (nx - 2) / 3
  else if ((x =? 0) && (y =? 0))%Z then Np.item ro 0 * Np.item h 0 / 3
  else if ((1 <=? x) && (x <? nx - 1) && (1 <=? y) && (y <? nx - 1))%Z
  then mass_value ro h x y
  else 0.

(** The value the loop body assigns to [K[i,j]]. *)
Definition stiffness_value (mu h : list R) (i j : Z) : R :=
  if (i =? j)%Z then
    Np.item mu (i - 1) / Np.item h (i - 1) + Np.item mu i / Np.item h i
  else if (i =? j + 1)%Z then - Np.item mu (i - 1) / Np.item h (i - 1)
  else if (i + 1 =? j)%Z then - Np.item mu i / Np.item h i
  else 0.

Definition stiffness_entry (nx : Z) (mu h : list R) (x y : Z) : R :=
  if ((x =? nx - 1) && (y =? nx - 1))%Z
  then Np.item mu (nx - 1) / Np.item h (nx - 2)
  else if ((x =? 0) && (y =? 0))%Z then Np.item mu 0 / Np.item h 0
  else if ((1 <=? x) && (x <? nx - 1) && (1 <=? y) && (y <? nx - 1))%Z
  then stiffness_value mu h x y
  else 0.

End FeClosed.

Module SeClosed.

Local Open Scope R_scope.

(** [s = 0; for k in range(a, b): s = s + g(k)] *)
Definition acc (a b : Z) (g : Z -> R) : R :=
  fold_left (fun s k => s + g k) (range a b) 0.

(** The global degrees of freedom of element [e]: the indices [i0 + i],
    [i] in [range(-1, N)], that the block loops run over. *)
Definition element_dofs (N e : Z) : list Z :=
  map (fun i => ((e - 1) * N + 1 + i)%Z) (range (-1) N).

Definition in_block (N e x y : Z) : bool :=
  (((e - 1) * N <=? x) && (x <=? e * N) &&
   ((e - 1) * N <=? y) && (y <=? e * N))%Z.

Section Hetero.

Variables (xmax : R) (N ne : Z) (mu w : list R) (l1d : list (list R)).

(** The term the innermost loop adds for the quadrature point [k+1]
    of the element that starts at grid point [xe]. *)
Definition hetero_term (xe a b k : Z) : R :=
  Np.item mu (k + 1 + xe) * Np.item w (k + 1) * SeHetero.Ji xmax ne ^ 2
  * SeHetero.J xmax ne * Np.entry l1d a (k + 1) * Np.entry l1d b (k + 1).

Definition hetero_Ke (xe a b : Z) : R := acc (-1) N (hetero_term xe a b).

(** What element [e] adds to the cell [(x, y)]. *)
Definition hetero_block (e x y : Z) : R :=
  if in_block N e x y
  then hetero_Ke ((e - 1) * N) (x - (e - 1) * N) (y - (e - 1) * N)
  else 0.

Definition hetero_K (x y : Z) : R :=
  acc 1 (ne + 1) (fun e => hetero_block e x y).

End Hetero.

Section Homo.

Variables (xmax vs rho : R) (N ne : Z) (w : list R) (l1d : list (list R)).

Definition homo_term (a b k : Z) : R :=
  SeHomo.mu vs rho * Np.item w k * SeHomo.Ji xmax ne
  * Np.entry l1d a k * Np.entry l1d b k.

Definition homo_Ke (a b : Z) : R := acc 0 (N + 1) (homo_term a b).

End Homo.

End SeClosed.

(** ** A grid of two points, for concrete runs *)

Module Sample.

Local Open Scope R_scope.

Definition Minv : list (list R) := [[1; 0]; [0; 1]].
Definition K : list (list R) := [[1; -1]; [-1; 1]].
Definition src : list R := [1].
(** The finite-difference matrices of the comparison, on two points. *)
Definition Mfd : list (list R) := [[1; 0]; [0; 1]].
Definition D : list (list R) := [[0; 0]; [0; 0]].

(** One zero array under all four names, as the loop starts. *)
Definition se_state : SeHomo.state :=
  SeHomo.State (Store (<[0%nat := [0; 0]]> ∅) 1) 0 0 0 0 [[0; 0]].

Definition fe_state : FeElastic.state :=
  FeElastic.State [0; 0] [0; 0] [0; 0] [0; 0] [0; 0] [0; 0]
    [[0; 0]] [[0; 0]].

(** Two elements of order one: the quadrature weights and the
    derivatives of the two Lagrange polynomials. *)
Definition w : list R := [1; 1].
Definition l1d : list (list R) := [[-1 / 2; -1 / 2]; [1 / 2; 1 / 2]].
Definition mu : list R := [1; 2; 3].

(** Three zero arrays of three numbers. *)
Definition three_arrays : store :=
  Store (<[2%nat := [0; 0; 0]]>
           (<[1%nat := [0; 0; 0]]> (<[0%nat := [0; 0; 0]]> ∅))) 3.

Definition cheby_state : Cheby.state :=
  Cheby.State three_arrays 0 2 1 [[0; 0; 0]].

Definition fourier_state : Fourier1D.state :=
  Fourier1D.State three_arrays 0 0 0 0 1 1 1 1 2 2 2 2
    [[0; 0; 0]] [[0; 0; 0]] [[0; 0; 0]].

(** The same on four grid points. *)
Definition four_arrays : store :=
  Store (<[2%nat := [0; 0; 0; 0]]>
           (<[1%nat := [0; 0; 0; 0]]> (<[0%nat := [0; 0; 0; 0]]> ∅))) 3.

Definition fourier_state4 : Fourier1D.state :=
  Fourier1D.State four_arrays 0 0 0 0 1 1 1 1 2 2 2 2
    [[0; 0; 0; 0]] [[0; 0; 0; 0]] [[0; 0; 0; 0]].

(** A spatial source on four by four grid points, with one point that
    is not zero. *)
Definition sg4 : list (list R) :=
  [[0; 0; 0; 0]; [0; 1; 0; 0]; [0; 0; 0; 0]; [0; 0; 0; 0]].

End Sample.

(** ** Closed form of the Chebyshev matrix entries *)

Module ChebyClosed.

Local Open Scope R_scope.

(** The value the double loop of [get_cheby_matrix] assigns to [D[i,j]]. *)
Definition entry_value (nx : Z) (cx x : list R) (i j : Z) : Cheby.fval :=
  if ((i =? j) && negb (i =? 0) && negb (i =? nx))%Z
  then Cheby.fdiv (- Np.item x i) (2 * (1 - Np.item x i * Np.item x i))
  else Cheby.fdiv (Np.item cx i * IZR ((-1) ^ (i + j)))
                  (Np.item cx j * (Np.item x i - Np.item x j)).

End ChebyClosed.

(** ** What a computation may raise *)

(** The computation returns, or it raises the exception [e]. *)
Definition raises_at_most (e : exn) {A : Type} (o : outcome A) : Prop :=
  match o with
  | Returned _ => True
  | Raised e' => e' = e
  end.

(** ** The Fourier derivative (W5_ps_fourier_acoustic_1d, and the 2D notebook) *)

Module FourierDerivative.

Local Open Scope R_scope.

(** [a[lo:hi]] for [0 <= lo <= hi <= len(a)]. *)
Definition slice (a : list R) (lo hi : Z) : list R :=
  take (Z.to_nat (hi - lo)) (drop (Z.to_nat lo) a).

(** [a[lo:hi] = v] for [0 <= lo <= hi <= len(a)]: [v] has the length of
    the slice, or one element that is broadcast; numpy refuses any other
    shape with a [ValueError]. *)
Definition setslice (a : list R) (lo hi : Z) (v : list R) : outcome (list R) :=
  let n := Z.to_nat (hi - lo) in
  if (length v =? n)%nat
  then Returned (take (Z.to_nat lo) a ++ v ++ drop (Z.to_nat hi) a)
  else match v with
       | [x] => Returned (take (Z.to_nat lo) a ++ replicate n x
                            ++ drop (Z.to_nat hi) a)
       | _ => Raised ValueError
       end.

(** The wavenumber vector [k] of [fourier_derivative_2nd], for a field
    of [nx] points; [dx] and [kmax] are Python floats, so both divisions
    raise on a zero divisor. *)
Definition wavenumbers (nx : Z) (dx : R) : outcome (list R) :=
  if Req_dec_T dx 0 then Raised ZeroDivisionError
  else
    let kmax := PI / dx in
    if (nx =? 0)%Z then Raised ZeroDivisionError
    else
      let dk := kmax / (IZR nx / 2) in
      let k := map IZR (range 0 nx) in
      let m := Z.quot nx 2 in
      k ← setslice k 0 m (map (fun e => e * dk) (slice k 0 m));
      k ← setslice k m nx (map (fun e => e - kmax) (slice k 0 m));
      Returned k.

Section Transform.

(** [filter m f] stands for [np.real(np.fft.ifft(m * np.fft.fft(f)))],
    the transforms being numpy's. *)
Variable filter : list R -> list R -> list R.

(** [(1j*k)**2] is [-k**2]. *)
Definition fourier_derivative_2nd (f : list R) (dx : R) : outcome (list R) :=
  k ← wavenumbers (Z.of_nat (length f)) dx;
  Returned (filter (map (fun e => - (e * e)) k) f).

End Transform.

End FourierDerivative.

(** ** The finite-difference matrices of the finite-element notebook
    (W7_fe_elastic_1d_solution, section 5) *)

Module FeFiniteDifference.

Local Open Scope R_scope.

(** [Mfd] and [D]; the loop fills [D] column by column. *)
Definition matrices (nx : Z) (ro h : list R) (ro0 vs : R)
  : outcome (list (list R) * list (list R)) :=
  dx ← Py.getitem h 1;
  MD ← for_ (range 0 nx)
    (fun i '(Mfd, D) =>
       r ← Py.getitem ro i;
       Mfd ← Py.setitem2 Mfd i i (1 / r);
       if (0 <? i)%Z then
         if (i <? nx - 1)%Z then
           D ← Py.setitem2 D (i + 1) i 1;
           D ← Py.setitem2 D (i - 1) i 1;
           D ← Py.setitem2 D i i (-2);
           Returned (Mfd, D)
         else Returned (Mfd, D)
       else Returned (Mfd, D))
    (Np.zeros2 nx nx, Np.zeros2 nx nx);
  (* D = ro0 * vs**2 * D/dx**2 *)
  Returned (fst MD,
            map (map (fun d => ro0 * vs ^ 2 * d / dx ^ 2)) (snd MD)).

(** The entries the loop leaves in [D]: the stencil in the columns
    [1 .. nx-2], nothing in the first and in the last column. *)
Definition stencil (nx x y : Z) : R :=
  if ((1 <=? y) && (y <? nx - 1))%Z
  then if (x =? y)%Z then -2
       else if ((x =? y + 1) || (x =? y - 1))%Z then 1 else 0
  else 0.

End FeFiniteDifference.

(** ** Static elasticity by relaxation (the finite-difference solution
    of the static-elasticity notebook) *)

Module StaticElasticity.
Section Relaxation.

Local Open Scope R_scope.

Variables (nx nt idisp : Z) (h mu : R).
(** [f] is the forcing vector. *)
Variable f : list R.

(** [u] is rebound to a new array in every iteration; [du] is one array
    written in place; the snapshots are copies. *)
Record state : Type := State {
u : list R;
du : list R;
u_results : list (list R)
}.

Definition times (v : list R) (c : R) : list R := map (fun a => a * c) v.
Definition over (v : list R) (c : R) : list R := map (fun a => a / c) v.

(** The body of the loop up to the boundary conditions. *)
Definition relax (st : state) : outcome state :=
(* Calculate the average of u (omit boundaries) *)
du ← for_ (range 1 (nx - 1))
  (fun i du =>
     a ← Py.getitem (u st) (i + 1);
     b ← Py.getitem (u st) (i - 1);
     Py.setitem du i (a + b))
  (du st);
let u := Np.scale (5 / 10) (Np.add (over (times f (h ^ 2)) mu) du) in
u ← Py.setitem u 0 (15 / 100);
u ← Py.setitem u (nx - 1) (5 / 100);
Returned (State u du (u_results st)).

(** [if it % idisp == 0: u_results[int(it/idisp)] = fd] *)
Definition save (it : Z) (st : state) : outcome state :=
r ← PyInt.mod_ it idisp;
if (r =? 0)%Z then
  row ← PyInt.int_truediv it idisp;
  res ← Np.setrow (u_results st) row (u st);
  Returned (State (u st) (du st) res)
else Returned st.

Definition step (it : Z) (st : state) : outcome state :=
st ← relax st; save it st.

Definition run (st : state) : outcome state := for_ (range 0 nt) step st.

End Relaxation.
End StaticElasticity.

(** ** The inverse of the lumped mass matrix (both spectral-element
    notebooks) *)

Module SeInverseMass.

Local Open Scope R_scope.

(** [np.identity(n)] *)
Definition identity (n : Z) : list (list R) :=
  map (fun i => map (fun j => if (i =? j)%Z then 1 else 0) (range 0 n))
      (range 0 n).

(** [Minv = np.identity(ng)] and the loop over its diagonal. *)
Definition Minv (ng : Z) (M : list R) : outcome (list (list R)) :=
  for_ (range 0 ng)
    (fun i Minv => m ← Py.getitem M i; Py.setitem2 Minv i i (1 / m))
    (identity ng).

End SeInverseMass.

(** The lumped mass the assembly accumulates at the grid point [x]. *)
Module MassClosed.

Local Open Scope R_scope.

(** The share of element [e]. *)
Definition share (N : Z) (Me : Z -> Z -> R) (e x : Z) : R :=
  if (((e - 1) * N <=? x) && (x <=? e * N))%Z
  then Me e (x - (e - 1) * N)%Z else 0.

Definition lumped (N ne : Z) (Me : Z -> Z -> R) (x : Z) : R :=
  SeClosed.acc 1 (ne + 1) (fun e => share N Me e x).

End MassClosed.

(** ** The grid of the spectral-element notebooks *)

Module SeGrid.

Local Open Scope R_scope.

(** The physical coordinates [xg] of the grid points; [xi] holds the
    GLL points of the reference element. *)
Definition xg (N ne : Z) (le : R) (xi : list R) : outcome (list R) :=
  xg ← Py.setitem (Np.zeros (N * ne + 1)) 0 0;
  s ← for_ (range 1 (ne + 1))
    (fun i => for_ (range 0 N)
       (fun j '(k, xg) =>
          let k := (k + 1)%Z in
          x ← Py.getitem xi (j + 1);
          xg ← Py.setitem xg k (IZR (i - 1) * le + 5 / 10 * (x + 1) * le);
          Returned (k, xg)))
    (0%Z, xg);
  Returned (snd s).

(** The coordinate the loops leave at the grid point [x]. *)
Definition node (N : Z) (le : R) (xi : list R) (x : Z) : R :=
  if (x =? 0)%Z then 0
  else IZR ((x - 1) / N) * le
       + 5 / 10 * (Np.item xi ((x - 1) mod N + 1) + 1) * le.

End SeGrid.

(** ** The global stiffness matrix as a sum of element blocks *)

Module StiffnessClosed.

Local Open Scope R_scope.

(** The block of element [e], whose elemental matrix is [Ke e], at the
    position [(x, y)] of the global matrix. *)
Definition block (N : Z) (Ke : Z -> Z -> Z -> R) (e x y : Z) : R :=
  if SeClosed.in_block N e x y
  then Ke e (x - (e - 1) * N)%Z (y - (e - 1) * N)%Z else 0.

(** The sum of the blocks of all elements. *)
Definition additive (N ne : Z) (Ke : Z -> Z -> Z -> R) (x y : Z) : R :=
  SeClosed.acc 1 (ne + 1) (fun e => block N Ke e x y).

(** The value [c] at the nodes [e*N] shared by the elements [e] and
    [e+1], for [a <= e < b]. *)
Definition corners (N : Z) (c : R) (a b x y : Z) : R :=
  SeClosed.acc a b (fun e => if ((x =? e * N) && (y =? e * N))%Z then c else 0).

End StiffnessClosed.

(** ** The low-velocity zone of the heterogeneous notebook
    (W9_se_hetero_1d_solution, section 2) *)

Module LowVelocityZone.

Local Open Scope R_scope.

(** A bound of a Python slice over an array of [len] items: a negative
    bound counts from the end, and the result is clipped to the array. *)
Definition bound (len i : Z) : Z :=
  if (i <? 0)%Z then Z.max (i + len) 0 else Z.min i len.

(** [a[lo:hi] = x] for a number [x]. *)
Definition setslice (a : list R) (lo hi : Z) (x : R) : list R :=
  let len := Z.of_nat (length a) in
  Cheby.fill a (bound len lo) (bound len hi) x.

(** [np.ones(n)] refuses a negative size. *)
Definition ones (n : Z) : outcome (list R) :=
  if (n <? 0)%Z then Raised ValueError
  else Returned (replicate (Z.to_nat n) 1).

(** The builtin [max] raises on an empty argument. *)
Definition max (a : list R) : outcome R :=
  match a with
  | [] => Raised ValueError
  | x :: l => Returned (fold_left Rmax l x)
  end.

(** The cell: [vs] and [rho] come in as numbers and leave as arrays,
    with [mu]. [int(np.floor(n/2))] rounds down, [int(a/2)] towards
    zero. *)
Definition zone (N ne el_span : Z) (percent vs rho : R)
  : outcome (list R * list R * list R) :=
  let a := (el_span * N + 1)%Z in
  let b := ((N * ne + 1) / 2)%Z in
  o ← ones (N * ne + 1);
  let vs := Np.scale vs o in
  o ← ones (N * ne + 1);
  let rho := Np.scale rho o in
  m ← max vs;
  let vs := setslice vs (b - Z.quot a 2) (b + Z.quot a 2) (m * percent) in
  let mu := Np.mul rho (map (fun v => v ^ 2) vs) in
  Returned (vs, rho, mu).

End LowVelocityZone.

(** ** Two-dimensional arrays, as the 2D Fourier notebook uses them

    A two-dimensional array is the list of its rows, all of one length;
    an array without rows has no width in this representation. *)

Module Np2.

Local Open Scope R_scope.

(** [[f(x) for x in l]], up to the first exception. *)
Fixpoint each {A B : Type} (f : A -> outcome B) (l : list A)
  : outcome (list B) :=
  match l with
  | [] => Returned []
  | x :: l' => y ← f x; ys ← each f l'; Returned (y :: ys)
  end.

(** [np.zeros((r, c))] and [np.zeros((n, r, c))]: a negative size is
    refused. *)
Definition zeros2 (r c : Z) : outcome (list (list R)) :=
  if ((r <? 0) || (c <? 0))%Z then Raised ValueError
  else Returned (Np.zeros2 r c).
Definition zeros3 (n r c : Z) : outcome (list (list (list R))) :=
  if ((n <? 0) || (r <? 0) || (c <? 0))%Z then Raised ValueError
  else Returned (replicate (Z.to_nat n) (Np.zeros2 r c)).

(** [m[:, j]] *)
Definition getcol (m : list (list R)) (j : Z) : outcome (list R) :=
  each (fun row => Py.getitem row j) m.

(** A one-dimensional value assigned to [n] places: it has [n] entries,
    or one entry that is repeated. *)
Definition fit (n : nat) (v : list R) : outcome (list R) :=
  if (length v =? n)%nat then Returned v
  else match v with
       | [x] => Returned (replicate n x)
       | _ => Raised ValueError
       end.

(** [m[:, j] = v]: the index is checked before the shape. *)
Definition setcol (m : list (list R)) (j : Z) (v : list R)
  : outcome (list (list R)) :=
  _ ← getcol m j;
  v ← fit (length m) v;
  each (fun '(row, x) => Py.setitem row j x) (zip m v).

(** An elementwise operator on two two-dimensional arrays, with numpy's
    broadcasting along both axes. *)
Definition broadcast2 (f : R -> R -> R) (a b : list (list R))
  : outcome (list (list R)) :=
  if (length a =? length b)%nat
  then each (fun '(u, v) => Np.broadcast f u v) (zip a b)
  else match a, b with
       | [u], _ => each (fun v => Np.broadcast f u v) b
       | _, [v] => each (fun u => Np.broadcast f u v) a
       | _, _ => Raised ValueError
       end.

(** [m * c] for a number [c]. *)
Definition times (m : list (list R)) (c : R) : list (list R) :=
  map (map (fun a => a * c)) m.

(** [a[lo:hi]], with Python's bounds, and the number of its items. *)
Definition slice {A : Type} (a : list A) (lo hi : Z) : list A :=
  let n := Z.of_nat (length a) in
  let lo := LowVelocityZone.bound n lo in
  let hi := LowVelocityZone.bound n hi in
  take (Z.to_nat (hi - lo)) (drop (Z.to_nat lo) a).
Definition slice_len (n lo hi : Z) : Z :=
  Z.max 0 (LowVelocityZone.bound n hi - LowVelocityZone.bound n lo).

(** [m[r0:r1, c0:c1]] *)
Definition block (m : list (list R)) (r0 r1 c0 c1 : Z) : list (list R) :=
  map (fun row => slice row c0 c1) (slice m r0 r1).

(** [m.T] for an array of [c] columns. *)
Definition transpose (c : Z) (m : list (list R)) : list (list R) :=
  map (fun j => map (fun row => Np.item row j) m) (range 0 c).

(** [-np.abs(m)] *)
Definition neg_abs (m : list (list R)) : list (list R) :=
  map (map (fun x => - Rabs x)) m.

(** A two-dimensional value assigned to a place of shape [(r, c)]. *)
Definition fit2 (r c : Z) (v : list (list R)) : outcome (list (list R)) :=
  rows ← each (fit (Z.to_nat c)) v;
  if (length rows =? Z.to_nat r)%nat then Returned rows
  else match rows with
       | [row] => Returned (replicate (Z.to_nat r) row)
       | _ => Raised ValueError
       end.

(** [res[k] = v] for a three-dimensional [res] whose entries have the
    shape [(r, c)]: the index is checked before the shape. *)
Definition setslot (res : list (list (list R))) (k r c : Z)
    (v : list (list R)) : outcome (list (list (list R))) :=
  _ ← Py.getitem res k;
  v ← fit2 r c v;
  Py.setitem res k v.

End Np2.

(** ** Fourier pseudospectral method, acoustic 2D (the notebook of
    src/unnamed/part_000) *)

Module Fourier2D.
Section TimeLoop.

Local Open Scope R_scope.

Variables (nx nt idisp : Z) (c dt dx : R).
(** [sg] is the spatial source, [src] the source time function. *)
Variables (sg : list (list R)) (src : list R).
(** [filter m f] stands for [np.real(np.fft.ifft(m * np.fft.fft(f)))]. *)
Variable filter : list R -> list R -> list R.

(** [nz = nx] *)
Definition nz : Z := nx.

(** No statement of the notebook writes into an array that has two
    names: the fields are rebound, the derivative arrays are written in
    place and have one name each.  The arrays are values here. *)
Record state : Type := State {
sp : list (list R); spold : list (list R); spnew : list (list R);
sd2px : list (list R); sd2pz : list (list R);
ap : list (list R); apold : list (list R); apnew : list (list R);
ad2px : list (list R); ad2pz : list (list R);
sp_sec : list (list R); ap_sec : list (list R);
ap_results : list (list (list R));
sp_results : list (list (list R))
}.

(** [-np.abs(sp[1:int(nx/2), 1:int(nz/2)])] and
    [-np.abs(ap[int(nx/2):nx, 1:int(nz/2)].T)] *)
Definition sp_section (sp : list (list R)) : list (list R) :=
  Np2.neg_abs (Np2.block sp 1 (Z.quot nx 2) 1 (Z.quot nz 2)).
Definition ap_section (ap : list (list R)) : list (list R) :=
  Np2.neg_abs
    (Np2.transpose (Np2.slice_len nz 1 (Z.quot nz 2))
       (Np2.block ap (Z.quot nx 2) nx 1 (Z.quot nz 2))).

(** The ten fields are ten arrays of zeros; the logs are allocated
    before the loop. *)
Definition init : outcome state :=
z ← Np2.zeros2 nx nz;
rows ← Py.ceil_div nt idisp;
apr ← Np2.zeros3 rows (Z.quot nx 2 - 1) (Z.quot nz 2);
spr ← Np2.zeros3 rows (nx - Z.quot nx 2 - 1) (Z.quot nz 2 - 1);
Returned (State z z z z z z z z z z (sp_section z) (ap_section z) apr spr).

Definition fder : list R -> R -> outcome (list R) :=
  FourierDerivative.fourier_derivative_2nd filter.

(** Fourier pseudospectral method. *)
Definition fourier (it : Z) (st : state) : outcome state :=
(* 2nd space derivative *)
sd2px ← for_ (range 0 nz)
  (fun j sd2px =>
     col ← Np2.getcol (sp st) j; d ← fder col dx; Np2.setcol sd2px j d)
  (sd2px st);
sd2pz ← for_ (range 0 nx)
  (fun i sd2pz =>
     row ← Py.getitem (sp st) i; d ← fder row dx; Np.setrow sd2pz i d)
  (sd2pz st);
(* Time Extrapolation *)
a ← Np2.broadcast2 Rminus (Np.scale2 2 (sp st)) (spold st);
b ← Np2.broadcast2 Rplus sd2px sd2pz;
spnew ← Np2.broadcast2 Rplus a (Np.scale2 (c ^ 2 * dt ^ 2) b);
(* Add sources *)
s ← Py.getitem src it;
spnew ← Np2.broadcast2 Rplus spnew (Np2.times (Np2.times sg s) (dt ^ 2));
(* Time levels *)
let '(spold, sp) := (sp st, spnew) in
Returned (State sp spold spnew sd2px sd2pz
            (ap st) (apold st) (apnew st) (ad2px st) (ad2pz st)
            (sp_sec st) (ap_sec st) (ap_results st) (sp_results st)).

(** The 5-point operator at index [i], on the rows or on the columns
    that [get] reads; the operands are read from left to right. *)
Definition stencil (get : Z -> outcome (list R)) (i : Z)
  : outcome (list R) :=
a ← get (i + 2)%Z;
b ← get (i + 1)%Z;
s ← Np.badd (Np.scale (-1 / 12) a) (Np.scale (4 / 3) b);
e ← get i;
s ← Np.bsub s (Np.scale (5 / 2) e);
g ← get (i - 1)%Z;
s ← Np.badd s (Np.scale (4 / 3) g);
k ← get (i - 2)%Z;
s ← Np.bsub s (Np.scale (1 / 12) k);
Returned (map (fun x => x / dx ^ 2) s).

(** Finite differences, 5 points. *)
Definition fd5 (it : Z) (st : state) : outcome state :=
ad2px ← for_ (range 2 (nz - 2))
  (fun i ad2px =>
     v ← stencil (Py.getitem (ap st)) i; Np.setrow ad2px i v)
  (ad2px st);
ad2pz ← for_ (range 2 (nx - 2))
  (fun i ad2pz =>
     v ← stencil (Np2.getcol (ap st)) i; Np2.setcol ad2pz i v)
  (ad2pz st);
(* Time Extrapolation *)
a ← Np2.broadcast2 Rminus (Np.scale2 2 (ap st)) (apold st);
b ← Np2.broadcast2 Rplus ad2px ad2pz;
apnew ← Np2.broadcast2 Rplus a (Np.scale2 (dt ^ 2 * c ^ 2) b);
(* Add source *)
s ← Py.getitem src it;
apnew ← Np2.broadcast2 Rplus apnew (Np2.times (Np2.times sg s) (dt ^ 2));
(* Time levels *)
let '(apold, ap) := (ap st, apnew) in
Returned (State (sp st) (spold st) (spnew st) (sd2px st) (sd2pz st)
            ap apold apnew ad2px ad2pz
            (sp_sec st) (ap_sec st) (ap_results st) (sp_results st)).

(** Select Sections for plotting *)
Definition sections (st : state) : state :=
State (sp st) (spold st) (spnew st) (sd2px st) (sd2pz st)
  (ap st) (apold st) (apnew st) (ad2px st) (ad2pz st)
  (sp_section (sp st)) (ap_section (ap st))
  (ap_results st) (sp_results st).

(** Save Results *)
Definition save (it : Z) (st : state) : outcome state :=
r ← PyInt.mod_ it idisp;
if (r =? 0)%Z then
  row ← PyInt.int_truediv it idisp;
  apr ← Np2.setslot (ap_results st) row
          (Z.quot nx 2 - 1) (Z.quot nz 2) (ap_sec st);
  row ← PyInt.int_truediv it idisp;
  spr ← Np2.setslot (sp_results st) row
          (nx - Z.quot nx 2 - 1) (Z.quot nz 2 - 1) (sp_sec st);
  Returned (State (sp st) (spold st) (spnew st) (sd2px st) (sd2pz st)
              (ap st) (apold st) (apnew st) (ad2px st) (ad2pz st)
              (sp_sec st) (ap_sec st) apr spr)
else Returned st.

Definition step (it : Z) (st : state) : outcome state :=
st ← fourier it st; st ← fd5 it st; save it (sections st).

Definition run (st : state) : outcome state := for_ (range 0 nt) step st.

(** The invariant of the loop: the fields and the derivative arrays that
    the loop reads have [nx] rows and [nz] columns, both logs have [rows]
    entries. *)
Definition ready (rows : Z) (st : state) : Prop :=
Py.shape2 nx nz (sp st) /\ Py.shape2 nx nz (spold st) /\
Py.shape2 nx nz (sd2px st) /\ Py.shape2 nx nz (sd2pz st) /\
Py.shape2 nx nz (ap st) /\ Py.shape2 nx nz (apold st) /\
Py.shape2 nx nz (ad2px st) /\ Py.shape2 nx nz (ad2pz st) /\
Z.of_nat (length (ap_results st)) = rows /\
Z.of_nat (length (sp_results st)) = rows.

End TimeLoop.
End Fourier2D.

(** * Properties *)

(** ** Outcomes, ranges and loops *)

Lemma bind_Returned {A B : Type} (a : A) (k : A -> outcome B) :
  (Returned a ≫= k) = k a.
Proof. reflexivity. Qed.

Lemma bind_inv {A B : Type} (m : outcome A) (k : A -> outcome B) (b : B) :
  (m ≫= k) = Returned b -> exists a, m = Returned a /\ k a = Returned b.
Proof. destruct m as [a|e]; [eauto | discriminate]. Qed.

Lemma range_nil (a b : Z) : (b <= a)%Z -> range a b = [].
Proof. intros H. unfold range. replace (Z.to_nat (b - a)) with 0%nat by lia. done. Qed.

Lemma range_cons (a b : Z) : (a < b)%Z -> range a b = a :: range (a + 1) b.
Proof.
  intros H. unfold range.
  replace (Z.to_nat (b - a)) with (S (Z.to_nat (b - (a + 1)))) by lia.
  cbn [seq map]. f_equal; [lia|].
  rewrite <- seq_shift, map_map. apply map_ext. intros k. lia.
Qed.

Lemma range_snoc (a b : Z) : (a <= b)%Z -> range a (b + 1) = range a b ++ [b].
Proof.
  intros H. unfold range.
  replace (Z.to_nat (b + 1 - a)) with (Z.to_nat (b - a) + 1)%nat by lia.
  rewrite seq_app, map_app. cbn [seq map]. do 2 f_equal. lia.
Qed.

Lemma range_app (a b c : Z) :
  (a <= b <= c)%Z -> range a c = range a b ++ range b c.
Proof.
  intros H. unfold range.
  replace (Z.to_nat (c - a)) with (Z.to_nat (b - a) + Z.to_nat (c - b))%nat by lia.
  rewrite seq_app, map_app. f_equal. cbn [Nat.add].
  generalize (Z.to_nat (c - b)). intros n.
  rewrite <- (Nat.add_0_r (Z.to_nat (b - a))) at 1.
  generalize 0%nat. induction n as [|n IH]; intros k; cbn; [done|].
  f_equal; [lia|]. rewrite <- IH. f_equal. f_equal. lia.
Qed.

Lemma elem_of_range (a b i : Z) : i ∈ range a b <-> (a <= i < b)%Z.
Proof.
  unfold range. rewrite list_elem_of_fmap. split.
  - intros (k & -> & Hk). apply elem_of_seq in Hk. lia.
  - intros Hi. exists (Z.to_nat (i - a)). split; [lia|]. apply elem_of_seq. lia.
Qed.

Lemma length_range (a b : Z) : length (range a b) = Z.to_nat (b - a).
Proof. unfold range. by rewrite length_map, length_seq. Qed.

Lemma for_app {I S : Type} (l1 l2 : list I) (body : I -> S -> outcome S) (s : S) :
  for_ (l1 ++ l2) body s = (for_ l1 body s ≫= for_ l2 body).
Proof.
  revert s. induction l1 as [|i l1 IH]; intros s; cbn; [done|].
  destruct (body i s) as [s'|e]; cbn; [apply IH | done].
Qed.

(** The rule of the [for] loop over a range: an invariant that holds
    before the loop and that every iteration carries one index further
    holds at the end, and the loop returns. *)
Lemma for_range_inv {S : Type} (P : Z -> S -> Prop) (a b : Z)
    (body : Z -> S -> outcome S) (s : S) :
  (a <= b)%Z ->
  P a s ->
  (forall i s, (a <= i < b)%Z -> P i s ->
     exists s', body i s = Returned s' /\ P (i + 1)%Z s') ->
  exists s', for_ (range a b) body s = Returned s' /\ P b s'.
Proof.
  intros Hab. remember (Z.to_nat (b - a)) as n eqn:Hn.
  revert a s Hab Hn. induction n as [|n IH]; intros a s Hab Hn HP Hstep.
  - assert (a = b) as -> by lia. rewrite range_nil by lia. eauto.
  - rewrite range_cons by lia. cbn [for_].
    destruct (Hstep a s) as (s1 & -> & HP1); [lia | done |].
    rewrite bind_Returned. apply IH; [lia | lia | done |].
    intros i s2 Hi. apply Hstep. lia.
Qed.

(** ** Indexing *)

Lemma index_nonneg (n : nat) (i : Z) :
  (0 <= i < Z.of_nat n)%Z -> Py.index n i = Returned (Z.to_nat i).
Proof.
  intros H. unfold Py.index.
  destruct (Z.leb_spec 0 i), (Z.ltb_spec i (Z.of_nat n)); cbn; (done || lia).
Qed.

Lemma index_negative (n : nat) (i : Z) :
  (- Z.of_nat n <= i < 0)%Z ->
  Py.index n i = Returned (Z.to_nat (Z.of_nat n + i)).
Proof.
  intros H. unfold Py.index.
  destruct (Z.leb_spec 0 i); [lia|]. cbn.
  destruct (Z.leb_spec (- Z.of_nat n) i), (Z.ltb_spec i 0); cbn; (done || lia).
Qed.

Lemma index_lt (n : nat) (i : Z) (k : nat) :
  Py.index n i = Returned k -> (k < n)%nat.
Proof.
  unfold Py.index.
  destruct (Z.leb_spec 0 i), (Z.ltb_spec i (Z.of_nat n)); cbn;
    try (intros [= <-]; lia);
    destruct (Z.leb_spec (- Z.of_nat n) i), (Z.ltb_spec i 0); cbn;
    try (intros [= <-]; lia); discriminate.
Qed.

Lemma getitem_nonneg {A : Type} (a : list A) (i : Z) (v : A) :
  (0 <= i)%Z -> a !! Z.to_nat i = Some v -> Py.getitem a i = Returned v.
Proof.
  intros Hi Hv. unfold Py.getitem.
  rewrite index_nonneg by (apply lookup_lt_Some in Hv; lia).
  rewrite bind_Returned. by rewrite Hv.
Qed.

Lemma getitem_item (a : list R) (i : Z) :
  (0 <= i < Z.of_nat (length a))%Z -> Py.getitem a i = Returned (Np.item a i).
Proof.
  intros Hi. destruct (lookup_lt_is_Some_2 a (Z.to_nat i)) as [v Hv]; [lia|].
  rewrite (getitem_nonneg a i v) by (done || lia).
  unfold Np.item. destruct (Z.leb_spec 0 i); [|lia]. by rewrite Hv.
Qed.

Lemma setitem_nonneg {A : Type} (a : list A) (i : Z) (v : A) :
  (0 <= i < Z.of_nat (length a))%Z ->
  Py.setitem a i v = Returned (<[Z.to_nat i := v]> a).
Proof. intros Hi. unfold Py.setitem. by rewrite index_nonneg. Qed.

Lemma setitem_length {A : Type} (a a' : list A) (i : Z) (v : A) :
  Py.setitem a i v = Returned a' -> length a' = length a.
Proof.
  unfold Py.setitem. intros H. apply bind_inv in H as (k & _ & [= <-]).
  apply length_insert.
Qed.

Lemma item_insert (a : list R) (i x : Z) (v : R) :
  (0 <= i < Z.of_nat (length a))%Z ->
  Np.item (<[Z.to_nat i := v]> a) x = if (x =? i)%Z then v else Np.item a x.
Proof.
  intros Hi. unfold Np.item.
  destruct (Z.eqb_spec x i) as [->|Hne].
  - destruct (Z.leb_spec 0 i); [|lia]. rewrite list_lookup_insert_eq by lia. done.
  - destruct (Z.leb_spec 0 x); [|done].
    rewrite list_lookup_insert_ne by lia. done.
Qed.

Lemma item_zeros (n x : Z) : Np.item (Np.zeros n) x = 0%R.
Proof.
  unfold Np.item, Np.zeros. destruct (Z.leb_spec 0 x); [|done].
  destruct (replicate (Z.to_nat n) 0%R !! Z.to_nat x) as [v|] eqn:E; [|done].
  apply lookup_replicate in E as [-> _]. done.
Qed.

Lemma length_zeros (n : Z) : length (Np.zeros n) = Z.to_nat n.
Proof. apply length_replicate. Qed.

Lemma item_outside (a : list R) (x : Z) :
  (x < 0 \/ Z.of_nat (length a) <= x)%Z -> Np.item a x = 0%R.
Proof.
  intros H. unfold Np.item. destruct (Z.leb_spec 0 x); [|done].
  rewrite lookup_ge_None_2 by lia. done.
Qed.

(** ** Two-dimensional arrays *)

Lemma shape2_row {A : Type} (r c : Z) (m : list (list A)) (k : nat) (row : list A) :
  Py.shape2 r c m -> m !! k = Some row -> Z.of_nat (length row) = c.
Proof.
  intros [_ Hrows] Hk. rewrite Forall_forall in Hrows.
  apply Hrows, list_elem_of_lookup. eauto.
Qed.

Lemma shape2_replicate {A : Type} (r c : Z) (v : A) :
  (0 <= r)%Z -> (0 <= c)%Z ->
  Py.shape2 r c (replicate (Z.to_nat r) (replicate (Z.to_nat c) v)).
Proof.
  intros Hr Hc. split.
  - rewrite length_replicate. lia.
  - apply Forall_forall. intros row Hrow.
    apply elem_of_replicate in Hrow as [-> _].
    rewrite length_replicate. lia.
Qed.

Lemma cell_replicate {A : Type} (r c x y : Z) (v : A) :
  (0 <= x < r)%Z -> (0 <= y < c)%Z ->
  Py.cell (replicate (Z.to_nat r) (replicate (Z.to_nat c) v)) x y = Some v.
Proof.
  intros Hx Hy. unfold Py.cell.
  destruct (Z.leb_spec 0 x), (Z.leb_spec 0 y); try lia. cbn.
  rewrite lookup_replicate_2 by lia. cbn. by rewrite lookup_replicate_2 by lia.
Qed.

Lemma cell_inside {A : Type} (r c : Z) (m : list (list A)) (x y : Z) :
  Py.shape2 r c m -> (0 <= x < r)%Z -> (0 <= y < c)%Z ->
  is_Some (Py.cell m x y).
Proof.
  intros Hm Hx Hy. unfold Py.cell.
  destruct (Z.leb_spec 0 x), (Z.leb_spec 0 y); try lia. cbn.
  destruct (lookup_lt_is_Some_2 m (Z.to_nat x)) as [row Hrow];
    [destruct Hm; lia|].
  rewrite Hrow. cbn. apply lookup_lt_is_Some_2.
  apply (shape2_row r c m) in Hrow; [lia | done].
Qed.

Lemma cell_outside {A : Type} (r c : Z) (m : list (list A)) (x y : Z) :
  Py.shape2 r c m -> ~ ((0 <= x < r)%Z /\ (0 <= y < c)%Z) ->
  Py.cell m x y = None.
Proof.
  intros Hm Hxy. unfold Py.cell.
  destruct (Z.leb_spec 0 x), (Z.leb_spec 0 y); cbn; try done.
  destruct (m !! Z.to_nat x) as [row|] eqn:Hrow; cbn; [|done].
  apply lookup_ge_None_2.
  pose proof (lookup_lt_Some _ _ _ Hrow).
  apply (shape2_row r c m) in Hrow; [|done]. destruct Hm. lia.
Qed.

Lemma getitem2_cell {A : Type} (r c : Z) (m : list (list A)) (i j : Z) (v : A) :
  Py.cell m i j = Some v -> Py.getitem2 m i j = Returned v.
Proof.
  unfold Py.cell, Py.getitem2.
  destruct (Z.leb_spec 0 i), (Z.leb_spec 0 j); cbn; try done.
  destruct (m !! Z.to_nat i) as [row|] eqn:Hrow; cbn; [|done].
  intros Hv. rewrite (getitem_nonneg m i row) by done.
  rewrite bind_Returned. by apply getitem_nonneg.
Qed.

(** An assignment inside of the array returns, keeps the shape, and
    changes the one cell. *)
Lemma setitem2_cell {A : Type} (r c : Z) (m : list (list A)) (i j : Z) (v : A) :
  Py.shape2 r c m -> (0 <= i < r)%Z -> (0 <= j < c)%Z ->
  exists m', Py.setitem2 m i j v = Returned m' /\ Py.shape2 r c m' /\
    forall x y, Py.cell m' x y =
                if ((x =? i) && (y =? j))%Z then Some v else Py.cell m x y.
Proof.
  intros Hm Hi Hj. pose proof Hm as [Hlen Hrows].
  destruct (lookup_lt_is_Some_2 m (Z.to_nat i)) as [row Hrow]; [lia|].
  pose proof (shape2_row r c m _ _ Hm Hrow) as Hrl.
  exists (<[Z.to_nat i := <[Z.to_nat j := v]> row]> m). split; [|split].
  - unfold Py.setitem2. rewrite (getitem_nonneg m i row) by (done || lia).
    rewrite bind_Returned, setitem_nonneg by lia.
    rewrite bind_Returned. apply setitem_nonneg. lia.
  - split; [rewrite length_insert; lia|].
    apply Forall_insert; [done|]. rewrite length_insert. lia.
  - intros x y. unfold Py.cell.
    destruct (Z.leb_spec 0 x), (Z.leb_spec 0 y); cbn.
    + destruct (Z.eqb_spec x i) as [->|Hx]; cbn.
      * rewrite list_lookup_insert_eq by lia. cbn.
        destruct (Z.eqb_spec y j) as [->|Hy].
        -- rewrite list_lookup_insert_eq by lia. done.
        -- rewrite list_lookup_insert_ne by lia. by rewrite Hrow.
      * rewrite list_lookup_insert_ne by lia. done.
    + destruct (Z.eqb_spec y j); [lia|]. by rewrite andb_false_r.
    + destruct (Z.eqb_spec x i); [lia|]. done.
    + destruct (Z.eqb_spec x i); [lia|]. done.
Qed.

Lemma entry_outside (r c : Z) (m : list (list R)) (x y : Z) :
  Py.shape2 r c m -> ~ ((0 <= x < r)%Z /\ (0 <= y < c)%Z) ->
  Np.entry m x y = 0%R.
Proof. intros Hm Hxy. unfold Np.entry. by rewrite (cell_outside r c). Qed.

Lemma getitem2_entry (r c : Z) (m : list (list R)) (i j : Z) :
  Py.shape2 r c m -> (0 <= i < r)%Z -> (0 <= j < c)%Z ->
  Py.getitem2 m i j = Returned (Np.entry m i j).
Proof.
  intros Hm Hi Hj. destruct (cell_inside r c m i j Hm Hi Hj) as [v Hv].
  unfold Np.entry. rewrite Hv. by apply (getitem2_cell r c).
Qed.

Lemma setitem2_entry (r c : Z) (m : list (list R)) (i j : Z) (v : R) :
  Py.shape2 r c m -> (0 <= i < r)%Z -> (0 <= j < c)%Z ->
  exists m', Py.setitem2 m i j v = Returned m' /\ Py.shape2 r c m' /\
    forall x y, Np.entry m' x y =
                if ((x =? i) && (y =? j))%Z then v else Np.entry m x y.
Proof.
  intros Hm Hi Hj.
  destruct (setitem2_cell r c m i j v Hm Hi Hj) as (m' & E & Hs & Hc).
  exists m'. split; [done|]. split; [done|].
  intros x y. unfold Np.entry. rewrite Hc.
  by destruct ((x =? i) && (y =? j))%Z.
Qed.

Lemma shape2_zeros2 (r c : Z) :
  (0 <= r)%Z -> (0 <= c)%Z -> Py.shape2 r c (Np.zeros2 r c).
Proof. apply shape2_replicate. Qed.

Lemma entry_zeros2 (r c x y : Z) : Np.entry (Np.zeros2 r c) x y = 0%R.
Proof.
  unfold Np.entry, Py.cell, Np.zeros2, Np.zeros.
  destruct ((0 <=? x) && (0 <=? y))%Z; [|done].
  destruct (replicate (Z.to_nat r) _ !! Z.to_nat x) as [row|] eqn:E; [|done].
  apply lookup_replicate in E as [-> _]. cbn.
  destruct (replicate (Z.to_nat c) _ !! Z.to_nat y) as [v|] eqn:E; [|done].
  apply lookup_replicate in E as [-> _]. done.
Qed.

(** ** The store *)

Lemma load_alloc_new (a : list R) (h : store) :
  load (snd (alloc a h)) (fst (alloc a h)) = a.
Proof. unfold load, alloc. cbn. by rewrite lookup_insert_eq. Qed.

Lemma load_alloc_old (a : list R) (h : store) (l : nat) :
  l <> next h -> load (snd (alloc a h)) l = load h l.
Proof. intros H. unfold load, alloc. cbn. by rewrite lookup_insert_ne. Qed.

Lemma next_alloc (a : list R) (h : store) : next (snd (alloc a h)) = S (next h).
Proof. reflexivity. Qed.

(** A write through a reference changes the object of that reference and
    of no other. *)
Lemma store_setitem_spec (h : store) (l : nat) (i : Z) (v : R) (k : nat) :
  Py.index (length (load h l)) i = Returned k ->
  exists h', store_setitem h l i v = Returned h' /\
    next h' = next h /\
    load h' l = <[k := v]> (load h l) /\
    forall l', l' <> l -> load h' l' = load h l'.
Proof.
  intros Hk. unfold store_setitem, Py.setitem. rewrite Hk, !bind_Returned.
  eexists. split; [done|]. split; [done|]. split.
  - unfold load at 1. cbn. by rewrite lookup_insert_eq.
  - intros l' Hl'. unfold load. cbn. by rewrite lookup_insert_ne.
Qed.

(** ** Vectors *)

Lemma length_add (u v : list R) :
  length (Np.add u v) = Nat.min (length u) (length v).
Proof. apply length_zip_with. Qed.

Lemma length_sub (u v : list R) :
  length (Np.sub u v) = Nat.min (length u) (length v).
Proof. apply length_zip_with. Qed.

Lemma length_scale (c : R) (v : list R) : length (Np.scale c v) = length v.
Proof. apply length_map. Qed.

Lemma length_matvec (m : list (list R)) (v : list R) :
  length (Np.matvec m v) = length m.
Proof. apply length_map. Qed.

Lemma length_scale2 (c : R) (m : list (list R)) : length (Np.scale2 c m) = length m.
Proof. apply length_map. Qed.

Lemma sum_scale (c : R) (v : list R) :
  Np.sum (Np.scale c v) = (c * Np.sum v)%R.
Proof.
  induction v as [|a v IH]; cbn; [lra|].
  unfold Np.scale, Np.sum in IH. rewrite IH. lra.
Qed.

Lemma mul_scale_l (c : R) (r v : list R) :
  Np.mul (Np.scale c r) v = Np.scale c (Np.mul r v).
Proof.
  revert v. induction r as [|a r IH]; intros [|b v]; cbn; try done.
  f_equal; [lra | apply IH].
Qed.

Lemma dot_scale_l (c : R) (r v : list R) :
  Np.dot (Np.scale c r) v = (c * Np.dot r v)%R.
Proof. unfold Np.dot. by rewrite mul_scale_l, sum_scale. Qed.

(** Scaling the matrix and scaling the product agree. *)
Lemma matvec_scale2 (c : R) (m : list (list R)) (v : list R) :
  Np.matvec (Np.scale2 c m) v = Np.scale c (Np.matvec m v).
Proof.
  unfold Np.matvec, Np.scale2, Np.scale. rewrite !map_map.
  apply map_ext. intros r. apply dot_scale_l.
Qed.

(** On operands of one length the checked operators return the values
    of the plain ones. *)
Lemma broadcast_same (f : R -> R -> R) (u v : list R) :
  length u = length v -> Np.broadcast f u v = Returned (zip_with f u v).
Proof. intros H. unfold Np.broadcast. by rewrite H, Nat.eqb_refl. Qed.

Lemma badd_same (u v : list R) :
  length u = length v -> Np.badd u v = Returned (Np.add u v).
Proof. apply broadcast_same. Qed.

Lemma bsub_same (u v : list R) :
  length u = length v -> Np.bsub u v = Returned (Np.sub u v).
Proof. apply broadcast_same. Qed.

Lemma bmul_same (u v : list R) :
  length u = length v -> Np.bmul u v = Returned (Np.mul u v).
Proof. apply broadcast_same. Qed.

Lemma bdiv_same (u v : list R) :
  length u = length v -> Np.bdiv u v = Returned (Np.div u v).
Proof. apply broadcast_same. Qed.

Lemma matmul_shape (r c : Z) (m : list (list R)) (v : list R) :
  Py.shape2 r c m -> Z.of_nat (length v) = c ->
  Np.matmul m v = Returned (Np.matvec m v).
Proof.
  intros [_ Hrows] Hv. unfold Np.matmul.
  replace (forallb _ m) with true; [done|].
  symmetry. apply forallb_forall. intros row Hin.
  apply Nat.eqb_eq. rewrite Forall_forall in Hrows.
  apply list_elem_of_In in Hin. specialize (Hrows _ Hin). lia.
Qed.

Lemma shape2_scale2 (r c : Z) (k : R) (m : list (list R)) :
  Py.shape2 r c m -> Py.shape2 r c (Np.scale2 k m).
Proof.
  intros [Hl Hrows]. split; [by rewrite length_scale2|].
  unfold Np.scale2. apply Forall_fmap. eapply Forall_impl; [exact Hrows|].
  intros row Hrow. cbn. by rewrite length_scale.
Qed.

Lemma bmul_rows_shape (r c : Z) (v : list R) (m : list (list R)) :
  Py.shape2 r c m -> Z.of_nat (length v) = c ->
  exists m', Np.bmul_rows v m = Returned m' /\ Py.shape2 r c m'.
Proof.
  intros [Hl Hrows] Hv. revert r Hl.
  induction Hrows as [|row m Hrow Hrows IH]; intros r Hl.
  - exists []. split; [done|]. split; [done | constructor].
  - destruct (IH (r - 1)%Z) as (m' & E & Hl' & Hr'); [cbn in Hl; lia|].
    unfold Np.bmul_rows in *. cbn [Np.rowwise].
    rewrite bmul_same by lia. rewrite bind_Returned, E, bind_Returned.
    eexists. split; [done|]. split; [cbn in *; lia|].
    constructor; [|done]. unfold Np.mul. rewrite length_zip_with. lia.
Qed.

Lemma length_next_field (n : Z) (dt : R) (Minv K : list (list R))
    (f u uold : list R) :
  Py.shape2 n n Minv -> Z.of_nat (length u) = n -> Z.of_nat (length uold) = n ->
  Z.of_nat (length (Leapfrog.next_field dt Minv K f u uold)) = n.
Proof.
  intros [HM _] Hu Ho. unfold Leapfrog.next_field.
  rewrite length_sub, length_add, !length_scale, length_matvec. lia.
Qed.

(** On a grid of [n] points, with matrices of [n] rows and columns, the
    extrapolation returns, and its value is the update as the
    specification words it. *)
Lemma extrapolate_next_field (n : Z) (dt : R) (Minv K : list (list R))
    (f u uold : list R) :
  Py.shape2 n n Minv -> Py.shape2 n n K ->
  Z.of_nat (length f) = n -> Z.of_nat (length u) = n ->
  Z.of_nat (length uold) = n ->
  Leapfrog.extrapolate dt Minv K f u uold =
  Returned (Leapfrog.next_field dt Minv K f u uold).
Proof.
  intros HM HK Hf Hu Ho. unfold Leapfrog.extrapolate, Leapfrog.next_field.
  pose proof HM as [HMl _]. pose proof HK as [HKl _].
  rewrite (matmul_shape n n K u) by done. rewrite bind_Returned.
  rewrite bsub_same by (rewrite length_matvec; lia). rewrite bind_Returned.
  rewrite (matmul_shape n n (Np.scale2 (dt ^ 2) Minv));
    [| by apply shape2_scale2 | rewrite length_sub, length_matvec; lia].
  rewrite bind_Returned.
  rewrite badd_same
    by (rewrite length_matvec, length_scale2, length_scale; lia).
  rewrite bind_Returned.
  rewrite bsub_same
    by (rewrite length_add, length_matvec, length_scale2, length_scale; lia).
  by rewrite matvec_scale2.
Qed.

(** ** The time loop of the spectral-element notebooks *)

Lemma getitem_python {A : Type} (a : list A) (i : Z) :
  (- Z.of_nat (length a) <= i < Z.of_nat (length a))%Z ->
  exists v,
    a !! (if (i <? 0)%Z then Z.to_nat (Z.of_nat (length a) + i) else Z.to_nat i)
      = Some v /\
    Py.getitem a i = Returned v.
Proof.
  intros Hi. unfold Py.getitem. destruct (Z.ltb_spec i 0).
  - destruct (lookup_lt_is_Some_2 a (Z.to_nat (Z.of_nat (length a) + i)))
      as [v Hv]; [lia|].
    exists v. split; [done|]. rewrite index_negative by lia.
    rewrite bind_Returned. by rewrite Hv.
  - destruct (lookup_lt_is_Some_2 a (Z.to_nat i)) as [v Hv]; [lia|].
    exists v. split; [done|]. rewrite index_nonneg by lia.
    rewrite bind_Returned. by rewrite Hv.
Qed.

(** Where [f[isrc-1]] lands: [isrc] is [0] on a grid of one point, and
    the index [-1] is then the last (and only) point. *)
Lemma isrc_index (N ne : Z) :
  (1 <= SeHomo.ng N ne)%Z ->
  Py.index (length (Np.zeros (SeHomo.ng N ne))) (SeHomo.isrc N ne - 1) =
  Returned (Z.to_nat (if (SeHomo.isrc N ne =? 0)%Z
                      then SeHomo.ng N ne - 1 else SeHomo.isrc N ne - 1)).
Proof.
  intros Hng. rewrite length_zeros. unfold SeHomo.isrc.
  set (ng := SeHomo.ng N ne) in *.
  assert (0 <= ng / 2 /\ ng / 2 < ng)%Z as [H1 H2].
  { split; [apply Z.div_pos; lia | apply Z.div_lt_upper_bound; lia]. }
  destruct (Z.eqb_spec (ng / 2) 0) as [E|E].
  - rewrite E. rewrite index_negative by lia. f_equal. lia.
  - apply index_nonneg. lia.
Qed.

(** The source statements of one step: a fresh array for [f], the other
    names and objects untouched. *)
Lemma source_frame (N ne : Z) (src : list R) (it : Z) (st : SeHomo.state) :
  (1 <= SeHomo.ng N ne)%Z -> (0 <= it)%Z ->
  exists st', SeHomo.source N ne src it st = Returned st' /\
    SeHomo.f st' = next (SeHomo.heap st) /\
    next (SeHomo.heap st') = S (next (SeHomo.heap st)) /\
    length (load (SeHomo.heap st') (SeHomo.f st')) = Z.to_nat (SeHomo.ng N ne) /\
    (forall l, l <> next (SeHomo.heap st) ->
       load (SeHomo.heap st') l = load (SeHomo.heap st) l) /\
    SeHomo.u st' = SeHomo.u st /\ SeHomo.uold st' = SeHomo.uold st /\
    SeHomo.unew st' = SeHomo.unew st /\
    SeHomo.u_results st' = SeHomo.u_results st.
Proof.
  intros Hng Hit. unfold SeHomo.source.
  destruct (alloc (Np.zeros (SeHomo.ng N ne)) (SeHomo.heap st)) as [lf h] eqn:Ea.
  assert (lf = next (SeHomo.heap st)) as Hlf by (by inversion Ea).
  assert (h = snd (alloc (Np.zeros (SeHomo.ng N ne)) (SeHomo.heap st))) as Hh
    by (by rewrite Ea).
  assert (load h lf = Np.zeros (SeHomo.ng N ne)) as Hload.
  { rewrite Hh, Hlf. apply (load_alloc_new _ (SeHomo.heap st)). }
  destruct (Z.ltb_spec it (Z.of_nat (length src))) as [Hlt|Hge].
  - destruct (getitem_python src (it - 1)) as (a & _ & ->); [lia|].
    rewrite bind_Returned.
    destruct (store_setitem_spec h lf (SeHomo.isrc N ne - 1) a _
                ltac:(rewrite Hload; by apply isrc_index))
      as (h' & -> & Hn & Hl & Hframe).
    rewrite bind_Returned. eexists. split; [done|]. cbn.
    split; [done|]. split; [by rewrite Hn, Hh|]. split.
    { rewrite Hl, length_insert, Hload. apply length_zeros. }
    split; [|done].
    intros l Hne. rewrite Hframe by congruence. rewrite Hh.
    by apply load_alloc_old.
  - rewrite bind_Returned. eexists. split; [done|]. cbn.
    split; [done|]. split; [by rewrite Hh|]. split.
    { rewrite Hload. apply length_zeros. }
    split; [|done].
    intros l Hne. rewrite Hh. by apply load_alloc_old.
Qed.

(** C9. In the spectral-element time loops the force vector of step [it]
    (with [it < len(src)]) is zero but for the entry [isrc-1], which
    holds [src[it-1]] read as Python reads it: the sample before the
    step's own and, at the first step ([it = 0]), the last element of the
    source array. *)
Theorem source_injects_previous_sample
    (N ne : Z) (src : list R) (it : Z) (st : SeHomo.state) :
  (1 <= SeHomo.ng N ne)%Z ->
  (0 <= it < Z.of_nat (length src))%Z ->
  exists a st',
    src !! (if (it =? 0)%Z then pred (length src) else Z.to_nat (it - 1))
      = Some a /\
    (it = 0%Z -> last src = Some a) /\
    SeHomo.source N ne src it st = Returned st' /\
    load (SeHomo.heap st') (SeHomo.f st') =
      <[Z.to_nat (if (SeHomo.isrc N ne =? 0)%Z
                  then SeHomo.ng N ne - 1 else SeHomo.isrc N ne - 1) := a]>
        (Np.zeros (SeHomo.ng N ne)).
Proof.
  intros Hng Hit.
  destruct (getitem_python src (it - 1)) as (a & Ha & Hget); [lia|].
  assert (src !! (if (it =? 0)%Z then pred (length src) else Z.to_nat (it - 1))
          = Some a) as Ha'.
  { destruct (Z.eqb_spec it 0) as [->|Hne].
    - destruct (Z.ltb_spec (0 - 1) 0); [|lia]. rewrite <- Ha. f_equal. lia.
    - destruct (Z.ltb_spec (it - 1) 0); [lia | done]. }
  exists a. unfold SeHomo.source.
  destruct (alloc (Np.zeros (SeHomo.ng N ne)) (SeHomo.heap st)) as [lf h] eqn:Ea.
  assert (load h lf = Np.zeros (SeHomo.ng N ne)) as Hload.
  { replace lf with (fst (alloc (Np.zeros (SeHomo.ng N ne)) (SeHomo.heap st)))
      by (by rewrite Ea).
    replace h with (snd (alloc (Np.zeros (SeHomo.ng N ne)) (SeHomo.heap st)))
      by (by rewrite Ea).
    apply load_alloc_new. }
  destruct (Z.ltb_spec it (Z.of_nat (length src))); [|lia].
  rewrite Hget, bind_Returned.
  destruct (store_setitem_spec h lf (SeHomo.isrc N ne - 1) a _
              ltac:(rewrite Hload; by apply isrc_index))
    as (h' & -> & _ & Hl & _).
  rewrite bind_Returned. eexists. split; [done|]. split.
  { intros ->. rewrite last_lookup. exact Ha'. }
  split; [done|]. cbn. by rewrite Hl, Hload.
Qed.

Lemma source_injects_previous_sample_witness :
  exists a st',
    [5; 7]%R !! 1%nat = Some a /\
    (0%Z = 0%Z -> last [5; 7]%R = Some a) /\
    SeHomo.source 1 2 [5; 7]%R 0 (SeHomo.State (Store ∅ 0) 0 0 0 0 []) =
      Returned st' /\
    load (SeHomo.heap st') (SeHomo.f st') =
      <[0%nat := a]> (Np.zeros (SeHomo.ng 1 2)).
Proof.
  apply (source_injects_previous_sample 1 2 [5; 7]%R 0
           (SeHomo.State (Store ∅ 0) 0 0 0 0 [])).
  - vm_compute. discriminate.
  - cbn. lia.
Defined.

Lemma setrow_spec (r c : Z) (m : list (list R)) (k : Z) (v : list R) :
  Py.shape2 r c m -> (0 <= k < r)%Z -> Z.of_nat (length v) = c ->
  Np.setrow m k v = Returned (<[Z.to_nat k := v]> m) /\
  Py.shape2 r c (<[Z.to_nat k := v]> m).
Proof.
  intros Hm Hk Hv. pose proof Hm as [Hlen Hrows].
  destruct (lookup_lt_is_Some_2 m (Z.to_nat k)) as [row Hrow]; [lia|].
  pose proof (shape2_row r c m _ _ Hm Hrow) as Hrl. split.
  - unfold Np.setrow. rewrite (getitem_nonneg m k row) by (done || lia).
    rewrite bind_Returned.
    replace (length v =? length row)%nat with true
      by (symmetry; apply Nat.eqb_eq; lia).
    apply setitem_nonneg. lia.
  - split; [rewrite length_insert; lia|]. by apply Forall_insert.
Qed.

(** The snapshot statement of the spectral-element loops. *)
Lemma se_save_spec (idisp it rows cols : Z) (st : SeHomo.state) :
  (0 < idisp)%Z -> (0 <= it)%Z -> (it / idisp < rows)%Z ->
  Py.shape2 rows cols (SeHomo.u_results st) ->
  Z.of_nat (length (load (SeHomo.heap st) (SeHomo.u st))) = cols ->
  SeHomo.save idisp it st =
  Returned (SeHomo.State (SeHomo.heap st) (SeHomo.u st) (SeHomo.uold st)
              (SeHomo.unew st) (SeHomo.f st)
              (if (it mod idisp =? 0)%Z
               then <[Z.to_nat (it / idisp) :=
                        load (SeHomo.heap st) (SeHomo.u st)]>
                      (SeHomo.u_results st)
               else SeHomo.u_results st)).
Proof.
  intros Hd Hit Hrow Hshape Hlen. unfold SeHomo.save, PyInt.mod_, PyInt.int_truediv.
  destruct (Z.eqb_spec idisp 0); [lia|]. rewrite bind_Returned.
  destruct (Z.eqb_spec (it mod idisp) 0); [|by destruct st].
  rewrite bind_Returned, Z.quot_div_nonneg by lia.
  destruct (setrow_spec rows cols (SeHomo.u_results st) (it / idisp)
              (load (SeHomo.heap st) (SeHomo.u st))) as [-> _];
    [done | split; [apply Z.div_pos; lia | done] | done |].
  by rewrite bind_Returned.
Qed.

(** The extrapolation statements: the new field, and the rotation of
    the names. *)
Lemma se_extrapolation_spec (n : Z) (dt : R) (Minv K : list (list R))
    (st : SeHomo.state) :
  Py.shape2 n n Minv -> Py.shape2 n n K ->
  Z.of_nat (length (load (SeHomo.heap st) (SeHomo.f st))) = n ->
  Z.of_nat (length (load (SeHomo.heap st) (SeHomo.u st))) = n ->
  Z.of_nat (length (load (SeHomo.heap st) (SeHomo.uold st))) = n ->
  SeHomo.u st <> next (SeHomo.heap st) ->
  exists st', SeHomo.extrapolation dt Minv K st = Returned st' /\
    load (SeHomo.heap st') (SeHomo.u st') =
      Leapfrog.next_field dt Minv K
        (load (SeHomo.heap st) (SeHomo.f st))
        (load (SeHomo.heap st) (SeHomo.u st))
        (load (SeHomo.heap st) (SeHomo.uold st)) /\
    SeHomo.uold st' = SeHomo.u st /\
    load (SeHomo.heap st') (SeHomo.uold st') = load (SeHomo.heap st) (SeHomo.u st) /\
    SeHomo.unew st' = SeHomo.u st' /\
    SeHomo.u st' = next (SeHomo.heap st) /\
    next (SeHomo.heap st') = S (next (SeHomo.heap st)) /\
    SeHomo.u_results st' = SeHomo.u_results st /\
    (forall l, l <> next (SeHomo.heap st) ->
       load (SeHomo.heap st') l = load (SeHomo.heap st) l).
Proof.
  intros HM HK Hf Hlu Hlo Hu. unfold SeHomo.extrapolation.
  rewrite (extrapolate_next_field n) by done. rewrite bind_Returned.
  set (a := Leapfrog.next_field _ _ _ _ _ _).
  destruct (alloc a (SeHomo.heap st)) as [ln h] eqn:Ea.
  assert (ln = fst (alloc a (SeHomo.heap st))) as Hln by (by rewrite Ea).
  assert (h = snd (alloc a (SeHomo.heap st))) as Hh by (by rewrite Ea).
  eexists. split; [done|]. cbn.
  split; [by rewrite Hln, Hh, load_alloc_new|]. split; [done|].
  split; [rewrite Hh; by apply load_alloc_old|]. split; [done|].
  split; [by rewrite Hln|]. split; [by rewrite Hh|]. split; [done|].
  intros l Hl. rewrite Hh. by apply load_alloc_old.
Qed.

(** The update statements of the finite-element loop, on a grid of [n]
    points. *)
Lemma fe_update_spec (n : Z) (dt dx : R) (src f : list R)
    (Minv K Mfd D : list (list R)) (it : Z) (st : FeElastic.state) :
  (0 <= it < Z.of_nat (length src))%Z ->
  Py.shape2 n n Minv -> Py.shape2 n n K ->
  Py.shape2 n n Mfd -> Py.shape2 n n D ->
  Z.of_nat (length f) = n ->
  Z.of_nat (length (FeElastic.u st)) = n ->
  Z.of_nat (length (FeElastic.uold st)) = n ->
  Z.of_nat (length (FeElastic.p st)) = n ->
  Z.of_nat (length (FeElastic.pold st)) = n ->
  exists s st',
    src !! Z.to_nat it = Some s /\
    FeElastic.update dt dx src f Minv K Mfd D it st = Returned st' /\
    FeElastic.u st' =
      Leapfrog.next_field dt Minv K (FeElastic.times f s)
        (FeElastic.u st) (FeElastic.uold st) /\
    FeElastic.uold st' = FeElastic.u st /\
    FeElastic.unew st' = FeElastic.u st' /\
    Z.of_nat (length (FeElastic.u st')) = n /\
    Z.of_nat (length (FeElastic.p st')) = n /\
    FeElastic.pold st' = FeElastic.p st /\
    FeElastic.u_results st' = FeElastic.u_results st /\
    FeElastic.p_results st' = FeElastic.p_results st.
Proof.
  intros Hit HM HK HMfd HD Hf Hu Ho Hp Hpo.
  destruct (lookup_lt_is_Some_2 src (Z.to_nat it)) as [s Hs]; [lia|].
  exists s. unfold FeElastic.update.
  rewrite (getitem_nonneg src it s) by (done || lia).
  pose proof HMfd as [HMfdl _]. pose proof HD as [HDl _].
  assert (length (FeElastic.times f s) = length f) as Lt
    by (unfold FeElastic.times; apply length_map).
  eexists. split; [done|]. split.
  { rewrite !bind_Returned.
    rewrite (extrapolate_next_field n) by (done || lia).
    rewrite !bind_Returned.
    rewrite (matmul_shape n n D) by done. rewrite !bind_Returned.
    rewrite badd_same
      by (unfold FeElastic.times, FeElastic.over;
          rewrite !length_map, length_matvec; lia).
    rewrite !bind_Returned.
    rewrite (matmul_shape n n (Np.scale2 (dt ^ 2) Mfd));
      [| by apply shape2_scale2
       | unfold FeElastic.times, FeElastic.over;
         rewrite length_add, !length_map, length_matvec; lia].
    rewrite !bind_Returned.
    rewrite badd_same
      by (rewrite length_matvec, length_scale2, length_scale; lia).
    rewrite !bind_Returned.
    rewrite bsub_same
      by (rewrite length_add, length_matvec, length_scale2, length_scale; lia).
    rewrite !bind_Returned. reflexivity. }
  cbn.
  split; [done|]. split; [done|]. split; [done|].
  split; [apply length_next_field; (done || lia)|].
  split; [|done].
  rewrite length_sub, length_add, length_matvec, length_scale2, length_scale.
  lia.
Qed.

(** The statements of one spectral-element step up to the rotation. *)
Lemma se_advance_spec (N ne : Z) (dt : R) (src : list R)
    (Minv K : list (list R)) (it : Z) (st : SeHomo.state) :
  (1 <= SeHomo.ng N ne)%Z -> (0 <= it)%Z ->
  Py.shape2 (SeHomo.ng N ne) (SeHomo.ng N ne) Minv ->
  Py.shape2 (SeHomo.ng N ne) (SeHomo.ng N ne) K ->
  (SeHomo.u st < next (SeHomo.heap st))%nat ->
  (SeHomo.uold st < next (SeHomo.heap st))%nat ->
  Z.of_nat (length (load (SeHomo.heap st) (SeHomo.u st))) = SeHomo.ng N ne ->
  Z.of_nat (length (load (SeHomo.heap st) (SeHomo.uold st))) = SeHomo.ng N ne ->
  exists s1 st', SeHomo.source N ne src it st = Returned s1 /\
    SeHomo.extrapolation dt Minv K s1 = Returned st' /\
    load (SeHomo.heap st') (SeHomo.u st') =
      Leapfrog.next_field dt Minv K
        (load (SeHomo.heap s1) (SeHomo.f s1))
        (load (SeHomo.heap st) (SeHomo.u st))
        (load (SeHomo.heap st) (SeHomo.uold st)) /\
    SeHomo.uold st' = SeHomo.u st /\
    load (SeHomo.heap st') (SeHomo.uold st') =
      load (SeHomo.heap st) (SeHomo.u st) /\
    SeHomo.unew st' = SeHomo.u st' /\
    SeHomo.u st' = S (next (SeHomo.heap st)) /\
    next (SeHomo.heap st') = S (S (next (SeHomo.heap st))) /\
    SeHomo.u_results st' = SeHomo.u_results st /\
    Z.of_nat (length (load (SeHomo.heap st') (SeHomo.u st'))) = SeHomo.ng N ne /\
    (forall l, (l < next (SeHomo.heap st))%nat ->
       load (SeHomo.heap st') l = load (SeHomo.heap st) l).
Proof.
  intros Hng Hit HM HK Hu Hold Hlu Hlo.
  destruct (source_frame N ne src it st Hng Hit)
    as (s1 & Hs & Hf & Hn & Hfl & Hframe & Hu1 & Ho1 & Hn1 & Hr1).
  assert (load (SeHomo.heap s1) (SeHomo.u s1) =
          load (SeHomo.heap st) (SeHomo.u st)) as Eu
    by (rewrite Hu1; apply Hframe; lia).
  assert (load (SeHomo.heap s1) (SeHomo.uold s1) =
          load (SeHomo.heap st) (SeHomo.uold st)) as Eo
    by (rewrite Ho1; apply Hframe; lia).
  destruct (se_extrapolation_spec (SeHomo.ng N ne) dt Minv K s1)
    as (st' & E & H1 & H2 & H3 & H4 & H5 & H6 & H7 & H8);
    [done | done | lia | by rewrite Eu | by rewrite Eo | rewrite Hu1, Hn; lia |].
  exists s1, st'. split; [done|]. split; [done|].
  split; [by rewrite H1, Eu, Eo|]. split; [by rewrite H2|].
  split; [by rewrite H3|]. split; [done|].
  split; [by rewrite H5, Hn|]. split; [by rewrite H6, Hn|].
  split; [by rewrite H7|]. split.
  - rewrite H1. apply length_next_field; [done | by rewrite Eu | by rewrite Eo].
  - intros l Hl. rewrite H8 by lia. apply Hframe. lia.
Qed.

(** C1. Every step of the time loops of the spectral-element notebooks
    (homogeneous and heterogeneous) and of the finite-element notebook
    computes the new field as dt² times the inverse mass matrix applied
    to (the source vector of the step minus the stiffness matrix applied
    to the current field), plus twice the current field, minus the
    previous field; afterwards the previous field is the former current
    field and the current field is the new one.  The matrices are square
    and of the size of the grid, the fields have one entry per grid
    point: on operands of other shapes numpy raises. *)
Theorem leapfrog_update_and_rotation
    (N ne idisp rows nx : Z) (dt dx : R) (src src_fe f_fe : list R)
    (Minv K Minv_fe K_fe Mfd D : list (list R)) (it jt : Z)
    (st : SeHomo.state) (x_t : list nat) (fe : FeElastic.state) :
  (1 <= SeHomo.ng N ne)%Z ->
  (0 <= it)%Z ->
  (SeHomo.u st < next (SeHomo.heap st))%nat ->
  (SeHomo.uold st < next (SeHomo.heap st))%nat ->
  (0 < idisp)%Z -> (it / idisp < rows)%Z ->
  Py.shape2 rows (N * ne + 1) (SeHomo.u_results st) ->
  Py.shape2 (SeHomo.ng N ne) (SeHomo.ng N ne) Minv ->
  Py.shape2 (SeHomo.ng N ne) (SeHomo.ng N ne) K ->
  Z.of_nat (length (load (SeHomo.heap st) (SeHomo.u st))) = SeHomo.ng N ne ->
  Z.of_nat (length (load (SeHomo.heap st) (SeHomo.uold st))) = SeHomo.ng N ne ->
  (0 <= jt < Z.of_nat (length src_fe))%Z ->
  Py.shape2 nx nx Minv_fe -> Py.shape2 nx nx K_fe ->
  Py.shape2 nx nx Mfd -> Py.shape2 nx nx D ->
  Z.of_nat (length f_fe) = nx ->
  Z.of_nat (length (FeElastic.u fe)) = nx ->
  Z.of_nat (length (FeElastic.uold fe)) = nx ->
  Z.of_nat (length (FeElastic.p fe)) = nx ->
  Z.of_nat (length (FeElastic.pold fe)) = nx ->
  (* spectral elements, homogeneous *)
  (exists s1 st', SeHomo.source N ne src it st = Returned s1 /\
     SeHomo.extrapolation dt Minv K s1 = Returned st' /\
     load (SeHomo.heap st') (SeHomo.u st') =
       Leapfrog.next_field dt Minv K
         (load (SeHomo.heap s1) (SeHomo.f s1))
         (load (SeHomo.heap st) (SeHomo.u st))
         (load (SeHomo.heap st) (SeHomo.uold st)) /\
     SeHomo.uold st' = SeHomo.u st /\
     load (SeHomo.heap st') (SeHomo.uold st') =
       load (SeHomo.heap st) (SeHomo.u st) /\
     SeHomo.unew st' = SeHomo.u st') /\
  (* spectral elements, heterogeneous *)
  (exists s1 st', SeHomo.source N ne src it st = Returned s1 /\
     SeHetero.step N ne idisp dt src Minv K it (SeHetero.State st x_t)
       = Returned st' /\
     load (SeHomo.heap (SeHetero.se st')) (SeHomo.u (SeHetero.se st')) =
       Leapfrog.next_field dt Minv K
         (load (SeHomo.heap s1) (SeHomo.f s1))
         (load (SeHomo.heap st) (SeHomo.u st))
         (load (SeHomo.heap st) (SeHomo.uold st)) /\
     SeHomo.uold (SeHetero.se st') = SeHomo.u st /\
     load (SeHomo.heap (SeHetero.se st')) (SeHomo.uold (SeHetero.se st')) =
       load (SeHomo.heap st) (SeHomo.u st) /\
     SeHomo.unew (SeHetero.se st') = SeHomo.u (SeHetero.se st')) /\
  (* finite elements *)
  (exists s st',
     src_fe !! Z.to_nat jt = Some s /\
     FeElastic.update dt dx src_fe f_fe Minv_fe K_fe Mfd D jt fe = Returned st' /\
     FeElastic.u st' =
       Leapfrog.next_field dt Minv_fe K_fe (FeElastic.times f_fe s)
         (FeElastic.u fe) (FeElastic.uold fe) /\
     FeElastic.uold st' = FeElastic.u fe /\
     FeElastic.unew st' = FeElastic.u st').
Proof.
  intros Hng Hit Hu Hold Hd Hrow Hshape HM HK Hlu Hlo Hjt
    HMfe HKfe HMfd HD Hf Hfu Hfo Hfp Hfpo.
  destruct (se_advance_spec N ne dt src Minv K it st Hng Hit HM HK Hu Hold
              Hlu Hlo)
    as (s1 & st' & Hs & He & H1 & H2 & H3 & H4 & H5 & H6 & H7 & H8 & H9).
  split; [by exists s1, st'|]. split.
  - exists s1. unfold SeHetero.step. cbn [SeHetero.se SeHetero.x_t].
    rewrite Hs, bind_Returned, He, bind_Returned.
    rewrite (se_save_spec idisp it rows (N * ne + 1) st'); try done.
    + rewrite bind_Returned. eexists. split; [done|]. split; [done|]. by cbn.
    + by rewrite H7.
    + rewrite H8. unfold SeHomo.ng. lia.
  - destruct (fe_update_spec nx dt dx src_fe f_fe Minv_fe K_fe Mfd D jt fe)
      as (s & fe' & A & B & C & D' & E & _); try done.
    by exists s, fe'.
Qed.

Lemma leapfrog_update_and_rotation_witness :
  (exists s1 st', SeHomo.source 1 1 Sample.src 0 Sample.se_state = Returned s1 /\
     SeHomo.extrapolation 1 Sample.Minv Sample.K s1 = Returned st' /\
     load (SeHomo.heap st') (SeHomo.u st') =
       Leapfrog.next_field 1 Sample.Minv Sample.K
         (load (SeHomo.heap s1) (SeHomo.f s1))
         (load (SeHomo.heap Sample.se_state) (SeHomo.u Sample.se_state))
         (load (SeHomo.heap Sample.se_state) (SeHomo.uold Sample.se_state)) /\
     SeHomo.uold st' = SeHomo.u Sample.se_state /\
     load (SeHomo.heap st') (SeHomo.uold st') =
       load (SeHomo.heap Sample.se_state) (SeHomo.u Sample.se_state) /\
     SeHomo.unew st' = SeHomo.u st') /\
  (exists s1 st', SeHomo.source 1 1 Sample.src 0 Sample.se_state = Returned s1 /\
     SeHetero.step 1 1 1 1 Sample.src Sample.Minv Sample.K 0
       (SeHetero.State Sample.se_state []) = Returned st' /\
     load (SeHomo.heap (SeHetero.se st')) (SeHomo.u (SeHetero.se st')) =
       Leapfrog.next_field 1 Sample.Minv Sample.K
         (load (SeHomo.heap s1) (SeHomo.f s1))
         (load (SeHomo.heap Sample.se_state) (SeHomo.u Sample.se_state))
         (load (SeHomo.heap Sample.se_state) (SeHomo.uold Sample.se_state)) /\
     SeHomo.uold (SeHetero.se st') = SeHomo.u Sample.se_state /\
     load (SeHomo.heap (SeHetero.se st')) (SeHomo.uold (SeHetero.se st')) =
       load (SeHomo.heap Sample.se_state) (SeHomo.u Sample.se_state) /\
     SeHomo.unew (SeHetero.se st') = SeHomo.u (SeHetero.se st')) /\
  (exists s st',
     Sample.src !! Z.to_nat 0 = Some s /\
     FeElastic.update 1 1 Sample.src [0; 1]%R Sample.Minv Sample.K
       Sample.Mfd Sample.D 0 Sample.fe_state = Returned st' /\
     FeElastic.u st' =
       Leapfrog.next_field 1 Sample.Minv Sample.K (FeElastic.times [0; 1]%R s)
         (FeElastic.u Sample.fe_state) (FeElastic.uold Sample.fe_state) /\
     FeElastic.uold st' = FeElastic.u Sample.fe_state /\
     FeElastic.unew st' = FeElastic.u st').
Proof.
  apply (leapfrog_update_and_rotation 1 1 1 1 2 1 1 Sample.src Sample.src
           [0; 1]%R Sample.Minv Sample.K Sample.Minv Sample.K
           Sample.Mfd Sample.D 0 0 Sample.se_state [] Sample.fe_state).
  - unfold SeHomo.ng. lia.
  - lia.
  - cbn. lia.
  - cbn. lia.
  - lia.
  - reflexivity.
  - split; [reflexivity|]. repeat constructor.
  - split; [reflexivity|]. repeat constructor.
  - split; [reflexivity|]. repeat constructor.
  - reflexivity.
  - reflexivity.
  - cbn. lia.
  - split; [reflexivity|]. repeat constructor.
  - split; [reflexivity|]. repeat constructor.
  - split; [reflexivity|]. repeat constructor.
  - split; [reflexivity|]. repeat constructor.
  - reflexivity.
  - reflexivity.
  - reflexivity.
  - reflexivity.
  - reflexivity.
Defined.

(** ** The snapshot log *)

Lemma ceil_div_gt (it nt d : Z) :
  (0 < d)%Z -> (0 <= it < nt)%Z -> (it / d < - (- nt / d))%Z.
Proof.
  intros Hd Hit.
  assert (- nt / d < - (it / d))%Z; [|lia].
  apply Z.div_lt_upper_bound; [done|].
  pose proof (Z.mul_div_le it d Hd). lia.
Qed.

Lemma ceil_div_row (k nt d : Z) :
  (0 < d)%Z -> (0 <= k < - (- nt / d))%Z -> (0 <= k * d < nt)%Z.
Proof.
  intros Hd Hk. split; [lia|].
  assert (- nt / d < - k)%Z as H by lia.
  destruct (Z.lt_ge_cases (k * d) nt) as [|Hge]; [done|exfalso].
  assert (- k <= - nt / d)%Z; [|lia].
  apply Z.div_le_lower_bound; lia.
Qed.

Lemma stride_rows_differ (it i d : Z) :
  (0 < d)%Z -> (it mod d = 0)%Z -> (i mod d = 0)%Z -> (0 <= it < i)%Z ->
  (it / d < i / d)%Z.
Proof.
  intros Hd H1 H2 Hlt.
  pose proof (Z.div_mod it d ltac:(lia)). pose proof (Z.div_mod i d ltac:(lia)).
  nia.
Qed.

(** One step of the loop: it returns, keeps the invariant, and writes
    the log at the row of its index when the index is a multiple of the
    stride, and leaves the log alone otherwise. *)
Lemma se_step_spec (N ne nt idisp : Z) (dt : R) (src : list R)
    (Minv K : list (list R)) (it : Z) (st : SeHomo.state) :
  (1 <= SeHomo.ng N ne)%Z -> (0 < idisp)%Z -> (0 <= it < nt)%Z ->
  Py.shape2 (SeHomo.ng N ne) (SeHomo.ng N ne) Minv ->
  Py.shape2 (SeHomo.ng N ne) (SeHomo.ng N ne) K ->
  SeHomo.ready N ne (- (- nt / idisp)) st ->
  exists st', SeHomo.step N ne idisp dt src Minv K it st = Returned st' /\
    SeHomo.ready N ne (- (- nt / idisp)) st' /\
    SeHomo.u_results st' =
      (if (it mod idisp =? 0)%Z
       then <[Z.to_nat (it / idisp) := load (SeHomo.heap st') (SeHomo.u st')]>
              (SeHomo.u_results st)
       else SeHomo.u_results st).
Proof.
  intros Hng Hd Hit HM HK (Hu & Hold & Hlu & Hlo & Hshape).
  destruct (se_advance_spec N ne dt src Minv K it st Hng ltac:(lia) HM HK
              Hu Hold Hlu Hlo)
    as (s1 & st' & Hs & He & H1 & H2 & H3 & H4 & H5 & H6 & H7 & H8 & H9).
  unfold SeHomo.step. rewrite Hs, bind_Returned, He, bind_Returned.
  rewrite (se_save_spec idisp it (- (- nt / idisp)) (N * ne + 1) st').
  - eexists. split; [done|]. cbn. split; [|by rewrite H7].
    unfold SeHomo.ready. cbn.
    split; [lia|]. split; [lia|]. split; [done|]. split.
    + by rewrite H3.
    + rewrite H7. destruct (it mod idisp =? 0)%Z; [|done].
      destruct Hshape as [Hl Hrows]. split; [rewrite length_insert; lia|].
      apply Forall_insert; [done|]. rewrite H8. unfold SeHomo.ng. lia.
  - done.
  - lia.
  - apply ceil_div_gt; lia.
  - by rewrite H7.
  - rewrite H8. unfold SeHomo.ng. lia.
Qed.

Lemma se_source_results (N ne : Z) (src : list R) (it : Z) (st s1 : SeHomo.state) :
  SeHomo.source N ne src it st = Returned s1 ->
  SeHomo.u_results s1 = SeHomo.u_results st.
Proof.
  unfold SeHomo.source.
  destruct (alloc (Np.zeros (SeHomo.ng N ne)) (SeHomo.heap st)) as [lf h].
  intros H. apply bind_inv in H as (h' & _ & [= <-]). done.
Qed.

Lemma se_extrapolation_results (dt : R) (Minv K : list (list R))
    (st st' : SeHomo.state) :
  SeHomo.extrapolation dt Minv K st = Returned st' ->
  SeHomo.u_results st' = SeHomo.u_results st.
Proof.
  unfold SeHomo.extrapolation. intros H.
  apply bind_inv in H as (a & _ & H).
  destruct (alloc a (SeHomo.heap st)) as [ln h]. by inversion H.
Qed.

(** A stretch of the loop: it returns, keeps the invariant, and leaves
    alone every row of the log that none of its steps writes. *)
Lemma se_run_segment (N ne nt idisp : Z) (dt : R) (src : list R)
    (Minv K : list (list R)) (a b : Z) (s : SeHomo.state) (r : nat) :
  (1 <= SeHomo.ng N ne)%Z -> (0 < idisp)%Z -> (0 <= a <= b)%Z -> (b <= nt)%Z ->
  Py.shape2 (SeHomo.ng N ne) (SeHomo.ng N ne) Minv ->
  Py.shape2 (SeHomo.ng N ne) (SeHomo.ng N ne) K ->
  SeHomo.ready N ne (- (- nt / idisp)) s ->
  (forall i, (a <= i < b)%Z -> (i mod idisp = 0)%Z -> Z.to_nat (i / idisp) <> r) ->
  exists s', for_ (range a b) (SeHomo.step N ne idisp dt src Minv K) s
             = Returned s' /\
    SeHomo.ready N ne (- (- nt / idisp)) s' /\
    SeHomo.u_results s' !! r = SeHomo.u_results s !! r.
Proof.
  intros Hng Hd Hab Hb HM HK Hready Hr.
  destruct (for_range_inv
              (fun _ s' => SeHomo.ready N ne (- (- nt / idisp)) s' /\
                           SeHomo.u_results s' !! r = SeHomo.u_results s !! r)
              a b (SeHomo.step N ne idisp dt src Minv K) s) as (s' & E & H);
    [lia | done | | by exists s'].
  intros i s1 Hi [Hr1 Hrow].
  destruct (se_step_spec N ne nt idisp dt src Minv K i s1) as (s2 & E & Hr2 & Hres);
    [done | done | lia | done | done | done |].
  exists s2. split; [done|]. split; [done|]. rewrite Hres, <- Hrow.
  destruct (Z.eqb_spec (i mod idisp) 0) as [Hm|]; [|done].
  apply list_lookup_insert_ne. by apply Hr.
Qed.

Lemma se_init_ready (N ne nt idisp : Z) :
  (1 <= SeHomo.ng N ne)%Z -> (0 <= nt)%Z -> (0 < idisp)%Z ->
  exists st0, SeHomo.init N ne nt idisp = Returned st0 /\
    SeHomo.ready N ne (- (- nt / idisp)) st0.
Proof.
  intros Hng Hnt Hd. unfold SeHomo.init, Py.ceil_div. cbn.
  destruct (Z.eqb_spec idisp 0); [lia|]. rewrite bind_Returned.
  eexists. split; [done|]. unfold SeHomo.ready, load. cbn.
  rewrite lookup_insert_eq. cbn. rewrite length_zeros.
  split; [lia|]. split; [lia|]. split; [lia|]. split; [lia|].
  apply shape2_zeros2; [|unfold SeHomo.ng in Hng; lia].
  assert (- nt / idisp <= 0)%Z; [|lia].
  apply Z.div_le_upper_bound; lia.
Qed.

(** The log of the spectral-element loop: a run of [nt] steps with
    stride [idisp] returns; its log has ceil(nt/idisp) rows; the step of
    every index [it] that is a multiple of [idisp] writes the values of
    its current field into row [it/idisp], and the row still holds these
    values at the end of the run; every row of the log is the snapshot
    of such a step; a step whose index is not a multiple of [idisp]
    leaves the log as it is. *)
Lemma se_snapshot_log
    (N ne nt idisp : Z) (dt : R) (src : list R) (Minv K : list (list R)) :
  (1 <= SeHomo.ng N ne)%Z -> (0 <= nt)%Z -> (0 < idisp)%Z ->
  Py.shape2 (SeHomo.ng N ne) (SeHomo.ng N ne) Minv ->
  Py.shape2 (SeHomo.ng N ne) (SeHomo.ng N ne) K ->
  exists st0 final,
    SeHomo.init N ne nt idisp = Returned st0 /\
    SeHomo.run N ne nt idisp dt src Minv K st0 = Returned final /\
    Z.of_nat (length (SeHomo.u_results final)) = (- (- nt / idisp))%Z /\
    (forall it, (0 <= it < nt)%Z -> (it mod idisp = 0)%Z ->
       exists st_it,
         for_ (range 0 (it + 1)) (SeHomo.step N ne idisp dt src Minv K) st0
           = Returned st_it /\
         SeHomo.u_results st_it !! Z.to_nat (it / idisp)
           = Some (load (SeHomo.heap st_it) (SeHomo.u st_it)) /\
         SeHomo.u_results final !! Z.to_nat (it / idisp)
           = Some (load (SeHomo.heap st_it) (SeHomo.u st_it))) /\
    (forall k, (0 <= k < - (- nt / idisp))%Z ->
       (0 <= k * idisp < nt)%Z /\ ((k * idisp) mod idisp = 0)%Z /\
       (k * idisp / idisp = k)%Z) /\
    (forall it st st', (it mod idisp <> 0)%Z ->
       SeHomo.step N ne idisp dt src Minv K it st = Returned st' ->
       SeHomo.u_results st' = SeHomo.u_results st).
Proof.
  intros Hng Hnt Hd HM HK.
  destruct (se_init_ready N ne nt idisp Hng Hnt Hd) as (st0 & E0 & Hr0).
  set (far := S (Z.to_nat (- (- nt / idisp)))).
  assert (forall a b i, (0 <= a)%Z -> (b <= nt)%Z -> (a <= i < b)%Z ->
            Z.to_nat (i / idisp) <> far) as Hfar.
  { intros a b i Ha Hb Hi. pose proof (ceil_div_gt i nt idisp Hd ltac:(lia)).
    pose proof (Z.div_pos i idisp ltac:(lia) Hd). unfold far. lia. }
  destruct (se_run_segment N ne nt idisp dt src Minv K 0 nt st0 far)
    as (final & Ef & Hrf & _); try done; try lia.
  { intros i Hi _. by apply (Hfar 0%Z nt). }
  exists st0, final. split; [done|]. split; [done|].
  split; [by destruct Hrf as (_ & _ & _ & _ & [Hl _])|]. split; [|split].
  - intros it Hit Hm.
    destruct (se_run_segment N ne nt idisp dt src Minv K 0 it st0 far)
      as (s_pre & Epre & Hrpre & _); try done; try lia.
    { intros i Hi _. apply (Hfar 0%Z it); lia. }
    destruct (se_step_spec N ne nt idisp dt src Minv K it s_pre)
      as (st_it & Estep & Hrit & Hres); try done.
    assert (SeHomo.u_results st_it !! Z.to_nat (it / idisp)
            = Some (load (SeHomo.heap st_it) (SeHomo.u st_it))) as Hrow.
    { rewrite Hres. destruct (Z.eqb_spec (it mod idisp) 0); [|done].
      apply list_lookup_insert_eq.
      destruct Hrpre as (_ & _ & _ & _ & [Hl _]).
      pose proof (ceil_div_gt it nt idisp Hd Hit).
      pose proof (Z.div_pos it idisp ltac:(lia) Hd). lia. }
    assert (for_ (range 0 (it + 1)) (SeHomo.step N ne idisp dt src Minv K) st0
            = Returned st_it) as Eit.
    { rewrite range_snoc, for_app, Epre by lia.
      rewrite bind_Returned. cbn [for_]. by rewrite Estep. }
    exists st_it. split; [done|]. split; [done|].
    destruct (se_run_segment N ne nt idisp dt src Minv K (it + 1) nt st_it
                (Z.to_nat (it / idisp)))
      as (final' & Ef' & _ & Hkeep); try done; try lia.
    { intros i Hi Him.
      pose proof (stride_rows_differ it i idisp Hd Hm Him ltac:(lia)).
      pose proof (Z.div_pos it idisp ltac:(lia) Hd). lia. }
    assert (final' = final) as ->.
    { unfold SeHomo.run in Ef.
      rewrite (range_app 0 (it + 1) nt), for_app, Eit, bind_Returned in Ef by lia.
      congruence. }
    by rewrite Hkeep.
  - intros k Hk. pose proof (ceil_div_row k nt idisp Hd Hk).
    split; [done|]. split; [apply Z.mod_mul; lia | apply Z.div_mul; lia].
  - intros it st st' Hm. unfold SeHomo.step, SeHomo.save, PyInt.mod_.
    intros H. apply bind_inv in H as (s1 & Hs & H).
    apply bind_inv in H as (s2 & He & H).
    destruct (Z.eqb_spec idisp 0); [lia|]. rewrite bind_Returned in H.
    destruct (Z.eqb_spec (it mod idisp) 0); [lia|].
    injection H as <-. rewrite (se_extrapolation_results _ _ _ _ _ He).
    by apply (se_source_results N ne src it).
Qed.


(** ** Boundary values in the time loops *)

(** A write through a reference changes the length of no array. *)
Lemma store_setitem_length (h h' : store) (l : nat) (i : Z) (v : R) (l' : nat) :
  store_setitem h l i v = Returned h' ->
  length (load h' l') = length (load h l').
Proof.
  unfold store_setitem. intros H. apply bind_inv in H as (a & Ha & [= <-]).
  apply setitem_length in Ha. unfold load at 1. cbn.
  destruct (decide (l = l')) as [<-|Hne].
  - by rewrite lookup_insert_eq.
  - by rewrite lookup_insert_ne.
Qed.

(** [x[i] = 0; x[j] = 0] through a reference: both writes return, the
    two entries are zero afterwards, the others are as before. *)
Lemma zero_ends (h : store) (l : nat) (i j : Z) :
  (0 <= i < Z.of_nat (length (load h l)))%Z ->
  (0 <= j < Z.of_nat (length (load h l)))%Z ->
  exists h1 h2,
    store_setitem h l i 0 = Returned h1 /\
    store_setitem h1 l j 0 = Returned h2 /\
    Np.item (load h2 l) i = 0%R /\
    Np.item (load h2 l) j = 0%R /\
    (forall x, x <> i -> x <> j -> Np.item (load h2 l) x = Np.item (load h l) x) /\
    length (load h2 l) = length (load h l).
Proof.
  intros Hi Hj.
  destruct (store_setitem_spec h l i 0 (Z.to_nat i)) as (h1 & E1 & _ & L1 & _);
    [by apply index_nonneg|].
  assert (length (load h1 l) = length (load h l)) as Hlen
    by (by rewrite L1, length_insert).
  destruct (store_setitem_spec h1 l j 0 (Z.to_nat j)) as (h2 & E2 & _ & L2 & _);
    [apply index_nonneg; lia|].
  exists h1, h2. split; [done|]. split; [done|].
  rewrite L2, L1. split; [|split; [|split]].
  - rewrite item_insert by (rewrite length_insert; lia).
    destruct (Z.eqb_spec i j); [done|].
    rewrite item_insert by lia. by rewrite Z.eqb_refl.
  - rewrite item_insert by (rewrite length_insert; lia). by rewrite Z.eqb_refl.
  - intros x Hxi Hxj. rewrite item_insert by (rewrite length_insert; lia).
    destruct (Z.eqb_spec x j); [done|]. rewrite item_insert by lia.
    by destruct (Z.eqb_spec x i).
  - by rewrite !length_insert.
Qed.

Lemma length_mul (u v : list R) :
  length (Np.mul u v) = Nat.min (length u) (length v).
Proof. apply length_zip_with. Qed.

Lemma length_div (u v : list R) :
  length (Np.div u v) = Nat.min (length u) (length v).
Proof. apply length_zip_with. Qed.

Lemma item_zip_with (f : R -> R -> R) (u v : list R) (i : Z) :
  (0 <= i < Z.of_nat (length u))%Z -> (i < Z.of_nat (length v))%Z ->
  Np.item (zip_with f u v) i = f (Np.item u i) (Np.item v i).
Proof.
  intros Hu Hv. unfold Np.item. destruct (Z.leb_spec 0 i); [|lia].
  destruct (lookup_lt_is_Some_2 u (Z.to_nat i)) as [a Ha]; [lia|].
  destruct (lookup_lt_is_Some_2 v (Z.to_nat i)) as [b Hb]; [lia|].
  rewrite lookup_zip_with, Ha, Hb. done.
Qed.

Lemma item_map (f : R -> R) (v : list R) (i : Z) :
  (0 <= i < Z.of_nat (length v))%Z ->
  Np.item (map f v) i = f (Np.item v i).
Proof.
  intros Hv. unfold Np.item. destruct (Z.leb_spec 0 i); [|lia].
  destruct (lookup_lt_is_Some_2 v (Z.to_nat i)) as [a Ha]; [lia|].
  rewrite list_lookup_fmap, Ha. done.
Qed.

(** The update of the Chebyshev loop, on arrays of the size of the
    grid, returns a current field of [nx+1] numbers. *)
Lemma cheby_update_spec (nx : Z) (dt : R) (mu rho sg src : list R)
    (D : list (list R)) (it : Z) (st : Cheby.state) :
  (0 <= it < Z.of_nat (length src))%Z ->
  Z.of_nat (length (load (Cheby.heap st) (Cheby.u st))) = (nx + 1)%Z ->
  Z.of_nat (length (load (Cheby.heap st) (Cheby.uold st))) = (nx + 1)%Z ->
  Py.shape2 (nx + 1) (nx + 1) D ->
  Z.of_nat (length mu) = (nx + 1)%Z ->
  Z.of_nat (length rho) = (nx + 1)%Z ->
  Z.of_nat (length sg) = (nx + 1)%Z ->
  exists s1, Cheby.update dt mu rho sg src D it st = Returned s1 /\
    Z.of_nat (length (load (Cheby.heap s1) (Cheby.u s1))) = (nx + 1)%Z /\
    Cheby.uold s1 = Cheby.u st.
Proof.
  intros Hit Hu Ho HD Hmu Hrho Hsg. unfold Cheby.update.
  pose proof HD as [HDl _].
  destruct (bmul_rows_shape (nx + 1) (nx + 1) mu D HD Hmu)
    as (muD & EmuD & HmuD).
  pose proof HmuD as [HmuDl _].
  set (u := load (Cheby.heap st) (Cheby.u st)) in *.
  set (uold := load (Cheby.heap st) (Cheby.uold st)) in *.
  rewrite EmuD, bind_Returned.
  rewrite (matmul_shape (nx + 1) (nx + 1) muD u) by done.
  rewrite bind_Returned.
  rewrite (matmul_shape (nx + 1) (nx + 1) D)
    by (done || rewrite length_matvec; lia).
  rewrite bind_Returned.
  rewrite bdiv_same by (rewrite length_matvec; lia). rewrite bind_Returned.
  rewrite bsub_same by (rewrite length_scale; lia). rewrite bind_Returned.
  rewrite badd_same
    by (unfold Cheby.times;
        rewrite length_sub, length_scale, length_map, length_div,
          length_matvec; lia).
  rewrite bind_Returned.
  set (a1 := Np.add _ _).
  assert (Z.of_nat (length a1) = (nx + 1)%Z) as Ha1.
  { unfold a1, Cheby.times.
    rewrite length_add, length_sub, length_scale, length_map, length_div,
      length_matvec. lia. }
  destruct (alloc a1 (Cheby.heap st)) as [ln h] eqn:Ea.
  assert (load h ln = a1) as L1.
  { replace ln with (fst (alloc a1 (Cheby.heap st))) by (by rewrite Ea).
    replace h with (snd (alloc a1 (Cheby.heap st))) by (by rewrite Ea).
    apply load_alloc_new. }
  rewrite getitem_item by lia. rewrite bind_Returned.
  rewrite bdiv_same by (unfold Cheby.times; rewrite !length_map; lia).
  rewrite bind_Returned. rewrite L1.
  rewrite badd_same
    by (unfold Cheby.times; rewrite length_div, !length_map; lia).
  rewrite bind_Returned.
  set (a2 := Np.add _ _).
  destruct (alloc a2 h) as [ln2 h2] eqn:Ea2.
  eexists. split; [done|]. cbn. split; [|done].
  replace ln2 with (fst (alloc a2 h)) by (by rewrite Ea2).
  replace h2 with (snd (alloc a2 h)) by (by rewrite Ea2).
  rewrite load_alloc_new. unfold a2, Cheby.times.
  rewrite length_add, length_div, !length_map. lia.
Qed.

(** The extrapolation of the Fourier notebook on three arrays of one
    length. *)
Lemma fourier_extrapolate_spec (k : R) (p o d : list R) (n : Z) :
  Z.of_nat (length p) = n -> Z.of_nat (length o) = n ->
  Z.of_nat (length d) = n ->
  exists a, Fourier1D.extrapolate k p o d = Returned a /\
    Z.of_nat (length a) = n /\
    forall i, (0 <= i < n)%Z ->
      Np.item a i = (2 * Np.item p i - Np.item o i + k * Np.item d i)%R.
Proof.
  intros Hp Ho Hd. unfold Fourier1D.extrapolate.
  rewrite bsub_same by (rewrite length_scale; lia). rewrite bind_Returned.
  rewrite badd_same by (rewrite length_sub, !length_scale; lia).
  eexists. split; [done|]. split.
  { rewrite length_add, length_sub, !length_scale. lia. }
  intros i Hi. unfold Np.add, Np.sub, Np.scale.
  rewrite item_zip_with
    by (rewrite ?length_zip_with, ?length_map; lia).
  rewrite item_zip_with by (rewrite ?length_map; lia).
  rewrite !item_map by lia. done.
Qed.

(** The statements of the finite-difference methods of the Fourier
    notebook after the derivative loop: the extrapolation into a new
    array, the source, the rebinding and the two boundary assignments. *)
Lemma fd_tail_values (nx : Z) (k dt : R) (sg src : list R) (it : Z)
    (h : store) (lp lo ld : nat) :
  (1 <= nx)%Z -> (0 <= it < Z.of_nat (length src))%Z ->
  Z.of_nat (length sg) = nx ->
  Z.of_nat (length (load h lp)) = nx ->
  Z.of_nat (length (load h lo)) = nx ->
  Z.of_nat (length (load h ld)) = nx ->
  exists a s b h1 h2 h3 h4,
    Fourier1D.extrapolate k (load h lp) (load h lo) (load h ld) = Returned a /\
    alloc a h = (next h, h1) /\
    Fourier1D.source dt sg src it = Returned s /\
    Np.badd (load h1 (next h)) s = Returned b /\
    alloc b h1 = (S (next h), h2) /\
    store_setitem h2 (S (next h)) 0 0 = Returned h3 /\
    store_setitem h3 (S (next h)) (nx - 1) 0 = Returned h4 /\
    next h4 = S (S (next h)) /\
    (forall l, (l < next h)%nat -> load h4 l = load h l) /\
    Z.of_nat (length (load h4 (S (next h)))) = nx /\
    Np.item (load h4 (S (next h))) 0 = 0%R /\
    Np.item (load h4 (S (next h))) (nx - 1) = 0%R /\
    (forall i, (0 < i < nx - 1)%Z ->
       Np.item (load h4 (S (next h))) i =
       (2 * Np.item (load h lp) i - Np.item (load h lo) i
        + k * Np.item (load h ld) i
        + Np.item sg i * Np.item src it * dt ^ 2)%R).
Proof.
  intros Hnx Hit Hsg Hp Ho Hd.
  destruct (fourier_extrapolate_spec k (load h lp) (load h lo) (load h ld) nx)
    as (a1 & Ea & Ha1 & Va); try done.
  set (sv := Fourier1D.times (Fourier1D.times sg (Np.item src it)) (dt ^ 2)).
  set (h1 := snd (alloc a1 h)).
  set (a2 := Np.add (load h1 (next h)) sv).
  set (h2 := snd (alloc a2 h1)).
  assert (load h1 (next h) = a1) as L1 by apply (load_alloc_new a1 h).
  assert (load h2 (S (next h)) = a2) as L2 by apply (load_alloc_new a2 h1).
  assert (Z.of_nat (length sv) = nx) as Hsv.
  { unfold sv, Fourier1D.times. rewrite !length_map. lia. }
  assert (Z.of_nat (length a2) = nx) as Ha2.
  { unfold a2. rewrite length_add, L1. lia. }
  destruct (store_setitem_spec h2 (S (next h)) 0 0 (Z.to_nat 0))
    as (h3 & E3 & N3 & L3 & F3); [apply index_nonneg; rewrite L2; lia|].
  destruct (store_setitem_spec h3 (S (next h)) (nx - 1) 0 (Z.to_nat (nx - 1)))
    as (h4 & E4 & N4 & L4 & F4).
  { apply index_nonneg. rewrite L3, length_insert, L2. lia. }
  exists a1, sv, a2, h1, h2, h3, h4.
  split; [done|]. split; [done|]. split.
  { unfold Fourier1D.source. rewrite getitem_item by lia. done. }
  split; [apply badd_same; rewrite L1; lia|].
  split; [done|]. split; [done|]. split; [done|].
  split; [rewrite N4, N3; done|].
  split.
  { intros l Hl. rewrite F4, F3 by lia.
    unfold h2. rewrite load_alloc_old by (cbn; lia).
    unfold h1. by rewrite load_alloc_old by lia. }
  split; [rewrite L4, L3, !length_insert, L2; done|].
  rewrite L4, L3, L2.
  split.
  { rewrite !item_insert by (rewrite ?length_insert; lia).
    destruct (Z.eqb_spec 0 (nx - 1)); [done|]. by rewrite Z.eqb_refl. }
  split.
  { rewrite !item_insert by (rewrite ?length_insert; lia).
    by rewrite Z.eqb_refl. }
  intros i Hi.
  rewrite !item_insert by (rewrite ?length_insert; lia).
  destruct (Z.eqb_spec i (nx - 1)); [lia|].
  destruct (Z.eqb_spec i 0); [lia|].
  unfold a2, Np.add. rewrite item_zip_with by (rewrite ?L1; lia).
  rewrite L1, Va by lia.
  unfold sv, Fourier1D.times. rewrite !item_map by (rewrite ?length_map; lia).
  done.
Qed.

Lemma for_range_keeps {S : Type} (P : S -> Prop) (a b : Z)
    (body : Z -> S -> outcome S) (s : S) :
  P s ->
  (forall i s, (a <= i < b)%Z -> P s -> exists s', body i s = Returned s' /\ P s') ->
  exists s', for_ (range a b) body s = Returned s' /\ P s'.
Proof.
  intros HP Hstep. destruct (Z.le_gt_cases a b) as [Hab|Hab].
  - by apply (for_range_inv (fun _ => P)).
  - rewrite range_nil by lia. eauto.
Qed.

(** The derivative loop of the 3-point method writes into the array of
    [d2p], whatever other names that array has, and changes no length. *)
Lemma fd3_loop_spec (nx : Z) (dx : R) (lp ld : nat) (h0 : store) :
  Z.of_nat (length (load h0 lp)) = nx ->
  Z.of_nat (length (load h0 ld)) = nx ->
  exists h,
    for_ (range 1 (nx - 1))
      (fun i h =>
         a ← Py.getitem (load h lp) (i + 1);
         b ← Py.getitem (load h lp) i;
         e ← Py.getitem (load h lp) (i - 1);
         store_setitem h ld i ((a - 2 * b + e) / dx ^ 2)%R) h0 = Returned h /\
    forall l, length (load h l) = length (load h0 l).
Proof.
  intros Hp Hd.
  apply (for_range_keeps (fun h => forall l, length (load h l) = length (load h0 l)));
    [done|].
  intros i h Hi Hlen.
  rewrite !getitem_item by (rewrite Hlen; lia). rewrite !bind_Returned.
  destruct (store_setitem_spec h ld i
              ((Np.item (load h lp) (i + 1) - 2 * Np.item (load h lp) i +
                Np.item (load h lp) (i - 1)) / dx ^ 2)%R (Z.to_nat i))
    as (h' & E & _); [apply index_nonneg; rewrite Hlen; lia|].
  exists h'. split; [done|]. intros l.
  rewrite (store_setitem_length h h' ld i _ l E). apply Hlen.
Qed.

Lemma fd5_loop_spec (nx : Z) (dx : R) (lp ld : nat) (h0 : store) :
  Z.of_nat (length (load h0 lp)) = nx ->
  Z.of_nat (length (load h0 ld)) = nx ->
  exists h,
    for_ (range 2 (nx - 2))
      (fun i h =>
         a ← Py.getitem (load h lp) (i + 2);
         b ← Py.getitem (load h lp) (i + 1);
         e ← Py.getitem (load h lp) i;
         g ← Py.getitem (load h lp) (i - 1);
         k ← Py.getitem (load h lp) (i - 2);
         store_setitem h ld i
           ((- 1 / 12 * a + 4 / 3 * b - 5 / 2 * e + 4 / 3 * g - 1 / 12 * k)
            / dx ^ 2)%R) h0 = Returned h /\
    forall l, length (load h l) = length (load h0 l).
Proof.
  intros Hp Hd.
  apply (for_range_keeps (fun h => forall l, length (load h l) = length (load h0 l)));
    [done|].
  intros i h Hi Hlen.
  rewrite !getitem_item by (rewrite Hlen; lia). rewrite !bind_Returned.
  match goal with
  | |- exists s', store_setitem h ld i ?v = _ /\ _ =>
      destruct (store_setitem_spec h ld i v (Z.to_nat i)) as (h' & E & _);
        [apply index_nonneg; rewrite Hlen; lia|]
  end.
  exists h'. split; [done|]. intros l.
  rewrite (store_setitem_length h h' ld i _ l E). apply Hlen.
Qed.

(** The 3-point method: after the step the two ends of [p] are zero. *)
Lemma fd3_spec (nx : Z) (c dt dx : R) (sg src : list R) (it : Z)
    (st : Fourier1D.state) :
  (1 <= nx)%Z -> (0 <= it < Z.of_nat (length src))%Z ->
  Z.of_nat (length sg) = nx ->
  Z.of_nat (length (load (Fourier1D.heap st) (Fourier1D.p st))) = nx ->
  Z.of_nat (length (load (Fourier1D.heap st) (Fourier1D.pold st))) = nx ->
  Z.of_nat (length (load (Fourier1D.heap st) (Fourier1D.d2p st))) = nx ->
  exists st', Fourier1D.fd3 nx c dt dx sg src it st = Returned st' /\
    Np.item (load (Fourier1D.heap st') (Fourier1D.p st')) 0 = 0%R /\
    Np.item (load (Fourier1D.heap st') (Fourier1D.p st')) (nx - 1) = 0%R /\
    Fourier1D.pold st' = Fourier1D.p st.
Proof.
  intros Hnx Hit Hsg Hp Ho Hd. unfold Fourier1D.fd3.
  destruct (fd3_loop_spec nx dx (Fourier1D.p st) (Fourier1D.d2p st)
              (Fourier1D.heap st) Hp Hd) as (h & -> & Hlen).
  rewrite bind_Returned.
  destruct (fd_tail_values nx (dt ^ 2 * c ^ 2) dt sg src it h
              (Fourier1D.p st) (Fourier1D.pold st) (Fourier1D.d2p st))
    as (a & s & b & h1 & h2 & h3 & h4 & Ea & E1 & Es & Eb & E2 & E3 & E4
        & _ & _ & _ & Z0 & Z1 & _);
    rewrite ?Hlen; try done.
  rewrite Ea, bind_Returned, E1. cbn beta iota.
  rewrite Es, bind_Returned, Eb, bind_Returned, E2. cbn beta iota.
  rewrite E3, bind_Returned, E4, bind_Returned.
  eexists. split; [done|]. done.
Qed.

(** The 5-point method: after the step the two ends of [ap] are zero. *)
Lemma fd5_spec (nx : Z) (c dt dx : R) (sg src : list R) (it : Z)
    (st : Fourier1D.state) :
  (1 <= nx)%Z -> (0 <= it < Z.of_nat (length src))%Z ->
  Z.of_nat (length sg) = nx ->
  Z.of_nat (length (load (Fourier1D.heap st) (Fourier1D.ap st))) = nx ->
  Z.of_nat (length (load (Fourier1D.heap st) (Fourier1D.apold st))) = nx ->
  Z.of_nat (length (load (Fourier1D.heap st) (Fourier1D.ad2p st))) = nx ->
  exists st', Fourier1D.fd5 nx c dt dx sg src it st = Returned st' /\
    Np.item (load (Fourier1D.heap st') (Fourier1D.ap st')) 0 = 0%R /\
    Np.item (load (Fourier1D.heap st') (Fourier1D.ap st')) (nx - 1) = 0%R /\
    Fourier1D.apold st' = Fourier1D.ap st.
Proof.
  intros Hnx Hit Hsg Hp Ho Hd. unfold Fourier1D.fd5.
  destruct (fd5_loop_spec nx dx (Fourier1D.ap st) (Fourier1D.ad2p st)
              (Fourier1D.heap st) Hp Hd) as (h & -> & Hlen).
  rewrite bind_Returned.
  destruct (fd_tail_values nx (dt ^ 2 * c ^ 2) dt sg src it h
              (Fourier1D.ap st) (Fourier1D.apold st) (Fourier1D.ad2p st))
    as (a & s & b & h1 & h2 & h3 & h4 & Ea & E1 & Es & Eb & E2 & E3 & E4
        & _ & _ & _ & Z0 & Z1 & _);
    rewrite ?Hlen; try done.
  rewrite Ea, bind_Returned, E1. cbn beta iota.
  rewrite Es, bind_Returned, Eb, bind_Returned, E2. cbn beta iota.
  rewrite E3, bind_Returned, E4, bind_Returned.
  eexists. split; [done|]. done.
Qed.

Lemma cheby_boundaries_spec (nx : Z) (st : Cheby.state) :
  (0 <= nx)%Z ->
  Z.of_nat (length (load (Cheby.heap st) (Cheby.u st))) = (nx + 1)%Z ->
  exists st', Cheby.boundaries nx st = Returned st' /\
    Np.item (load (Cheby.heap st') (Cheby.u st')) 0 = 0%R /\
    Np.item (load (Cheby.heap st') (Cheby.u st')) nx = 0%R /\
    (forall x, x <> 0%Z -> x <> nx ->
       Np.item (load (Cheby.heap st') (Cheby.u st')) x =
       Np.item (load (Cheby.heap st) (Cheby.u st)) x).
Proof.
  intros Hnx Hlen. unfold Cheby.boundaries.
  destruct (zero_ends (Cheby.heap st) (Cheby.u st) 0 nx)
    as (h1 & h2 & -> & E2 & Z0 & Z1 & Hother & _); [lia | lia |].
  rewrite bind_Returned, E2, bind_Returned. eexists. split; [done|]. done.
Qed.

(** The snapshot statements of the finite-element loop leave the fields
    as they are. *)
Lemma fe_save_spec (idisp it rows n : Z) (st : FeElastic.state) :
  (0 < idisp)%Z -> (0 <= it)%Z -> (it / idisp < rows)%Z ->
  Py.shape2 rows n (FeElastic.u_results st) ->
  Py.shape2 rows n (FeElastic.p_results st) ->
  Z.of_nat (length (FeElastic.u st)) = n ->
  Z.of_nat (length (FeElastic.p st)) = n ->
  exists st', FeElastic.save idisp it st = Returned st' /\
    FeElastic.u st' = FeElastic.u st /\
    FeElastic.uold st' = FeElastic.uold st /\
    FeElastic.unew st' = FeElastic.unew st.
Proof.
  intros Hd Hit Hrow Hur Hpr Hu Hp.
  unfold FeElastic.save, PyInt.mod_, PyInt.int_truediv.
  destruct (Z.eqb_spec idisp 0); [lia|]. rewrite bind_Returned.
  destruct (Z.eqb_spec (it mod idisp) 0); [|by exists st].
  rewrite !bind_Returned, Z.quot_div_nonneg by lia.
  assert (0 <= it / idisp < rows)%Z by (split; [apply Z.div_pos; lia | done]).
  destruct (setrow_spec rows n (FeElastic.u_results st) (it / idisp)
              (FeElastic.u st)) as [-> _]; [done | done | done |].
  rewrite !bind_Returned.
  destruct (setrow_spec rows n (FeElastic.p_results st) (it / idisp)
              (FeElastic.p st)) as [-> _]; [done | done | done |].
  rewrite bind_Returned. eexists. split; [done|]. done.
Qed.

(** C7, as the code has it.  The time loops of the pseudospectral
    notebooks set the first and the last grid point of the newly current
    field to zero after every update, whatever the update computed
    there: the Chebyshev loop ([u[0]], [u[nx]]) and the 3-point and
    5-point finite-difference fields of the Fourier notebook ([p[0]],
    [p[nx-1]], [ap[0]], [ap[nx-1]]).  The spectral-element and the
    finite-element loops have no such statement: their current field
    after a step is the extrapolated field, boundary entries included.
    All arrays have the size of their grid. *)
Theorem boundaries_zeroed_in_pseudospectral_loops
    (nx nxf N ne nfe idisp rows rows_fe : Z) (dt c dx : R)
    (mu rho sg sgf src f_fe : list R)
    (D Minv K Minv_fe K_fe Mfd Dfd : list (list R)) (it : Z)
    (ch : Cheby.state) (fo : Fourier1D.state) (se : SeHomo.state)
    (fe : FeElastic.state) :
  (0 <= nx)%Z -> (1 <= nxf)%Z -> (1 <= SeHomo.ng N ne)%Z ->
  (0 <= it < Z.of_nat (length src))%Z ->
  (0 < idisp)%Z -> (it / idisp < rows)%Z -> (it / idisp < rows_fe)%Z ->
  (* Chebyshev *)
  Z.of_nat (length (load (Cheby.heap ch) (Cheby.u ch))) = (nx + 1)%Z ->
  Z.of_nat (length (load (Cheby.heap ch) (Cheby.uold ch))) = (nx + 1)%Z ->
  Py.shape2 (nx + 1) (nx + 1) D ->
  Z.of_nat (length mu) = (nx + 1)%Z ->
  Z.of_nat (length rho) = (nx + 1)%Z ->
  Z.of_nat (length sg) = (nx + 1)%Z ->
  (* Fourier notebook *)
  Z.of_nat (length sgf) = nxf ->
  Z.of_nat (length (load (Fourier1D.heap fo) (Fourier1D.p fo))) = nxf ->
  Z.of_nat (length (load (Fourier1D.heap fo) (Fourier1D.pold fo))) = nxf ->
  Z.of_nat (length (load (Fourier1D.heap fo) (Fourier1D.d2p fo))) = nxf ->
  Z.of_nat (length (load (Fourier1D.heap fo) (Fourier1D.ap fo))) = nxf ->
  Z.of_nat (length (load (Fourier1D.heap fo) (Fourier1D.apold fo))) = nxf ->
  Z.of_nat (length (load (Fourier1D.heap fo) (Fourier1D.ad2p fo))) = nxf ->
  (* spectral elements *)
  Py.shape2 (SeHomo.ng N ne) (SeHomo.ng N ne) Minv ->
  Py.shape2 (SeHomo.ng N ne) (SeHomo.ng N ne) K ->
  (SeHomo.u se < next (SeHomo.heap se))%nat ->
  (SeHomo.uold se < next (SeHomo.heap se))%nat ->
  Z.of_nat (length (load (SeHomo.heap se) (SeHomo.u se))) = SeHomo.ng N ne ->
  Z.of_nat (length (load (SeHomo.heap se) (SeHomo.uold se))) = SeHomo.ng N ne ->
  Py.shape2 rows (N * ne + 1) (SeHomo.u_results se) ->
  (* finite elements *)
  Py.shape2 nfe nfe Minv_fe -> Py.shape2 nfe nfe K_fe ->
  Py.shape2 nfe nfe Mfd -> Py.shape2 nfe nfe Dfd ->
  Z.of_nat (length f_fe) = nfe ->
  Z.of_nat (length (FeElastic.u fe)) = nfe ->
  Z.of_nat (length (FeElastic.uold fe)) = nfe ->
  Z.of_nat (length (FeElastic.p fe)) = nfe ->
  Z.of_nat (length (FeElastic.pold fe)) = nfe ->
  Py.shape2 rows_fe nfe (FeElastic.u_results fe) ->
  Py.shape2 rows_fe nfe (FeElastic.p_results fe) ->
  (* Chebyshev *)
  (exists s1 s2,
     Cheby.update dt mu rho sg src D it ch = Returned s1 /\
     Cheby.boundaries nx s1 = Returned s2 /\
     Np.item (load (Cheby.heap s2) (Cheby.u s2)) 0 = 0%R /\
     Np.item (load (Cheby.heap s2) (Cheby.u s2)) nx = 0%R /\
     (forall x, x <> 0%Z -> x <> nx ->
        Np.item (load (Cheby.heap s2) (Cheby.u s2)) x =
        Np.item (load (Cheby.heap s1) (Cheby.u s1)) x)) /\
  (* finite differences, 3 points *)
  (exists st', Fourier1D.fd3 nxf c dt dx sgf src it fo = Returned st' /\
     Np.item (load (Fourier1D.heap st') (Fourier1D.p st')) 0 = 0%R /\
     Np.item (load (Fourier1D.heap st') (Fourier1D.p st')) (nxf - 1) = 0%R) /\
  (* finite differences, 5 points *)
  (exists st', Fourier1D.fd5 nxf c dt dx sgf src it fo = Returned st' /\
     Np.item (load (Fourier1D.heap st') (Fourier1D.ap st')) 0 = 0%R /\
     Np.item (load (Fourier1D.heap st') (Fourier1D.ap st')) (nxf - 1) = 0%R) /\
  (* spectral elements *)
  (exists s1 st', SeHomo.source N ne src it se = Returned s1 /\
     SeHomo.step N ne idisp dt src Minv K it se = Returned st' /\
     load (SeHomo.heap st') (SeHomo.u st') =
       Leapfrog.next_field dt Minv K
         (load (SeHomo.heap s1) (SeHomo.f s1))
         (load (SeHomo.heap se) (SeHomo.u se))
         (load (SeHomo.heap se) (SeHomo.uold se))) /\
  (* finite elements *)
  (exists s st', src !! Z.to_nat it = Some s /\
     FeElastic.step idisp dt dx src f_fe Minv_fe K_fe Mfd Dfd it fe
       = Returned st' /\
     FeElastic.u st' =
       Leapfrog.next_field dt Minv_fe K_fe (FeElastic.times f_fe s)
         (FeElastic.u fe) (FeElastic.uold fe)).
Proof.
  intros Hnx Hnxf Hng Hit Hd Hrow Hrowfe Hu Ho HD Hmu Hrho Hsg Hsgf
    Hp Hpo Hd2 Hap Hapo Had HM HK Hsu Hso Hlu Hlo Hres
    HMfe HKfe HMfd HDfd Hf Hfu Hfo Hfp Hfpo Hur Hpr.
  split; [|split; [|split; [|split]]].
  - destruct (cheby_update_spec nx dt mu rho sg src D it ch)
      as (s1 & E1 & Hl & _); try done.
    destruct (cheby_boundaries_spec nx s1 Hnx Hl) as (s2 & E2 & H).
    by exists s1, s2.
  - destruct (fd3_spec nxf c dt dx sgf src it fo) as (st' & E & Z0 & Z1 & _);
      try done.
    by exists st'.
  - destruct (fd5_spec nxf c dt dx sgf src it fo) as (st' & E & Z0 & Z1 & _);
      try done.
    by exists st'.
  - destruct (se_advance_spec N ne dt src Minv K it se Hng ltac:(lia) HM HK
                Hsu Hso Hlu Hlo)
      as (s1 & st' & Hs & He & H1 & H2 & H3 & H4 & H5 & H6 & H7 & H8 & H9).
    exists s1. unfold SeHomo.step.
    rewrite Hs, bind_Returned, He, bind_Returned.
    rewrite (se_save_spec idisp it rows (N * ne + 1) st'); try done; try lia.
    + eexists. split; [done|]. split; [done|]. by cbn.
    + by rewrite H7.
    + rewrite H8. unfold SeHomo.ng. lia.
  - destruct (fe_update_spec nfe dt dx src f_fe Minv_fe K_fe Mfd Dfd it fe)
      as (s & fe1 & A & B & C & _ & _ & Lu & Lp & _ & Ru & Rp); try done.
    destruct (fe_save_spec idisp it rows_fe nfe fe1)
      as (fe2 & E2 & U2 & _); try done; try lia;
      try (by rewrite Ru); try (by rewrite Rp).
    exists s, fe2. split; [done|]. split.
    + unfold FeElastic.step. by rewrite B, bind_Returned.
    + by rewrite U2.
Qed.

Lemma boundaries_zeroed_in_pseudospectral_loops_witness :
  (exists s1 s2,
     Cheby.update 1 [1; 1; 1]%R [1; 1; 1]%R [0; 1; 0]%R Sample.src
       [[0; 0; 0]; [0; 0; 0]; [0; 0; 0]]%R 0 Sample.cheby_state = Returned s1 /\
     Cheby.boundaries 2 s1 = Returned s2 /\
     Np.item (load (Cheby.heap s2) (Cheby.u s2)) 0 = 0%R /\
     Np.item (load (Cheby.heap s2) (Cheby.u s2)) 2 = 0%R /\
     (forall x, x <> 0%Z -> x <> 2%Z ->
        Np.item (load (Cheby.heap s2) (Cheby.u s2)) x =
        Np.item (load (Cheby.heap s1) (Cheby.u s1)) x)) /\
  (exists st', Fourier1D.fd3 3 1 1 1 [0; 1; 0]%R Sample.src 0
                 Sample.fourier_state = Returned st' /\
     Np.item (load (Fourier1D.heap st') (Fourier1D.p st')) 0 = 0%R /\
     Np.item (load (Fourier1D.heap st') (Fourier1D.p st')) (3 - 1) = 0%R) /\
  (exists st', Fourier1D.fd5 3 1 1 1 [0; 1; 0]%R Sample.src 0
                 Sample.fourier_state = Returned st' /\
     Np.item (load (Fourier1D.heap st') (Fourier1D.ap st')) 0 = 0%R /\
     Np.item (load (Fourier1D.heap st') (Fourier1D.ap st')) (3 - 1) = 0%R) /\
  (exists s1 st', SeHomo.source 1 1 Sample.src 0 Sample.se_state = Returned s1 /\
     SeHomo.step 1 1 1 1 Sample.src Sample.Minv Sample.K 0 Sample.se_state
       = Returned st' /\
     load (SeHomo.heap st') (SeHomo.u st') =
       Leapfrog.next_field 1 Sample.Minv Sample.K
         (load (SeHomo.heap s1) (SeHomo.f s1))
         (load (SeHomo.heap Sample.se_state) (SeHomo.u Sample.se_state))
         (load (SeHomo.heap Sample.se_state) (SeHomo.uold Sample.se_state))) /\
  (exists s st', Sample.src !! Z.to_nat 0 = Some s /\
     FeElastic.step 1 1 1 Sample.src [0; 1]%R Sample.Minv Sample.K
       Sample.Mfd Sample.D 0 Sample.fe_state = Returned st' /\
     FeElastic.u st' =
       Leapfrog.next_field 1 Sample.Minv Sample.K
         (FeElastic.times [0; 1]%R s)
         (FeElastic.u Sample.fe_state) (FeElastic.uold Sample.fe_state)).
Proof.
  apply (boundaries_zeroed_in_pseudospectral_loops 2 3 1 1 2 1 1 1 1 1 1
           [1; 1; 1]%R [1; 1; 1]%R [0; 1; 0]%R [0; 1; 0]%R Sample.src
           [0; 1]%R
           [[0; 0; 0]; [0; 0; 0]; [0; 0; 0]]%R Sample.Minv Sample.K
           Sample.Minv Sample.K Sample.Mfd Sample.D 0
           Sample.cheby_state Sample.fourier_state Sample.se_state
           Sample.fe_state);
    try reflexivity; try (cbn; lia); try (unfold SeHomo.ng; lia);
    try (split; [reflexivity | repeat constructor]).
Defined.

(** C7 as stated fails on the spectral-element loop: on a grid of two
    points, with a unit source sample, the first grid point of the
    current field is not zero after the first step. *)
Lemma se_loop_leaves_boundary_values :
  exists st',
    SeHomo.step 1 1 1 1 Sample.src Sample.Minv Sample.K 0 Sample.se_state
      = Returned st' /\
    Np.item (load (SeHomo.heap st') (SeHomo.u st')) 0 <> 0%R.
Proof.
  eexists. split.
  - vm_compute. reflexivity.
  - vm_compute. lra.
Qed.

(** ** Loops that visit the cells of a rectangle *)

Ltac zbool :=
  repeat match goal with
    | |- context [(?a =? ?b)%Z] => destruct (Z.eqb_spec a b)
    | |- context [(?a <=? ?b)%Z] => destruct (Z.leb_spec a b)
    | |- context [(?a <? ?b)%Z] => destruct (Z.ltb_spec a b)
    end;
  cbn [andb orb negb]; try done; try lia.

(** A double loop whose body visits the cell [(oi+i, oj+j)] and sets it
    to a value that depends on the indices and on what the array held
    before the loops: the loops return, and they have set the cells of
    the rectangle and no other.  [obs] is the way the cells are read
    ([Py.cell] or [Np.entry]). *)
Lemma visit_loop2 {A B : Type} (obs : list (list A) -> Z -> Z -> B)
    (r c a1 b1 a2 b2 oi oj : Z)
    (body : Z -> Z -> list (list A) -> outcome (list (list A)))
    (val : Z -> Z -> B) (M0 : list (list A)) :
  Py.shape2 r c M0 -> (a1 <= b1)%Z -> (a2 <= b2)%Z ->
  (forall i j M, (a1 <= i < b1)%Z -> (a2 <= j < b2)%Z -> Py.shape2 r c M ->
     obs M (oi + i)%Z (oj + j)%Z = obs M0 (oi + i)%Z (oj + j)%Z ->
     exists M', body i j M = Returned M' /\ Py.shape2 r c M' /\
       forall x y, obs M' x y =
                   if ((x =? oi + i) && (y =? oj + j))%Z
                   then val x y else obs M x y) ->
  exists M,
    for_ (range a1 b1) (fun i => for_ (range a2 b2) (fun j => body i j)) M0
      = Returned M /\
    Py.shape2 r c M /\
    forall x y, obs M x y =
                if ((oi + a1 <=? x) && (x <? oi + b1) &&
                    (oj + a2 <=? y) && (y <? oj + b2))%Z
                then val x y else obs M0 x y.
Proof.
  intros Hshape H1 H2 Hbody.
  apply (for_range_inv
           (fun i M => Py.shape2 r c M /\
              forall x y, obs M x y =
                if ((oi + a1 <=? x) && (x <? oi + i) &&
                    (oj + a2 <=? y) && (y <? oj + b2))%Z
                then val x y else obs M0 x y)); [done | |].
  { split; [done|]. intros x y. zbool. }
  intros i M Hi [HsM HM].
  destruct (for_range_inv
              (fun j M' => Py.shape2 r c M' /\
                 forall x y, obs M' x y =
                   if ((x =? oi + i) && (oj + a2 <=? y) && (y <? oj + j))%Z
                   then val x y else obs M x y)
              a2 b2 (body i) M) as (M' & E & HsM' & HM'); [done | | |].
  { split; [done|]. intros x y. zbool. }
  { intros j M1 Hj [Hs1 HM1].
    destruct (Hbody i j M1 Hi Hj Hs1) as (M2 & E2 & Hs2 & HM2).
    { rewrite HM1, HM. zbool. }
    exists M2. split; [done|]. split; [done|].
    intros x y. rewrite HM2, HM1. zbool. }
  exists M'. split; [done|]. split; [done|].
  intros x y. rewrite HM', HM. zbool.
Qed.

(** The same for a body that is one assignment. *)
Lemma assign_loop2 {A : Type} (r c a1 b1 a2 b2 : Z)
    (body : Z -> Z -> list (list A) -> outcome (list (list A)))
    (val : Z -> Z -> A) (M0 : list (list A)) :
  Py.shape2 r c M0 -> (0 <= a1 <= b1)%Z -> (b1 <= r)%Z ->
  (0 <= a2 <= b2)%Z -> (b2 <= c)%Z ->
  (forall i j M, (a1 <= i < b1)%Z -> (a2 <= j < b2)%Z -> Py.shape2 r c M ->
     body i j M = Py.setitem2 M i j (val i j)) ->
  exists M,
    for_ (range a1 b1) (fun i => for_ (range a2 b2) (fun j => body i j)) M0
      = Returned M /\
    Py.shape2 r c M /\
    forall x y, Py.cell M x y =
                if ((a1 <=? x) && (x <? b1) && (a2 <=? y) && (y <? b2))%Z
                then Some (val x y) else Py.cell M0 x y.
Proof.
  intros Hshape H1 Hr H2 Hc Hbody.
  destruct (visit_loop2 Py.cell r c a1 b1 a2 b2 0 0 body
              (fun x y => Some (val x y)) M0) as (M & E & Hs & HM);
    [done | lia | lia | | ].
  - intros i j M Hi Hj HsM _. rewrite (Hbody i j M Hi Hj HsM).
    destruct (setitem2_cell r c M i j (val i j) HsM) as (M' & E & Hs' & HM');
      [lia | lia |].
    exists M'. split; [done|]. split; [done|].
    intros x y. rewrite HM', !Z.add_0_l.
    destruct (Z.eqb_spec x i) as [->|]; [|done].
    by destruct (Z.eqb_spec y j) as [->|].
  - exists M. split; [done|]. split; [done|].
    intros x y. rewrite HM, !Z.add_0_l. done.
Qed.

Lemma assign_loop2_entry (r c a1 b1 a2 b2 : Z)
    (body : Z -> Z -> list (list R) -> outcome (list (list R)))
    (val : Z -> Z -> R) (M0 : list (list R)) :
  Py.shape2 r c M0 -> (0 <= a1 <= b1)%Z -> (b1 <= r)%Z ->
  (0 <= a2 <= b2)%Z -> (b2 <= c)%Z ->
  (forall i j M, (a1 <= i < b1)%Z -> (a2 <= j < b2)%Z -> Py.shape2 r c M ->
     body i j M = Py.setitem2 M i j (val i j)) ->
  exists M,
    for_ (range a1 b1) (fun i => for_ (range a2 b2) (fun j => body i j)) M0
      = Returned M /\
    Py.shape2 r c M /\
    forall x y, Np.entry M x y =
                if ((a1 <=? x) && (x <? b1) && (a2 <=? y) && (y <? b2))%Z
                then val x y else Np.entry M0 x y.
Proof.
  intros Hshape H1 Hr H2 Hc Hbody.
  destruct (assign_loop2 r c a1 b1 a2 b2 body val M0) as (M & E & Hs & HM);
    try done.
  exists M. split; [done|]. split; [done|].
  intros x y. unfold Np.entry. rewrite HM.
  by destruct ((a1 <=? x) && (x <? b1) && (a2 <=? y) && (y <? b2))%Z.
Qed.

(** ** The finite-element matrices *)

Lemma fe_mass_spec (nx : Z) (ro h : list R) :
  (2 <= nx)%Z -> Z.of_nat (length ro) = nx -> Z.of_nat (length h) = (nx - 1)%Z ->
  exists M, FeElastic.M nx ro h = Returned M /\ Py.shape2 nx nx M /\
    forall x y, Np.entry M x y = FeClosed.mass_entry nx ro h x y.
Proof.
  intros Hnx Hro Hh. unfold FeElastic.M.
  match goal with
  | |- exists M, (for_ _ (fun i => for_ _ (fun j => @?body i j)) _ ≫= _) = _ /\ _ =>
      destruct (assign_loop2_entry nx nx 1 (nx - 1) 1 (nx - 1) body
                  (FeClosed.mass_value ro h) (Np.zeros2 nx nx))
        as (M1 & E1 & Hs1 & HM1)
  end; try lia.
  { apply shape2_zeros2; lia. }
  { intros i j M Hi Hj HsM. cbn beta. unfold FeClosed.mass_value.
    destruct (Z.eqb_spec j i); [|destruct (Z.eqb_spec j (i + 1));
                                 [|destruct (Z.eqb_spec j (i - 1))]];
      rewrite ?getitem_item by lia; rewrite ?bind_Returned; done. }
  rewrite E1, bind_Returned, ?getitem_item, ?bind_Returned by lia.
  destruct (setitem2_entry nx nx M1 0 0 (Np.item ro 0 * Np.item h 0 / 3) Hs1)
    as (M2 & -> & Hs2 & HM2); [lia | lia |].
  rewrite ?bind_Returned.
  destruct (setitem2_entry nx nx M2 (nx - 1) (nx - 1)
              (Np.item ro (nx - 1) * Np.item h (nx - 2) / 3) Hs2)
    as (M3 & -> & Hs3 & HM3); [lia | lia |].
  exists M3. split; [done|]. split; [done|].
  intros x y. rewrite HM3, HM2, HM1, entry_zeros2. unfold FeClosed.mass_entry.
  done.
Qed.

Lemma fe_stiffness_spec (nx : Z) (mu h : list R) :
  (2 <= nx)%Z -> Z.of_nat (length mu) = nx -> Z.of_nat (length h) = (nx - 1)%Z ->
  exists K, FeElastic.K nx mu h = Returned K /\ Py.shape2 nx nx K /\
    forall x y, Np.entry K x y = FeClosed.stiffness_entry nx mu h x y.
Proof.
  intros Hnx Hmu Hh. unfold FeElastic.K.
  match goal with
  | |- exists M, (for_ _ (fun i => for_ _ (fun j => @?body i j)) _ ≫= _) = _ /\ _ =>
      destruct (assign_loop2_entry nx nx 1 (nx - 1) 1 (nx - 1) body
                  (FeClosed.stiffness_value mu h) (Np.zeros2 nx nx))
        as (M1 & E1 & Hs1 & HM1)
  end; try lia.
  { apply shape2_zeros2; lia. }
  { intros i j M Hi Hj HsM. cbn beta. unfold FeClosed.stiffness_value.
    destruct (Z.eqb_spec i j); [|destruct (Z.eqb_spec i (j + 1));
                                 [|destruct (Z.eqb_spec (i + 1) j)]];
      rewrite ?getitem_item by lia; rewrite ?bind_Returned; done. }
  rewrite E1, bind_Returned, ?getitem_item, ?bind_Returned by lia.
  destruct (setitem2_entry nx nx M1 0 0 (Np.item mu 0 / Np.item h 0) Hs1)
    as (M2 & -> & Hs2 & HM2); [lia | lia |].
  rewrite ?bind_Returned.
  destruct (setitem2_entry nx nx M2 (nx - 1) (nx - 1)
              (Np.item mu (nx - 1) / Np.item h (nx - 2)) Hs2)
    as (M3 & -> & Hs3 & HM3); [lia | lia |].
  exists M3. split; [done|]. split; [done|].
  intros x y. rewrite HM3, HM2, HM1, entry_zeros2. unfold FeClosed.stiffness_entry.
  done.
Qed.

Lemma fe_mass_entry_sym (nx : Z) (ro h : list R) (x y : Z) :
  FeClosed.mass_entry nx ro h x y = FeClosed.mass_entry nx ro h y x.
Proof.
  unfold FeClosed.mass_entry, FeClosed.mass_value.
  destruct (Z.eq_dec x y) as [->|Hxy]; [done|].
  destruct (Z.eq_dec y (x + 1)%Z) as [->|H1].
  { replace (x + 1 - 1)%Z with x by lia. zbool. }
  destruct (Z.eq_dec x (y + 1)%Z) as [->|H2].
  { replace (y + 1 - 1)%Z with y by lia. zbool. }
  zbool.
Qed.

Lemma fe_stiffness_entry_sym (nx : Z) (mu h : list R) (x y : Z) :
  FeClosed.stiffness_entry nx mu h x y = FeClosed.stiffness_entry nx mu h y x.
Proof.
  unfold FeClosed.stiffness_entry, FeClosed.stiffness_value.
  destruct (Z.eq_dec x y) as [->|Hxy]; [done|].
  destruct (Z.eq_dec y (x + 1)%Z) as [->|H1].
  { replace (x + 1 - 1)%Z with x by lia. zbool. }
  destruct (Z.eq_dec x (y + 1)%Z) as [->|H2].
  { replace (y + 1 - 1)%Z with y by lia. zbool. }
  zbool.
Qed.

(** ** Accumulated sums *)

Lemma fold_acc (l : list Z) (g : Z -> R) (s : R) :
  fold_left (fun s k => (s + g k)%R) l s =
  (s + fold_left (fun s k => (s + g k)%R) l 0)%R.
Proof.
  revert s. induction l as [|k l IH]; intros s; cbn; [lra|].
  rewrite (IH (s + g k)%R), (IH (0 + g k)%R). lra.
Qed.

Lemma acc_nil (a b : Z) (g : Z -> R) : (b <= a)%Z -> SeClosed.acc a b g = 0%R.
Proof. intros H. unfold SeClosed.acc. by rewrite range_nil. Qed.

Lemma acc_snoc (a b : Z) (g : Z -> R) :
  (a <= b)%Z -> SeClosed.acc a (b + 1) g = (SeClosed.acc a b g + g b)%R.
Proof.
  intros H. unfold SeClosed.acc. by rewrite range_snoc, fold_left_app.
Qed.

Lemma acc_app (a m b : Z) (g : Z -> R) :
  (a <= m <= b)%Z ->
  SeClosed.acc a b g = (SeClosed.acc a m g + SeClosed.acc m b g)%R.
Proof.
  intros H. unfold SeClosed.acc.
  rewrite (range_app a m b), fold_left_app by done. apply fold_acc.
Qed.

Lemma acc_ext (a b : Z) (g g' : Z -> R) :
  (forall k, (a <= k < b)%Z -> g k = g' k) ->
  SeClosed.acc a b g = SeClosed.acc a b g'.
Proof.
  intros H. unfold SeClosed.acc.
  assert (forall k, k ∈ range a b -> g k = g' k) as Hin
    by (intros k Hk; apply H; by apply elem_of_range).
  clear H. generalize 0%R.
  induction (range a b) as [|k l IH]; intros s; cbn; [done|].
  rewrite (Hin k) by left. apply IH. intros k' Hk'. apply Hin. by right.
Qed.

Lemma acc_zero (a b : Z) (g : Z -> R) :
  (forall k, (a <= k < b)%Z -> g k = 0%R) -> SeClosed.acc a b g = 0%R.
Proof.
  intros H. rewrite (acc_ext a b g (fun _ => 0%R)) by done.
  unfold SeClosed.acc. generalize (range a b). intros l.
  induction l as [|k l IH]; cbn; [done|].
  rewrite fold_acc, IH. lra.
Qed.

Lemma acc_one (a : Z) (g : Z -> R) : SeClosed.acc a (a + 1) g = g a.
Proof. rewrite acc_snoc, acc_nil by lia. lra. Qed.

(** A sum whose terms vanish but for two neighbours. *)
Lemma acc_two (a b p : Z) (g : Z -> R) :
  (a <= p)%Z -> (p + 1 < b)%Z ->
  (forall k, (a <= k < b)%Z -> k <> p -> k <> (p + 1)%Z -> g k = 0%R) ->
  SeClosed.acc a b g = (g p + g (p + 1)%Z)%R.
Proof.
  intros H1 H2 Hz.
  rewrite (acc_app a p b), (acc_app p (p + 1) b), (acc_app (p + 1) (p + 1 + 1) b)
    by lia.
  rewrite !acc_one, (acc_zero a p), (acc_zero (p + 1 + 1) b).
  - lra.
  - intros k Hk. apply Hz; lia.
  - intros k Hk. apply Hz; lia.
Qed.

(** A sum distributes over a factor and over a sum of terms. *)
Lemma acc_scale (a b : Z) (c : R) (g : Z -> R) :
  SeClosed.acc a b (fun k => (c * g k)%R) = (c * SeClosed.acc a b g)%R.
Proof.
  unfold SeClosed.acc. generalize (range a b). intros l.
  induction l as [|k l IH]; cbn; [lra|].
  rewrite fold_acc, (fold_acc l g), IH. lra.
Qed.

Lemma acc_plus (a b : Z) (g g' : Z -> R) :
  SeClosed.acc a b (fun k => (g k + g' k)%R) =
  (SeClosed.acc a b g + SeClosed.acc a b g')%R.
Proof.
  unfold SeClosed.acc. generalize (range a b). intros l.
  induction l as [|k l IH]; cbn; [lra|].
  rewrite fold_acc, (fold_acc l g), (fold_acc l g'), IH. lra.
Qed.

Lemma acc_swap (a b a' b' : Z) (g : Z -> Z -> R) :
  SeClosed.acc a b (fun k => SeClosed.acc a' b' (g k)) =
  SeClosed.acc a' b' (fun k' => SeClosed.acc a b (fun k => g k k')).
Proof.
  unfold SeClosed.acc at 1 4. generalize (range a b). intros l.
  induction l as [|k l IH]; cbn.
  - symmetry. by apply acc_zero.
  - rewrite fold_acc, IH.
    transitivity
      (SeClosed.acc a' b'
         (fun k' => (g k k' + fold_left (fun s k0 => s + g k0 k') l 0)%R)).
    + rewrite acc_plus. change (fun k' => g k k') with (g k). lra.
    + apply acc_ext. intros k' _. rewrite (fold_acc l _ (0 + g k k')). lra.
Qed.

(** ** The stiffness matrix of the heterogeneous spectral-element notebook *)

Lemma ng_eq (N ne : Z) : SeHomo.ng N ne = (ne * N + 1)%Z.
Proof. unfold SeHomo.ng. lia. Qed.

Section HeteroStiffness.

Variables (xmax : R) (N ne : Z) (mu w : list R) (l1d : list (list R)).
Hypothesis HN : (0 <= N)%Z.
Hypothesis Hne : (1 <= ne)%Z.
Hypothesis Hmu : Z.of_nat (length mu) = SeHomo.ng N ne.
Hypothesis Hw : Z.of_nat (length w) = (N + 1)%Z.
Hypothesis Hl1d : Py.shape2 (N + 1) (N + 1) l1d.

Let Ji := SeHetero.Ji xmax ne.
Let J := SeHetero.J xmax ne.

(** The innermost loop: the quadrature sum of one entry. *)
Lemma hetero_sum_spec (e i j : Z) :
  (1 <= e <= ne)%Z -> (-1 <= i < N)%Z -> (-1 <= j < N)%Z ->
  for_ (range (-1) N)
    (fun k sum =>
       m ← Py.getitem mu (k + 1 + (e - 1) * N);
       wk ← Py.getitem w (k + 1);
       lik ← Py.getitem2 l1d (i + 1) (k + 1);
       ljk ← Py.getitem2 l1d (j + 1) (k + 1);
       Returned (sum + m * wk * Ji ^ 2 * J * lik * ljk)%R) 0%R
  = Returned (SeClosed.hetero_Ke xmax N ne mu w l1d ((e - 1) * N) (i + 1) (j + 1)).
Proof.
  intros He Hi Hj.
  match goal with
  | |- for_ _ ?body _ = _ =>
      destruct (for_range_inv
                  (fun k s => s = SeClosed.acc (-1) k
                     (SeClosed.hetero_term xmax ne mu w l1d ((e - 1) * N)
                        (i + 1) (j + 1)))
                  (-1) N body 0%R) as (s & E & ->)
  end; [lia | by rewrite acc_nil | | done].
  intros k s Hk ->.
  assert (0 <= (e - 1) * N /\ (e - 1) * N + N <= ne * N)%Z as [? ?] by nia.
  rewrite !getitem_item by (rewrite ?Hmu, ?ng_eq; lia).
  rewrite !(getitem2_entry (N + 1) (N + 1)) by (done || lia).
  rewrite !bind_Returned.
  eexists. split; [done|]. by rewrite acc_snoc by lia.
Qed.

(** The elemental stiffness matrix of element [e], whatever [Ke] held. *)
Lemma hetero_Ke_loop_spec (e : Z) (Ke0 : list (list R)) :
  (1 <= e <= ne)%Z -> Py.shape2 (N + 1) (N + 1) Ke0 ->
  exists Ke, SeHetero.Ke_loop xmax N ne mu w l1d ((e - 1) * N) Ke0 = Returned Ke /\
    Py.shape2 (N + 1) (N + 1) Ke /\
    forall a b, (0 <= a <= N)%Z -> (0 <= b <= N)%Z ->
      Np.entry Ke a b = SeClosed.hetero_Ke xmax N ne mu w l1d ((e - 1) * N) a b.
Proof.
  intros He Hs0. unfold SeHetero.Ke_loop.
  match goal with
  | |- exists Ke, for_ _ (fun i => for_ _ (fun j => @?body i j)) _ = _ /\ _ =>
      destruct (visit_loop2 Np.entry (N + 1) (N + 1) (-1) N (-1) N 1 1 body
                  (SeClosed.hetero_Ke xmax N ne mu w l1d ((e - 1) * N)) Ke0)
        as (Ke & E & Hs & HKe)
  end; [done | lia | lia | |].
  - intros i j M Hi Hj HsM _. cbn beta.
    fold Ji J. rewrite (hetero_sum_spec e i j) by done. rewrite bind_Returned.
    destruct (setitem2_entry (N + 1) (N + 1) M (i + 1) (j + 1)
                (SeClosed.hetero_Ke xmax N ne mu w l1d ((e - 1) * N)
                   (i + 1) (j + 1)) HsM) as (M' & EM & HsM' & HM');
      [lia | lia |].
    exists M'. split; [done|]. split; [done|].
    intros x y. rewrite HM', (Z.add_comm 1 i), (Z.add_comm 1 j).
    destruct (Z.eqb_spec x (i + 1)) as [->|]; [|done].
    by destruct (Z.eqb_spec y (j + 1)) as [->|].
  - exists Ke. split; [done|]. split; [done|].
    intros a b Ha Hb. rewrite HKe.
    destruct (Z.leb_spec (1 + -1) a), (Z.ltb_spec a (1 + N)),
      (Z.leb_spec (1 + -1) b), (Z.ltb_spec b (1 + N)); cbn; (done || lia).
Qed.

(** The block of one element is added to the global matrix. *)
Lemma hetero_K_block_spec (e : Z) (Ke K0 : list (list R)) :
  (1 <= e <= ne)%Z -> Py.shape2 (N + 1) (N + 1) Ke ->
  Py.shape2 (SeHomo.ng N ne) (SeHomo.ng N ne) K0 ->
  exists K,
    SeHetero.K_block N ((e - 1) * N + 1) ((e - 1) * N + 1) Ke K0 = Returned K /\
    Py.shape2 (SeHomo.ng N ne) (SeHomo.ng N ne) K /\
    forall x y, Np.entry K x y =
      (Np.entry K0 x y +
       if SeClosed.in_block N e x y
       then Np.entry Ke (x - (e - 1) * N) (y - (e - 1) * N) else 0)%R.
Proof.
  intros He HsKe Hs0. unfold SeHetero.K_block. set (i0 := ((e - 1) * N + 1)%Z).
  assert (0 <= (e - 1) * N /\ (e - 1) * N + N <= ne * N)%Z as [? ?] by nia.
  match goal with
  | |- exists K, for_ _ (fun i => for_ _ (fun j => @?body i j)) _ = _ /\ _ =>
      destruct (visit_loop2 Np.entry (SeHomo.ng N ne) (SeHomo.ng N ne)
                  (-1) N (-1) N i0 i0 body
                  (fun x y => (Np.entry K0 x y +
                               Np.entry Ke (x - i0 + 1) (y - i0 + 1))%R) K0)
        as (K & E & Hs & HK)
  end; [done | lia | lia | |].
  - intros i j M Hi Hj HsM Hfresh. cbn beta.
    rewrite (getitem2_entry (N + 1) (N + 1) Ke) by (done || lia).
    rewrite (getitem2_entry (SeHomo.ng N ne) (SeHomo.ng N ne) M)
      by (done || rewrite ng_eq; unfold i0; lia).
    rewrite !bind_Returned.
    match goal with
    | |- exists M', Py.setitem2 M ?a ?b ?v = _ /\ _ =>
        destruct (setitem2_entry (SeHomo.ng N ne) (SeHomo.ng N ne) M a b v HsM)
          as (M' & EM & HsM' & HM')
    end; [rewrite ng_eq; unfold i0; lia | rewrite ng_eq; unfold i0; lia |].
    exists M'. split; [done|]. split; [done|].
    intros x y. rewrite HM'.
    destruct (Z.eqb_spec x (i0 + i)) as [->|]; [|done].
    destruct (Z.eqb_spec y (i0 + j)) as [->|]; [|done]. cbn.
    rewrite Hfresh. do 2 f_equal; lia.
  - exists K. split; [done|]. split; [done|].
    intros x y. rewrite HK. unfold SeClosed.in_block, i0.
    destruct (Z.leb_spec ((e - 1) * N + 1 + -1) x),
      (Z.ltb_spec x ((e - 1) * N + 1 + N)),
      (Z.leb_spec ((e - 1) * N + 1 + -1) y),
      (Z.ltb_spec y ((e - 1) * N + 1 + N)),
      (Z.leb_spec ((e - 1) * N) x), (Z.leb_spec x (e * N)),
      (Z.leb_spec ((e - 1) * N) y), (Z.leb_spec y (e * N));
      cbn; try lia; try lra.
    do 2 f_equal; lia.
Qed.

(** The global stiffness matrix is assembled, and every cell holds the
    sum over the elements of what each adds to it. *)
Lemma hetero_K_spec :
  exists K, SeHetero.K xmax N ne mu w l1d = Returned K /\
    Py.shape2 (SeHomo.ng N ne) (SeHomo.ng N ne) K /\
    forall x y, Np.entry K x y = SeClosed.hetero_K xmax N ne mu w l1d x y.
Proof.
  unfold SeHetero.K, SeHetero.ng.
  pose proof (ng_eq N ne) as Hng.
  match goal with
  | |- exists K, (for_ _ ?body ?s0 ≫= _) = _ /\ _ =>
      destruct (for_range_inv
                  (fun e (s : Z * list (list R) * list (list R)) =>
                     fst (fst s) = ((e - 1) * N)%Z /\
                     Py.shape2 (N + 1) (N + 1) (snd (fst s)) /\
                     Py.shape2 (SeHomo.ng N ne) (SeHomo.ng N ne) (snd s) /\
                     forall x y, Np.entry (snd s) x y =
                       SeClosed.acc 1 e
                         (fun e' => SeClosed.hetero_block xmax N ne mu w l1d e' x y))
                  1 (ne + 1) body s0) as (s & E & _ & _ & Hs & HK)
  end; [lia | | | ].
  - cbn. split; [lia|]. split; [apply shape2_zeros2; lia|].
    split; [apply shape2_zeros2; lia|].
    intros x y. by rewrite entry_zeros2, acc_nil.
  - intros e [[xe Ke] K] He (Hxe & HsKe & HsK & HK). cbn in Hxe, HsKe, HsK, HK.
    subst xe. cbn beta iota.
    destruct (hetero_Ke_loop_spec e Ke) as (Ke' & -> & HsKe' & HKe');
      [lia | done |].
    rewrite bind_Returned.
    destruct (hetero_K_block_spec e Ke' K) as (K' & -> & HsK' & HK');
      [lia | done | done |].
    rewrite bind_Returned. eexists. split; [done|]. cbn.
    split; [lia|]. split; [done|]. split; [done|].
    intros x y. rewrite HK', HK, acc_snoc by lia. f_equal.
    unfold SeClosed.hetero_block, SeClosed.in_block.
    destruct (Z.leb_spec ((e - 1) * N) x), (Z.leb_spec x (e * N)),
      (Z.leb_spec ((e - 1) * N) y), (Z.leb_spec y (e * N)); cbn; try done.
    apply HKe'; lia.
  - rewrite E, bind_Returned. exists (snd s). done.
Qed.

Lemma hetero_term_sym (xe a b k : Z) :
  SeClosed.hetero_term xmax ne mu w l1d xe a b k =
  SeClosed.hetero_term xmax ne mu w l1d xe b a k.
Proof. unfold SeClosed.hetero_term. ring. Qed.

Lemma hetero_Ke_sym (xe a b : Z) :
  SeClosed.hetero_Ke xmax N ne mu w l1d xe a b =
  SeClosed.hetero_Ke xmax N ne mu w l1d xe b a.
Proof.
  unfold SeClosed.hetero_Ke. apply acc_ext. intros k _. apply hetero_term_sym.
Qed.

Lemma hetero_K_sym (x y : Z) :
  SeClosed.hetero_K xmax N ne mu w l1d x y =
  SeClosed.hetero_K xmax N ne mu w l1d y x.
Proof.
  unfold SeClosed.hetero_K. apply acc_ext. intros e _.
  unfold SeClosed.hetero_block, SeClosed.in_block.
  destruct (Z.leb_spec ((e - 1) * N) x), (Z.leb_spec x (e * N)),
    (Z.leb_spec ((e - 1) * N) y), (Z.leb_spec y (e * N)); cbn; try done.
  apply hetero_Ke_sym.
Qed.

(** The node shared by the elements [e] and [e+1] holds the sum of the
    last diagonal entry of the one and the first of the other. *)
Lemma hetero_K_shared (e : Z) :
  (1 <= N)%Z -> (1 <= e < ne)%Z ->
  SeClosed.hetero_K xmax N ne mu w l1d (e * N) (e * N) =
  (SeClosed.hetero_Ke xmax N ne mu w l1d ((e - 1) * N) N N +
   SeClosed.hetero_Ke xmax N ne mu w l1d (e * N) 0 0)%R.
Proof.
  intros HN1 He. unfold SeClosed.hetero_K.
  rewrite (acc_two 1 (ne + 1) e) by
    (try lia; intros k Hk H1 H2; unfold SeClosed.hetero_block, SeClosed.in_block;
     destruct (Z.leb_spec ((k - 1) * N) (e * N)), (Z.leb_spec (e * N) (k * N));
     cbn; try done; nia).
  unfold SeClosed.hetero_block, SeClosed.in_block.
  destruct (Z.leb_spec ((e - 1) * N) (e * N)); [|nia].
  destruct (Z.leb_spec (e * N) (e * N)); [|lia].
  destruct (Z.leb_spec ((e + 1 - 1) * N) (e * N)); [|nia].
  destruct (Z.leb_spec (e * N) ((e + 1) * N)); [|nia]. cbn.
  f_equal; f_equal; lia.
Qed.

End HeteroStiffness.

(** ** The stiffness matrix of the homogeneous spectral-element notebook *)

Section HomoStiffness.

Variables (xmax vs rho : R) (N ne : Z) (w : list R) (l1d : list (list R)).
Hypothesis HN : (0 <= N)%Z.
Hypothesis Hne : (1 <= ne)%Z.
Hypothesis Hw : Z.of_nat (length w) = (N + 1)%Z.
Hypothesis Hl1d : Py.shape2 (N + 1) (N + 1) l1d.

(** The elemental stiffness matrix: every entry is its quadrature sum. *)
Lemma homo_Ke_spec :
  exists Ke, SeHomo.Ke xmax vs rho N ne w l1d = Returned Ke /\
    Py.shape2 (N + 1) (N + 1) Ke /\
    forall a b, (0 <= a <= N)%Z -> (0 <= b <= N)%Z ->
      Np.entry Ke a b = SeClosed.homo_Ke xmax vs rho N ne w l1d a b.
Proof.
  unfold SeHomo.Ke.
  match goal with
  | |- exists Ke, for_ _ (fun i => for_ _ (fun j => @?body i j)) _ = _ /\ _ =>
      destruct (visit_loop2 Np.entry (N + 1) (N + 1) 0 (N + 1) 0 (N + 1) 0 0 body
                  (SeClosed.homo_Ke xmax vs rho N ne w l1d)
                  (Np.zeros2 (N + 1) (N + 1)))
        as (Ke & E & Hs & HKe)
  end; [apply shape2_zeros2; lia | lia | lia | |].
  - intros i j M Hi Hj HsM Hfresh. cbn beta.
    rewrite !Z.add_0_l, entry_zeros2 in Hfresh.
    match goal with
    | |- exists M', for_ _ ?kbody _ = _ /\ _ =>
        destruct (for_range_inv
                    (fun k M' => Py.shape2 (N + 1) (N + 1) M' /\
                       forall x y, Np.entry M' x y =
                         if ((x =? i) && (y =? j))%Z
                         then SeClosed.acc 0 k
                                (SeClosed.homo_term xmax vs rho ne w l1d i j)
                         else Np.entry M x y)
                    0 (N + 1) kbody M) as (M' & EM & HsM' & HM')
    end; [lia | | |].
    + split; [done|]. intros x y. rewrite acc_nil by lia.
      destruct (Z.eqb_spec x i) as [->|]; [|done].
      by destruct (Z.eqb_spec y j) as [->|].
    + intros k M1 Hk [Hs1 HM1].
      rewrite (getitem2_entry (N + 1) (N + 1) M1) by (done || lia).
      rewrite !(getitem2_entry (N + 1) (N + 1) l1d) by (done || lia).
      rewrite getitem_item by lia. rewrite !bind_Returned.
      match goal with
      | |- exists s', Py.setitem2 M1 i j ?v = _ /\ _ =>
          destruct (setitem2_entry (N + 1) (N + 1) M1 i j v Hs1)
            as (M2 & -> & Hs2 & HM2)
      end; [lia | lia |].
      exists M2. split; [done|]. split; [done|].
      intros x y. rewrite HM2, !HM1, !Z.eqb_refl. cbn [andb].
      rewrite acc_snoc by lia.
      by destruct ((x =? i) && (y =? j))%Z.
    + exists M'. split; [done|]. split; [done|].
      intros x y. rewrite HM', !Z.add_0_l.
      destruct (Z.eqb_spec x i) as [->|]; [|done].
      by destruct (Z.eqb_spec y j) as [->|].
  - exists Ke. split; [done|]. split; [done|].
    intros a b Ha Hb. rewrite HKe.
    destruct (Z.leb_spec (0 + 0) a), (Z.ltb_spec a (0 + (N + 1))),
      (Z.leb_spec (0 + 0) b), (Z.ltb_spec b (0 + (N + 1))); cbn; (done || lia).
Qed.

Lemma symmetric_zeros2 (r c : Z) : Np.symmetric (Np.zeros2 r c).
Proof. intros x y. by rewrite !entry_zeros2. Qed.

Lemma homo_term_sym (a b k : Z) :
  SeClosed.homo_term xmax vs rho ne w l1d a b k =
  SeClosed.homo_term xmax vs rho ne w l1d b a k.
Proof. unfold SeClosed.homo_term. ring. Qed.

Lemma homo_Ke_sym (Ke : list (list R)) :
  Py.shape2 (N + 1) (N + 1) Ke ->
  (forall a b, (0 <= a <= N)%Z -> (0 <= b <= N)%Z ->
     Np.entry Ke a b = SeClosed.homo_Ke xmax vs rho N ne w l1d a b) ->
  Np.symmetric Ke.
Proof.
  intros Hs HKe x y.
  destruct (decide ((0 <= x <= N)%Z /\ (0 <= y <= N)%Z)) as [[Hx Hy]|Hout].
  - rewrite !HKe by done. apply acc_ext. intros k _. apply homo_term_sym.
  - rewrite !(entry_outside (N + 1) (N + 1)) by (done || lia). done.
Qed.

(** The element blocks are assigned inside of the global matrix. *)
Lemma homo_K_blocks_spec (Ke : list (list R)) :
  Py.shape2 (N + 1) (N + 1) Ke ->
  exists K, SeHomo.K_blocks N ne Ke = Returned K /\
    Py.shape2 (SeHomo.ng N ne) (SeHomo.ng N ne) K /\
    (Np.symmetric Ke -> Np.symmetric K).
Proof.
  intros HsKe. unfold SeHomo.K_blocks.
  apply (for_range_inv
           (fun _ K => Py.shape2 (SeHomo.ng N ne) (SeHomo.ng N ne) K /\
                       (Np.symmetric Ke -> Np.symmetric K)));
    [lia | split; [apply shape2_zeros2; rewrite ng_eq; nia
                  | intros _; apply symmetric_zeros2] |].
  intros k K Hk [HsK Hsym]. cbn zeta.
  assert (0 <= (k - 1) * N /\ (k - 1) * N + N <= ne * N)%Z as [? ?] by nia.
  match goal with
  | |- exists K', for_ _ (fun i => for_ _ (fun j => @?body i j)) _ = _ /\ _ =>
      destruct (visit_loop2 Np.entry (SeHomo.ng N ne) (SeHomo.ng N ne)
                  (-1) N (-1) N ((k - 1) * N + 1) ((k - 1) * N + 1) body
                  (fun x y => Np.entry Ke (x - ((k - 1) * N + 1) + 1)
                                          (y - ((k - 1) * N + 1) + 1)) K)
        as (Kb & E & Hs & HKb)
  end; [done | lia | lia | | ].
  - intros i j M Hi Hj HsM _. cbn beta.
    rewrite (getitem2_entry (N + 1) (N + 1) Ke) by (done || lia).
    rewrite bind_Returned.
    match goal with
    | |- exists M', Py.setitem2 M ?a ?b ?v = _ /\ _ =>
        destruct (setitem2_entry (SeHomo.ng N ne) (SeHomo.ng N ne) M a b v HsM)
          as (M' & EM & HsM' & HM')
    end; [rewrite ng_eq; lia | rewrite ng_eq; lia |].
    exists M'. split; [done|]. split; [done|].
    intros x y. rewrite HM'.
    destruct (Z.eqb_spec x ((k - 1) * N + 1 + i)) as [->|]; [|done].
    destruct (Z.eqb_spec y ((k - 1) * N + 1 + j)) as [->|]; [|done]. cbn.
    f_equal; lia.
  - exists Kb. split; [done|]. split; [done|].
    intros HKe x y. rewrite !HKb.
    destruct (Z.leb_spec ((k - 1) * N + 1 + -1) x),
      (Z.ltb_spec x ((k - 1) * N + 1 + N)),
      (Z.leb_spec ((k - 1) * N + 1 + -1) y),
      (Z.ltb_spec y ((k - 1) * N + 1 + N)); cbn; try apply HKe;
      by apply Hsym.
Qed.

(** The entries at the element boundaries: the shared node of the
    elements [k-1] and [k] is set to [Ke[0,0] + Ke[N,N]]. *)
Lemma homo_K_boundaries_spec (Ke K0 : list (list R)) :
  Py.shape2 (N + 1) (N + 1) Ke ->
  Py.shape2 (SeHomo.ng N ne) (SeHomo.ng N ne) K0 ->
  exists K, SeHomo.K_boundaries N ne Ke K0 = Returned K /\
    Py.shape2 (SeHomo.ng N ne) (SeHomo.ng N ne) K /\
    (forall e, (1 <= e < ne)%Z ->
       Np.entry K (e * N) (e * N) = (Np.entry Ke 0 0 + Np.entry Ke N N)%R) /\
    (Np.symmetric K0 -> Np.symmetric K).
Proof.
  intros HsKe HsK0. unfold SeHomo.K_boundaries.
  match goal with
  | |- exists K, for_ _ ?body _ = _ /\ _ =>
      destruct (for_range_inv
                  (fun k K => Py.shape2 (SeHomo.ng N ne) (SeHomo.ng N ne) K /\
                     (forall e, (1 <= e < k - 1)%Z ->
                        Np.entry K (e * N) (e * N) =
                        (Np.entry Ke 0 0 + Np.entry Ke N N)%R) /\
                     (Np.symmetric K0 -> Np.symmetric K))
                  2 (ne + 1) body K0) as (K & E & Hs & HK & Hsym)
  end; [lia | split; [done | split; [intros; lia | done]] | |].
  - intros k K [Hk1 Hk2] (HsK & HK & Hsym). cbn zeta.
    assert (0 <= (k - 1) * N /\ (k - 1) * N <= ne * N - N)%Z as [? ?] by nia.
    rewrite !(getitem2_entry (N + 1) (N + 1) Ke) by (done || lia).
    rewrite !bind_Returned.
    destruct (setitem2_entry (SeHomo.ng N ne) (SeHomo.ng N ne) K
                ((k - 1) * N) ((k - 1) * N)
                (Np.entry Ke 0 0 + Np.entry Ke N N) HsK) as (K' & -> & Hs' & HK');
      [rewrite ng_eq; lia | rewrite ng_eq; lia |].
    exists K'. split; [done|]. split; [done|]. split.
    + intros e He. rewrite HK'.
      destruct (Z.eqb_spec (e * N) ((k - 1) * N)); [done|]. cbn.
      apply HK. assert (e <> k - 1)%Z by (intros ->; lia). lia.
    + intros HK0 x y. rewrite !HK'.
      destruct (Z.eqb_spec x ((k - 1) * N)), (Z.eqb_spec y ((k - 1) * N));
        cbn; try done; by apply Hsym.
  - exists K. split; [done|]. split; [done|]. split; [|done].
    intros e He. apply HK. lia.
Qed.

(** The assembled matrix of the homogeneous notebook: it is symmetric,
    and a shared node holds the sum of the two corner entries of [Ke]. *)
Lemma homo_K_shared :
  exists Ke K,
    SeHomo.Ke xmax vs rho N ne w l1d = Returned Ke /\
    SeHomo.K xmax vs rho N ne w l1d = Returned K /\
    Py.shape2 (SeHomo.ng N ne) (SeHomo.ng N ne) K /\
    (forall e, (1 <= e < ne)%Z ->
       Np.entry K (e * N) (e * N) = (Np.entry Ke 0 0 + Np.entry Ke N N)%R) /\
    Np.symmetric K.
Proof.
  destruct homo_Ke_spec as (Ke & EKe & HsKe & HKe).
  destruct (homo_K_blocks_spec Ke HsKe) as (K1 & E1 & Hs1 & Hsym1).
  destruct (homo_K_boundaries_spec Ke K1 HsKe Hs1) as (K & E & Hs & HK & Hsym).
  exists Ke, K. split; [done|]. split.
  { unfold SeHomo.K. by rewrite EKe, bind_Returned, E1, bind_Returned. }
  split; [done|]. split; [done|].
  apply Hsym, Hsym1. by apply homo_Ke_sym.
Qed.

End HomoStiffness.

(** ** Shared degrees of freedom *)

Lemma elem_of_element_dofs (N e x : Z) :
  (0 <= N)%Z ->
  x ∈ SeClosed.element_dofs N e <-> ((e - 1) * N <= x <= e * N)%Z.
Proof.
  intros HN. unfold SeClosed.element_dofs. rewrite list_elem_of_fmap. split.
  - intros (i & -> & Hi). apply elem_of_range in Hi. lia.
  - intros Hx. exists (x - ((e - 1) * N + 1))%Z. split; [lia|].
    apply elem_of_range. lia.
Qed.

Lemma filter_none {A : Type} (P : A -> Prop) `{forall x, Decision (P x)}
    (l : list A) :
  (forall x, x ∈ l -> ~ P x) -> filter P l = [].
Proof.
  induction l as [|a l IH]; intros Hl; [done|].
  rewrite filter_cons_False by (apply Hl; left).
  apply IH. intros x Hx. apply Hl. by right.
Qed.

(** The elements whose block covers the node shared by [e] and [e+1]
    are these two. *)
Lemma elements_at_shared_node (N ne e : Z) :
  (1 <= N)%Z -> (1 <= e < ne)%Z ->
  filter (fun e' => (e * N)%Z ∈ SeClosed.element_dofs N e') (range 1 (ne + 1))
  = [e; (e + 1)%Z].
Proof.
  intros HN He.
  rewrite (range_app 1 e (ne + 1)), (range_app e (e + 1 + 1) (ne + 1)) by lia.
  rewrite (range_cons e), (range_cons (e + 1)), (range_nil (e + 1 + 1)) by lia.
  rewrite !filter_app.
  rewrite (filter_none _ (range 1 e)), (filter_none _ (range (e + 1 + 1) (ne + 1))).
  - rewrite filter_cons_True by (apply elem_of_element_dofs; nia).
    rewrite filter_cons_True by (apply elem_of_element_dofs; nia). done.
  - intros k Hk Hin. apply elem_of_range in Hk.
    apply elem_of_element_dofs in Hin; nia.
  - intros k Hk Hin. apply elem_of_range in Hk.
    apply elem_of_element_dofs in Hin; nia.
Qed.

(** C3. In the global stiffness assembly the degree of freedom shared by
    two adjacent elements (the last node of element [e], the first of
    element [e+1]) holds the sum of the contributions of the two: in the
    heterogeneous notebook, which accumulates the blocks with [+=], and
    in the homogeneous notebook, which assigns the blocks and then sets
    the shared diagonal entries to [Ke[0,0] + Ke[N,N]]; and the elements
    whose block loop reaches such a node are exactly these two: the
    block loop of [e] adds [Ke[N,N]] there, that of [e+1] adds
    [Ke[0,0]], and that of any other element leaves the entry as it is.
    (The domain has a length other than zero: the notebooks divide by
    the Jacobian.) *)
Theorem shared_nodes_sum_two_elements
    (xmax vs rho : R) (N ne : Z) (mu w : list R) (l1d : list (list R)) :
  (1 <= N)%Z -> (1 <= ne)%Z -> xmax <> 0%R ->
  Z.of_nat (length mu) = SeHomo.ng N ne ->
  Z.of_nat (length w) = (N + 1)%Z ->
  Py.shape2 (N + 1) (N + 1) l1d ->
  (* heterogeneous *)
  (exists K, SeHetero.K xmax N ne mu w l1d = Returned K /\
     forall e Ke0 Ke0', (1 <= e < ne)%Z ->
       Py.shape2 (N + 1) (N + 1) Ke0 -> Py.shape2 (N + 1) (N + 1) Ke0' ->
       exists Ke1 Ke2,
         SeHetero.Ke_loop xmax N ne mu w l1d ((e - 1) * N) Ke0 = Returned Ke1 /\
         SeHetero.Ke_loop xmax N ne mu w l1d (e * N) Ke0' = Returned Ke2 /\
         Np.entry K (e * N) (e * N) = (Np.entry Ke1 N N + Np.entry Ke2 0 0)%R) /\
  (* homogeneous *)
  (exists Ke K,
     SeHomo.Ke xmax vs rho N ne w l1d = Returned Ke /\
     SeHomo.K xmax vs rho N ne w l1d = Returned K /\
     forall e, (1 <= e < ne)%Z ->
       Np.entry K (e * N) (e * N) = (Np.entry Ke 0 0 + Np.entry Ke N N)%R) /\
  (* the elements that contribute *)
  (forall e e' Ke K0, (1 <= e < ne)%Z -> (1 <= e' <= ne)%Z ->
     Py.shape2 (N + 1) (N + 1) Ke ->
     Py.shape2 (SeHomo.ng N ne) (SeHomo.ng N ne) K0 ->
     exists K1,
       SeHetero.K_block N ((e' - 1) * N + 1) ((e' - 1) * N + 1) Ke K0
         = Returned K1 /\
       Np.entry K1 (e * N) (e * N) =
         (Np.entry K0 (e * N) (e * N) +
          if (e' =? e)%Z then Np.entry Ke N N
          else if (e' =? e + 1)%Z then Np.entry Ke 0 0 else 0)%R) /\
  (forall e, (1 <= e < ne)%Z ->
     filter (fun e' => (e * N)%Z ∈ SeClosed.element_dofs N e') (range 1 (ne + 1))
     = [e; (e + 1)%Z]).
Proof.
  intros HN Hne Hxmax Hmu Hw Hl1d. split; [|split; [|split]].
  - destruct (hetero_K_spec xmax N ne mu w l1d) as (K & E & Hs & HK);
      try done; try lia.
    exists K. split; [done|]. intros e Ke0 Ke0' He Hs0 Hs0'.
    destruct (hetero_Ke_loop_spec xmax N ne mu w l1d ltac:(lia) Hne Hmu Hw Hl1d
                e Ke0) as (Ke1 & E1 & _ & H1); [lia | done |].
    destruct (hetero_Ke_loop_spec xmax N ne mu w l1d ltac:(lia) Hne Hmu Hw Hl1d
                (e + 1) Ke0') as (Ke2 & E2 & _ & H2); [lia | done |].
    replace ((e + 1 - 1) * N)%Z with (e * N)%Z in E2, H2 by lia.
    exists Ke1, Ke2. split; [done|]. split; [done|].
    rewrite HK, H1, H2 by lia.
    apply hetero_K_shared; (done || lia).
  - destruct (homo_K_shared xmax vs rho N ne w l1d) as (Ke & K & E1 & E2 & _ & H & _);
      try done; try lia.
    by exists Ke, K.
  - intros e e' Ke K0 He He' HsKe HsK0.
    destruct (hetero_K_block_spec N ne mu w ltac:(lia) Hw e' Ke K0 He' HsKe HsK0)
      as (K1 & E & _ & HK1).
    exists K1. split; [done|]. rewrite HK1. f_equal.
    unfold SeClosed.in_block.
    destruct (Z.eqb_spec e' e) as [->|Hne1].
    { destruct (Z.leb_spec ((e - 1) * N) (e * N)),
        (Z.leb_spec (e * N) (e * N)); cbn [andb]; try nia.
      f_equal; lia. }
    destruct (Z.eqb_spec e' (e + 1)) as [->|Hne2].
    { destruct (Z.leb_spec ((e + 1 - 1) * N) (e * N)),
        (Z.leb_spec (e * N) ((e + 1) * N)); cbn [andb]; try nia.
      f_equal; lia. }
    destruct (Z.leb_spec ((e' - 1) * N) (e * N)),
      (Z.leb_spec (e * N) (e' * N)); cbn [andb]; try done; nia.
  - intros e He. by apply elements_at_shared_node.
Qed.

Lemma shared_nodes_sum_two_elements_witness :
  (exists K, SeHetero.K 2 1 2 Sample.mu Sample.w Sample.l1d = Returned K /\
     forall e Ke0 Ke0', (1 <= e < 2)%Z ->
       Py.shape2 (1 + 1) (1 + 1) Ke0 -> Py.shape2 (1 + 1) (1 + 1) Ke0' ->
       exists Ke1 Ke2,
         SeHetero.Ke_loop 2 1 2 Sample.mu Sample.w Sample.l1d ((e - 1) * 1) Ke0
           = Returned Ke1 /\
         SeHetero.Ke_loop 2 1 2 Sample.mu Sample.w Sample.l1d (e * 1) Ke0'
           = Returned Ke2 /\
         Np.entry K (e * 1) (e * 1) = (Np.entry Ke1 1 1 + Np.entry Ke2 0 0)%R) /\
  (exists Ke K,
     SeHomo.Ke 2 1 1 1 2 Sample.w Sample.l1d = Returned Ke /\
     SeHomo.K 2 1 1 1 2 Sample.w Sample.l1d = Returned K /\
     forall e, (1 <= e < 2)%Z ->
       Np.entry K (e * 1) (e * 1) = (Np.entry Ke 0 0 + Np.entry Ke 1 1)%R) /\
  (forall e e' Ke K0, (1 <= e < 2)%Z -> (1 <= e' <= 2)%Z ->
     Py.shape2 (1 + 1) (1 + 1) Ke ->
     Py.shape2 (SeHomo.ng 1 2) (SeHomo.ng 1 2) K0 ->
     exists K1,
       SeHetero.K_block 1 ((e' - 1) * 1 + 1) ((e' - 1) * 1 + 1) Ke K0
         = Returned K1 /\
       Np.entry K1 (e * 1) (e * 1) =
         (Np.entry K0 (e * 1) (e * 1) +
          if (e' =? e)%Z then Np.entry Ke 1 1
          else if (e' =? e + 1)%Z then Np.entry Ke 0 0 else 0)%R) /\
  (forall e, (1 <= e < 2)%Z ->
     filter (fun e' => (e * 1)%Z ∈ SeClosed.element_dofs 1 e') (range 1 (2 + 1))
     = [e; (e + 1)%Z]).
Proof.
  apply (shared_nodes_sum_two_elements 2 1 1 1 2 Sample.mu Sample.w Sample.l1d).
  - lia.
  - lia.
  - lra.
  - reflexivity.
  - reflexivity.
  - split; [reflexivity|]. repeat constructor.
Defined.

(** C5. The assembled matrices are symmetric: the mass and the
    stiffness matrix of the finite-element notebook, for any density and
    shear modulus and for element sizes other than zero, and the
    stiffness matrices of the heterogeneous and of the homogeneous
    spectral-element notebook, for a domain of a length other than zero.
    (The spectral-element mass matrices are diagonal and stored as
    vectors.  The divisors are taken different from zero: numpy divides
    by a zero element size without raising and leaves an infinity or a
    NaN, and the notebooks raise at [Ji = 1/J] when the length of the
    domain is zero.) *)
Theorem assembled_matrices_symmetric
    (nx : Z) (ro mu_fe h : list R)
    (xmax vs rho : R) (N ne : Z) (mu w : list R) (l1d : list (list R)) :
  (2 <= nx)%Z ->
  Z.of_nat (length ro) = nx -> Z.of_nat (length mu_fe) = nx ->
  Z.of_nat (length h) = (nx - 1)%Z ->
  (forall i, (0 <= i < nx - 1)%Z -> Np.item h i <> 0%R) ->
  xmax <> 0%R ->
  (0 <= N)%Z -> (1 <= ne)%Z ->
  Z.of_nat (length mu) = SeHomo.ng N ne ->
  Z.of_nat (length w) = (N + 1)%Z ->
  Py.shape2 (N + 1) (N + 1) l1d ->
  (exists M, FeElastic.M nx ro h = Returned M /\ Np.symmetric M) /\
  (exists K, FeElastic.K nx mu_fe h = Returned K /\ Np.symmetric K) /\
  (exists K, SeHetero.K xmax N ne mu w l1d = Returned K /\ Np.symmetric K) /\
  (exists K, SeHomo.K xmax vs rho N ne w l1d = Returned K /\ Np.symmetric K).
Proof.
  intros Hnx Hro Hmf Hh Hh0 Hxmax HN Hne Hmu Hw Hl1d. split; [|split; [|split]].
  - destruct (fe_mass_spec nx ro h Hnx Hro Hh) as (M & E & _ & HM).
    exists M. split; [done|]. intros x y. rewrite !HM. apply fe_mass_entry_sym.
  - destruct (fe_stiffness_spec nx mu_fe h Hnx Hmf Hh) as (K & E & _ & HK).
    exists K. split; [done|]. intros x y. rewrite !HK.
    apply fe_stiffness_entry_sym.
  - destruct (hetero_K_spec xmax N ne mu w l1d) as (K & E & _ & HK); try done.
    exists K. split; [done|]. intros x y. rewrite !HK. apply hetero_K_sym.
  - destruct (homo_K_shared xmax vs rho N ne w l1d)
      as (Ke & K & _ & E & _ & _ & Hsym); try done.
    by exists K.
Qed.

Lemma assembled_matrices_symmetric_witness :
  (exists M, FeElastic.M 3 [1; 2; 3]%R [1; 1]%R = Returned M /\ Np.symmetric M) /\
  (exists K, FeElastic.K 3 [1; 2; 3]%R [1; 1]%R = Returned K /\ Np.symmetric K) /\
  (exists K, SeHetero.K 2 1 2 Sample.mu Sample.w Sample.l1d = Returned K /\
     Np.symmetric K) /\
  (exists K, SeHomo.K 2 1 1 1 2 Sample.w Sample.l1d = Returned K /\
     Np.symmetric K).
Proof.
  apply (assembled_matrices_symmetric 3 [1; 2; 3]%R [1; 2; 3]%R [1; 1]%R
           2 1 1 1 2 Sample.mu Sample.w Sample.l1d).
  - lia.
  - reflexivity.
  - reflexivity.
  - reflexivity.
  - intros i Hi. assert (i = 0 \/ i = 1)%Z as [-> | ->] by lia;
      unfold Np.item; simpl; lra.
  - lra.
  - lia.
  - lia.
  - reflexivity.
  - reflexivity.
  - split; [reflexivity|]. repeat constructor.
Defined.

(** ** Sums of arrays *)

Lemma sum_app (u v : list R) : Np.sum (u ++ v) = (Np.sum u + Np.sum v)%R.
Proof.
  unfold Np.sum. induction u as [|a u IH]; cbn; [lra|].
  rewrite IH. lra.
Qed.

Lemma sum_zeros (n : Z) : Np.sum (Np.zeros n) = 0%R.
Proof.
  unfold Np.zeros, Np.sum. induction (Z.to_nat n) as [|k IH]; cbn; [done|].
  rewrite IH. lra.
Qed.

(** Replacing an entry changes the sum by the difference. *)
Lemma sum_insert (a : list R) (i : Z) (v : R) :
  (0 <= i < Z.of_nat (length a))%Z ->
  Np.sum (<[Z.to_nat i := v]> a) = (Np.sum a - Np.item a i + v)%R.
Proof.
  intros Hi. unfold Np.item, Np.sum. destruct (Z.leb_spec 0 i); [|lia].
  assert (Z.to_nat i < length a)%nat as Hlt by lia.
  revert Hlt. generalize (Z.to_nat i). clear. intros n. revert n.
  induction a as [|x a IH]; intros [|n] Hn; simpl in *; try lia.
  - lra.
  - rewrite IH by lia. lra.
Qed.

Lemma sum_acc (v : list R) :
  Np.sum v = SeClosed.acc 0 (Z.of_nat (length v)) (Np.item v).
Proof.
  induction v as [|a v IH] using rev_ind.
  - by rewrite acc_nil.
  - rewrite sum_app, length_app. cbn [length].
    replace (Z.of_nat (length v + 1)) with (Z.of_nat (length v) + 1)%Z by lia.
    rewrite acc_snoc by lia. rewrite IH.
    rewrite (acc_ext _ _ (Np.item (v ++ [a])) (Np.item v)).
    + unfold Np.item at 3. destruct (Z.leb_spec 0 (Z.of_nat (length v))); [|lia].
      rewrite Nat2Z.id, lookup_app_r, Nat.sub_diag by lia.
      unfold Np.sum. cbn. lra.
    + intros k Hk. unfold Np.item. destruct (Z.leb_spec 0 k); [|done].
      by rewrite lookup_app_l by lia.
Qed.

(** ** The lumped mass matrices of the spectral-element notebooks *)

(** The scatter loop of one element, the same in both notebooks: the
    entries of [Me] are added at the [N+1] grid points of element [i]. *)
Lemma mass_scatter_spec (N ne i : Z) (Me M0 : list R) :
  (0 <= N)%Z -> (1 <= i <= ne)%Z ->
  Z.of_nat (length Me) = (N + 1)%Z ->
  Z.of_nat (length M0) = (2 * SeHomo.ng N ne)%Z ->
  exists M,
    for_ (range 0 (N + 1))
      (fun j '(k, M) =>
         let k := (k + 1)%Z in
         let k := if ((1 <? i) && (j =? 0))%Z then (k - 1)%Z else k in
         mk ← Py.getitem M k;
         mej ← Py.getitem Me j;
         M ← Py.setitem M k (mk + mej)%R;
         Returned (k, M))
      ((if (i =? 1)%Z then -1 else (i - 1) * N)%Z, M0)
    = Returned ((i * N)%Z, M) /\
    Z.of_nat (length M) = (2 * SeHomo.ng N ne)%Z /\
    Np.sum M = (Np.sum M0 + SeClosed.acc 0 (N + 1) (Np.item Me))%R.
Proof.
  intros HN Hi HMe HM0.
  assert (0 <= (i - 1) * N /\ (i - 1) * N + N <= ne * N)%Z as [? ?] by nia.
  match goal with
  | |- exists M, for_ _ ?body ?s0 = _ /\ _ =>
      destruct (for_range_inv
                  (fun j (s : Z * list R) =>
                     fst s = (if (j =? 0)%Z
                              then (if (i =? 1)%Z then -1 else (i - 1) * N)
                              else (i - 1) * N + j - 1)%Z /\
                     Z.of_nat (length (snd s)) = (2 * SeHomo.ng N ne)%Z /\
                     Np.sum (snd s) =
                       (Np.sum M0 + SeClosed.acc 0 j (Np.item Me))%R)
                  0 (N + 1) body s0) as ([k M] & E & Hk & HlM & HsM)
  end; [lia | | |].
  - cbn [fst snd]. split; [done|]. split; [done|]. rewrite acc_nil by lia. lra.
  - intros j [k M] Hj (Hk & HlM & HsM). cbn [fst snd] in Hk, HlM, HsM. subst k.
    cbn beta iota zeta.
    set (k' := (if ((1 <? i) && (j =? 0))%Z
                then (if (j =? 0)%Z
                      then if (i =? 1)%Z then -1 else (i - 1) * N
                      else (i - 1) * N + j - 1) + 1 - 1
                else (if (j =? 0)%Z
                      then if (i =? 1)%Z then -1 else (i - 1) * N
                      else (i - 1) * N + j - 1) + 1)%Z).
    assert (k' = ((i - 1) * N + j)%Z) as ->.
    { unfold k'. destruct (Z.ltb_spec 1 i), (Z.eqb_spec j 0), (Z.eqb_spec i 1);
        cbn; nia. }
    rewrite ng_eq in HlM.
    rewrite !getitem_item by lia. rewrite !bind_Returned.
    rewrite setitem_nonneg by lia. rewrite bind_Returned.
    eexists. split; [done|]. cbn [fst snd]. split; [|split].
    + destruct (Z.eqb_spec (j + 1) 0); lia.
    + rewrite length_insert, ng_eq. lia.
    + rewrite sum_insert, HsM, acc_snoc by lia. lra.
  - cbn [fst snd] in Hk, HlM, HsM. exists M. split; [|done].
    rewrite E. do 2 f_equal. destruct (Z.eqb_spec (N + 1) 0); lia.
Qed.

Lemma acc_const (a b : Z) (c : R) :
  (a <= b)%Z -> SeClosed.acc a b (fun _ => c) = (IZR (b - a) * c)%R.
Proof.
  intros Hab.
  assert (forall n : nat,
             SeClosed.acc a (a + Z.of_nat n) (fun _ => c)
             = (IZR (Z.of_nat n) * c)%R) as Hn.
  { induction n as [|n IH].
    - rewrite acc_nil by lia. change (IZR (Z.of_nat 0)) with 0%R. lra.
    - replace (a + Z.of_nat (S n))%Z with (a + Z.of_nat n + 1)%Z by lia.
      rewrite acc_snoc, IH by lia.
      rewrite Nat2Z.inj_succ, <- Z.add_1_r, plus_IZR. lra. }
  specialize (Hn (Z.to_nat (b - a))).
  rewrite Z2Nat.id in Hn by lia.
  replace (a + (b - a))%Z with b in Hn by lia. exact Hn.
Qed.

Section LumpedMass.

Variables (xmax : R) (N ne : Z) (w : list R).
Hypothesis HN : (0 <= N)%Z.
Hypothesis Hne : (1 <= ne)%Z.
Hypothesis Hw : Z.of_nat (length w) = (N + 1)%Z.

(** The elemental mass vector of the homogeneous notebook. *)
Lemma homo_Me_spec (rho : R) :
  exists Me, SeHomo.Me xmax rho N ne w = Returned Me /\
    Z.of_nat (length Me) = (N + 1)%Z /\
    forall l, (0 <= l <= N)%Z ->
      Np.item Me l = (rho * Np.item w l * SeHomo.J xmax ne)%R.
Proof.
  unfold SeHomo.Me.
  match goal with
  | |- exists Me, for_ _ ?body ?s0 = _ /\ _ =>
      destruct (for_range_inv
                  (fun i Me => Z.of_nat (length Me) = (N + 1)%Z /\
                     forall l, (0 <= l < i)%Z ->
                       Np.item Me l = (rho * Np.item w l * SeHomo.J xmax ne)%R)
                  0 (N + 1) body s0) as (Me & E & Hl & HMe)
  end; [lia | | |].
  - split; [rewrite length_zeros; lia | intros; lia].
  - intros i Me Hi [Hl HMe].
    rewrite getitem_item by lia. rewrite bind_Returned, setitem_nonneg by lia.
    eexists. split; [done|]. split; [rewrite length_insert; lia|].
    intros l Hlt. rewrite item_insert by lia.
    destruct (Z.eqb_spec l i) as [->|]; [done|]. apply HMe. lia.
  - exists Me. split; [done|]. split; [done|]. intros l Hlt. apply HMe. lia.
Qed.

(** The global mass vector of the homogeneous notebook: its entries sum
    to [ne] times the sum of the elemental masses. *)
Lemma homo_M_spec (rho : R) :
  exists M, SeHomo.M xmax rho N ne w = Returned M /\
    Z.of_nat (length M) = (2 * SeHomo.ng N ne)%Z /\
    Np.sum M =
      SeClosed.acc 1 (ne + 1)
        (fun _ => SeClosed.acc 0 (N + 1)
                    (fun l => (rho * Np.item w l * SeHomo.J xmax ne)%R)).
Proof.
  unfold SeHomo.M. destruct (homo_Me_spec rho) as (Me & -> & HlMe & HMe).
  rewrite bind_Returned.
  match goal with
  | |- exists M, (for_ _ ?body ?s0 ≫= _) = _ /\ _ =>
      destruct (for_range_inv
                  (fun i (s : Z * list R) =>
                     fst s = (if (i =? 1)%Z then -1 else (i - 1) * N)%Z /\
                     Z.of_nat (length (snd s)) = (2 * SeHomo.ng N ne)%Z /\
                     Np.sum (snd s) =
                       SeClosed.acc 1 i
                         (fun _ => SeClosed.acc 0 (N + 1)
                            (fun l => (rho * Np.item w l * SeHomo.J xmax ne)%R)))
                  1 (ne + 1) body s0) as ([k M] & E & Hk & Hl & Hs)
  end; [lia | | |].
  - cbn [fst snd]. split; [done|]. split.
    + rewrite length_zeros, ng_eq. nia.
    + by rewrite sum_zeros, acc_nil.
  - intros i [k M] Hi (Hk & Hl & Hs). cbn [fst snd] in Hk, Hl, Hs. subst k.
    destruct (mass_scatter_spec N ne i Me M) as (M' & E' & Hl' & Hs');
      [done | lia | done | done |].
    cbv zeta in E'. cbv zeta. rewrite E'.
    eexists. split; [done|]. cbn [fst snd]. split; [|split; [done|]].
    + destruct (Z.eqb_spec (i + 1) 1); [lia|]. f_equal. lia.
    + rewrite Hs', Hs, (acc_snoc 1 i) by lia. apply Rplus_eq_compat_l.
      apply acc_ext. intros l Hlt. apply HMe. lia.
  - rewrite E, bind_Returned. exists M. done.
Qed.

(** The elemental mass loop of the heterogeneous notebook. *)
Lemma hetero_Me_loop_spec (rho : list R) (m : Z) (Me0 : list R) :
  (-1 <= m)%Z -> (m + N + 1 < Z.of_nat (length rho))%Z ->
  Z.of_nat (length Me0) = (N + 1)%Z ->
  exists Me, SeHetero.Me_loop xmax N ne rho w m Me0
             = Returned ((m + N + 1)%Z, Me) /\
    Z.of_nat (length Me) = (N + 1)%Z /\
    forall l, (0 <= l <= N)%Z ->
      Np.item Me l =
      (Np.item rho (m + 1 + l) * Np.item w l * SeHetero.J xmax ne)%R.
Proof.
  intros Hm Hrho Hl0. unfold SeHetero.Me_loop.
  match goal with
  | |- exists Me, for_ _ ?body ?s0 = _ /\ _ =>
      destruct (for_range_inv
                  (fun l (s : Z * list R) =>
                     fst s = (m + l)%Z /\
                     Z.of_nat (length (snd s)) = (N + 1)%Z /\
                     forall l', (0 <= l' < l)%Z ->
                       Np.item (snd s) l' =
                       (Np.item rho (m + 1 + l') * Np.item w l'
                        * SeHetero.J xmax ne)%R)
                  0 (N + 1) body s0) as ([m' Me] & E & Hm' & Hl & HMe)
  end; [lia | | |].
  - cbn [fst snd]. split; [lia|]. split; [done | intros; lia].
  - intros l [m' Me] Hlt (Hm' & Hl & HMe). cbn [fst snd] in Hm', Hl, HMe.
    subst m'. cbn beta iota zeta.
    rewrite !getitem_item by lia. rewrite !bind_Returned.
    rewrite setitem_nonneg by lia. rewrite bind_Returned.
    eexists. split; [done|]. cbn [fst snd].
    split; [lia|]. split; [rewrite length_insert; lia|].
    intros l' Hl'. rewrite item_insert by lia.
    destruct (Z.eqb_spec l' l) as [->|].
    + do 2 f_equal. f_equal. lia.
    + apply HMe. lia.
  - cbn [fst snd] in Hm', Hl, HMe. subst m'. exists Me.
    split; [by rewrite E; do 2 f_equal; lia|]. split; [done|].
    intros l Hlt. apply HMe. lia.
Qed.

(** The global mass vector of the heterogeneous notebook: its entries
    sum to the quadrature of the density over the elements. *)
Lemma hetero_M_spec (rho : list R) :
  Z.of_nat (length rho) = SeHomo.ng N ne ->
  exists M, SeHetero.M xmax N ne rho w = Returned M /\
    Z.of_nat (length M) = (2 * SeHomo.ng N ne)%Z /\
    Np.sum M =
      SeClosed.acc 1 (ne + 1)
        (fun e => SeClosed.acc 0 (N + 1)
                    (fun l => (Np.item rho ((e - 1) * N + l) * Np.item w l
                               * SeHetero.J xmax ne)%R)).
Proof.
  intros Hrho. unfold SeHetero.M, SeHetero.ng.
  match goal with
  | |- exists M, (for_ _ ?body ?s0 ≫= _) = _ /\ _ =>
      destruct (for_range_inv
                  (fun i (s : Z * Z * list R * list R) =>
                     fst (fst (fst s)) =
                       (if (i =? 1)%Z then -1 else (i - 1) * N)%Z /\
                     snd (fst (fst s)) = ((i - 1) * N - 1)%Z /\
                     Z.of_nat (length (snd (fst s))) = (N + 1)%Z /\
                     Z.of_nat (length (snd s)) = (2 * SeHomo.ng N ne)%Z /\
                     Np.sum (snd s) =
                       SeClosed.acc 1 i
                         (fun e => SeClosed.acc 0 (N + 1)
                            (fun l => (Np.item rho ((e - 1) * N + l)
                                       * Np.item w l * SeHetero.J xmax ne)%R)))
                  1 (ne + 1) body s0) as ([[[k m] Me] M] & E & Hk & Hm & HlMe & Hl & Hs)
  end; [lia | | |].
  - cbn [fst snd]. split; [done|]. split; [lia|].
    split; [rewrite length_zeros; lia|]. split.
    + rewrite length_zeros, ng_eq. nia.
    + by rewrite sum_zeros, acc_nil.
  - intros i [[[k m] Me] M] Hi (Hk & Hm & HlMe & Hl & Hs).
    cbn [fst snd] in Hk, Hm, HlMe, Hl, Hs. subst k m. cbn beta iota zeta.
    assert (0 <= (i - 1) * N /\ (i - 1) * N + N <= ne * N)%Z as [? ?] by nia.
    destruct (hetero_Me_loop_spec rho ((i - 1) * N - 1) Me)
      as (Me' & -> & HlMe' & HMe'); [lia | rewrite Hrho, ng_eq; lia | done |].
    rewrite bind_Returned. cbn beta iota zeta.
    replace ((i - 1) * N - 1 + N + 1 - 1)%Z with ((i + 1 - 1) * N - 1)%Z by lia.
    destruct (mass_scatter_spec N ne i Me' M) as (M' & E' & Hl' & Hs');
      [done | lia | done | done |].
    cbv zeta in E'. cbv zeta. rewrite E', bind_Returned. eexists. split; [done|]. cbn [fst snd].
    split; [destruct (Z.eqb_spec (i + 1) 1); [lia|]; f_equal; lia|].
    split; [done|]. split; [done|]. split; [done|].
    rewrite Hs', Hs, (acc_snoc 1 i) by lia. apply Rplus_eq_compat_l.
    apply acc_ext. intros l Hlt. rewrite HMe' by lia. do 3 f_equal. lia.
  - rewrite E, bind_Returned. exists M. done.
Qed.

End LumpedMass.

(** ** Row sums of matrices *)

Lemma entry_row (m : list (list R)) (x y : Z) (row : list R) :
  (0 <= x)%Z -> m !! Z.to_nat x = Some row -> Np.entry m x y = Np.item row y.
Proof.
  intros Hx Hrow. unfold Np.entry, Py.cell, Np.item.
  destruct (Z.leb_spec 0 x); [|lia].
  destruct (Z.leb_spec 0 y); cbn; [|done]. by rewrite Hrow.
Qed.

Lemma item_map_sum (r c : Z) (m : list (list R)) (x : Z) :
  Py.shape2 r c m -> (0 <= x < r)%Z ->
  Np.item (map Np.sum m) x = SeClosed.acc 0 c (Np.entry m x).
Proof.
  intros Hm Hx. pose proof Hm as [Hr _].
  destruct (lookup_lt_is_Some_2 m (Z.to_nat x)) as [row Hrow]; [lia|].
  unfold Np.item at 1. destruct (Z.leb_spec 0 x); [|lia].
  rewrite list_lookup_fmap, Hrow. cbn.
  rewrite sum_acc, (shape2_row r c m _ row Hm Hrow).
  apply acc_ext. intros y _. symmetry. by apply entry_row.
Qed.

Lemma sum2_acc (r c : Z) (m : list (list R)) :
  Py.shape2 r c m ->
  Np.sum2 m = SeClosed.acc 0 r (fun x => SeClosed.acc 0 c (Np.entry m x)).
Proof.
  intros Hm. pose proof Hm as [Hr _]. unfold Np.sum2.
  rewrite sum_acc, length_map, Hr.
  apply acc_ext. intros x Hx. by apply (item_map_sum r c).
Qed.

Lemma mul_ones (row : list R) :
  Np.mul row (replicate (length row) 1%R) = row.
Proof.
  unfold Np.mul. induction row as [|v row IH]; [done|].
  cbn. rewrite IH. f_equal. lra.
Qed.

(** Component [x] of [m @ np.ones(c)] is the sum of row [x]. *)
Lemma matvec_ones (r c : Z) (m : list (list R)) (x : Z) :
  Py.shape2 r c m -> (0 <= x < r)%Z ->
  Np.item (Np.matvec m (replicate (Z.to_nat c) 1%R)) x
  = SeClosed.acc 0 c (Np.entry m x).
Proof.
  intros Hm Hx. rewrite <- (item_map_sum r c) by done.
  pose proof Hm as [Hr Hc].
  destruct (lookup_lt_is_Some_2 m (Z.to_nat x)) as [row Hrow]; [lia|].
  unfold Np.item, Np.matvec. destruct (Z.leb_spec 0 x); [|lia].
  rewrite !list_lookup_fmap, Hrow. cbn. unfold Np.dot.
  rewrite <- (shape2_row r c m _ row Hm Hrow), Nat2Z.id. by rewrite mul_ones.
Qed.

Lemma acc_window (a b lo hi : Z) (g : Z -> R) :
  (a <= lo)%Z -> (lo <= hi)%Z -> (hi <= b)%Z ->
  (forall k, (a <= k < b)%Z -> ~ (lo <= k < hi)%Z -> g k = 0%R) ->
  SeClosed.acc a b g = SeClosed.acc lo hi g.
Proof.
  intros H1 H2 H3 Hg.
  rewrite (acc_app a lo b), (acc_app lo hi b) by lia.
  rewrite (acc_zero a lo), (acc_zero hi b); [lra | |];
    intros k Hk; apply Hg; lia.
Qed.

Lemma acc_three (p : Z) (g : Z -> R) :
  SeClosed.acc (p - 1) (p + 2) g = (g (p - 1)%Z + g p + g (p + 1)%Z)%R.
Proof.
  replace (p + 2)%Z with (p + 1 + 1)%Z by lia.
  rewrite (acc_snoc (p - 1) (p + 1)) by lia.
  replace (p + 1)%Z with (p - 1 + 1 + 1)%Z at 1 by lia.
  rewrite (acc_snoc (p - 1) (p - 1 + 1)), acc_one by lia.
  by replace (p - 1 + 1)%Z with p by lia.
Qed.

(** ** Row sums of the finite-element matrices *)

(** Case analysis on the integer tests of the goal, dropping the
    impossible cases as they appear. *)
Ltac zprune :=
  repeat (match goal with
          | |- context [(?a =? ?b)%Z] => destruct (Z.eqb_spec a b)
          | |- context [(?a <=? ?b)%Z] => destruct (Z.leb_spec a b)
          | |- context [(?a <? ?b)%Z] => destruct (Z.ltb_spec a b)
          end; try lia; cbn [andb orb negb]);
  try done.

Lemma fe_stiffness_row_inner (nx : Z) (mu h : list R) (x : Z) :
  (1 <= x <= nx - 2)%Z ->
  SeClosed.acc 0 nx (FeClosed.stiffness_entry nx mu h x) =
  (FeClosed.stiffness_entry nx mu h x (x - 1)
   + FeClosed.stiffness_entry nx mu h x x
   + FeClosed.stiffness_entry nx mu h x (x + 1))%R.
Proof.
  intros Hx. rewrite (acc_window 0 nx (x - 1) (x + 2)), acc_three; try lia; [done|].
  intros k Hk Hout. unfold FeClosed.stiffness_entry, FeClosed.stiffness_value.
  zprune.
Qed.

Lemma fe_stiffness_row_corner (nx : Z) (mu h : list R) (x : Z) :
  (2 <= nx)%Z -> x = 0%Z \/ x = (nx - 1)%Z ->
  SeClosed.acc 0 nx (FeClosed.stiffness_entry nx mu h x) =
  FeClosed.stiffness_entry nx mu h x x.
Proof.
  intros Hnx Hx. rewrite (acc_window 0 nx x (x + 1)), acc_one; try lia; [done|].
  intros k Hk Hout. unfold FeClosed.stiffness_entry. zprune.
Qed.

(** The finite-element stiffness matrix applied to the vector of
    ones. *)
Lemma fe_stiffness_row_sums (nx : Z) (mu h : list R) :
  (4 <= nx)%Z -> Z.of_nat (length mu) = nx ->
  Z.of_nat (length h) = (nx - 1)%Z ->
  (forall i, (0 <= i < nx - 1)%Z -> Np.item h i <> 0%R) ->
  exists K, FeElastic.K nx mu h = Returned K /\
    let K1 := Np.matvec K (replicate (Z.to_nat nx) 1%R) in
    Np.entry K 0 1 = 0%R /\ Np.entry K 1 0 = 0%R /\
    Np.entry K (nx - 2) (nx - 1) = 0%R /\ Np.entry K (nx - 1) (nx - 2) = 0%R /\
    Np.item K1 0 = (Np.item mu 0 / Np.item h 0)%R /\
    Np.item K1 1 = (Np.item mu 0 / Np.item h 0)%R /\
    (forall x, (2 <= x <= nx - 3)%Z -> Np.item K1 x = 0%R) /\
    Np.item K1 (nx - 2) = (Np.item mu (nx - 2) / Np.item h (nx - 2))%R /\
    Np.item K1 (nx - 1) = (Np.item mu (nx - 1) / Np.item h (nx - 2))%R.
Proof.
  intros Hnx Hmu Hh _.
  destruct (fe_stiffness_spec nx mu h) as (K & E & Hs & HK); [lia | done | done |].
  exists K. split; [done|]. cbn zeta.
  assert (forall x, (0 <= x < nx)%Z ->
            Np.item (Np.matvec K (replicate (Z.to_nat nx) 1%R)) x
            = SeClosed.acc 0 nx (FeClosed.stiffness_entry nx mu h x)) as Hrow.
  { intros x Hx. rewrite (matvec_ones nx nx) by done.
    apply acc_ext. intros y _. apply HK. }
  rewrite !HK.
  repeat split.
  - unfold FeClosed.stiffness_entry. zprune.
  - unfold FeClosed.stiffness_entry. zprune.
  - unfold FeClosed.stiffness_entry. zprune.
  - unfold FeClosed.stiffness_entry. zprune.
  - rewrite Hrow, fe_stiffness_row_corner by lia.
    unfold FeClosed.stiffness_entry. zprune.
  - rewrite Hrow, fe_stiffness_row_inner by lia.
    unfold FeClosed.stiffness_entry, FeClosed.stiffness_value. zprune.
    change (1 - 1)%Z with 0%Z. unfold Rdiv. ring.
  - intros x Hx. rewrite Hrow, fe_stiffness_row_inner by lia.
    unfold FeClosed.stiffness_entry, FeClosed.stiffness_value. zprune.
    unfold Rdiv. ring.
  - rewrite Hrow, fe_stiffness_row_inner by lia.
    unfold FeClosed.stiffness_entry, FeClosed.stiffness_value. zprune.
    unfold Rdiv. ring.
  - rewrite Hrow, fe_stiffness_row_corner by lia.
    unfold FeClosed.stiffness_entry. zprune.
Qed.

(** X2. Stiffness matrix of the finite-element notebook.  For every grid
    of at least four points and all material arrays, the assembly
    returns a matrix [K]
    whose product with the vector of ones is not the zero vector: its
    components are [mu[0]/h[0]] in rows 0 and 1, [mu[nx-2]/h[nx-2]] in
    row [nx-2] and [mu[nx-1]/h[nx-2]] in row [nx-1]; only the rows in
    between sum to zero.  The loops run over [range(1, nx-1)] in both
    indices and the corners set the diagonal alone, so the couplings
    [K[0,1]], [K[1,0]], [K[nx-2,nx-1]] and [K[nx-1,nx-2]] stay zero.
    (The element sizes are taken different from zero: numpy divides by
    a zero without raising.) *)
Theorem fe_stiffness_times_ones (nx : Z) (mu h : list R) :
  (4 <= nx)%Z -> Z.of_nat (length mu) = nx ->
  Z.of_nat (length h) = (nx - 1)%Z ->
  (forall i, (0 <= i < nx - 1)%Z -> Np.item h i <> 0%R) ->
  exists K, FeElastic.K nx mu h = Returned K /\
    let K1 := Np.matvec K (replicate (Z.to_nat nx) 1%R) in
    Np.entry K 0 1 = 0%R /\ Np.entry K 1 0 = 0%R /\
    Np.entry K (nx - 2) (nx - 1) = 0%R /\ Np.entry K (nx - 1) (nx - 2) = 0%R /\
    Np.item K1 0 = (Np.item mu 0 / Np.item h 0)%R /\
    Np.item K1 1 = (Np.item mu 0 / Np.item h 0)%R /\
    (forall x, (2 <= x <= nx - 3)%Z -> Np.item K1 x = 0%R) /\
    Np.item K1 (nx - 2) = (Np.item mu (nx - 2) / Np.item h (nx - 2))%R /\
    Np.item K1 (nx - 1) = (Np.item mu (nx - 1) / Np.item h (nx - 2))%R.
Proof. exact (fe_stiffness_row_sums nx mu h). Qed.

Lemma fe_stiffness_times_ones_witness :
  exists K, FeElastic.K 4 [1; 1; 1; 1]%R [1; 1; 1]%R = Returned K /\
    Np.item (Np.matvec K [1; 1; 1; 1]%R) 0 = 1%R /\
    Np.item (Np.matvec K [1; 1; 1; 1]%R) 1 = 1%R /\
    Np.item (Np.matvec K [1; 1; 1; 1]%R) 2 = 1%R /\
    Np.item (Np.matvec K [1; 1; 1; 1]%R) 3 = 1%R.
Proof.
  destruct (fe_stiffness_times_ones 4 [1; 1; 1; 1]%R [1; 1; 1]%R)
    as (K & E & H); [lia | reflexivity | reflexivity | |].
  { intros i Hi.
    assert (i = 0 \/ i = 1 \/ i = 2)%Z as [->|[->| ->]] by lia;
      unfold Np.item; simpl; lra. }
  cbn zeta in H. destruct H as (_ & _ & _ & _ & H0 & H1 & _ & H2 & H3).
  change (replicate (Z.to_nat 4) 1%R) with [1; 1; 1; 1]%R in *.
  change (4 - 2)%Z with 2%Z in *. change (4 - 1)%Z with 3%Z in *.
  exists K. split; [exact E|].
  rewrite H0, H1, H2, H3. unfold Np.item. simpl. repeat split; lra.
Defined.

Lemma acc_first2 (a b : Z) (g : Z -> R) :
  (a + 2 <= b)%Z ->
  SeClosed.acc a b g = (g a + g (a + 1)%Z + SeClosed.acc (a + 2) b g)%R.
Proof.
  intros Hab. rewrite (acc_app a (a + 2) b) by lia.
  replace (a + 2)%Z with (a + 1 + 1)%Z at 1 by lia.
  by rewrite acc_snoc, acc_one by lia.
Qed.

Lemma acc_last2 (a b : Z) (g : Z -> R) :
  (a <= b - 2)%Z ->
  SeClosed.acc a b g =
  (SeClosed.acc a (b - 2) g + g (b - 2)%Z + g (b - 1)%Z)%R.
Proof.
  intros Hab. replace b with (b - 2 + 1 + 1)%Z at 1 by lia.
  rewrite !acc_snoc by lia. by replace (b - 2 + 1)%Z with (b - 1)%Z by lia.
Qed.

Lemma fe_mass_row_inner (nx : Z) (ro h : list R) (x : Z) :
  (1 <= x <= nx - 2)%Z ->
  SeClosed.acc 0 nx (FeClosed.mass_entry nx ro h x) =
  (FeClosed.mass_entry nx ro h x (x - 1)
   + FeClosed.mass_entry nx ro h x x
   + FeClosed.mass_entry nx ro h x (x + 1))%R.
Proof.
  intros Hx. rewrite (acc_window 0 nx (x - 1) (x + 2)), acc_three; try lia; [done|].
  intros k Hk Hout. unfold FeClosed.mass_entry, FeClosed.mass_value.
  zprune.
Qed.

Lemma fe_mass_row_corner (nx : Z) (ro h : list R) (x : Z) :
  (2 <= nx)%Z -> x = 0%Z \/ x = (nx - 1)%Z ->
  SeClosed.acc 0 nx (FeClosed.mass_entry nx ro h x) =
  FeClosed.mass_entry nx ro h x x.
Proof.
  intros Hnx Hx. rewrite (acc_window 0 nx x (x + 1)), acc_one; try lia; [done|].
  intros k Hk Hout. unfold FeClosed.mass_entry. zprune.
Qed.

(** The sum of the entries of the finite-element mass matrix, for a
    uniform density and spacing. *)
Lemma fe_mass_sum_uniform (nx : Z) (ro h : list R) (r d : R) :
  (4 <= nx)%Z -> Z.of_nat (length ro) = nx ->
  Z.of_nat (length h) = (nx - 1)%Z ->
  (forall i, (0 <= i < nx)%Z -> Np.item ro i = r) ->
  (forall i, (0 <= i < nx - 1)%Z -> Np.item h i = d) ->
  exists M, FeElastic.M nx ro h = Returned M /\
    Np.entry M 0 1 = 0%R /\ Np.entry M 1 0 = 0%R /\
    Np.entry M (nx - 2) (nx - 1) = 0%R /\ Np.entry M (nx - 1) (nx - 2) = 0%R /\
    Np.sum2 M = (r * (IZR (nx - 1) * d) - 2 / 3 * r * d)%R.
Proof.
  intros Hnx Hlro Hlh Hro Hh.
  destruct (fe_mass_spec nx ro h) as (M & E & Hs & HM); [lia | done | done |].
  exists M. split; [done|]. rewrite !HM.
  split; [unfold FeClosed.mass_entry; zprune|].
  split; [unfold FeClosed.mass_entry; zprune|].
  split; [unfold FeClosed.mass_entry; zprune|].
  split; [unfold FeClosed.mass_entry; zprune|].
  rewrite (sum2_acc nx nx) by done.
  rewrite (acc_ext 0 nx _
             (fun x => if ((x =? 0) || (x =? nx - 1))%Z then (r * d / 3)%R
                       else if ((x =? 1) || (x =? nx - 2))%Z
                            then (5 * (r * d) / 6)%R else (r * d)%R)).
  - rewrite (acc_first2 0 nx), (acc_last2 (0 + 2) nx) by lia.
    rewrite (acc_ext (0 + 2) (nx - 2) _ (fun _ => (r * d)%R)).
    + rewrite acc_const by lia.
      replace (nx - 2 - (0 + 2))%Z with (nx - 1 - 3)%Z by lia.
      rewrite (minus_IZR (nx - 1) 3). zprune. field.
    + intros x Hx. zprune.
  - intros x Hx.
    rewrite (acc_ext 0 nx _ (FeClosed.mass_entry nx ro h x))
      by (intros; apply HM).
    destruct (Z.eq_dec x 0%Z) as [->|];
      [|destruct (Z.eq_dec x (nx - 1)%Z) as [->|]].
    + rewrite fe_mass_row_corner by lia. unfold FeClosed.mass_entry. zprune.
      rewrite Hro, Hh by lia. done.
    + rewrite fe_mass_row_corner by lia. unfold FeClosed.mass_entry. zprune.
      rewrite Hro, Hh by lia. done.
    + rewrite fe_mass_row_inner by lia.
      unfold FeClosed.mass_entry, FeClosed.mass_value.
      zprune; rewrite ?Hro, ?Hh by lia; field.
Qed.

(** X1. Mass matrix of the finite-element notebook.  For a uniform
    density [r] on a grid of [nx >= 4] points with spacing [d], the
    assembly returns a
    matrix whose entries sum to [r * ((nx-1) * d) - 2/3 * r * d]: the
    density times the length of the domain, less the four couplings
    [M[0,1]], [M[1,0]], [M[nx-2,nx-1]], [M[nx-1,nx-2]] of [r*d/6] each
    that the loops over [range(1, nx-1)] never write. *)
Theorem fe_total_mass_uniform (nx : Z) (ro h : list R) (r d : R) :
  (4 <= nx)%Z -> Z.of_nat (length ro) = nx ->
  Z.of_nat (length h) = (nx - 1)%Z ->
  (forall i, (0 <= i < nx)%Z -> Np.item ro i = r) ->
  (forall i, (0 <= i < nx - 1)%Z -> Np.item h i = d) ->
  exists M, FeElastic.M nx ro h = Returned M /\
    Np.entry M 0 1 = 0%R /\ Np.entry M 1 0 = 0%R /\
    Np.entry M (nx - 2) (nx - 1) = 0%R /\ Np.entry M (nx - 1) (nx - 2) = 0%R /\
    Np.sum2 M = (r * (IZR (nx - 1) * d) - 2 / 3 * r * d)%R.
Proof. exact (fe_mass_sum_uniform nx ro h r d). Qed.

Lemma fe_total_mass_uniform_witness :
  exists M, FeElastic.M 4 [1; 1; 1; 1]%R [1; 1; 1]%R = Returned M /\
    Np.sum2 M = (7 / 3)%R.
Proof.
  destruct (fe_total_mass_uniform 4 [1; 1; 1; 1]%R [1; 1; 1]%R 1 1)
    as (M & E & _ & _ & _ & _ & Hsum).
  - lia.
  - reflexivity.
  - reflexivity.
  - intros i Hi.
    assert (i = 0 \/ i = 1 \/ i = 2 \/ i = 3)%Z as [->|[->|[->| ->]]] by lia;
      reflexivity.
  - intros i Hi.
    assert (i = 0 \/ i = 1 \/ i = 2)%Z as [->|[->| ->]] by lia; reflexivity.
  - exists M. split; [exact E|]. rewrite Hsum.
    change (4 - 1)%Z with 3%Z. lra.
Defined.

(** ** Total mass of the spectral-element mass vectors *)

(** The sum of the lumped masses of the homogeneous notebook. *)
Lemma homo_mass_sum (xmax rho : R) (N ne : Z) (w : list R) :
  (0 <= N)%Z -> (1 <= ne)%Z -> Z.of_nat (length w) = (N + 1)%Z ->
  Np.sum w = 2%R ->
  exists M, SeHomo.M xmax rho N ne w = Returned M /\
    Z.of_nat (length M) = (2 * SeHomo.ng N ne)%Z /\
    Np.sum M = (rho * xmax)%R.
Proof.
  intros HN Hne Hw Hsw.
  destruct (homo_M_spec xmax N ne w HN Hne Hw rho) as (M & E & Hl & Hs).
  exists M. split; [done|]. split; [done|].
  rewrite Hs, acc_const by lia.
  rewrite (acc_ext 0 (N + 1) _
             (fun l => (rho * SeHomo.J xmax ne * Np.item w l)%R))
    by (intros; ring).
  rewrite acc_scale. rewrite sum_acc, Hw in Hsw. rewrite Hsw.
  replace (ne + 1 - 1)%Z with ne by lia.
  unfold SeHomo.J, SeHomo.le. field. apply not_0_IZR. lia.
Qed.

(** X3. Lumped mass of the homogeneous spectral-element notebook.  For
    quadrature weights that sum to 2 (the length of the reference
    element), the assembly returns a vector of [2*ng] entries whose sum
    is the density times the length of the domain: the mass of a node
    shared by two elements is accumulated from both, and no mass is
    counted twice or dropped. *)
Theorem se_homo_total_mass (xmax rho : R) (N ne : Z) (w : list R) :
  (0 <= N)%Z -> (1 <= ne)%Z -> Z.of_nat (length w) = (N + 1)%Z ->
  Np.sum w = 2%R ->
  exists M, SeHomo.M xmax rho N ne w = Returned M /\
    Z.of_nat (length M) = (2 * SeHomo.ng N ne)%Z /\
    Np.sum M = (rho * xmax)%R.
Proof. exact (homo_mass_sum xmax rho N ne w). Qed.

Lemma se_homo_total_mass_witness :
  exists M, SeHomo.M 2 1 1 2 Sample.w = Returned M /\
    Z.of_nat (length M) = (2 * SeHomo.ng 1 2)%Z /\
    Np.sum M = (1 * 2)%R.
Proof.
  apply (se_homo_total_mass 2 1 1 2 Sample.w).
  - lia.
  - lia.
  - reflexivity.
  - unfold Np.sum, Sample.w. simpl. lra.
Defined.

(** The sum of the lumped masses of the heterogeneous notebook. *)
Lemma hetero_mass_sum (xmax : R) (N ne : Z) (rho w : list R) :
  (0 <= N)%Z -> (1 <= ne)%Z -> Z.of_nat (length w) = (N + 1)%Z ->
  Z.of_nat (length rho) = SeHomo.ng N ne ->
  exists M, SeHetero.M xmax N ne rho w = Returned M /\
    Z.of_nat (length M) = (2 * SeHomo.ng N ne)%Z /\
    Np.sum M =
      SeClosed.acc 1 (ne + 1)
        (fun e => SeClosed.acc 0 (N + 1)
                    (fun l => (Np.item rho ((e - 1) * N + l) * Np.item w l
                               * SeHetero.J xmax ne)%R)) /\
    forall r, (forall i, (0 <= i < SeHomo.ng N ne)%Z -> Np.item rho i = r) ->
      Np.sum w = 2%R -> Np.sum M = (r * xmax)%R.
Proof.
  intros HN Hne Hw Hrho.
  destruct (hetero_M_spec xmax N ne w HN Hne Hw rho Hrho) as (M & E & Hl & Hs).
  exists M. split; [done|]. split; [done|]. split; [done|].
  intros r Hr Hsw. rewrite Hs.
  rewrite (acc_ext 1 (ne + 1) _
             (fun _ => (r * SeHetero.J xmax ne * Np.sum w)%R)).
  - rewrite acc_const, Hsw by lia. replace (ne + 1 - 1)%Z with ne by lia.
    unfold SeHetero.J, SeHetero.le. field. apply not_0_IZR. lia.
  - intros e He.
    rewrite (acc_ext 0 (N + 1) _
               (fun l => (r * SeHetero.J xmax ne * Np.item w l)%R)).
    + rewrite acc_scale. by rewrite (sum_acc w), Hw.
    + intros l Hlt. rewrite Hr; [ring|]. rewrite ng_eq. nia.
Qed.

(** X4. Lumped mass of the heterogeneous spectral-element notebook.  The
    assembly returns a vector of [2*ng] entries whose sum is the
    Gauss-Lobatto-Legendre quadrature of the density over the elements,
    [sum_e sum_l rho[(e-1)*N + l] * w[l] * J]; for a uniform density and
    weights that sum to 2 this is the density times the length of the
    domain. *)
Theorem se_hetero_total_mass (xmax : R) (N ne : Z) (rho w : list R) :
  (0 <= N)%Z -> (1 <= ne)%Z -> Z.of_nat (length w) = (N + 1)%Z ->
  Z.of_nat (length rho) = SeHomo.ng N ne ->
  exists M, SeHetero.M xmax N ne rho w = Returned M /\
    Z.of_nat (length M) = (2 * SeHomo.ng N ne)%Z /\
    Np.sum M =
      SeClosed.acc 1 (ne + 1)
        (fun e => SeClosed.acc 0 (N + 1)
                    (fun l => (Np.item rho ((e - 1) * N + l) * Np.item w l
                               * SeHetero.J xmax ne)%R)) /\
    forall r, (forall i, (0 <= i < SeHomo.ng N ne)%Z -> Np.item rho i = r) ->
      Np.sum w = 2%R -> Np.sum M = (r * xmax)%R.
Proof. exact (hetero_mass_sum xmax N ne rho w). Qed.

Lemma se_hetero_total_mass_witness :
  exists M, SeHetero.M 2 1 2 Sample.mu Sample.w = Returned M /\
    Z.of_nat (length M) = (2 * SeHomo.ng 1 2)%Z.
Proof.
  destruct (se_hetero_total_mass 2 1 2 Sample.mu Sample.w)
    as (M & E & Hl & _); [lia | lia | reflexivity | reflexivity |].
  exists M. split; [exact E | exact Hl].
Defined.

(** ** The Chebyshev differentiation matrix *)

Lemma cheby_nodes_spec (nx : Z) :
  (1 <= nx)%Z ->
  exists x, Cheby.nodes nx = Returned x /\
    Z.of_nat (length x) = (nx + 1)%Z /\
    forall i, (0 <= i <= nx)%Z ->
      Np.item x i = cos (PI * IZR i / IZR nx).
Proof.
  intros Hnx. unfold Cheby.nodes.
  match goal with
  | |- exists x, for_ _ ?body ?s0 = _ /\ _ =>
      destruct (for_range_inv
                  (fun i x => Z.of_nat (length x) = (nx + 1)%Z /\
                     forall k, (0 <= k < i)%Z ->
                       Np.item x k = cos (PI * IZR k / IZR nx))
                  0 (nx + 1) body s0) as (x & E & Hl & Hx)
  end; [lia | | |].
  - split; [rewrite length_zeros; lia | intros; lia].
  - intros i x Hi [Hl Hx]. cbn beta.
    destruct (Z.eqb_spec nx 0); [lia|].
    rewrite setitem_nonneg by lia.
    eexists. split; [done|]. split; [rewrite length_insert; lia|].
    intros k Hk. rewrite item_insert by lia.
    destruct (Z.eqb_spec k i) as [->|]; [done|]. apply Hx. lia.
  - exists x. split; [done|]. split; [done|]. intros i Hi. apply Hx. lia.
Qed.

Lemma item_fill (v : list R) (a b : Z) (c : R) (k : Z) :
  (0 <= k < Z.of_nat (length v))%Z ->
  Np.item (Cheby.fill v a b c) k =
  if ((a <=? k) && (k <? b))%Z then c else Np.item v k.
Proof.
  intros Hk. unfold Np.item, Cheby.fill.
  destruct (Z.leb_spec 0 k); [|lia].
  rewrite list_lookup_imap.
  destruct (lookup_lt_is_Some_2 v (Z.to_nat k)) as [e He]; [lia|].
  rewrite He. cbn. rewrite Z2Nat.id by lia.
  by destruct ((a <=? k)%Z && (k <? b)%Z).
Qed.

Lemma cheby_weights_spec (nx : Z) :
  (1 <= nx)%Z ->
  exists cx, Cheby.weights nx = Returned cx /\
    Z.of_nat (length cx) = (nx + 1)%Z /\
    forall i, (0 <= i <= nx)%Z ->
      Np.item cx i = if ((i =? 0) || (i =? nx))%Z then 2%R else 1%R.
Proof.
  intros Hnx. unfold Cheby.weights.
  rewrite setitem_nonneg by (rewrite length_zeros; lia).
  rewrite bind_Returned.
  rewrite setitem_nonneg by (rewrite length_insert, length_zeros; lia).
  rewrite bind_Returned. eexists. split; [done|]. split.
  - unfold Cheby.fill. rewrite length_imap, !length_insert, length_zeros. lia.
  - intros i Hi. rewrite item_fill
      by (rewrite !length_insert, length_zeros; lia).
    rewrite !item_insert by (rewrite ?length_insert, length_zeros; lia).
    zprune.
Qed.

Lemma cheby_nodes_decrease (nx i j : Z) :
  (0 <= i)%Z -> (i < j)%Z -> (j <= nx)%Z ->
  (cos (PI * IZR j / IZR nx) < cos (PI * IZR i / IZR nx))%R.
Proof.
  intros Hi Hij Hj.
  assert (0 < IZR nx)%R as Hn by (apply IZR_lt; lia).
  assert (0 <= IZR i)%R as Hi' by (apply IZR_le; lia).
  assert (IZR i < IZR j)%R as Hij' by (apply IZR_lt; lia).
  assert (IZR j <= IZR nx)%R as Hj' by (apply IZR_le; lia).
  pose proof PI_RGT_0 as Hpi.
  assert (forall a, (PI * a / IZR nx = PI * (a / IZR nx))%R) as Hd
    by (intros; field; lra).
  assert (0 <= IZR i / IZR nx)%R as A1.
  { apply Rmult_le_pos; [lra|]. left. by apply Rinv_0_lt_compat. }
  assert (IZR i / IZR nx < IZR j / IZR nx)%R as A2.
  { apply Rmult_lt_compat_r; [by apply Rinv_0_lt_compat | done]. }
  assert (IZR j / IZR nx <= 1)%R as A3.
  { apply (Rmult_le_reg_r (IZR nx)); [done|].
    replace (IZR j / IZR nx * IZR nx)%R with (IZR j) by (field; lra). lra. }
  rewrite !Hd. apply cos_decreasing_1; nra.
Qed.

Lemma cheby_nodes_differ (nx i j : Z) :
  (0 <= i <= nx)%Z -> (0 <= j <= nx)%Z -> i <> j ->
  (cos (PI * IZR i / IZR nx) - cos (PI * IZR j / IZR nx) <> 0)%R.
Proof.
  intros Hi Hj Hij.
  destruct (Z.lt_total i j) as [H|[H|H]]; [|done|].
  - pose proof (cheby_nodes_decrease nx i j ltac:(lia) H ltac:(lia)). lra.
  - pose proof (cheby_nodes_decrease nx j i ltac:(lia) H ltac:(lia)). lra.
Qed.

Lemma cheby_nodes_inside (nx i : Z) :
  (0 < i < nx)%Z ->
  (2 * (1 - cos (PI * IZR i / IZR nx) * cos (PI * IZR i / IZR nx)) <> 0)%R.
Proof.
  intros Hi.
  pose proof (cheby_nodes_decrease nx 0 i) as H0.
  pose proof (cheby_nodes_decrease nx i nx) as H1.
  assert (0 < IZR nx)%R as Hn by (apply IZR_lt; lia).
  replace (PI * IZR 0 / IZR nx)%R with 0%R in H0 by (field; lra).
  replace (PI * IZR nx / IZR nx)%R with PI in H1 by (field; lra).
  rewrite cos_0 in H0. rewrite cos_PI in H1.
  specialize (H0 ltac:(lia) ltac:(lia) ltac:(lia)).
  specialize (H1 ltac:(lia) ltac:(lia) ltac:(lia)).
  nra.
Qed.

Lemma fdiv_finite (a b : R) : b <> 0%R -> Cheby.fdiv a b = Cheby.Fin (a / b).
Proof. intros Hb. unfold Cheby.fdiv. by destruct (Req_dec_T b 0). Qed.

Lemma fdiv_by_zero (a : R) : (0 < a)%R -> Cheby.fdiv a 0 = Cheby.PInf.
Proof.
  intros Ha. unfold Cheby.fdiv. destruct (Req_dec_T 0 0); [|done].
  destruct (Req_dec_T a 0); [lra|]. by destruct (Rlt_dec 0 a).
Qed.

Lemma cheby_entries_spec (nx : Z) (cx x : list R) :
  (0 <= nx)%Z ->
  Z.of_nat (length cx) = (nx + 1)%Z -> Z.of_nat (length x) = (nx + 1)%Z ->
  exists D, Cheby.entries nx cx x = Returned D /\
    Py.shape2 (nx + 1) (nx + 1) D /\
    forall i j, (0 <= i <= nx)%Z -> (0 <= j <= nx)%Z ->
      Py.cell D i j = Some (ChebyClosed.entry_value nx cx x i j).
Proof.
  intros Hnx Hcx Hx. unfold Cheby.entries.
  match goal with
  | |- exists D, for_ _ (fun i => for_ _ (fun j => @?body i j)) ?D0 = _ /\ _ =>
      destruct (assign_loop2 (nx + 1) (nx + 1) 0 (nx + 1) 0 (nx + 1) body
                  (ChebyClosed.entry_value nx cx x) D0)
        as (D & E & Hs & HD)
  end; try lia.
  { apply shape2_replicate; lia. }
  { intros i j M Hi Hj HsM. cbn beta. unfold ChebyClosed.entry_value.
    destruct ((i =? j)%Z && negb (i =? 0)%Z && negb (i =? nx)%Z) eqn:Hc.
    - assert (i = j) as <-.
      { destruct (Z.eqb_spec i j); [done | discriminate]. }
      unfold Cheby.diagonal. rewrite !getitem_item by lia.
      by rewrite !bind_Returned.
    - unfold Cheby.off_diagonal. rewrite !getitem_item by lia.
      by rewrite !bind_Returned. }
  exists D. split; [done|]. split; [done|].
  intros i j Hi Hj. rewrite HD.
  destruct (Z.leb_spec 0 i), (Z.ltb_spec i (nx + 1)),
    (Z.leb_spec 0 j), (Z.ltb_spec j (nx + 1)); try lia. done.
Qed.

(** The entries of the Chebyshev matrix, before and after the two
    corner statements. *)
Lemma cheby_matrix_finite (nx : Z) :
  (1 <= nx)%Z ->
  exists x cx D0 D,
    Cheby.nodes nx = Returned x /\
    Cheby.weights nx = Returned cx /\
    Cheby.entries nx cx x = Returned D0 /\
    Py.cell D0 0 0 = Some Cheby.PInf /\
    Py.cell D0 nx nx = Some Cheby.PInf /\
    Cheby.get_cheby_matrix nx = Returned D /\
    Py.shape2 (nx + 1) (nx + 1) D /\
    (forall i j, (0 <= i <= nx)%Z -> (0 <= j <= nx)%Z ->
       exists v, Py.cell D i j = Some (Cheby.Fin v)) /\
    Py.cell D 0 0 = Some (Cheby.Fin ((2 * IZR nx ^ 2 + 1) / 6)) /\
    Py.cell D nx nx = Some (Cheby.Fin (- ((2 * IZR nx ^ 2 + 1) / 6))).
Proof.
  intros Hnx.
  destruct (cheby_nodes_spec nx Hnx) as (x & Ex & Hlx & Hx).
  destruct (cheby_weights_spec nx Hnx) as (cx & Ec & Hlc & Hc).
  destruct (cheby_entries_spec nx cx x) as (D0 & E0 & Hs0 & HD0);
    [lia | done | done |].
  destruct (setitem2_cell (nx + 1) (nx + 1) D0 0 0
              (Cheby.Fin ((2 * IZR nx ^ 2 + 1) / 6)) Hs0)
    as (D1 & E1 & Hs1 & HD1); [lia | lia |].
  destruct (setitem2_cell (nx + 1) (nx + 1) D1 nx nx
              (Cheby.fneg (Cheby.Fin ((2 * IZR nx ^ 2 + 1) / 6))) Hs1)
    as (D2 & E2 & Hs2 & HD2); [lia | lia |].
  assert (Py.getitem2 D1 0 0 = Returned (Cheby.Fin ((2 * IZR nx ^ 2 + 1) / 6)))
    as Eg.
  { apply (getitem2_cell (nx + 1) (nx + 1)). by rewrite HD1. }
  assert (forall i, (0 <= i <= nx)%Z -> Np.item cx i <> 0%R) as Hc0.
  { intros i Hi. rewrite Hc by done.
    destruct ((i =? 0)%Z || (i =? nx)%Z); lra. }
  assert (forall i, (i = 0 \/ i = nx)%Z ->
            ChebyClosed.entry_value nx cx x i i = Cheby.PInf) as Hinf.
  { intros i Hi. unfold ChebyClosed.entry_value.
    replace ((i =? i)%Z && negb (i =? 0)%Z && negb (i =? nx)%Z) with false
      by (destruct Hi as [-> | ->]; zprune).
    replace (Np.item cx i * (Np.item x i - Np.item x i))%R with 0%R by ring.
    apply fdiv_by_zero. rewrite Hc by lia.
    replace ((i =? 0)%Z || (i =? nx)%Z) with true
      by (destruct Hi as [-> | ->]; zprune).
    replace (i + i)%Z with (2 * i)%Z by lia.
    rewrite Z.pow_mul_r by lia. change ((-1) ^ 2)%Z with 1%Z.
    rewrite Z.pow_1_l by lia. lra. }
  exists x, cx, D0, D2. split; [done|]. split; [done|]. split; [done|].
  split; [rewrite HD0 by lia; f_equal; apply Hinf; lia|].
  split; [rewrite HD0 by lia; f_equal; apply Hinf; lia|].
  split.
  { unfold Cheby.get_cheby_matrix.
    rewrite Ex, bind_Returned, Ec, bind_Returned, E0, bind_Returned.
    rewrite E1, bind_Returned, Eg, bind_Returned, E2, bind_Returned. done. }
  split; [done|]. split; [|split].
  - intros i j Hi Hj. rewrite HD2, HD1.
    destruct (Z.eqb_spec i nx) as [->|Hin], (Z.eqb_spec j nx) as [->|Hjn];
      cbn [andb]; try (by eexists).
    + destruct (Z.eqb_spec nx 0); [lia|]. cbn [andb].
      rewrite HD0 by lia. unfold ChebyClosed.entry_value.
      destruct (Z.eqb_spec nx j); [lia|]. cbn [andb].
      rewrite fdiv_finite; [by eexists|].
      apply Rmult_integral_contrapositive_currified; [apply Hc0; lia|].
      rewrite !Hx by lia. apply cheby_nodes_differ; lia.
    + destruct (Z.eqb_spec i 0) as [->|Hi0]; cbn [andb].
      * destruct (Z.eqb_spec nx 0); [lia|].
        rewrite HD0 by lia. unfold ChebyClosed.entry_value.
        destruct (Z.eqb_spec 0 nx); [lia|]. cbn [andb].
        rewrite fdiv_finite; [by eexists|].
        apply Rmult_integral_contrapositive_currified; [apply Hc0; lia|].
        rewrite !Hx by lia. apply cheby_nodes_differ; lia.
      * rewrite HD0 by lia. unfold ChebyClosed.entry_value.
        destruct (Z.eqb_spec i nx); [lia|]. cbn [andb].
        rewrite fdiv_finite; [by eexists|].
        apply Rmult_integral_contrapositive_currified; [apply Hc0; lia|].
        rewrite !Hx by lia. apply cheby_nodes_differ; lia.
    + destruct ((i =? 0)%Z && (j =? 0)%Z) eqn:H00; [by eexists|].
      rewrite HD0 by lia. unfold ChebyClosed.entry_value.
      destruct (Z.eqb_spec i j) as [->|Hij]; cbn [andb].
      * destruct (Z.eqb_spec j 0) as [->|]; [discriminate H00|].
        destruct (Z.eqb_spec j nx); [lia|]. cbn [andb negb].
        rewrite fdiv_finite; [by eexists|]. rewrite Hx by done.
        apply cheby_nodes_inside. lia.
      * rewrite fdiv_finite; [by eexists|].
        apply Rmult_integral_contrapositive_currified; [apply Hc0; lia|].
        rewrite !Hx by lia. apply cheby_nodes_differ; lia.
  - rewrite HD2, HD1. zprune.
  - rewrite HD2. zprune.
Qed.

(** X5. [get_cheby_matrix(nx)] for [nx >= 1], the nodes taken as exact
    reals: the double loop evaluates the off-diagonal formula at the two
    corners [(0,0)] and [(nx,nx)], where it divides by [x[i] - x[i] = 0]
    and leaves an infinity; both are overwritten before the matrix is
    returned, with [(2*nx**2+1)/6] and its negative.  Everywhere else
    the denominators differ from zero (the nodes [cos(pi*i/nx)] are
    pairwise different and lie strictly between -1 and 1 inside), so
    every entry of the returned matrix is finite. *)
Theorem cheby_matrix_entries_finite (nx : Z) :
  (1 <= nx)%Z ->
  exists x cx D0 D,
    Cheby.nodes nx = Returned x /\
    Cheby.weights nx = Returned cx /\
    Cheby.entries nx cx x = Returned D0 /\
    Py.cell D0 0 0 = Some Cheby.PInf /\
    Py.cell D0 nx nx = Some Cheby.PInf /\
    Cheby.get_cheby_matrix nx = Returned D /\
    Py.shape2 (nx + 1) (nx + 1) D /\
    (forall i j, (0 <= i <= nx)%Z -> (0 <= j <= nx)%Z ->
       exists v, Py.cell D i j = Some (Cheby.Fin v)) /\
    Py.cell D 0 0 = Some (Cheby.Fin ((2 * IZR nx ^ 2 + 1) / 6)) /\
    Py.cell D nx nx = Some (Cheby.Fin (- ((2 * IZR nx ^ 2 + 1) / 6))).
Proof. exact (cheby_matrix_finite nx). Qed.

Lemma cheby_matrix_entries_finite_witness :
  exists x cx D0 D,
    Cheby.nodes 1 = Returned x /\
    Cheby.weights 1 = Returned cx /\
    Cheby.entries 1 cx x = Returned D0 /\
    Py.cell D0 0 0 = Some Cheby.PInf /\
    Py.cell D0 1 1 = Some Cheby.PInf /\
    Cheby.get_cheby_matrix 1 = Returned D /\
    Py.shape2 (1 + 1) (1 + 1) D /\
    (forall i j, (0 <= i <= 1)%Z -> (0 <= j <= 1)%Z ->
       exists v, Py.cell D i j = Some (Cheby.Fin v)) /\
    Py.cell D 0 0 = Some (Cheby.Fin ((2 * IZR 1 ^ 2 + 1) / 6)) /\
    Py.cell D 1 1 = Some (Cheby.Fin (- ((2 * IZR 1 ^ 2 + 1) / 6))).
Proof. apply (cheby_matrix_entries_finite 1). lia. Defined.

(** ** The exceptions of the assemblies *)

Lemma ram_ret (e : exn) {A : Type} (a : A) : raises_at_most e (Returned a).
Proof. done. Qed.

Lemma ram_bind (e : exn) {A B : Type} (m : outcome A) (k : A -> outcome B) :
  raises_at_most e m -> (forall a, raises_at_most e (k a)) ->
  raises_at_most e (m ≫= k).
Proof. intros Hm Hk. destruct m as [a|e']; [apply Hk | done]. Qed.

Lemma ram_for (e : exn) {I S : Type} (l : list I) (body : I -> S -> outcome S)
    (s : S) :
  (forall i s, raises_at_most e (body i s)) -> raises_at_most e (for_ l body s).
Proof.
  intros Hb. revert s. induction l as [|i l IH]; intros s; [done|].
  cbn. apply ram_bind; [apply Hb | apply IH].
Qed.

Lemma ram_index (n : nat) (i : Z) : raises_at_most IndexError (Py.index n i).
Proof.
  unfold Py.index.
  destruct ((0 <=? i)%Z && (i <? Z.of_nat n)%Z); [done|].
  by destruct ((- Z.of_nat n <=? i)%Z && (i <? 0)%Z).
Qed.

Lemma ram_getitem {A : Type} (a : list A) (i : Z) :
  raises_at_most IndexError (Py.getitem a i).
Proof.
  unfold Py.getitem. apply ram_bind; [apply ram_index|].
  intros k. by destruct (a !! k).
Qed.

Lemma ram_setitem {A : Type} (a : list A) (i : Z) (v : A) :
  raises_at_most IndexError (Py.setitem a i v).
Proof. unfold Py.setitem. apply ram_bind; [apply ram_index | done]. Qed.

Lemma ram_getitem2 {A : Type} (m : list (list A)) (i j : Z) :
  raises_at_most IndexError (Py.getitem2 m i j).
Proof.
  unfold Py.getitem2. apply ram_bind; [apply ram_getitem|].
  intros row. apply ram_getitem.
Qed.

Lemma ram_setitem2 {A : Type} (m : list (list A)) (i j : Z) (v : A) :
  raises_at_most IndexError (Py.setitem2 m i j v).
Proof.
  unfold Py.setitem2. apply ram_bind; [apply ram_getitem|].
  intros row. apply ram_bind; [apply ram_setitem|].
  intros row'. apply ram_setitem.
Qed.

(** Goals on computations built from indexing, loops and tests. *)
Ltac ram :=
  repeat first
    [ apply ram_ret
    | apply ram_getitem
    | apply ram_setitem
    | apply ram_getitem2
    | apply ram_setitem2
    | apply ram_for; intros
    | apply ram_bind; [|intros]
    | progress cbv zeta
    | match goal with
      | |- raises_at_most _ (if ?c then _ else _) => destruct c
      | |- raises_at_most _ (let (_, _) := ?p in _) => destruct p
      | |- raises_at_most _ (match ?p with (_, _) => _ end) => destruct p
      end ].

(** The exceptions of the six assemblies. *)
Lemma assemblies_raise_at_most_index
    (nx : Z) (ro mu_fe h : list R)
    (xmax vs rho0 : R) (N ne : Z) (rho mu w : list R) (l1d : list (list R)) :
  (0 <= nx)%Z -> (0 <= N)%Z -> (1 <= ne)%Z -> xmax <> 0%R ->
  (raises_at_most IndexError (FeElastic.M nx ro h) /\
   raises_at_most IndexError (FeElastic.K nx mu_fe h) /\
   raises_at_most IndexError (SeHomo.M xmax rho0 N ne w) /\
   raises_at_most IndexError (SeHomo.K xmax vs rho0 N ne w l1d) /\
   raises_at_most IndexError (SeHetero.M xmax N ne rho w) /\
   raises_at_most IndexError (SeHetero.K xmax N ne mu w l1d)) /\
  ((2 <= nx)%Z -> Z.of_nat (length ro) = nx ->
   Z.of_nat (length mu_fe) = nx -> Z.of_nat (length h) = (nx - 1)%Z ->
   (exists M, FeElastic.M nx ro h = Returned M) /\
   (exists K, FeElastic.K nx mu_fe h = Returned K)) /\
  (Z.of_nat (length w) = (N + 1)%Z -> Py.shape2 (N + 1) (N + 1) l1d ->
   Z.of_nat (length rho) = SeHomo.ng N ne ->
   Z.of_nat (length mu) = SeHomo.ng N ne ->
   (exists M, SeHomo.M xmax rho0 N ne w = Returned M) /\
   (exists K, SeHomo.K xmax vs rho0 N ne w l1d = Returned K) /\
   (exists M, SeHetero.M xmax N ne rho w = Returned M) /\
   (exists K, SeHetero.K xmax N ne mu w l1d = Returned K)).
Proof.
  intros Hnx HN Hne Hxmax. split; [|split].
  - repeat split.
    + unfold FeElastic.M. ram.
    + unfold FeElastic.K. ram.
    + unfold SeHomo.M, SeHomo.Me. ram.
    + unfold SeHomo.K, SeHomo.Ke, SeHomo.K_blocks, SeHomo.K_boundaries. ram.
    + unfold SeHetero.M, SeHetero.Me_loop. ram.
    + unfold SeHetero.K, SeHetero.Ke_loop, SeHetero.K_block. ram.
  - intros Hnx2 Hro Hmu Hh. split.
    + destruct (fe_mass_spec nx ro h Hnx2 Hro Hh) as (M & E & _). by exists M.
    + destruct (fe_stiffness_spec nx mu_fe h Hnx2 Hmu Hh) as (K & E & _).
      by exists K.
  - intros Hw Hl Hrho Hmu. repeat split.
    + destruct (homo_M_spec xmax N ne w HN Hne Hw rho0) as (M & E & _).
      by exists M.
    + destruct (homo_K_shared xmax vs rho0 N ne w l1d HN Hne Hw Hl)
        as (Ke & K & _ & E & _). by exists K.
    + destruct (hetero_M_spec xmax N ne w HN Hne Hw rho Hrho) as (M & E & _).
      by exists M.
    + destruct (hetero_K_spec xmax N ne mu w l1d HN Hne Hmu Hw Hl)
        as (K & E & _). by exists K.
Qed.

(** X6. The assemblies check no material value.  On arrays of any
    length and with any real entries, and for a domain of a length other
    than zero (the notebooks divide by the Jacobian before they
    assemble), the mass and stiffness assemblies of the finite-element
    and of the two spectral-element notebooks either return or raise
    [IndexError] (an array too short), never another exception; on
    arrays of the lengths of the grid they return, whatever the signs of
    the densities and shear moduli. *)
Theorem assemblies_check_no_material
    (nx : Z) (ro mu_fe h : list R)
    (xmax vs rho0 : R) (N ne : Z) (rho mu w : list R) (l1d : list (list R)) :
  (0 <= nx)%Z -> (0 <= N)%Z -> (1 <= ne)%Z -> xmax <> 0%R ->
  (raises_at_most IndexError (FeElastic.M nx ro h) /\
   raises_at_most IndexError (FeElastic.K nx mu_fe h) /\
   raises_at_most IndexError (SeHomo.M xmax rho0 N ne w) /\
   raises_at_most IndexError (SeHomo.K xmax vs rho0 N ne w l1d) /\
   raises_at_most IndexError (SeHetero.M xmax N ne rho w) /\
   raises_at_most IndexError (SeHetero.K xmax N ne mu w l1d)) /\
  ((2 <= nx)%Z -> Z.of_nat (length ro) = nx ->
   Z.of_nat (length mu_fe) = nx -> Z.of_nat (length h) = (nx - 1)%Z ->
   (exists M, FeElastic.M nx ro h = Returned M) /\
   (exists K, FeElastic.K nx mu_fe h = Returned K)) /\
  (Z.of_nat (length w) = (N + 1)%Z -> Py.shape2 (N + 1) (N + 1) l1d ->
   Z.of_nat (length rho) = SeHomo.ng N ne ->
   Z.of_nat (length mu) = SeHomo.ng N ne ->
   (exists M, SeHomo.M xmax rho0 N ne w = Returned M) /\
   (exists K, SeHomo.K xmax vs rho0 N ne w l1d = Returned K) /\
   (exists M, SeHetero.M xmax N ne rho w = Returned M) /\
   (exists K, SeHetero.K xmax N ne mu w l1d = Returned K)).
Proof. exact (assemblies_raise_at_most_index nx ro mu_fe h xmax vs rho0 N ne rho mu w l1d). Qed.

Lemma assemblies_check_no_material_witness :
  (exists M, FeElastic.M 3 [-1; 0; -1]%R [1; 1]%R = Returned M) /\
  (exists K, FeElastic.K 3 [-1; 0; -1]%R [1; 1]%R = Returned K) /\
  (exists M, SeHetero.M 2 1 2 [-1; 0; -1]%R Sample.w = Returned M) /\
  (exists K, SeHetero.K 2 1 2 [-1; 0; -1]%R Sample.w Sample.l1d = Returned K).
Proof.
  destruct (assemblies_check_no_material
              3 [-1; 0; -1]%R [-1; 0; -1]%R [1; 1]%R
              2 1 1 1 2 [-1; 0; -1]%R [-1; 0; -1]%R Sample.w Sample.l1d)
    as (_ & Hfe & Hse); [lia | lia | lia | lra |].
  destruct Hfe as [HM HK]; [lia | reflexivity | reflexivity | reflexivity |].
  destruct Hse as (_ & _ & HM' & HK');
    [reflexivity | split; [reflexivity | repeat constructor]
    | reflexivity | reflexivity |].
  done.
Defined.

(** ** The finite-difference fields of the Fourier notebook *)

Lemma store_setitem_next (h h' : store) (l : nat) (i : Z) (v : R) :
  store_setitem h l i v = Returned h' -> next h' = next h.
Proof.
  unfold store_setitem. intros H.
  apply bind_inv in H as (a & _ & H). by inversion H.
Qed.

(** The loop of the 3-point operator, when the derivative is written
    into an array other than the field. *)
Lemma fd3_loop_values (nx : Z) (dx : R) (lp ld : nat) (h0 : store) :
  (2 <= nx)%Z -> lp <> ld ->
  Z.of_nat (length (load h0 lp)) = nx ->
  Z.of_nat (length (load h0 ld)) = nx ->
  exists h,
    for_ (range 1 (nx - 1))
      (fun i h =>
         a ← Py.getitem (load h lp) (i + 1);
         b ← Py.getitem (load h lp) i;
         e ← Py.getitem (load h lp) (i - 1);
         store_setitem h ld i ((a - 2 * b + e) / dx ^ 2)%R) h0 = Returned h /\
    next h = next h0 /\
    (forall l, l <> ld -> load h l = load h0 l) /\
    Z.of_nat (length (load h ld)) = nx /\
    (forall j, (1 <= j < nx - 1)%Z ->
       Np.item (load h ld) j =
       ((Np.item (load h0 lp) (j + 1) - 2 * Np.item (load h0 lp) j
         + Np.item (load h0 lp) (j - 1)) / dx ^ 2)%R) /\
    (forall j, ~ (1 <= j < nx - 1)%Z ->
       Np.item (load h ld) j = Np.item (load h0 ld) j).
Proof.
  intros Hnx Hne Hp Hd.
  match goal with
  | |- exists h, for_ _ ?body _ = _ /\ _ =>
      destruct (for_range_inv
                  (fun i h =>
                     next h = next h0 /\
                     (forall l, l <> ld -> load h l = load h0 l) /\
                     Z.of_nat (length (load h ld)) = nx /\
                     (forall j, (1 <= j < i)%Z ->
                        Np.item (load h ld) j =
                        ((Np.item (load h0 lp) (j + 1)
                          - 2 * Np.item (load h0 lp) j
                          + Np.item (load h0 lp) (j - 1)) / dx ^ 2)%R) /\
                     (forall j, ~ (1 <= j < i)%Z ->
                        Np.item (load h ld) j = Np.item (load h0 ld) j))
                  1 (nx - 1) body h0) as (h & E & Hh)
  end; [lia | | | by exists h].
  - split; [done|]. split; [done|]. split; [done|]. split; [intros; lia | done].
  - intros i h Hi (Hn & Hf & Hl & Hin & Hout).
    rewrite (Hf lp) by done.
    rewrite !getitem_item by lia. rewrite !bind_Returned.
    destruct (store_setitem_spec h ld i
                ((Np.item (load h0 lp) (i + 1) - 2 * Np.item (load h0 lp) i +
                  Np.item (load h0 lp) (i - 1)) / dx ^ 2)%R (Z.to_nat i))
      as (h' & E & Hn' & Hld & Hf'); [apply index_nonneg; lia|].
    exists h'. split; [done|]. split; [congruence|].
    split; [intros l Hl'; rewrite Hf' by done; by apply Hf|].
    split; [rewrite Hld, length_insert; done|].
    split.
    + intros j Hj. rewrite Hld, item_insert by lia.
      destruct (Z.eqb_spec j i) as [->|]; [done|]. apply Hin. lia.
    + intros j Hj. rewrite Hld, item_insert by lia.
      destruct (Z.eqb_spec j i) as [->|]; [lia|]. apply Hout. lia.
Qed.

(** One pass of the 3-point block when the field and the derivative are
    two arrays. *)
Lemma fd3_values (nx : Z) (c dt dx : R) (sg src : list R) (it : Z)
    (st : Fourier1D.state) :
  (2 <= nx)%Z -> (0 <= it < Z.of_nat (length src))%Z ->
  Z.of_nat (length sg) = nx ->
  Z.of_nat (length (load (Fourier1D.heap st) (Fourier1D.p st))) = nx ->
  Z.of_nat (length (load (Fourier1D.heap st) (Fourier1D.pold st))) = nx ->
  Z.of_nat (length (load (Fourier1D.heap st) (Fourier1D.d2p st))) = nx ->
  Fourier1D.p st <> Fourier1D.d2p st ->
  (Fourier1D.p st < next (Fourier1D.heap st))%nat ->
  (Fourier1D.pold st < next (Fourier1D.heap st))%nat ->
  (Fourier1D.d2p st < next (Fourier1D.heap st))%nat ->
  exists st' h, Fourier1D.fd3 nx c dt dx sg src it st = Returned st' /\
    Fourier1D.pold st' = Fourier1D.p st /\
    Fourier1D.d2p st' = Fourier1D.d2p st /\
    Fourier1D.p st' = S (next (Fourier1D.heap st)) /\
    (forall j, (1 <= j < nx - 1)%Z ->
       Np.item (load h (Fourier1D.d2p st)) j =
       ((Np.item (load (Fourier1D.heap st) (Fourier1D.p st)) (j + 1)
         - 2 * Np.item (load (Fourier1D.heap st) (Fourier1D.p st)) j
         + Np.item (load (Fourier1D.heap st) (Fourier1D.p st)) (j - 1))
        / dx ^ 2)%R) /\
    (forall l, l <> Fourier1D.d2p st -> load h l = load (Fourier1D.heap st) l) /\
    (forall i, (0 < i < nx - 1)%Z ->
       Np.item (load (Fourier1D.heap st') (Fourier1D.p st')) i =
       (2 * Np.item (load (Fourier1D.heap st) (Fourier1D.p st)) i
        - Np.item (load h (Fourier1D.pold st)) i
        + dt ^ 2 * c ^ 2 * Np.item (load h (Fourier1D.d2p st)) i
        + Np.item sg i * Np.item src it * dt ^ 2)%R).
Proof.
  intros Hnx Hit Hsg Hp Ho Hd Hne Hpn Hon Hdn. unfold Fourier1D.fd3.
  destruct (fd3_loop_values nx dx (Fourier1D.p st) (Fourier1D.d2p st)
              (Fourier1D.heap st) Hnx Hne Hp Hd)
    as (h & -> & Hn & Hf & Hl & Hin & Hout).
  rewrite bind_Returned.
  assert (Z.of_nat (length (load h (Fourier1D.pold st))) = nx) as Ho'.
  { destruct (Nat.eq_dec (Fourier1D.pold st) (Fourier1D.d2p st)) as [->|];
      [done | by rewrite Hf]. }
  destruct (fd_tail_values nx (dt ^ 2 * c ^ 2) dt sg src it h
              (Fourier1D.p st) (Fourier1D.pold st) (Fourier1D.d2p st))
    as (a & s & b & h1 & h2 & h3 & h4 & Ea & E1 & Es & Eb & E2 & E3 & E4
        & N4 & F4 & L4 & _ & _ & V4);
    [lia | done | done | by rewrite Hf | done | done |].
  rewrite Ea, bind_Returned, E1. cbn beta iota.
  rewrite Es, bind_Returned, Eb, bind_Returned, E2. cbn beta iota.
  rewrite E3, bind_Returned, E4, bind_Returned.
  eexists _, h. split; [done|]. cbn.
  split; [done|]. split; [done|]. split; [by rewrite Hn|].
  split; [done|]. split; [done|].
  intros i Hi. rewrite V4 by done.
  by rewrite (Hf (Fourier1D.p st)) by done.
Qed.

(** What the four blocks of a step do to the names of the 3-point
    fields. *)
Lemma fourier_names (nx : Z) (c dt dx : R) (sg src : list R)
    (fder : list R -> R -> outcome (list R)) (it : Z)
    (st st' : Fourier1D.state) :
  Fourier1D.fourier nx c dt dx sg src fder it st = Returned st' ->
  Fourier1D.p st' = Fourier1D.p st /\ Fourier1D.pold st' = Fourier1D.pold st /\
  Fourier1D.d2p st' = Fourier1D.d2p st /\
  (next (Fourier1D.heap st) <= next (Fourier1D.heap st'))%nat.
Proof.
  unfold Fourier1D.fourier. intros H.
  apply bind_inv in H as (d & _ & H). cbn beta iota zeta in H.
  apply bind_inv in H as (a & _ & H). cbn beta iota zeta in H.
  apply bind_inv in H as (s & _ & H).
  apply bind_inv in H as (b & _ & H). cbn beta iota zeta in H.
  apply bind_inv in H as (h1 & E1 & H).
  apply bind_inv in H as (h2 & E2 & H).
  apply store_setitem_next in E1, E2.
  inversion H; subst; clear H. cbn. rewrite E2, E1. cbn. lia.
Qed.

Lemma for_next {I : Type} (l : list I) (body : I -> store -> outcome store)
    (h h' : store) :
  (forall i h h', body i h = Returned h' -> next h' = next h) ->
  for_ l body h = Returned h' -> next h' = next h.
Proof.
  intros Hb. revert h. induction l as [|i l IH]; intros h H.
  - by inversion H.
  - cbn in H. apply bind_inv in H as (h1 & E1 & H).
    rewrite (IH _ H). by apply (Hb i).
Qed.

Lemma fd3_names (nx : Z) (c dt dx : R) (sg src : list R) (it : Z)
    (st st' : Fourier1D.state) :
  Fourier1D.fd3 nx c dt dx sg src it st = Returned st' ->
  Fourier1D.pold st' = Fourier1D.p st /\
  Fourier1D.d2p st' = Fourier1D.d2p st /\
  Fourier1D.p st' = S (next (Fourier1D.heap st)) /\
  next (Fourier1D.heap st') = S (S (next (Fourier1D.heap st))).
Proof.
  unfold Fourier1D.fd3. intros H.
  apply bind_inv in H as (h & Eh & H).
  apply for_next in Eh.
  2:{ intros i h0 h0' Hb.
      apply bind_inv in Hb as (a & _ & Hb).
      apply bind_inv in Hb as (b & _ & Hb).
      apply bind_inv in Hb as (e & _ & Hb).
      by apply store_setitem_next in Hb. }
  apply bind_inv in H as (a & _ & H). cbn beta iota zeta in H.
  apply bind_inv in H as (s & _ & H).
  apply bind_inv in H as (b & _ & H). cbn beta iota zeta in H.
  apply bind_inv in H as (h1 & E1 & H).
  apply bind_inv in H as (h2 & E2 & H).
  apply store_setitem_next in E1, E2.
  inversion H; subst; clear H. cbn. rewrite E2, E1. cbn.
  rewrite Eh. done.
Qed.

Lemma fd5_names (nx : Z) (c dt dx : R) (sg src : list R) (it : Z)
    (st st' : Fourier1D.state) :
  Fourier1D.fd5 nx c dt dx sg src it st = Returned st' ->
  Fourier1D.p st' = Fourier1D.p st /\ Fourier1D.pold st' = Fourier1D.pold st /\
  Fourier1D.d2p st' = Fourier1D.d2p st /\
  (next (Fourier1D.heap st) <= next (Fourier1D.heap st'))%nat.
Proof.
  unfold Fourier1D.fd5. intros H.
  apply bind_inv in H as (h & Eh & H).
  apply for_next in Eh.
  2:{ intros i h0 h0' Hb.
      do 5 (apply bind_inv in Hb as (? & _ & Hb)).
      by apply store_setitem_next in Hb. }
  apply bind_inv in H as (a & _ & H). cbn beta iota zeta in H.
  apply bind_inv in H as (s & _ & H).
  apply bind_inv in H as (b & _ & H). cbn beta iota zeta in H.
  apply bind_inv in H as (h1 & E1 & H).
  apply bind_inv in H as (h2 & E2 & H).
  apply store_setitem_next in E1, E2.
  inversion H; subst; clear H. cbn. rewrite E2, E1. cbn.
  rewrite Eh. lia.
Qed.

Lemma save_names (idisp it : Z) (st st' : Fourier1D.state) :
  Fourier1D.save idisp it st = Returned st' ->
  Fourier1D.p st' = Fourier1D.p st /\ Fourier1D.pold st' = Fourier1D.pold st /\
  Fourier1D.d2p st' = Fourier1D.d2p st /\
  Fourier1D.heap st' = Fourier1D.heap st.
Proof.
  unfold Fourier1D.save. intros H.
  apply bind_inv in H as (r & _ & H).
  destruct (r =? 0)%Z.
  - repeat (apply bind_inv in H as (? & _ & H)).
    by inversion H.
  - by inversion H.
Qed.

Lemma init_names (nx nt idisp : Z) (st0 : Fourier1D.state) :
  Fourier1D.init nx nt idisp = Returned st0 ->
  Fourier1D.p st0 = Fourier1D.d2p st0 /\
  (Fourier1D.d2p st0 < next (Fourier1D.heap st0))%nat.
Proof.
  unfold Fourier1D.init. cbn zeta. cbn beta iota. intros H.
  apply bind_inv in H as (rows & _ & H). inversion H; subst; clear H.
  cbn. lia.
Qed.

Lemma step_names (nx idisp : Z) (c dt dx : R) (sg src : list R)
    (fder : list R -> R -> outcome (list R)) (it : Z)
    (st st' : Fourier1D.state) :
  Fourier1D.step nx idisp c dt dx sg src fder it st = Returned st' ->
  (Fourier1D.d2p st < next (Fourier1D.heap st))%nat ->
  Fourier1D.pold st' = Fourier1D.p st /\
  Fourier1D.d2p st' = Fourier1D.d2p st /\
  (Fourier1D.d2p st' < Fourier1D.p st')%nat /\
  (Fourier1D.p st' < next (Fourier1D.heap st'))%nat.
Proof.
  unfold Fourier1D.step. intros H Hd.
  apply bind_inv in H as (s1 & E1 & H).
  apply bind_inv in H as (s2 & E2 & H).
  apply bind_inv in H as (s3 & E3 & H).
  apply fourier_names in E1 as (P1 & O1 & D1 & N1).
  apply fd3_names in E2 as (O2 & D2 & P2 & N2).
  apply fd5_names in E3 as (P3 & O3 & D3 & N3).
  apply save_names in H as (P4 & O4 & D4 & H4).
  rewrite O4, O3, O2, P1, D4, D3, D2, D1, P4, P3, P2, H4.
  repeat split; lia.
Qed.

(** X7. The 3-point finite-difference field of the Fourier notebook in
    the second time step.  The notebook binds [p], [pold] and [d2p] to
    one array; the first step rebinds [p] to a new array and leaves
    [pold] and [d2p] on the old one.  In the next step the derivative
    loop therefore overwrites the previous field, and the extrapolation
    [2*p - pold + dt**2*c**2*d2p] reads the new second derivative [D]
    where the scheme has the previous field: at the inner points the
    new field is [2*p - D + dt**2*c**2*D] plus the source term. *)
Theorem fd3_second_step_reads_derivative_as_previous_field
    (nx nt idisp : Z) (c dt dx : R) (sg src : list R)
    (fder : list R -> R -> outcome (list R)) (it : Z)
    (st0 st1 s : Fourier1D.state) :
  (2 <= nx)%Z -> (0 <= it < Z.of_nat (length src))%Z ->
  Z.of_nat (length sg) = nx ->
  Fourier1D.init nx nt idisp = Returned st0 ->
  Fourier1D.step nx idisp c dt dx sg src fder 0 st0 = Returned st1 ->
  Fourier1D.fourier nx c dt dx sg src fder it st1 = Returned s ->
  Z.of_nat (length (load (Fourier1D.heap s) (Fourier1D.p s))) = nx ->
  Z.of_nat (length (load (Fourier1D.heap s) (Fourier1D.d2p s))) = nx ->
  exists st2, Fourier1D.fd3 nx c dt dx sg src it s = Returned st2 /\
    Fourier1D.pold s = Fourier1D.d2p s /\
    Fourier1D.p s <> Fourier1D.d2p s /\
    forall i, (0 < i < nx - 1)%Z ->
      let P := load (Fourier1D.heap s) (Fourier1D.p s) in
      let D := ((Np.item P (i + 1) - 2 * Np.item P i + Np.item P (i - 1))
                / dx ^ 2)%R in
      Np.item (load (Fourier1D.heap st2) (Fourier1D.p st2)) i =
      (2 * Np.item P i - D + dt ^ 2 * c ^ 2 * D
       + Np.item sg i * Np.item src it * dt ^ 2)%R.
Proof.
  intros Hnx Hit Hsg E0 E1 Es Hp Hd.
  apply init_names in E0 as (A0 & B0).
  apply step_names in E1 as (O1 & D1 & L1 & N1); [|done].
  apply fourier_names in Es as (Ps & Os & Ds & Ns).
  assert (Fourier1D.pold s = Fourier1D.d2p s) as Hal by congruence.
  assert (Fourier1D.p s <> Fourier1D.d2p s) as Hne by (rewrite Ps, Ds; lia).
  destruct (fd3_values nx c dt dx sg src it s)
    as (st2 & h & E2 & _ & _ & _ & HD & _ & HV); try done; try lia.
  { by rewrite Hal. }
  exists st2. split; [done|]. split; [done|]. split; [done|].
  intros i Hi. cbn zeta. rewrite HV by done.
  rewrite Hal, HD by lia. done.
Qed.

Lemma fd3_second_step_reads_derivative_as_previous_field_witness :
  exists st0 st1 s st2,
    Fourier1D.init 3 2 1 = Returned st0 /\
    Fourier1D.step 3 1 1 1 1 [0; 1; 0]%R [1; 1]%R (fun v _ => Returned v) 0 st0
      = Returned st1 /\
    Fourier1D.fourier 3 1 1 1 [0; 1; 0]%R [1; 1]%R (fun v _ => Returned v) 1 st1
      = Returned s /\
    Fourier1D.fd3 3 1 1 1 [0; 1; 0]%R [1; 1]%R 1 s = Returned st2 /\
    Fourier1D.pold s = Fourier1D.d2p s /\
    Fourier1D.p s <> Fourier1D.d2p s.
Proof.
  destruct (Fourier1D.init 3 2 1) as [st0|] eqn:E0; [|discriminate E0].
  destruct (Fourier1D.step 3 1 1 1 1 [0; 1; 0]%R [1; 1]%R (fun v _ => Returned v) 0 st0)
    as [st1|] eqn:E1;
    [|vm_compute in E0; inversion E0; subst; vm_compute in E1; discriminate E1].
  destruct (Fourier1D.fourier 3 1 1 1 [0; 1; 0]%R [1; 1]%R (fun v _ => Returned v) 1 st1)
    as [s|] eqn:Es;
    [|vm_compute in E0; inversion E0; subst; vm_compute in E1;
      inversion E1; subst; vm_compute in Es; discriminate Es].
  destruct (fd3_second_step_reads_derivative_as_previous_field
              3 2 1 1 1 1 [0; 1; 0]%R [1; 1]%R (fun v _ => Returned v) 1 st0 st1 s)
    as (st2 & E2 & Hal & Hne & _); try done; try (cbn; lia).
  - vm_compute in E0; inversion E0; subst. vm_compute in E1.
    inversion E1; subst. vm_compute in Es. inversion Es; subst.
    vm_compute. reflexivity.
  - vm_compute in E0; inversion E0; subst. vm_compute in E1.
    inversion E1; subst. vm_compute in Es. inversion Es; subst.
    vm_compute. reflexivity.
  - by exists st0, st1, s, st2.
Defined.

Lemma alloc_spec (a : list R) (h : store) :
  exists h', alloc a h = (next h, h') /\ next h' = S (next h) /\
    load h' (next h) = a /\
    forall l, l <> next h -> load h' l = load h l.
Proof.
  exists (snd (alloc a h)). split; [done|]. split; [done|].
  split; [apply load_alloc_new|]. intros l Hl. by apply load_alloc_old.
Qed.

(** ** The references kept by the heterogeneous loop *)

Lemma store_setitem_frame (h h' : store) (l : nat) (i : Z) (v : R) :
  store_setitem h l i v = Returned h' ->
  next h' = next h /\ forall l', l' <> l -> load h' l' = load h l'.
Proof.
  unfold store_setitem. intros H.
  apply bind_inv in H as (a & _ & H). inversion H; subst; clear H.
  split; [done|]. intros l' Hl. unfold load. cbn.
  by rewrite lookup_insert_ne.
Qed.

Lemma se_save_u (idisp it : Z) (st st' : SeHomo.state) :
  SeHomo.save idisp it st = Returned st' ->
  SeHomo.u st' = SeHomo.u st /\ SeHomo.heap st' = SeHomo.heap st.
Proof.
  unfold SeHomo.save. intros H.
  apply bind_inv in H as (r & _ & H).
  destruct (r =? 0)%Z.
  - apply bind_inv in H as (row & _ & H).
    apply bind_inv in H as (res & _ & H). by inversion H.
  - by inversion H.
Qed.

(** A step of the spectral-element loop allocates: the arrays it finds
    are left as they are, and the current field is a new array. *)
Lemma se_step_frame (N ne idisp : Z) (dt : R) (src : list R)
    (Minv K : list (list R)) (it : Z) (st st' : SeHomo.state) :
  SeHomo.step N ne idisp dt src Minv K it st = Returned st' ->
  (forall l, (l < next (SeHomo.heap st))%nat ->
     load (SeHomo.heap st') l = load (SeHomo.heap st) l) /\
  (next (SeHomo.heap st) <= SeHomo.u st')%nat /\
  (SeHomo.u st' < next (SeHomo.heap st'))%nat.
Proof.
  unfold SeHomo.step. intros H.
  apply bind_inv in H as (s1 & E1 & H).
  apply bind_inv in H as (s2 & E2 & H).
  unfold SeHomo.source in E1. cbn zeta in E1. cbn beta iota in E1.
  apply bind_inv in E1 as (h1 & Eh & E1). inversion E1; subst; clear E1.
  assert (next h1 = S (next (SeHomo.heap st)) /\
          forall l, (l < next (SeHomo.heap st))%nat ->
            load h1 l = load (SeHomo.heap st) l) as [N1 F1].
  { destruct (it <? Z.of_nat (length src))%Z.
    - apply bind_inv in Eh as (a & _ & Eh).
      apply store_setitem_frame in Eh as [Hn Hf]. split; [done|].
      intros l Hl. rewrite Hf by (cbn; lia).
      apply (load_alloc_old (Np.zeros (SeHomo.ng N ne))). lia.
    - inversion Eh; subst. split; [done|]. intros l Hl.
      apply (load_alloc_old (Np.zeros (SeHomo.ng N ne))). lia. }
  unfold SeHomo.extrapolation in E2.
  cbn [SeHomo.heap SeHomo.u SeHomo.uold SeHomo.unew SeHomo.f
       SeHomo.u_results] in E2.
  apply bind_inv in E2 as (a & _ & E2).
  destruct (alloc_spec a h1) as (h2 & Ea & N2 & L2 & F2).
  rewrite Ea in E2. inversion E2; subst s2; clear E2.
  apply se_save_u in H as [Hu Hh]. cbn in Hu, Hh. rewrite Hu, Hh.
  split; [|lia].
  intros l Hl. rewrite F2 by lia. by apply F1.
Qed.

(** The heterogeneous loop is the homogeneous one with the reference of
    the current field appended to [x_t]. *)
Lemma hetero_step_homo (N ne idisp : Z) (dt : R) (src : list R)
    (Minv K : list (list R)) (it : Z) (st : SeHetero.state) :
  SeHetero.step N ne idisp dt src Minv K it st =
  (s' ← SeHomo.step N ne idisp dt src Minv K it (SeHetero.se st);
   Returned (SeHetero.State s' (SeHetero.x_t st ++ [SeHomo.u s']))).
Proof.
  unfold SeHetero.step, SeHomo.step.
  destruct (SeHomo.source N ne src it (SeHetero.se st)) as [s1|e]; [|done].
  rewrite !bind_Returned.
  destruct (SeHomo.extrapolation dt Minv K s1) as [s2|e]; [|done].
  rewrite !bind_Returned. cbn zeta.
  destruct (SeHomo.save idisp it s2) as [s3|e] eqn:E; [|done].
  rewrite !bind_Returned.
  by destruct (se_save_u _ _ _ _ E) as [-> _].
Qed.

Lemma hetero_run_segment (N ne nt idisp : Z) (dt : R) (src : list R)
    (Minv K : list (list R)) (a b : Z) (s : SeHetero.state) :
  (1 <= SeHomo.ng N ne)%Z -> (0 < idisp)%Z -> (0 <= a <= b)%Z -> (b <= nt)%Z ->
  Py.shape2 (SeHomo.ng N ne) (SeHomo.ng N ne) Minv ->
  Py.shape2 (SeHomo.ng N ne) (SeHomo.ng N ne) K ->
  SeHomo.ready N ne (- (- nt / idisp)) (SeHetero.se s) ->
  exists s' more,
    for_ (range a b) (SeHetero.step N ne idisp dt src Minv K) s = Returned s' /\
    SeHomo.ready N ne (- (- nt / idisp)) (SeHetero.se s') /\
    SeHetero.x_t s' = SeHetero.x_t s ++ more /\
    Z.of_nat (length more) = (b - a)%Z /\
    NoDup more /\
    Forall (fun r => (next (SeHomo.heap (SeHetero.se s)) <= r
                      < next (SeHomo.heap (SeHetero.se s')))%nat) more /\
    (a < b -> last more = Some (SeHomo.u (SeHetero.se s')))%Z /\
    (next (SeHomo.heap (SeHetero.se s))
     <= next (SeHomo.heap (SeHetero.se s')))%nat /\
    forall l, (l < next (SeHomo.heap (SeHetero.se s)))%nat ->
      load (SeHomo.heap (SeHetero.se s')) l
      = load (SeHomo.heap (SeHetero.se s)) l.
Proof.
  intros Hng Hd Hab Hb HM HK Hr.
  destruct (for_range_inv
              (fun i s' =>
                 SeHomo.ready N ne (- (- nt / idisp)) (SeHetero.se s') /\
                 exists more,
                   SeHetero.x_t s' = SeHetero.x_t s ++ more /\
                   Z.of_nat (length more) = (i - a)%Z /\
                   NoDup more /\
                   Forall (fun r => (next (SeHomo.heap (SeHetero.se s)) <= r
                                     < next (SeHomo.heap (SeHetero.se s')))%nat)
                     more /\
                   (a < i -> last more = Some (SeHomo.u (SeHetero.se s')))%Z /\
                   (next (SeHomo.heap (SeHetero.se s))
                    <= next (SeHomo.heap (SeHetero.se s')))%nat /\
                   forall l, (l < next (SeHomo.heap (SeHetero.se s)))%nat ->
                     load (SeHomo.heap (SeHetero.se s')) l
                     = load (SeHomo.heap (SeHetero.se s)) l)
              a b (SeHetero.step N ne idisp dt src Minv K) s)
    as (s' & E & Hr' & more & H); [lia | | | by exists s', more].
  - split; [done|]. exists []. rewrite app_nil_r.
    split; [done|]. split; [cbn; lia|]. split; [constructor|].
    split; [constructor|]. split; [lia|]. done.
  - intros i s1 Hi (Hr1 & more & Hx & Hl & Hnd & Hfa & Hlast & Hn & Hf).
    destruct (se_step_spec N ne nt idisp dt src Minv K i (SeHetero.se s1))
      as (s2 & E2 & Hr2 & _); try done; try lia.
    destruct (se_step_frame _ _ _ _ _ _ _ _ _ _ E2) as (F2 & U2 & V2).
    rewrite hetero_step_homo, E2, bind_Returned.
    eexists. split; [done|]. cbn [SeHetero.se SeHetero.x_t].
    split; [done|]. exists (more ++ [SeHomo.u s2]).
    split; [by rewrite Hx, app_assoc|].
    split; [rewrite length_app; cbn; lia|].
    split.
    { apply NoDup_app. split; [done|]. split; [|apply NoDup_singleton].
      intros r Hin Hin'. apply list_elem_of_singleton in Hin'. subst r.
      rewrite Forall_forall in Hfa. specialize (Hfa _ Hin). lia. }
    split.
    { apply Forall_app. split.
      - eapply Forall_impl; [exact Hfa|]. cbn. intros r Hrr. lia.
      - apply Forall_singleton. lia. }
    split; [intros _; by rewrite last_snoc|].
    split; [lia|].
    intros l Hl'. rewrite F2 by lia. by apply Hf.
Qed.

(** X9. The space-time list of the heterogeneous notebook.  The loop
    appends the current field to [x_t] without copying it.  With an
    inverse mass and a stiffness matrix of [ng] rows and columns, a run
    of [nt] steps returns with [nt] references in [x_t], all different;
    the reference appended by step [k] designates the field that step
    computed, and at the end of the run it still holds the values it
    held then: every step binds [u] to a new array and none writes into
    an array of an earlier step. *)
Theorem space_time_list_keeps_every_field
    (N ne nt idisp : Z) (dt : R) (src : list R) (Minv K : list (list R)) :
  (1 <= SeHomo.ng N ne)%Z -> (0 <= nt)%Z -> (0 < idisp)%Z ->
  Py.shape2 (SeHomo.ng N ne) (SeHomo.ng N ne) Minv ->
  Py.shape2 (SeHomo.ng N ne) (SeHomo.ng N ne) K ->
  exists st0 final,
    SeHetero.init N ne nt idisp = Returned st0 /\
    SeHetero.run N ne nt idisp dt src Minv K st0 = Returned final /\
    Z.of_nat (length (SeHetero.x_t final)) = nt /\
    NoDup (SeHetero.x_t final) /\
    forall k, (0 <= k < nt)%Z ->
      exists st_k,
        for_ (range 0 (k + 1)) (SeHetero.step N ne idisp dt src Minv K) st0
          = Returned st_k /\
        SeHetero.x_t final !! Z.to_nat k = Some (SeHomo.u (SeHetero.se st_k)) /\
        load (SeHomo.heap (SeHetero.se final)) (SeHomo.u (SeHetero.se st_k))
        = load (SeHomo.heap (SeHetero.se st_k)) (SeHomo.u (SeHetero.se st_k)).
Proof.
  intros Hng Hnt Hd HM HK.
  destruct (se_init_ready N ne nt idisp Hng Hnt Hd) as (s0 & E0 & Hr0).
  set (st0 := SeHetero.State s0 []).
  assert (SeHetero.init N ne nt idisp = Returned st0) as Ei
    by (unfold SeHetero.init; by rewrite E0).
  destruct (hetero_run_segment N ne nt idisp dt src Minv K 0 nt st0)
    as (final & more & Ef & Hrf & Hx & Hl & Hnd & _); try done; try lia.
  cbn in Hx. subst more.
  exists st0, final. split; [done|]. split; [done|].
  split; [lia|]. split; [done|].
  intros k Hk.
  destruct (hetero_run_segment N ne nt idisp dt src Minv K 0 (k + 1) st0)
    as (sk & mk & Ek & Hrk & Hxk & Hlk & _ & _ & Hlast & _); try done; try lia.
  cbn in Hxk.
  destruct (hetero_run_segment N ne nt idisp dt src Minv K (k + 1) nt sk)
    as (f' & m' & Ef' & _ & Hx' & _ & _ & _ & _ & _ & Hf'); try done; try lia.
  assert (f' = final) as ->.
  { unfold SeHetero.run in Ef.
    rewrite (range_app 0 (k + 1) nt), for_app, Ek, bind_Returned in Ef by lia.
    congruence. }
  exists sk. split; [done|].
  assert (SeHetero.x_t sk !! Z.to_nat k = Some (SeHomo.u (SeHetero.se sk)))
    as Hk'.
  { rewrite Hxk. rewrite <- Hlast by lia. rewrite last_lookup.
    f_equal. lia. }
  split.
  - rewrite Hx'. apply lookup_app_l_Some. done.
  - apply Hf'. destruct Hrk as (Hu & _). done.
Qed.

Lemma space_time_list_keeps_every_field_witness :
  exists st0 final,
    SeHetero.init 1 1 3 2 = Returned st0 /\
    SeHetero.run 1 1 3 2 1 Sample.src Sample.Minv Sample.K st0
      = Returned final /\
    Z.of_nat (length (SeHetero.x_t final)) = 3%Z /\
    NoDup (SeHetero.x_t final).
Proof.
  destruct (space_time_list_keeps_every_field 1 1 3 2 1 Sample.src
              Sample.Minv Sample.K)
    as (st0 & final & E0 & Ef & Hl & Hnd & _).
  - unfold SeHomo.ng. lia.
  - lia.
  - lia.
  - split; [reflexivity|]. repeat constructor.
  - split; [reflexivity|]. repeat constructor.
  - by exists st0, final.
Defined.

(** ** The wavenumbers of the Fourier derivative *)

Lemma item_app_l (u v : list R) (i : Z) :
  (i < Z.of_nat (length u))%Z -> Np.item (u ++ v) i = Np.item u i.
Proof.
  intros Hi. unfold Np.item. destruct (Z.leb_spec 0 i); [|done].
  by rewrite lookup_app_l by lia.
Qed.

Lemma item_app_r (u v : list R) (i : Z) :
  (Z.of_nat (length u) <= i)%Z ->
  Np.item (u ++ v) i = Np.item v (i - Z.of_nat (length u)).
Proof.
  intros Hi. unfold Np.item.
  destruct (Z.leb_spec 0 i), (Z.leb_spec 0 (i - Z.of_nat (length u))); try lia.
  rewrite lookup_app_r by lia. do 2 f_equal. lia.
Qed.

Lemma item_range (n i : Z) :
  (0 <= i < n)%Z -> Np.item (map IZR (range 0 n)) i = IZR i.
Proof.
  intros Hi. unfold Np.item, range. destruct (Z.leb_spec 0 i); [|lia].
  rewrite !list_lookup_fmap, lookup_seq_lt by lia. cbn.
  f_equal. lia.
Qed.

Lemma item_take (a : list R) (n : nat) (i : Z) :
  (i < Z.of_nat n)%Z -> Np.item (take n a) i = Np.item a i.
Proof.
  intros Hi. unfold Np.item. destruct (Z.leb_spec 0 i); [|done].
  by rewrite lookup_take_lt by lia.
Qed.

Lemma length_slice (a : list R) (lo hi : Z) :
  (0 <= lo <= hi)%Z -> (hi <= Z.of_nat (length a))%Z ->
  Z.of_nat (length (FourierDerivative.slice a lo hi)) = (hi - lo)%Z.
Proof.
  intros H1 H2. unfold FourierDerivative.slice.
  rewrite length_take, length_drop. lia.
Qed.

Lemma item_slice_prefix (a : list R) (m i : Z) :
  (0 <= i < m)%Z -> Np.item (FourierDerivative.slice a 0 m) i = Np.item a i.
Proof.
  intros Hi. unfold FourierDerivative.slice. cbn [Z.to_nat drop].
  apply item_take. lia.
Qed.

Lemma setslice_same_length (a : list R) (lo hi : Z) (v : list R) :
  length v = Z.to_nat (hi - lo) ->
  FourierDerivative.setslice a lo hi v =
  Returned (take (Z.to_nat lo) a ++ v ++ drop (Z.to_nat hi) a).
Proof.
  intros Hv. unfold FourierDerivative.setslice.
  by rewrite Hv, Nat.eqb_refl.
Qed.

Lemma setslice_mismatch (a : list R) (lo hi : Z) (v : list R) :
  length v <> Z.to_nat (hi - lo) -> length v <> 1%nat ->
  FourierDerivative.setslice a lo hi v = Raised ValueError.
Proof.
  intros Hv H1. unfold FourierDerivative.setslice.
  destruct (Nat.eqb_spec (length v) (Z.to_nat (hi - lo))); [done|].
  destruct v as [|x [|y v]]; done.
Qed.

(** X10. The wavenumber vector of [fourier_derivative_2nd].  For a field
    of an even number [nx] of points it is
    [0, dk, ..., (nx/2-1)*dk, -kmax, -kmax+dk, ..., -dk] with
    [kmax = pi/dx] and [dk = kmax/(nx/2)]: entry [nx-j] is the negative
    of entry [j].  For an odd number of points other than 3 the second
    slice assignment has a right side one element shorter than the
    slice, and the function raises [ValueError] before any transform is
    taken. *)
Theorem wavenumbers_even_and_odd (nx : Z) (dx : R) :
  (1 <= nx)%Z -> dx <> 0%R ->
  (Z.even nx = true ->
   exists k, FourierDerivative.wavenumbers nx dx = Returned k /\
     Z.of_nat (length k) = nx /\
     let kmax := (PI / dx)%R in
     let dk := (kmax / (IZR nx / 2))%R in
     (forall i, (0 <= i < nx / 2)%Z -> Np.item k i = (IZR i * dk)%R) /\
     (forall i, (nx / 2 <= i < nx)%Z ->
        Np.item k i = (IZR (i - nx / 2) * dk - kmax)%R) /\
     (forall j, (1 <= j < nx / 2)%Z -> Np.item k (nx - j) = (- Np.item k j)%R)) /\
  (Z.odd nx = true -> nx <> 3%Z ->
   FourierDerivative.wavenumbers nx dx = Raised ValueError /\
   forall filter f, Z.of_nat (length f) = nx ->
     FourierDerivative.fourier_derivative_2nd filter f dx = Raised ValueError).
Proof.
  intros Hnx Hdx.
  assert (Z.quot nx 2 = nx / 2)%Z as Hq by (apply Z.quot_div_nonneg; lia).
  set (k0 := map IZR (range 0 nx)).
  assert (Z.of_nat (length k0) = nx) as Hk0.
  { unfold k0. rewrite length_map, length_range. lia. }
  set (m := (nx / 2)%Z).
  assert (0 <= m <= nx)%Z as Hm.
  { unfold m. pose proof (Z.div_pos nx 2). pose proof (Z.div_le_upper_bound nx 2 nx). lia. }
  set (kmax := (PI / dx)%R). set (dk := (kmax / (IZR nx / 2))%R).
  set (v1 := map (fun e : R => (e * dk)%R) (FourierDerivative.slice k0 0 m)).
  assert (length v1 = Z.to_nat (m - 0)) as Hv1.
  { unfold v1. rewrite length_map.
    pose proof (length_slice k0 0 m ltac:(lia) ltac:(lia)). lia. }
  set (k1 := take (Z.to_nat 0) k0 ++ v1 ++ drop (Z.to_nat m) k0).
  assert (Z.of_nat (length k1) = nx) as Hk1.
  { unfold k1. rewrite !length_app, length_take, length_drop. cbn. lia. }
  set (v2 := map (fun e : R => (e - kmax)%R) (FourierDerivative.slice k1 0 m)).
  assert (Z.of_nat (length v2) = m) as Hv2.
  { unfold v2. rewrite length_map.
    pose proof (length_slice k1 0 m ltac:(lia) ltac:(lia)). lia. }
  assert (FourierDerivative.wavenumbers nx dx =
          FourierDerivative.setslice k1 m nx v2) as Ew.
  { unfold FourierDerivative.wavenumbers.
    destruct (Req_dec_T dx 0); [done|].
    destruct (Z.eqb_spec nx 0); [lia|]. cbn zeta. rewrite Hq.
    fold k0 m kmax dk v1.
    rewrite (setslice_same_length k0 0 m v1 Hv1), bind_Returned.
    fold k1 v2. by destruct (FourierDerivative.setslice k1 m nx v2). }
  assert (forall i, (0 <= i < m)%Z -> Np.item k1 i = (IZR i * dk)%R) as Hk1i.
  { intros i Hi. unfold k1.
    replace (take (Z.to_nat 0) k0) with (@nil R) by done. rewrite app_nil_l.
    rewrite item_app_l by lia. unfold v1.
    rewrite item_map
      by (pose proof (length_slice k0 0 m ltac:(lia) ltac:(lia)); lia).
    rewrite item_slice_prefix by lia. unfold k0. by rewrite item_range by lia. }
  split.
  - intros Hev.
    assert (nx = 2 * m)%Z as Hnm.
    { unfold m. apply Zeven_bool_iff in Hev. apply Zeven_div2 in Hev.
      rewrite Hev at 1. rewrite Z.div2_div. done. }
    rewrite Ew, setslice_same_length by lia.
    eexists. split; [done|]. split.
    { rewrite !length_app, length_take, length_drop. lia. }
    assert (forall i, (0 <= i < m)%Z ->
              Np.item (take (Z.to_nat m) k1 ++ v2 ++ drop (Z.to_nat nx) k1) i
              = (IZR i * dk)%R) as Hlow.
    { intros i Hi. rewrite item_app_l by (rewrite length_take; lia).
      rewrite item_take by lia. by apply Hk1i. }
    assert (forall i, (m <= i < nx)%Z ->
              Np.item (take (Z.to_nat m) k1 ++ v2 ++ drop (Z.to_nat nx) k1) i
              = (IZR (i - m) * dk - kmax)%R) as Hhigh.
    { intros i Hi. rewrite item_app_r by (rewrite length_take; lia).
      rewrite length_take.
      replace (Z.of_nat (Z.to_nat m `min` length k1)) with m by lia.
      rewrite item_app_l by lia. unfold v2.
      rewrite item_map
        by (pose proof (length_slice k1 0 m ltac:(lia) ltac:(lia)); lia).
      rewrite item_slice_prefix by lia. by rewrite Hk1i by lia. }
    cbn zeta. split; [done|]. split; [done|].
    intros j Hj. rewrite Hhigh, Hlow by lia.
    replace (nx - j - m)%Z with (m - j)%Z by lia.
    rewrite minus_IZR. unfold dk, kmax. rewrite Hnm, mult_IZR.
    assert (IZR m <> 0)%R by (apply not_0_IZR; lia).
    field. split; [done | lra].
  - intros Hodd H3.
    assert (nx = 2 * m + 1)%Z as Hnm.
    { unfold m. apply Zodd_bool_iff in Hodd. apply Zodd_div2 in Hodd.
      rewrite Hodd at 1. rewrite Z.div2_div. done. }
    assert (FourierDerivative.wavenumbers nx dx = Raised ValueError) as Er.
    { rewrite Ew. apply setslice_mismatch; lia. }
    split; [done|]. intros filter f Hf.
    unfold FourierDerivative.fourier_derivative_2nd. by rewrite Hf, Er.
Qed.

Lemma wavenumbers_even_and_odd_witness :
  (exists k, FourierDerivative.wavenumbers 4 1 = Returned k /\
     Z.of_nat (length k) = 4%Z) /\
  FourierDerivative.wavenumbers 5 1 = Raised ValueError.
Proof.
  destruct (wavenumbers_even_and_odd 4 1) as [Hev _]; [lia | lra |].
  destruct (wavenumbers_even_and_odd 5 1) as [_ Hodd]; [lia | lra |].
  destruct Hev as (k & Ek & Hl & _); [reflexivity|].
  destruct Hodd as [Er _]; [reflexivity | lia |].
  split; [by exists k | done].
Defined.

(** The derivative returns an array of the length of its argument when
    that length is even, and raises when it is odd and not 3. *)
Lemma fourier_derivative_shape (filter : list R -> list R -> list R)
    (f : list R) (dx : R) :
  (1 <= Z.of_nat (length f))%Z -> dx <> 0%R ->
  (forall m g : list R, length m = length g -> length (filter m g) = length g) ->
  (Z.even (Z.of_nat (length f)) = true ->
   exists d, FourierDerivative.fourier_derivative_2nd filter f dx = Returned d /\
     length d = length f) /\
  (Z.odd (Z.of_nat (length f)) = true -> Z.of_nat (length f) <> 3%Z ->
   FourierDerivative.fourier_derivative_2nd filter f dx = Raised ValueError).
Proof.
  intros Hnx Hdx Hfilter. set (nx := Z.of_nat (length f)) in *.
  assert (Z.quot nx 2 = nx / 2)%Z as Hq by (apply Z.quot_div_nonneg; lia).
  set (k0 := map IZR (range 0 nx)).
  assert (Z.of_nat (length k0) = nx) as Hk0.
  { unfold k0. rewrite length_map, length_range. lia. }
  set (m := (nx / 2)%Z).
  assert (0 <= m <= nx)%Z as Hm.
  { unfold m. pose proof (Z.div_pos nx 2).
    pose proof (Z.div_le_upper_bound nx 2 nx). lia. }
  set (kmax := (PI / dx)%R). set (dk := (kmax / (IZR nx / 2))%R).
  set (v1 := map (fun e : R => (e * dk)%R) (FourierDerivative.slice k0 0 m)).
  assert (length v1 = Z.to_nat (m - 0)) as Hv1.
  { unfold v1. rewrite length_map.
    pose proof (length_slice k0 0 m ltac:(lia) ltac:(lia)). lia. }
  set (k1 := take (Z.to_nat 0) k0 ++ v1 ++ drop (Z.to_nat m) k0).
  assert (Z.of_nat (length k1) = nx) as Hk1.
  { unfold k1. rewrite !length_app, length_take, length_drop. cbn. lia. }
  set (v2 := map (fun e : R => (e - kmax)%R) (FourierDerivative.slice k1 0 m)).
  assert (Z.of_nat (length v2) = m) as Hv2.
  { unfold v2. rewrite length_map.
    pose proof (length_slice k1 0 m ltac:(lia) ltac:(lia)). lia. }
  assert (FourierDerivative.wavenumbers nx dx =
          FourierDerivative.setslice k1 m nx v2) as Ew.
  { unfold FourierDerivative.wavenumbers.
    destruct (Req_dec_T dx 0); [done|].
    destruct (Z.eqb_spec nx 0); [lia|]. cbn zeta. rewrite Hq.
    fold k0 m kmax dk v1.
    rewrite (setslice_same_length k0 0 m v1 Hv1), bind_Returned.
    fold k1 v2. by destruct (FourierDerivative.setslice k1 m nx v2). }
  unfold FourierDerivative.fourier_derivative_2nd. fold nx. rewrite Ew.
  split.
  - intros Hev.
    assert (nx = 2 * m)%Z as Hnm.
    { unfold m. apply Zeven_bool_iff in Hev. apply Zeven_div2 in Hev.
      rewrite Hev at 1. rewrite Z.div2_div. done. }
    rewrite setslice_same_length by lia. rewrite bind_Returned.
    eexists. split; [done|]. apply Hfilter.
    rewrite length_map, !length_app, length_take, length_drop. lia.
  - intros Hodd H3.
    assert (nx = 2 * m + 1)%Z as Hnm.
    { unfold m. apply Zodd_bool_iff in Hodd. apply Zodd_div2 in Hodd.
      rewrite Hodd at 1. rewrite Z.div2_div. done. }
    by rewrite setslice_mismatch by lia.
Qed.

(** X8. The pseudospectral field of the Fourier notebook after one pass
    of its block, with the derivative of the notebook
    ([fourier_derivative_2nd], the transforms keeping the length of
    their argument) and a grid spacing that is not zero.  On an even
    number of grid points the block returns: the points of index 1 and
    [nx-1] are set to zero, and the first point, of index 0, keeps the
    value the extrapolation and the source gave it (the 3-point and
    5-point fields are zeroed at index 0 and [nx-1]).  On an odd number
    of points other than 3 the derivative raises [ValueError], and the
    block with it. *)
Theorem fourier_field_zeroed_at_index_one
    (nx : Z) (c dt dx : R) (sg src : list R)
    (filter : list R -> list R -> list R) (it : Z) (st : Fourier1D.state) :
  (3 <= nx)%Z -> dx <> 0%R -> (0 <= it < Z.of_nat (length src))%Z ->
  Z.of_nat (length sg) = nx ->
  Z.of_nat (length (load (Fourier1D.heap st) (Fourier1D.sp st))) = nx ->
  Z.of_nat (length (load (Fourier1D.heap st) (Fourier1D.spold st))) = nx ->
  (forall m g : list R, length m = length g -> length (filter m g) = length g) ->
  (Fourier1D.sp st < next (Fourier1D.heap st))%nat ->
  (Fourier1D.spold st < next (Fourier1D.heap st))%nat ->
  let fder := FourierDerivative.fourier_derivative_2nd filter in
  (Z.even nx = true ->
   exists d st',
     fder (load (Fourier1D.heap st) (Fourier1D.sp st)) dx = Returned d /\
     Fourier1D.fourier nx c dt dx sg src fder it st = Returned st' /\
     Fourier1D.spold st' = Fourier1D.sp st /\
     Np.item (load (Fourier1D.heap st') (Fourier1D.sp st')) 1 = 0%R /\
     Np.item (load (Fourier1D.heap st') (Fourier1D.sp st')) (nx - 1) = 0%R /\
     forall i, (0 <= i < nx - 1)%Z -> i <> 1%Z ->
       Np.item (load (Fourier1D.heap st') (Fourier1D.sp st')) i =
       (2 * Np.item (load (Fourier1D.heap st) (Fourier1D.sp st)) i
        - Np.item (load (Fourier1D.heap st) (Fourier1D.spold st)) i
        + c ^ 2 * dt ^ 2 * Np.item d i
        + Np.item sg i * Np.item src it * dt ^ 2)%R) /\
  (Z.odd nx = true -> nx <> 3%Z ->
   Fourier1D.fourier nx c dt dx sg src fder it st = Raised ValueError).
Proof.
  intros Hnx Hdx Hit Hsg Hp Ho Hfilter Hpn Hon fder.
  destruct (fourier_derivative_shape filter
              (load (Fourier1D.heap st) (Fourier1D.sp st)) dx)
    as [Heven Hodd]; [lia | done | done |].
  rewrite Hp in Heven, Hodd.
  split.
  2:{ intros Ho1 H3. unfold Fourier1D.fourier. fold fder.
      unfold fder at 1. by rewrite Hodd. }
  intros Hev. destruct (Heven Hev) as (d & Ed & Hld).
  assert (Z.of_nat (length d) = nx) as Hf by lia.
  exists d. unfold Fourier1D.fourier. unfold fder. rewrite Ed, bind_Returned.
  destruct (alloc_spec d (Fourier1D.heap st)) as (h1 & E1 & N1 & L1 & F1).
  rewrite E1. cbn beta iota.
  rewrite !F1, L1 by lia.
  destruct (fourier_extrapolate_spec (c ^ 2 * dt ^ 2)
              (load (Fourier1D.heap st) (Fourier1D.sp st))
              (load (Fourier1D.heap st) (Fourier1D.spold st)) d nx)
    as (a & Ea & Hla & Va); try done.
  rewrite Ea, bind_Returned.
  destruct (alloc_spec a h1) as (h2 & E2 & N2 & L2 & F2).
  rewrite E2. cbn beta iota.
  unfold Fourier1D.source. rewrite getitem_item by lia. rewrite !bind_Returned.
  rewrite L2.
  rewrite badd_same by (unfold Fourier1D.times; rewrite !length_map; lia).
  rewrite bind_Returned.
  match goal with
  | |- context [alloc ?b h2] =>
      destruct (alloc_spec b h2) as (h3 & E3 & N3 & L3 & F3);
      assert (Z.of_nat (length b) = nx) as Hb;
      [ unfold Fourier1D.times; rewrite length_add, !length_map; lia | ]
  end.
  rewrite E3. cbn beta iota.
  destruct (store_setitem_spec h3 (next h2) 1 0 (Z.to_nat 1))
    as (h4 & E4 & N4 & L4 & F4); [apply index_nonneg; rewrite L3; lia|].
  destruct (store_setitem_spec h4 (next h2) (nx - 1) 0 (Z.to_nat (nx - 1)))
    as (h5 & E5 & N5 & L5 & F5).
  { apply index_nonneg. rewrite L4, length_insert, L3. lia. }
  rewrite E4, bind_Returned, E5, bind_Returned.
  eexists. split; [done|]. split; [done|].
  cbn [Fourier1D.heap Fourier1D.sp Fourier1D.spold]. split; [done|].
  rewrite L5, L4, L3.
  split; [|split].
  - rewrite !item_insert by (rewrite ?length_insert; lia).
    destruct (Z.eqb_spec 1 (nx - 1)); [done|]. by rewrite Z.eqb_refl.
  - rewrite !item_insert by (rewrite ?length_insert; lia).
    by rewrite Z.eqb_refl.
  - intros i Hi Hi1.
    rewrite !item_insert by (rewrite ?length_insert; lia).
    destruct (Z.eqb_spec i (nx - 1)); [lia|].
    destruct (Z.eqb_spec i 1); [lia|].
    unfold Np.add at 1.
    rewrite item_zip_with
      by (unfold Fourier1D.times; rewrite ?length_map; lia).
    rewrite Va by lia.
    unfold Fourier1D.times.
    rewrite !item_map by (rewrite ?length_map; lia). done.
Qed.

Lemma fourier_field_zeroed_at_index_one_witness :
  exists d st',
    FourierDerivative.fourier_derivative_2nd (fun _ g => g)
      [0; 0; 0; 0]%R 1 = Returned d /\
    Fourier1D.fourier 4 1 1 1 [0; 1; 0; 0]%R Sample.src
      (FourierDerivative.fourier_derivative_2nd (fun _ g => g))
      0 Sample.fourier_state4 = Returned st' /\
    Np.item (load (Fourier1D.heap st') (Fourier1D.sp st')) 1 = 0%R /\
    Np.item (load (Fourier1D.heap st') (Fourier1D.sp st')) (4 - 1) = 0%R.
Proof.
  destruct (fourier_field_zeroed_at_index_one 4 1 1 1 [0; 1; 0; 0]%R Sample.src
              (fun _ g => g) 0 Sample.fourier_state4)
    as [Hev _]; try reflexivity; try (cbn; lia); try lra; try done.
  destruct Hev as (d & st' & Ed & E & _ & Z1 & Z2 & _); [reflexivity|].
  by exists d, st'.
Defined.

(** ** The finite-difference matrices *)

Lemma entry_map_map (f : R -> R) (r c : Z) (m : list (list R)) (x y : Z) :
  Py.shape2 r c m -> f 0%R = 0%R ->
  Np.entry (map (map f) m) x y = f (Np.entry m x y).
Proof.
  intros Hm Hf. unfold Np.entry, Py.cell.
  destruct ((0 <=? x)%Z && (0 <=? y)%Z); [|done].
  rewrite list_lookup_fmap.
  destruct (m !! Z.to_nat x) as [row|]; cbn; [|done].
  rewrite list_lookup_fmap. by destruct (row !! Z.to_nat y).
Qed.

Lemma shape2_map_map (f : R -> R) (r c : Z) (m : list (list R)) :
  Py.shape2 r c m -> Py.shape2 r c (map (map f) m).
Proof.
  intros [Hr Hc]. split; [by rewrite length_map|].
  apply Forall_fmap. eapply Forall_impl; [exact Hc|].
  intros row Hrow. cbn. by rewrite length_map.
Qed.

Lemma fd_matrices_spec (nx : Z) (ro h : list R) (ro0 vs : R) :
  (3 <= nx)%Z -> Z.of_nat (length ro) = nx ->
  (2 <= Z.of_nat (length h))%Z ->
  exists Mfd D,
    FeFiniteDifference.matrices nx ro h ro0 vs = Returned (Mfd, D) /\
    Py.shape2 nx nx Mfd /\ Py.shape2 nx nx D /\
    (forall x y, Np.entry Mfd x y =
       if ((x =? y) && (0 <=? x) && (x <? nx))%Z
       then (1 / Np.item ro x)%R else 0%R) /\
    (forall x y, Np.entry D x y =
       (ro0 * vs ^ 2 * FeFiniteDifference.stencil nx x y
        / Np.item h 1 ^ 2)%R).
Proof.
  intros Hnx Hro Hh. unfold FeFiniteDifference.matrices.
  rewrite getitem_item by lia. rewrite bind_Returned.
  match goal with
  | |- exists Mfd D, (for_ _ ?body ?s0 ≫= _) = _ /\ _ =>
      destruct (for_range_inv
                  (fun i (s : list (list R) * list (list R)) =>
                     Py.shape2 nx nx (fst s) /\ Py.shape2 nx nx (snd s) /\
                     (forall x y, Np.entry (fst s) x y =
                        if ((x =? y) && (0 <=? x) && (x <? i))%Z
                        then (1 / Np.item ro x)%R else 0%R) /\
                     (forall x y, Np.entry (snd s) x y =
                        if (y <? i)%Z
                        then FeFiniteDifference.stencil nx x y else 0%R))
                  0 nx body s0) as ([Mfd D] & E & HsM & HsD & HM & HD)
  end; [lia | | |].
  - cbn [fst snd]. split; [apply shape2_zeros2; lia|].
    split; [apply shape2_zeros2; lia|].
    split; intros x y; rewrite entry_zeros2;
      unfold FeFiniteDifference.stencil; zprune.
  - intros i [Mfd D] Hi (HsM & HsD & HM & HD). cbn [fst snd] in *.
    rewrite getitem_item by lia. rewrite bind_Returned.
    destruct (setitem2_entry nx nx Mfd i i (1 / Np.item ro i) HsM)
      as (Mfd' & -> & HsM' & HM'); [lia | lia |].
    rewrite bind_Returned.
    assert (forall x y, Np.entry Mfd' x y =
              if ((x =? y) && (0 <=? x) && (x <? i + 1))%Z
              then (1 / Np.item ro x)%R else 0%R) as HMn.
    { intros x y. rewrite HM', HM. zprune; subst; done. }
    destruct (Z.ltb_spec 0 i); [destruct (Z.ltb_spec i (nx - 1))|].
    + destruct (setitem2_entry nx nx D (i + 1) i 1 HsD)
        as (D1 & -> & Hs1 & HD1); [lia | lia |].
      rewrite bind_Returned.
      destruct (setitem2_entry nx nx D1 (i - 1) i 1 Hs1)
        as (D2 & -> & Hs2 & HD2); [lia | lia |].
      rewrite bind_Returned.
      destruct (setitem2_entry nx nx D2 i i (-2) Hs2)
        as (D3 & -> & Hs3 & HD3); [lia | lia |].
      rewrite bind_Returned.
      eexists. split; [done|]. cbn [fst snd].
      split; [done|]. split; [done|]. split; [done|].
      intros x y. rewrite HD3, HD2, HD1, HD.
      unfold FeFiniteDifference.stencil. zprune.
    + eexists. split; [done|]. cbn [fst snd].
      split; [done|]. split; [done|]. split; [done|].
      intros x y. rewrite HD. unfold FeFiniteDifference.stencil. zprune.
    + eexists. split; [done|]. cbn [fst snd].
      split; [done|]. split; [done|]. split; [done|].
      intros x y. rewrite HD. unfold FeFiniteDifference.stencil. zprune.
  - cbn [fst snd] in *. rewrite E, bind_Returned. cbn [fst snd].
    eexists _, _. split; [done|]. split; [done|].
    split; [by apply shape2_map_map|]. split; [done|].
    intros x y. rewrite (entry_map_map _ nx nx) by (done || (unfold Rdiv; ring)).
    rewrite HD.
    destruct (Z.ltb_spec y nx); [done|].
    unfold FeFiniteDifference.stencil. zprune.
Qed.

(** Component [x] of [m @ v]. *)
Lemma matvec_acc (r c : Z) (m : list (list R)) (v : list R) (x : Z) :
  Py.shape2 r c m -> Z.of_nat (length v) = c -> (0 <= x < r)%Z ->
  Np.item (Np.matvec m v) x
  = SeClosed.acc 0 c (fun y => (Np.entry m x y * Np.item v y)%R).
Proof.
  intros Hm Hv Hx. pose proof Hm as [Hr Hc].
  destruct (lookup_lt_is_Some_2 m (Z.to_nat x)) as [row Hrow]; [lia|].
  pose proof (shape2_row r c m _ row Hm Hrow) as Hl.
  unfold Np.item at 1. destruct (Z.leb_spec 0 x); [|lia].
  unfold Np.matvec. rewrite list_lookup_fmap, Hrow. cbn.
  unfold Np.dot. rewrite sum_acc, length_mul.
  replace (Z.of_nat (length row `min` length v)) with c by lia.
  apply acc_ext. intros y Hy. unfold Np.mul.
  rewrite item_zip_with by lia. by rewrite (entry_row m x y row).
Qed.

Lemma fd_row (nx : Z) (k : R) (D : list (list R)) (p : list R) (i : Z) :
  (3 <= nx)%Z ->
  Py.shape2 nx nx D -> Z.of_nat (length p) = nx -> (0 <= i < nx)%Z ->
  (forall x y, Np.entry D x y = (k * FeFiniteDifference.stencil nx x y)%R) ->
  Np.item (Np.matvec D p) i =
  (k * (FeFiniteDifference.stencil nx i (i - 1) * Np.item p (i - 1)
        + FeFiniteDifference.stencil nx i i * Np.item p i
        + FeFiniteDifference.stencil nx i (i + 1) * Np.item p (i + 1)))%R.
Proof.
  intros Hnx HsD Hp Hi HD. rewrite (matvec_acc nx nx) by done.
  rewrite (acc_ext 0 nx _
             (fun y => (k * (FeFiniteDifference.stencil nx i y
                             * Np.item p y))%R))
    by (intros y _; rewrite HD; ring).
  rewrite acc_scale. f_equal.
  assert (forall y, ~ (i - 1 <= y < i + 2)%Z ->
            FeFiniteDifference.stencil nx i y = 0%R) as Hout.
  { intros y Hy. unfold FeFiniteDifference.stencil. zprune. }
  assert (forall y, ~ (0 <= y < nx)%Z -> Np.item p y = 0%R) as Hp0.
  { intros y Hy. apply item_outside. lia. }
  destruct (Z.eq_dec i 0%Z) as [->|];
    [|destruct (Z.eq_dec i (nx - 1)%Z) as [->|]].
  - rewrite (acc_window 0 nx 0 2) by
      (try lia; intros y Hy Hn; rewrite Hout by lia; ring).
    rewrite (acc_first2 0 2), acc_nil by lia.
    rewrite (Hp0 (0 - 1)%Z) by lia. change (0 + 1)%Z with 1%Z. ring.
  - rewrite (acc_window 0 nx (nx - 2) nx) by
      (try lia; intros y Hy Hn; rewrite Hout by lia; ring).
    rewrite (acc_first2 (nx - 2) nx), acc_nil by lia.
    rewrite (Hp0 (nx - 1 + 1)%Z) by lia.
    replace (nx - 1 - 1)%Z with (nx - 2)%Z by lia.
    replace (nx - 2 + 1)%Z with (nx - 1)%Z by lia. ring.
  - rewrite (acc_window 0 nx (i - 1) (i + 2)) by
      (try lia; intros y Hy Hn; rewrite Hout by lia; ring).
    by rewrite acc_three.
Qed.

(** X11. The finite-difference matrices of the finite-element notebook.
    The loop writes the stencil [1, -2, 1] down the columns [1 .. nx-2]
    of [D] and nothing into the first and the last column, so that [D]
    is not symmetric ([D[0,1]] is set, [D[1,0]] is not) and [D @ p]
    reads neither [p[0]] nor [p[nx-1]]: it is the 3-point second
    difference in the rows [2 .. nx-3], the same with the boundary value
    taken as zero in the rows [1] and [nx-2], and the neighbour's value
    alone in the rows [0] and [nx-1].  [Mfd] is the diagonal matrix of
    the inverse densities.  (Densities and spacing are taken different
    from zero: numpy divides by a zero without raising.) *)
Theorem fd_operator_skips_boundary_columns
    (nx : Z) (ro h : list R) (ro0 vs : R) (p : list R) :
  (5 <= nx)%Z -> Z.of_nat (length ro) = nx ->
  (2 <= Z.of_nat (length h))%Z -> Z.of_nat (length p) = nx ->
  (forall i, (0 <= i < nx)%Z -> Np.item ro i <> 0%R) ->
  Np.item h 1 <> 0%R ->
  exists Mfd D,
    FeFiniteDifference.matrices nx ro h ro0 vs = Returned (Mfd, D) /\
    let k := (ro0 * vs ^ 2 / Np.item h 1 ^ 2)%R in
    let Dp := Np.matvec D p in
    (forall x, Np.entry D x 0 = 0%R /\ Np.entry D x (nx - 1) = 0%R) /\
    Np.entry D 0 1 = k /\ Np.entry D 1 0 = 0%R /\
    Np.item Dp 0 = (k * Np.item p 1)%R /\
    Np.item Dp 1 = (k * (Np.item p 2 - 2 * Np.item p 1))%R /\
    (forall i, (2 <= i <= nx - 3)%Z ->
       Np.item Dp i =
       (k * (Np.item p (i + 1) - 2 * Np.item p i + Np.item p (i - 1)))%R) /\
    Np.item Dp (nx - 2) =
      (k * (Np.item p (nx - 3) - 2 * Np.item p (nx - 2)))%R /\
    Np.item Dp (nx - 1) = (k * Np.item p (nx - 2))%R /\
    (forall i, (0 <= i < nx)%Z ->
       Np.item (Np.matvec Mfd p) i = (1 / Np.item ro i * Np.item p i)%R).
Proof.
  intros Hnx Hro Hh Hp _ _.
  destruct (fd_matrices_spec nx ro h ro0 vs) as (Mfd & D & E & HsM & HsD & HM & HD);
    [lia | done | done |].
  exists Mfd, D. split; [done|]. cbn zeta.
  set (k := (ro0 * vs ^ 2 / Np.item h 1 ^ 2)%R).
  assert (forall x y, Np.entry D x y
                      = (k * FeFiniteDifference.stencil nx x y)%R) as HD'.
  { intros x y. rewrite HD. unfold k, Rdiv. ring. }
  pose proof (fun i Hi => fd_row nx k D p i ltac:(lia) HsD Hp Hi HD') as Hrow.
  split; [|split; [|split; [|split; [|split; [|split; [|split; [|split]]]]]]].
  - intros x. rewrite !HD'. unfold FeFiniteDifference.stencil.
    split; zprune; ring.
  - rewrite HD'. unfold FeFiniteDifference.stencil. zprune. ring.
  - rewrite HD'. unfold FeFiniteDifference.stencil. zprune. ring.
  - rewrite Hrow by lia. unfold FeFiniteDifference.stencil.
    change (0 + 1)%Z with 1%Z. zprune. ring.
  - rewrite Hrow by lia. unfold FeFiniteDifference.stencil.
    change (1 + 1)%Z with 2%Z. change (1 - 1)%Z with 0%Z. zprune. ring.
  - intros i Hi. rewrite Hrow by lia. unfold FeFiniteDifference.stencil.
    zprune. ring.
  - rewrite Hrow by lia. unfold FeFiniteDifference.stencil.
    replace (nx - 2 - 1)%Z with (nx - 3)%Z by lia.
    replace (nx - 2 + 1)%Z with (nx - 1)%Z by lia. zprune. ring.
  - rewrite Hrow by lia. unfold FeFiniteDifference.stencil.
    replace (nx - 1 - 1)%Z with (nx - 2)%Z by lia. zprune. ring.
  - intros i Hi. rewrite (matvec_acc nx nx) by done.
    rewrite (acc_window 0 nx i (i + 1)) by
      (try lia; intros y Hy Hn; rewrite HM; zprune; ring).
    rewrite acc_one, HM. zprune.
Qed.

Lemma fd_operator_skips_boundary_columns_witness :
  exists Mfd D,
    FeFiniteDifference.matrices 5 [1; 1; 1; 1; 1]%R [1; 1; 1; 1]%R 1 1
      = Returned (Mfd, D) /\
    Np.entry D 0 1 = (1 * 1 ^ 2 / Np.item [1; 1; 1; 1]%R 1 ^ 2)%R /\
    Np.entry D 1 0 = 0%R.
Proof.
  destruct (fd_operator_skips_boundary_columns 5 [1; 1; 1; 1; 1]%R
              [1; 1; 1; 1]%R 1 1 [0; 1; 0; 0; 0]%R)
    as (Mfd & D & E & _ & H01 & H10 & _);
    [lia | reflexivity | cbn; lia | reflexivity | | |].
  - intros i Hi.
    assert (i = 0 \/ i = 1 \/ i = 2 \/ i = 3 \/ i = 4)%Z
      as [->|[->|[->|[->| ->]]]] by lia; unfold Np.item; simpl; lra.
  - unfold Np.item; simpl; lra.
  - by exists Mfd, D.
Defined.

(** ** The relaxation of the static-elasticity notebook *)

Lemma relax_sum_loop (nx : Z) (u du0 : list R) :
  (2 <= nx)%Z -> Z.of_nat (length u) = nx -> Z.of_nat (length du0) = nx ->
  exists du,
    for_ (range 1 (nx - 1))
      (fun i du =>
         a ← Py.getitem u (i + 1);
         b ← Py.getitem u (i - 1);
         Py.setitem du i (a + b)%R) du0 = Returned du /\
    Z.of_nat (length du) = nx /\
    (forall i, (1 <= i < nx - 1)%Z ->
       Np.item du i = (Np.item u (i + 1) + Np.item u (i - 1))%R) /\
    (forall i, ~ (1 <= i < nx - 1)%Z -> Np.item du i = Np.item du0 i).
Proof.
  intros Hnx Hu Hd.
  match goal with
  | |- exists du, for_ _ ?body _ = _ /\ _ =>
      destruct (for_range_inv
                  (fun i du =>
                     Z.of_nat (length du) = nx /\
                     (forall j, (1 <= j < i)%Z ->
                        Np.item du j
                        = (Np.item u (j + 1) + Np.item u (j - 1))%R) /\
                     (forall j, ~ (1 <= j < i)%Z ->
                        Np.item du j = Np.item du0 j))
                  1 (nx - 1) body du0) as (du & E & H)
  end; [lia | | | by exists du].
  - split; [done|]. split; [intros; lia | done].
  - intros i du Hi (Hl & Hin & Hout).
    rewrite !getitem_item by lia. rewrite !bind_Returned.
    rewrite setitem_nonneg by lia.
    eexists. split; [done|]. split; [by rewrite length_insert|]. split.
    + intros j Hj. rewrite item_insert by lia.
      destruct (Z.eqb_spec j i) as [->|]; [done|]. apply Hin. lia.
    + intros j Hj. rewrite item_insert by lia.
      destruct (Z.eqb_spec j i) as [->|]; [lia|]. apply Hout. lia.
Qed.

(** X12. One sweep of the relaxation of the static-elasticity notebook.
    It returns a new field whose two boundary values are 0.15 and 0.05
    and whose inner values are
    [0.5 * (f[i]*h**2/mu + u[i+1] + u[i-1])], all read from the field
    before the sweep (a Jacobi sweep).  A field that the sweep leaves
    unchanged therefore satisfies the discrete equation
    [mu * (2*u[i] - u[i+1] - u[i-1]) / h**2 = f[i]] at every inner
    point, with the two boundary values. *)
Theorem relaxation_sweep_and_fixed_point
    (nx : Z) (h mu : R) (f : list R) (st : StaticElasticity.state) :
  (2 <= nx)%Z -> h <> 0%R -> mu <> 0%R ->
  Z.of_nat (length f) = nx ->
  Z.of_nat (length (StaticElasticity.u st)) = nx ->
  Z.of_nat (length (StaticElasticity.du st)) = nx ->
  exists st', StaticElasticity.relax nx h mu f st = Returned st' /\
    Z.of_nat (length (StaticElasticity.u st')) = nx /\
    Np.item (StaticElasticity.u st') 0 = (15 / 100)%R /\
    Np.item (StaticElasticity.u st') (nx - 1) = (5 / 100)%R /\
    (forall i, (1 <= i < nx - 1)%Z ->
       Np.item (StaticElasticity.u st') i =
       (5 / 10 * (Np.item f i * h ^ 2 / mu
                  + (Np.item (StaticElasticity.u st) (i + 1)
                     + Np.item (StaticElasticity.u st) (i - 1))))%R) /\
    (StaticElasticity.u st' = StaticElasticity.u st ->
     forall i, (1 <= i < nx - 1)%Z ->
       (mu * (2 * Np.item (StaticElasticity.u st) i
              - Np.item (StaticElasticity.u st) (i + 1)
              - Np.item (StaticElasticity.u st) (i - 1)) / h ^ 2
        = Np.item f i)%R).
Proof.
  intros Hnx Hh Hmu Hf Hu Hd. unfold StaticElasticity.relax.
  destruct (relax_sum_loop nx (StaticElasticity.u st) (StaticElasticity.du st)
              Hnx Hu Hd) as (du & -> & Hl & Hin & Hout).
  rewrite bind_Returned. cbn zeta.
  set (u1 := Np.scale (5 / 10)
               (Np.add (StaticElasticity.over
                          (StaticElasticity.times f (h ^ 2)) mu) du)).
  assert (Z.of_nat (length u1) = nx) as Hl1.
  { unfold u1, StaticElasticity.over, StaticElasticity.times.
    rewrite length_scale, length_add, !length_map. lia. }
  assert (forall i, (0 <= i < nx)%Z ->
            Np.item u1 i = (5 / 10 * (Np.item f i * h ^ 2 / mu
                                      + Np.item du i))%R) as Hu1.
  { intros i Hi. unfold u1, Np.scale, Np.add, StaticElasticity.over,
      StaticElasticity.times.
    rewrite item_map by (rewrite length_zip_with, !length_map; lia).
    rewrite item_zip_with by (rewrite ?length_map; lia).
    by rewrite !item_map by (rewrite ?length_map; lia). }
  rewrite setitem_nonneg by lia. rewrite bind_Returned.
  rewrite setitem_nonneg by (rewrite length_insert; lia).
  rewrite bind_Returned.
  eexists. split; [done|]. cbn [StaticElasticity.u].
  assert (forall i,
            Np.item (<[Z.to_nat (nx - 1) := (5 / 100)%R]>
                       (<[Z.to_nat 0 := (15 / 100)%R]> u1)) i =
            if (i =? nx - 1)%Z then (5 / 100)%R
            else if (i =? 0)%Z then (15 / 100)%R else Np.item u1 i) as Hnew.
  { intros i. rewrite !item_insert by (rewrite ?length_insert; lia). done. }
  split; [by rewrite !length_insert|].
  split; [rewrite Hnew; zprune|].
  split; [rewrite Hnew; zprune|].
  assert (forall i, (1 <= i < nx - 1)%Z ->
            Np.item (<[Z.to_nat (nx - 1) := (5 / 100)%R]>
                       (<[Z.to_nat 0 := (15 / 100)%R]> u1)) i =
            (5 / 10 * (Np.item f i * h ^ 2 / mu
                       + (Np.item (StaticElasticity.u st) (i + 1)
                          + Np.item (StaticElasticity.u st) (i - 1))))%R)
    as Hinner.
  { intros i Hi. rewrite Hnew.
    destruct (Z.eqb_spec i (nx - 1)); [lia|].
    destruct (Z.eqb_spec i 0); [lia|].
    rewrite Hu1, Hin by lia. done. }
  split; [done|].
  intros Hfix i Hi. specialize (Hinner i Hi). rewrite Hfix in Hinner.
  set (a := Np.item (StaticElasticity.u st) i) in *.
  set (b := Np.item (StaticElasticity.u st) (i + 1)) in *.
  set (c := Np.item (StaticElasticity.u st) (i - 1)) in *.
  assert (Np.item f i * h ^ 2 / mu = 2 * a - b - c)%R as H by lra.
  rewrite <- H. field. done.
Qed.

Lemma relaxation_sweep_and_fixed_point_witness :
  exists st',
    StaticElasticity.relax 3 1 1 [0; 0; 0]%R
      (StaticElasticity.State [0; 0; 0]%R [0; 0; 0]%R []) = Returned st' /\
    Np.item (StaticElasticity.u st') 0 = (15 / 100)%R /\
    Np.item (StaticElasticity.u st') (3 - 1) = (5 / 100)%R.
Proof.
  destruct (relaxation_sweep_and_fixed_point 3 1 1 [0; 0; 0]%R
              (StaticElasticity.State [0; 0; 0]%R [0; 0; 0]%R []))
    as (st' & E & _ & H0 & H1 & _);
    [lia | lra | lra | reflexivity | reflexivity | reflexivity |].
  by exists st'.
Defined.

(** ** The lumped masses and their inverses *)

Lemma acc_nonneg (a b : Z) (g : Z -> R) :
  (forall k, (a <= k < b)%Z -> (0 <= g k)%R) -> (0 <= SeClosed.acc a b g)%R.
Proof.
  intros Hg. destruct (Z.le_gt_cases b a) as [H|H].
  { rewrite acc_nil by lia. lra. }
  replace b with (a + Z.of_nat (Z.to_nat (b - a)))%Z in * by lia.
  induction (Z.to_nat (b - a)) as [|n IH].
  - rewrite acc_nil by lia. lra.
  - replace (a + Z.of_nat (S n))%Z with (a + Z.of_nat n + 1)%Z in * by lia.
    rewrite acc_snoc by lia.
    destruct n as [|n].
    + rewrite acc_nil by lia. specialize (Hg a ltac:(lia)).
      replace (a + Z.of_nat 0)%Z with a by lia. lra.
    + assert (0 <= SeClosed.acc a (a + Z.of_nat (S n)) g)%R.
      { apply IH; [|lia]. intros k Hk. apply Hg. lia. }
      specialize (Hg (a + Z.of_nat (S n))%Z ltac:(lia)). lra.
Qed.

Lemma acc_pos (a b p : Z) (g : Z -> R) :
  (a <= p < b)%Z -> (0 < g p)%R ->
  (forall k, (a <= k < b)%Z -> (0 <= g k)%R) -> (0 < SeClosed.acc a b g)%R.
Proof.
  intros Hp Hgp Hg.
  rewrite (acc_app a p b), (acc_app p (p + 1) b), acc_one by lia.
  pose proof (acc_nonneg a p g ltac:(intros; apply Hg; lia)).
  pose proof (acc_nonneg (p + 1) b g ltac:(intros; apply Hg; lia)).
  lra.
Qed.

(** The scatter of one elemental mass vector, entry by entry. *)
Lemma mass_scatter_entries (N ne i : Z) (Me M0 : list R) :
  (1 <= N)%Z -> (1 <= i <= ne)%Z ->
  Z.of_nat (length Me) = (N + 1)%Z ->
  Z.of_nat (length M0) = (2 * SeHomo.ng N ne)%Z ->
  exists M,
    for_ (range 0 (N + 1))
      (fun j '(k, M) =>
         let k := (k + 1)%Z in
         let k := if ((1 <? i) && (j =? 0))%Z then (k - 1)%Z else k in
         mk ← Py.getitem M k;
         mej ← Py.getitem Me j;
         M ← Py.setitem M k (mk + mej)%R;
         Returned (k, M))
      ((if (i =? 1)%Z then -1 else (i - 1) * N)%Z, M0)
    = Returned ((i * N)%Z, M) /\
    Z.of_nat (length M) = (2 * SeHomo.ng N ne)%Z /\
    forall x, Np.item M x =
      (Np.item M0 x + MassClosed.share N (fun _ => Np.item Me) i x)%R.
Proof.
  intros HN Hi HMe HM0.
  assert (0 <= (i - 1) * N /\ (i - 1) * N + N <= ne * N)%Z as [? ?] by nia.
  match goal with
  | |- exists M, for_ _ ?body ?s0 = _ /\ _ =>
      destruct (for_range_inv
                  (fun j (s : Z * list R) =>
                     fst s = (if (j =? 0)%Z
                              then (if (i =? 1)%Z then -1 else (i - 1) * N)
                              else (i - 1) * N + j - 1)%Z /\
                     Z.of_nat (length (snd s)) = (2 * SeHomo.ng N ne)%Z /\
                     forall x, Np.item (snd s) x =
                       (Np.item M0 x +
                        (if (((i - 1) * N <=? x) && (x <? (i - 1) * N + j))%Z
                         then Np.item Me (x - (i - 1) * N) else 0))%R)
                  0 (N + 1) body s0) as ([k M] & E & Hk & HlM & HM)
  end; [lia | | |].
  - cbn [fst snd]. split; [done|]. split; [done|]. intros x. zprune; lra.
  - intros j [k M] Hj (Hk & HlM & HM). cbn [fst snd] in Hk, HlM, HM. subst k.
    cbn beta iota zeta.
    set (k' := (if ((1 <? i) && (j =? 0))%Z
                then (if (j =? 0)%Z
                      then if (i =? 1)%Z then -1 else (i - 1) * N
                      else (i - 1) * N + j - 1) + 1 - 1
                else (if (j =? 0)%Z
                      then if (i =? 1)%Z then -1 else (i - 1) * N
                      else (i - 1) * N + j - 1) + 1)%Z).
    assert (k' = ((i - 1) * N + j)%Z) as ->.
    { unfold k'. destruct (Z.ltb_spec 1 i), (Z.eqb_spec j 0), (Z.eqb_spec i 1);
        cbn; nia. }
    rewrite ng_eq in HlM.
    rewrite !getitem_item by lia. rewrite !bind_Returned.
    rewrite setitem_nonneg by lia. rewrite bind_Returned.
    eexists. split; [done|]. cbn [fst snd]. split; [|split].
    + destruct (Z.eqb_spec (j + 1) 0); lia.
    + rewrite length_insert, ng_eq. lia.
    + intros x. rewrite item_insert by lia. rewrite !HM.
      destruct (Z.eqb_spec x ((i - 1) * N + j)) as [->|].
      * replace ((i - 1) * N + j - (i - 1) * N)%Z with j by lia.
        zprune; lra.
      * zprune; lra.
  - cbn [fst snd] in Hk, HlM, HM. exists M. split.
    { rewrite E. do 2 f_equal. destruct (Z.eqb_spec (N + 1) 0); lia. }
    split; [done|]. intros x. rewrite HM. unfold MassClosed.share.
    f_equal. zprune.
Qed.

Lemma share_ext (N : Z) (Me Me' : Z -> Z -> R) (e x : Z) :
  (forall l, (0 <= l <= N)%Z -> Me e l = Me' e l) ->
  MassClosed.share N Me e x = MassClosed.share N Me' e x.
Proof.
  intros H. unfold MassClosed.share.
  destruct (Z.leb_spec ((e - 1) * N) x), (Z.leb_spec x (e * N));
    cbn [andb]; try done.
  apply H. lia.
Qed.

Lemma homo_M_entries (xmax rho : R) (N ne : Z) (w : list R) :
  (1 <= N)%Z -> (1 <= ne)%Z -> Z.of_nat (length w) = (N + 1)%Z ->
  exists M, SeHomo.M xmax rho N ne w = Returned M /\
    Z.of_nat (length M) = (2 * SeHomo.ng N ne)%Z /\
    forall x, Np.item M x =
      MassClosed.lumped N ne
        (fun _ l => (rho * Np.item w l * SeHomo.J xmax ne)%R) x.
Proof.
  intros HN Hne Hw. unfold SeHomo.M.
  destruct (homo_Me_spec xmax N ne w ltac:(lia) Hw rho)
    as (Me & -> & HlMe & HMe).
  rewrite bind_Returned.
  match goal with
  | |- exists M, (for_ _ ?body ?s0 ≫= _) = _ /\ _ =>
      destruct (for_range_inv
                  (fun i (s : Z * list R) =>
                     fst s = (if (i =? 1)%Z then -1 else (i - 1) * N)%Z /\
                     Z.of_nat (length (snd s)) = (2 * SeHomo.ng N ne)%Z /\
                     forall x, Np.item (snd s) x =
                       SeClosed.acc 1 i
                         (fun e => MassClosed.share N
                            (fun _ l => (rho * Np.item w l
                                         * SeHomo.J xmax ne)%R) e x))
                  1 (ne + 1) body s0) as ([k M] & E & Hk & Hl & Hs)
  end; [lia | | |].
  - cbn [fst snd]. split; [done|]. split.
    + rewrite length_zeros, ng_eq. nia.
    + intros x. by rewrite item_zeros, acc_nil.
  - intros i [k M] Hi (Hk & Hl & Hs). cbn [fst snd] in Hk, Hl, Hs. subst k.
    destruct (mass_scatter_entries N ne i Me M) as (M' & E' & Hl' & Hs');
      [done | lia | done | done |].
    cbv zeta in E'. cbv zeta. rewrite E'.
    eexists. split; [done|]. cbn [fst snd]. split; [|split; [done|]].
    + destruct (Z.eqb_spec (i + 1) 1); [lia|]. f_equal. lia.
    + intros x. rewrite Hs', Hs, (acc_snoc 1 i) by lia. f_equal.
      apply share_ext. intros l Hlt. by apply HMe.
  - rewrite E, bind_Returned. exists M. done.
Qed.

Lemma hetero_M_entries (xmax : R) (N ne : Z) (rho w : list R) :
  (1 <= N)%Z -> (1 <= ne)%Z -> Z.of_nat (length w) = (N + 1)%Z ->
  Z.of_nat (length rho) = SeHomo.ng N ne ->
  exists M, SeHetero.M xmax N ne rho w = Returned M /\
    Z.of_nat (length M) = (2 * SeHomo.ng N ne)%Z /\
    forall x, Np.item M x =
      MassClosed.lumped N ne
        (fun e l => (Np.item rho ((e - 1) * N + l) * Np.item w l
                     * SeHetero.J xmax ne)%R) x.
Proof.
  intros HN Hne Hw Hrho. unfold SeHetero.M, SeHetero.ng.
  match goal with
  | |- exists M, (for_ _ ?body ?s0 ≫= _) = _ /\ _ =>
      destruct (for_range_inv
                  (fun i (s : Z * Z * list R * list R) =>
                     fst (fst (fst s)) =
                       (if (i =? 1)%Z then -1 else (i - 1) * N)%Z /\
                     snd (fst (fst s)) = ((i - 1) * N - 1)%Z /\
                     Z.of_nat (length (snd (fst s))) = (N + 1)%Z /\
                     Z.of_nat (length (snd s)) = (2 * SeHomo.ng N ne)%Z /\
                     forall x, Np.item (snd s) x =
                       SeClosed.acc 1 i
                         (fun e => MassClosed.share N
                            (fun e l => (Np.item rho ((e - 1) * N + l)
                                         * Np.item w l
                                         * SeHetero.J xmax ne)%R) e x))
                  1 (ne + 1) body s0)
        as ([[[k m] Me] M] & E & Hk & Hm & HlMe & Hl & Hs)
  end; [lia | | |].
  - cbn [fst snd]. split; [done|]. split; [lia|].
    split; [rewrite length_zeros; lia|]. split.
    + rewrite length_zeros, ng_eq. nia.
    + intros x. by rewrite item_zeros, acc_nil.
  - intros i [[[k m] Me] M] Hi (Hk & Hm & HlMe & Hl & Hs).
    cbn [fst snd] in Hk, Hm, HlMe, Hl, Hs. subst k m. cbn beta iota zeta.
    assert (0 <= (i - 1) * N /\ (i - 1) * N + N <= ne * N)%Z as [? ?] by nia.
    destruct (hetero_Me_loop_spec xmax N ne w ltac:(lia) Hw rho
                ((i - 1) * N - 1) Me)
      as (Me' & -> & HlMe' & HMe'); [lia | rewrite Hrho, ng_eq; lia | done |].
    rewrite bind_Returned. cbn beta iota zeta.
    replace ((i - 1) * N - 1 + N + 1 - 1)%Z with ((i + 1 - 1) * N - 1)%Z by lia.
    destruct (mass_scatter_entries N ne i Me' M) as (M' & E' & Hl' & Hs');
      [done | lia | done | done |].
    cbv zeta in E'. cbv zeta. rewrite E', bind_Returned.
    eexists. split; [done|]. cbn [fst snd].
    split; [destruct (Z.eqb_spec (i + 1) 1); [lia|]; f_equal; lia|].
    split; [done|]. split; [done|]. split; [done|].
    intros x. rewrite Hs', Hs, (acc_snoc 1 i) by lia. f_equal.
    apply share_ext. intros l Hlt. rewrite HMe' by lia.
    do 3 f_equal. lia.
  - rewrite E, bind_Returned. exists M. done.
Qed.

Lemma lumped_tail (N ne : Z) (Me : Z -> Z -> R) (x : Z) :
  (1 <= N)%Z -> (x < 0 \/ ne * N < x)%Z -> MassClosed.lumped N ne Me x = 0%R.
Proof.
  intros HN Hx. unfold MassClosed.lumped. apply acc_zero.
  intros e He. unfold MassClosed.share.
  destruct (Z.leb_spec ((e - 1) * N) x), (Z.leb_spec x (e * N));
    cbn [andb]; try done. nia.
Qed.

Lemma lumped_shared (N ne : Z) (Me : Z -> Z -> R) (e : Z) :
  (1 <= N)%Z -> (1 <= e < ne)%Z ->
  MassClosed.lumped N ne Me (e * N) = (Me e N + Me (e + 1)%Z 0%Z)%R.
Proof.
  intros HN He. unfold MassClosed.lumped.
  rewrite (acc_two 1 (ne + 1) e) by
    (try lia; intros k Hk H1 H2; unfold MassClosed.share;
     destruct (Z.leb_spec ((k - 1) * N) (e * N)),
       (Z.leb_spec (e * N) (k * N)); cbn [andb]; try done; nia).
  unfold MassClosed.share.
  destruct (Z.leb_spec ((e - 1) * N) (e * N)); [|nia].
  destruct (Z.leb_spec (e * N) (e * N)); [|lia].
  destruct (Z.leb_spec ((e + 1 - 1) * N) (e * N)); [|nia].
  destruct (Z.leb_spec (e * N) ((e + 1) * N)); [|nia].
  cbn [andb]. f_equal; f_equal; nia.
Qed.

Lemma lumped_positive (N ne : Z) (Me : Z -> Z -> R) (x : Z) :
  (1 <= N)%Z -> (1 <= ne)%Z -> (0 <= x <= ne * N)%Z ->
  (forall e l, (1 <= e <= ne)%Z -> (0 <= l <= N)%Z -> (0 < Me e l)%R) ->
  (0 < MassClosed.lumped N ne Me x)%R.
Proof.
  intros HN Hne Hx HMe. unfold MassClosed.lumped.
  assert (forall e, (1 <= e < ne + 1)%Z -> (0 <= MassClosed.share N Me e x)%R)
    as Hnn.
  { intros e He. unfold MassClosed.share.
    destruct (Z.leb_spec ((e - 1) * N) x), (Z.leb_spec x (e * N));
      cbn [andb]; try lra.
    left. apply HMe; lia. }
  set (e := (if (x =? ne * N)%Z then ne else x / N + 1)%Z).
  assert ((1 <= e <= ne)%Z /\ ((e - 1) * N <= x <= e * N)%Z) as [He Hin].
  { unfold e. destruct (Z.eqb_spec x (ne * N)); [nia|].
    pose proof (Z.div_mod x N ltac:(lia)).
    pose proof (Z.mod_pos_bound x N ltac:(lia)).
    assert (x / N < ne)%Z by (apply Z.div_lt_upper_bound; nia).
    assert (0 <= x / N)%Z by (apply Z.div_pos; lia). nia. }
  apply (acc_pos 1 (ne + 1) e); [lia | | done].
  unfold MassClosed.share.
  destruct (Z.leb_spec ((e - 1) * N) x), (Z.leb_spec x (e * N)); try lia.
  cbn [andb]. apply HMe; lia.
Qed.

Lemma shape2_identity (n : Z) :
  (0 <= n)%Z -> Py.shape2 n n (SeInverseMass.identity n).
Proof.
  intros Hn. unfold SeInverseMass.identity. split.
  - rewrite length_map, length_range. lia.
  - apply Forall_fmap, Forall_forall. intros i _. cbn.
    rewrite length_map, length_range. lia.
Qed.

Lemma entry_identity (n x y : Z) :
  Np.entry (SeInverseMass.identity n) x y =
  if ((x =? y) && (0 <=? x) && (x <? n))%Z then 1%R else 0%R.
Proof.
  unfold Np.entry, Py.cell, SeInverseMass.identity.
  destruct (Z.leb_spec 0 x), (Z.leb_spec 0 y); cbn [andb];
    try (zprune; fail).
  unfold range. rewrite !list_lookup_fmap.
  destruct (Z.ltb_spec x n).
  - rewrite lookup_seq_lt by lia. cbn. rewrite !list_lookup_fmap.
    destruct (Z.ltb_spec y n).
    + rewrite lookup_seq_lt by lia. cbn.
      replace (0 + Z.of_nat (Z.to_nat x))%Z with x by lia.
      replace (0 + Z.of_nat (Z.to_nat y))%Z with y by lia.
      zprune.
    + rewrite lookup_seq_ge by lia. cbn. zprune.
  - rewrite lookup_seq_ge by lia. cbn. zprune.
Qed.

Lemma Minv_spec (ng : Z) (M : list R) :
  (0 <= ng <= Z.of_nat (length M))%Z ->
  exists Minv, SeInverseMass.Minv ng M = Returned Minv /\
    Py.shape2 ng ng Minv /\
    forall x y, Np.entry Minv x y =
      if ((x =? y) && (0 <=? x) && (x <? ng))%Z
      then (1 / Np.item M x)%R else 0%R.
Proof.
  intros Hng. unfold SeInverseMass.Minv.
  match goal with
  | |- exists Minv, for_ _ ?body ?s0 = _ /\ _ =>
      destruct (for_range_inv
                  (fun i Minv =>
                     Py.shape2 ng ng Minv /\
                     forall x y, Np.entry Minv x y =
                       if ((x =? y) && (0 <=? x) && (x <? ng))%Z
                       then (if (x <? i)%Z then (1 / Np.item M x)%R else 1%R)
                       else 0%R)
                  0 ng body s0) as (Minv & E & Hs & HM)
  end; [lia | | |].
  - split; [apply shape2_identity; lia|].
    intros x y. rewrite entry_identity. zprune.
  - intros i Minv Hi (Hs & HM).
    rewrite getitem_item by lia. rewrite bind_Returned.
    destruct (setitem2_entry ng ng Minv i i (1 / Np.item M i) Hs)
      as (Minv' & -> & Hs' & HM'); [lia | lia |].
    eexists. split; [done|]. split; [done|].
    intros x y. rewrite HM', HM. zprune; subst; done.
  - exists Minv. split; [done|]. split; [done|].
    intros x y. rewrite HM. zprune.
Qed.

Lemma Minv_matvec (ng : Z) (M v : list R) (Minv : list (list R)) (x : Z) :
  Py.shape2 ng ng Minv -> Z.of_nat (length v) = ng -> (0 <= x < ng)%Z ->
  (forall x y, Np.entry Minv x y =
     if ((x =? y) && (0 <=? x) && (x <? ng))%Z
     then (1 / Np.item M x)%R else 0%R) ->
  Np.item (Np.matvec Minv v) x = (Np.item v x / Np.item M x)%R.
Proof.
  intros Hs Hv Hx HM. rewrite (matvec_acc ng ng) by done.
  rewrite (acc_window 0 ng x (x + 1)) by
    (try lia; intros y Hy Hn; rewrite HM; zprune; ring).
  rewrite acc_one, HM. zprune. unfold Rdiv. ring.
Qed.

Lemma J_positive (xmax : R) (ne : Z) :
  (0 < xmax)%R -> (1 <= ne)%Z -> (0 < xmax / IZR ne / 2)%R.
Proof.
  intros Hx Hne. assert (0 < IZR ne)%R by (apply IZR_lt; lia).
  apply Rdiv_pos_pos; [|lra]. by apply Rdiv_pos_pos.
Qed.

(** X13. The lumped masses and the inverse mass matrix of the
    spectral-element notebooks.  With positive density, weights and
    domain length, the mass vector (of [2*ng] entries) is positive at
    the [ng] grid points and zero in its second half, which the loop
    never reaches; a point shared by two elements carries the sum of
    the last nodal mass of the one and the first of the other.  [Minv]
    is the diagonal matrix of the reciprocals [1/M[i]], so that
    [Minv @ v] divides [v] by the lumped masses, entry by entry, and
    divides by no zero. *)
Theorem lumped_masses_and_inverse
    (xmax rho0 : R) (N ne : Z) (rho w v : list R) :
  (1 <= N)%Z -> (1 <= ne)%Z -> Z.of_nat (length w) = (N + 1)%Z ->
  Z.of_nat (length rho) = SeHomo.ng N ne ->
  Z.of_nat (length v) = SeHomo.ng N ne ->
  (0 < xmax)%R -> (0 < rho0)%R ->
  (forall l, (0 <= l <= N)%Z -> (0 < Np.item w l)%R) ->
  (forall i, (0 <= i < SeHomo.ng N ne)%Z -> (0 < Np.item rho i)%R) ->
  (exists M Minv,
     SeHomo.M xmax rho0 N ne w = Returned M /\
     SeInverseMass.Minv (SeHomo.ng N ne) M = Returned Minv /\
     (forall x, (0 <= x < SeHomo.ng N ne)%Z -> (0 < Np.item M x)%R) /\
     (forall x, (SeHomo.ng N ne <= x)%Z -> Np.item M x = 0%R) /\
     (forall e, (1 <= e < ne)%Z ->
        Np.item M (e * N) =
        (rho0 * Np.item w N * SeHomo.J xmax ne
         + rho0 * Np.item w 0 * SeHomo.J xmax ne)%R) /\
     (forall x y, Np.entry Minv x y =
        if ((x =? y) && (0 <=? x) && (x <? SeHomo.ng N ne))%Z
        then (1 / Np.item M x)%R else 0%R) /\
     (forall x, (0 <= x < SeHomo.ng N ne)%Z ->
        Np.item (Np.matvec Minv v) x = (Np.item v x / Np.item M x)%R)) /\
  (exists M Minv,
     SeHetero.M xmax N ne rho w = Returned M /\
     SeInverseMass.Minv (SeHomo.ng N ne) M = Returned Minv /\
     (forall x, (0 <= x < SeHomo.ng N ne)%Z -> (0 < Np.item M x)%R) /\
     (forall x, (SeHomo.ng N ne <= x)%Z -> Np.item M x = 0%R) /\
     (forall e, (1 <= e < ne)%Z ->
        Np.item M (e * N) =
        (Np.item rho (e * N) * Np.item w N * SeHetero.J xmax ne
         + Np.item rho (e * N) * Np.item w 0 * SeHetero.J xmax ne)%R) /\
     (forall x y, Np.entry Minv x y =
        if ((x =? y) && (0 <=? x) && (x <? SeHomo.ng N ne))%Z
        then (1 / Np.item M x)%R else 0%R) /\
     (forall x, (0 <= x < SeHomo.ng N ne)%Z ->
        Np.item (Np.matvec Minv v) x = (Np.item v x / Np.item M x)%R)).
Proof.
  intros HN Hne Hw Hrho Hv Hx Hr0 Hwp Hrp.
  pose proof (ng_eq N ne) as Hng.
  pose proof (J_positive xmax ne Hx Hne) as HJ.
  split.
  - destruct (homo_M_entries xmax rho0 N ne w HN Hne Hw) as (M & EM & Hl & HM).
    destruct (Minv_spec (SeHomo.ng N ne) M) as (Minv & Ei & Hs & Hi); [lia|].
    exists M, Minv. split; [done|]. split; [done|].
    split; [|split; [|split; [|split; [done|]]]].
    + intros x Hxr. rewrite HM. apply lumped_positive; try done; try lia.
      intros e l He Hlr.
      apply Rmult_lt_0_compat; [apply Rmult_lt_0_compat|]; auto.
    + intros x Hxr. rewrite HM. apply lumped_tail; lia.
    + intros e He. rewrite HM. by rewrite lumped_shared.
    + intros x Hxr. by apply (Minv_matvec (SeHomo.ng N ne) M).
  - destruct (hetero_M_entries xmax N ne rho w HN Hne Hw Hrho)
      as (M & EM & Hl & HM).
    destruct (Minv_spec (SeHomo.ng N ne) M) as (Minv & Ei & Hs & Hi); [lia|].
    exists M, Minv. split; [done|]. split; [done|].
    split; [|split; [|split; [|split; [done|]]]].
    + intros x Hxr. rewrite HM. apply lumped_positive; try done; try lia.
      intros e l He Hlr.
      apply Rmult_lt_0_compat; [apply Rmult_lt_0_compat|]; auto.
      apply Hrp. nia.
    + intros x Hxr. rewrite HM. apply lumped_tail; lia.
    + intros e He. rewrite HM. rewrite lumped_shared by done.
      replace ((e - 1) * N + N)%Z with (e * N)%Z by lia.
      replace ((e + 1 - 1) * N + 0)%Z with (e * N)%Z by lia. done.
    + intros x Hxr. by apply (Minv_matvec (SeHomo.ng N ne) M).
Qed.

Lemma lumped_masses_and_inverse_witness :
  (exists M Minv,
     SeHomo.M 2 1 1 2 Sample.w = Returned M /\
     SeInverseMass.Minv (SeHomo.ng 1 2) M = Returned Minv /\
     (forall x, (0 <= x < SeHomo.ng 1 2)%Z -> (0 < Np.item M x)%R)) /\
  (exists M Minv,
     SeHetero.M 2 1 2 Sample.mu Sample.w = Returned M /\
     SeInverseMass.Minv (SeHomo.ng 1 2) M = Returned Minv /\
     (forall x, (0 <= x < SeHomo.ng 1 2)%Z -> (0 < Np.item M x)%R)).
Proof.
  destruct (lumped_masses_and_inverse 2 1 1 2 Sample.mu Sample.w [1; 1; 1]%R)
    as [(M & Mi & E1 & E2 & H & _) (M' & Mi' & E1' & E2' & H' & _)].
  - lia.
  - lia.
  - reflexivity.
  - reflexivity.
  - reflexivity.
  - lra.
  - lra.
  - intros l Hl. assert (l = 0 \/ l = 1)%Z as [-> | ->] by lia;
      unfold Np.item, Sample.w; simpl; lra.
  - intros i Hi. unfold SeHomo.ng in Hi.
    assert (i = 0 \/ i = 1 \/ i = 2)%Z as [->|[->| ->]] by lia;
      unfold Np.item, Sample.mu; simpl; lra.
  - split; [by exists M, Mi | by exists M', Mi'].
Defined.

(** ** The grid points *)

Lemma element_divmod (N q r : Z) :
  (0 <= r < N)%Z -> ((q * N + r) / N = q)%Z /\ ((q * N + r) mod N = r)%Z.
Proof.
  intros Hr. split.
  - symmetry. apply (Z.div_unique_pos _ _ q r); lia.
  - symmetry. apply (Z.mod_unique_pos _ _ q r); lia.
Qed.

Lemma xg_spec (N ne : Z) (le : R) (xi : list R) :
  (1 <= N)%Z -> (1 <= ne)%Z -> Z.of_nat (length xi) = (N + 1)%Z ->
  exists xg, SeGrid.xg N ne le xi = Returned xg /\
    Z.of_nat (length xg) = (N * ne + 1)%Z /\
    forall x, (0 <= x <= N * ne)%Z -> Np.item xg x = SeGrid.node N le xi x.
Proof.
  intros HN Hne Hxi. unfold SeGrid.xg.
  rewrite setitem_nonneg by (rewrite length_zeros; nia).
  rewrite bind_Returned.
  set (x0 := <[Z.to_nat 0 := 0%R]> (Np.zeros (N * ne + 1))).
  assert (Z.of_nat (length x0) = (N * ne + 1)%Z) as Hl0.
  { unfold x0. rewrite length_insert, length_zeros. nia. }
  assert (Np.item x0 0 = 0%R) as H00.
  { unfold x0. rewrite item_insert by (rewrite length_zeros; nia).
    by rewrite Z.eqb_refl. }
  set (P := fun (t : Z) (s : Z * list R) =>
              fst s = t /\ Z.of_nat (length (snd s)) = (N * ne + 1)%Z /\
              forall x, (0 <= x <= t)%Z ->
                Np.item (snd s) x = SeGrid.node N le xi x).
  match goal with
  | |- exists xg, (for_ _ ?body ?s0 ≫= _) = _ /\ _ =>
      destruct (for_range_inv (fun i s => P ((i - 1) * N)%Z s)
                  1 (ne + 1) body s0) as ([k xg] & E & Hk & Hl & Hx)
  end; [lia | | |].
  - unfold P. cbn [fst snd]. split; [lia|]. split; [done|].
    intros x Hx. replace x with 0%Z by lia. by rewrite H00.
  - intros i s Hi HP.
    match goal with
    | |- exists s', for_ _ ?body _ = _ /\ _ =>
        destruct (for_range_inv (fun j s => P ((i - 1) * N + j)%Z s)
                    0 N body s) as (s' & E' & HP')
    end; [lia | | |].
    + by replace ((i - 1) * N + 0)%Z with ((i - 1) * N)%Z by lia.
    + intros j [k xg] Hj (Hk & Hl & Hx). cbn [fst snd] in Hk, Hl, Hx.
      subst k. cbn beta iota zeta.
      rewrite getitem_item by lia. rewrite bind_Returned.
      rewrite setitem_nonneg by nia. rewrite bind_Returned.
      eexists. split; [done|]. unfold P. cbn [fst snd].
      split; [lia|]. split; [by rewrite length_insert|].
      intros x Hxr. rewrite item_insert by nia.
      destruct (Z.eqb_spec x ((i - 1) * N + j + 1)) as [->|]; [|apply Hx; lia].
      unfold SeGrid.node.
      destruct (Z.eqb_spec ((i - 1) * N + j + 1) 0); [nia|].
      replace ((i - 1) * N + j + 1 - 1)%Z with ((i - 1) * N + j)%Z by lia.
      destruct (element_divmod N (i - 1) j Hj) as [-> ->]. done.
    + exists s'. split; [done|].
      by replace ((i + 1 - 1) * N)%Z with ((i - 1) * N + N)%Z by lia.
  - rewrite E, bind_Returned. cbn [fst snd] in *. exists xg.
    split; [done|]. split; [done|]. intros x Hxr. apply Hx. nia.
Qed.

(** X14. The grid of the spectral-element notebooks.  The loops return
    the [N*ne+1] coordinates: 0 first, then, for the element [i] and its
    node [j+1], [(i-1)*le + .5*(xi[j+1]+1)*le].  If the last GLL point is
    1, the element boundaries lie at the multiples of the element
    length; if moreover the GLL points increase from -1 and the element
    length is positive, the coordinates increase strictly, so that the
    smallest grid spacing, from which the time step is taken, is
    positive. *)
Theorem grid_increases_with_gll_points
    (N ne : Z) (le : R) (xi : list R) :
  (1 <= N)%Z -> (1 <= ne)%Z -> Z.of_nat (length xi) = (N + 1)%Z ->
  exists xg, SeGrid.xg N ne le xi = Returned xg /\
    Z.of_nat (length xg) = (N * ne + 1)%Z /\
    Np.item xg 0 = 0%R /\
    (forall i j, (1 <= i <= ne)%Z -> (0 <= j < N)%Z ->
       Np.item xg ((i - 1) * N + j + 1) =
       (IZR (i - 1) * le + 5 / 10 * (Np.item xi (j + 1) + 1) * le)%R) /\
    (Np.item xi N = 1%R ->
     forall e, (0 <= e <= ne)%Z -> Np.item xg (e * N) = (IZR e * le)%R) /\
    ((0 < le)%R -> Np.item xi 0 = (-1)%R -> Np.item xi N = 1%R ->
     (forall j, (0 <= j < N)%Z -> (Np.item xi j < Np.item xi (j + 1))%R) ->
     forall x, (0 <= x < N * ne)%Z -> (Np.item xg x < Np.item xg (x + 1))%R).
Proof.
  intros HN Hne Hxi.
  destruct (xg_spec N ne le xi HN Hne Hxi) as (xg & E & Hl & Hx).
  exists xg. split; [done|]. split; [done|].
  assert (forall i j, (1 <= i <= ne)%Z -> (0 <= j < N)%Z ->
            Np.item xg ((i - 1) * N + j + 1) =
            (IZR (i - 1) * le + 5 / 10 * (Np.item xi (j + 1) + 1) * le)%R)
    as Hnode.
  { intros i j Hi Hj. rewrite Hx by nia. unfold SeGrid.node.
    destruct (Z.eqb_spec ((i - 1) * N + j + 1) 0); [nia|].
    replace ((i - 1) * N + j + 1 - 1)%Z with ((i - 1) * N + j)%Z by lia.
    destruct (element_divmod N (i - 1) j Hj) as [-> ->]. done. }
  assert (Np.item xi N = 1%R ->
          forall e, (0 <= e <= ne)%Z -> Np.item xg (e * N) = (IZR e * le)%R)
    as Hbound.
  { intros HxN e He. destruct (Z.eq_dec e 0%Z) as [->|].
    - rewrite Hx by nia. replace (0 * N)%Z with 0%Z by lia.
      unfold SeGrid.node. rewrite Z.eqb_refl. lra.
    - replace (e * N)%Z with ((e - 1) * N + (N - 1) + 1)%Z by lia.
      rewrite Hnode by lia. replace (N - 1 + 1)%Z with N by lia.
      rewrite HxN, minus_IZR. lra. }
  split; [rewrite Hx by nia; unfold SeGrid.node; by rewrite Z.eqb_refl|].
  split; [done|]. split; [done|].
  intros Hle Hx0 HxN Hinc x Hxr.
  set (q := (x / N)%Z). set (r := (x mod N)%Z).
  assert (x = q * N + r /\ 0 <= r < N /\ 0 <= q < ne)%Z as (Hxq & Hr & Hq).
  { unfold q, r. pose proof (Z.div_mod x N ltac:(lia)).
    pose proof (Z.mod_pos_bound x N ltac:(lia)).
    assert (x / N < ne)%Z by (apply Z.div_lt_upper_bound; nia).
    assert (0 <= x / N)%Z by (apply Z.div_pos; lia). nia. }
  replace (x + 1)%Z with ((q + 1 - 1) * N + r + 1)%Z by lia.
  rewrite Hnode by lia. replace (q + 1 - 1)%Z with q by lia.
  destruct (Z.eq_dec r 0%Z) as [Hr0|Hr0].
  - replace x with (q * N)%Z by lia. rewrite Hbound by (done || lia).
    rewrite Hr0. pose proof (Hinc 0%Z ltac:(lia)) as H01.
    change (0 + 1)%Z with 1%Z in *. nra.
  - replace x with ((q + 1 - 1) * N + (r - 1) + 1)%Z at 1 by lia.
    rewrite Hnode by lia. replace (q + 1 - 1)%Z with q by lia.
    replace (r - 1 + 1)%Z with r by lia.
    pose proof (Hinc r ltac:(lia)). nra.
Qed.

Lemma grid_increases_with_gll_points_witness :
  exists xg, SeGrid.xg 1 2 1 [-1; 1]%R = Returned xg /\
    Z.of_nat (length xg) = (1 * 2 + 1)%Z /\
    Np.item xg 0 = 0%R.
Proof.
  destruct (grid_increases_with_gll_points 1 2 1 [-1; 1]%R)
    as (xg & E & Hl & H0 & _); [lia | lia | reflexivity |].
  by exists xg.
Defined.

(** ** The stiffness matrices as sums of element blocks *)

Lemma acc_shift (a b c : Z) (g : Z -> R) :
  SeClosed.acc (a + c) (b + c) g = SeClosed.acc a b (fun k => g (k + c)%Z).
Proof.
  destruct (Z.le_gt_cases b a) as [H|H].
  { by rewrite !acc_nil by lia. }
  replace b with (a + Z.of_nat (Z.to_nat (b - a)))%Z by lia.
  induction (Z.to_nat (b - a)) as [|n IH].
  - by rewrite !acc_nil by lia.
  - replace (a + Z.of_nat (S n) + c)%Z with (a + Z.of_nat n + c + 1)%Z by lia.
    replace (a + Z.of_nat (S n))%Z with (a + Z.of_nat n + 1)%Z by lia.
    rewrite !acc_snoc by lia. by rewrite IH.
Qed.

Lemma acc_first (a b : Z) (g : Z -> R) :
  (a < b)%Z -> SeClosed.acc a b g = (g a + SeClosed.acc (a + 1) b g)%R.
Proof. intros H. by rewrite (acc_app a (a + 1) b), acc_one by lia. Qed.

Ltac in_block :=
  unfold StiffnessClosed.block, SeClosed.in_block;
  repeat match goal with
    | |- context [(?a <=? ?b)%Z] => destruct (Z.leb_spec a b)
    | |- context [(?a =? ?b)%Z] => destruct (Z.eqb_spec a b)
    end; cbn [andb]; try done; try nia.

Lemma additive_shared (N ne : Z) (Ke : Z -> Z -> Z -> R) (e : Z) :
  (1 <= N)%Z -> (1 <= e < ne)%Z ->
  StiffnessClosed.additive N ne Ke (e * N) (e * N)
  = (Ke e N N + Ke (e + 1)%Z 0%Z 0%Z)%R.
Proof.
  intros HN He. unfold StiffnessClosed.additive.
  rewrite (acc_two 1 (ne + 1) e) by (try lia; intros k Hk H1 H2; in_block).
  unfold StiffnessClosed.block, SeClosed.in_block.
  destruct (Z.leb_spec ((e - 1) * N) (e * N)); [|nia].
  destruct (Z.leb_spec (e * N) (e * N)); [|lia].
  destruct (Z.leb_spec ((e + 1 - 1) * N) (e * N)); [|nia].
  destruct (Z.leb_spec (e * N) ((e + 1) * N)); [|nia].
  cbn [andb]. f_equal; f_equal; nia.
Qed.

(** The rows of the sum of blocks sum to zero when the rows of the
    elemental matrices do. *)
Lemma additive_row (N ne : Z) (Ke : Z -> Z -> Z -> R) (x : Z) :
  (1 <= N)%Z -> (1 <= ne)%Z ->
  (forall e a, (1 <= e <= ne)%Z -> (0 <= a <= N)%Z ->
     SeClosed.acc 0 (N + 1) (Ke e a) = 0%R) ->
  SeClosed.acc 0 (SeHomo.ng N ne) (StiffnessClosed.additive N ne Ke x) = 0%R.
Proof.
  intros HN Hne HKe. unfold StiffnessClosed.additive. rewrite acc_swap.
  apply acc_zero. intros e He. rewrite ng_eq.
  destruct (Z.leb_spec ((e - 1) * N) x), (Z.leb_spec x (e * N)).
  - rewrite (acc_window 0 (ne * N + 1) ((e - 1) * N) (e * N + 1)).
    + replace ((e - 1) * N)%Z with (0 + (e - 1) * N)%Z at 1 by lia.
      replace (e * N + 1)%Z with (N + 1 + (e - 1) * N)%Z by lia.
      rewrite acc_shift.
      rewrite (acc_ext 0 (N + 1) _ (Ke e (x - (e - 1) * N)%Z)).
      * apply HKe; lia.
      * intros b Hb. unfold StiffnessClosed.block, SeClosed.in_block.
        destruct (Z.leb_spec ((e - 1) * N) x),
          (Z.leb_spec x (e * N)),
          (Z.leb_spec ((e - 1) * N) (b + (e - 1) * N)),
          (Z.leb_spec (b + (e - 1) * N) (e * N)); try lia.
        cbn [andb]. f_equal. lia.
    + nia.
    + nia.
    + nia.
    + intros y Hy Hn. unfold StiffnessClosed.block, SeClosed.in_block.
      destruct (Z.leb_spec ((e - 1) * N) y), (Z.leb_spec y (e * N));
        rewrite ?andb_false_r; try done. lia.
  - apply acc_zero. intros y Hy. in_block.
  - apply acc_zero. intros y Hy. in_block.
  - apply acc_zero. intros y Hy. in_block.
Qed.

Lemma additive_ext (N ne : Z) (Ke Ke' : Z -> Z -> Z -> R) (x y : Z) :
  (forall e a b, (1 <= e <= ne)%Z -> (0 <= a <= N)%Z -> (0 <= b <= N)%Z ->
     Ke e a b = Ke' e a b) ->
  StiffnessClosed.additive N ne Ke x y = StiffnessClosed.additive N ne Ke' x y.
Proof.
  intros H. unfold StiffnessClosed.additive. apply acc_ext. intros e He.
  unfold StiffnessClosed.block, SeClosed.in_block.
  destruct (Z.leb_spec ((e - 1) * N) x), (Z.leb_spec x (e * N)),
    (Z.leb_spec ((e - 1) * N) y), (Z.leb_spec y (e * N)); cbn [andb];
    try done.
  apply H; lia.
Qed.

(** A node that is not the first of element [k] is no corner between
    the elements [k-1] and [k]. *)
Lemma corners_step (N : Z) (c : R) (k x y : Z) :
  (0 <= N)%Z ->
  SeClosed.in_block N k x y = false ->
  StiffnessClosed.corners N c 1 k x y
  = StiffnessClosed.corners N c 1 (k - 1) x y.
Proof.
  intros HN Hout. unfold StiffnessClosed.corners.
  destruct (Z.le_gt_cases k 1) as [H|H].
  { by rewrite !acc_nil by lia. }
  replace k with (k - 1 + 1)%Z at 1 by lia. rewrite acc_snoc by lia.
  unfold SeClosed.in_block in Hout.
  destruct (Z.eqb_spec x ((k - 1) * N)) as [->|],
    (Z.eqb_spec y ((k - 1) * N)) as [->|]; cbn [andb]; try lra.
  exfalso. revert Hout.
  destruct (Z.leb_spec ((k - 1) * N) ((k - 1) * N)),
    (Z.leb_spec ((k - 1) * N) (k * N)); cbn [andb]; try done; try nia.
Qed.

Section HomoBlocks.

Variables (N ne : Z) (Ke : list (list R)).
Hypothesis HN : (1 <= N)%Z.
Hypothesis Hne : (1 <= ne)%Z.
Hypothesis HsKe : Py.shape2 (N + 1) (N + 1) Ke.

(** After the assignment of the blocks, a shared node holds the corner
    of the later block alone. *)
Lemma homo_K_blocks_entries :
  exists K, SeHomo.K_blocks N ne Ke = Returned K /\
    Py.shape2 (SeHomo.ng N ne) (SeHomo.ng N ne) K /\
    forall x y, Np.entry K x y =
      (StiffnessClosed.additive N ne (fun _ => Np.entry Ke) x y
       - StiffnessClosed.corners N (Np.entry Ke N N) 1 ne x y)%R.
Proof.
  unfold SeHomo.K_blocks.
  match goal with
  | |- exists K, for_ _ ?body ?K0 = _ /\ _ =>
      destruct (for_range_inv
                  (fun k K =>
                     Py.shape2 (SeHomo.ng N ne) (SeHomo.ng N ne) K /\
                     forall x y, Np.entry K x y =
                       (SeClosed.acc 1 k
                          (fun e => StiffnessClosed.block N
                                      (fun _ => Np.entry Ke) e x y)
                        - StiffnessClosed.corners N (Np.entry Ke N N)
                            1 (k - 1) x y)%R)
                  1 (ne + 1) body K0) as (K & E & Hs & HK)
  end; [lia | | |].
  - split; [apply shape2_zeros2; rewrite ng_eq; nia|].
    intros x y. rewrite entry_zeros2. unfold StiffnessClosed.corners.
    rewrite !acc_nil by lia. lra.
  - intros k K Hk [HsK HK]. cbn zeta.
    assert (0 <= (k - 1) * N /\ (k - 1) * N + N <= ne * N)%Z as [? ?] by nia.
    match goal with
    | |- exists K', for_ _ (fun i => for_ _ (fun j => @?body i j)) _ = _ /\ _ =>
        destruct (visit_loop2 Np.entry (SeHomo.ng N ne) (SeHomo.ng N ne)
                    (-1) N (-1) N ((k - 1) * N + 1) ((k - 1) * N + 1) body
                    (fun x y => Np.entry Ke (x - ((k - 1) * N + 1) + 1)
                                            (y - ((k - 1) * N + 1) + 1)) K)
          as (Kb & E & Hs & HKb)
    end; [done | lia | lia | | ].
    + intros i j M Hi Hj HsM _. cbn beta.
      rewrite (getitem2_entry (N + 1) (N + 1) Ke) by (done || lia).
      rewrite bind_Returned.
      match goal with
      | |- exists M', Py.setitem2 M ?a ?b ?v = _ /\ _ =>
          destruct (setitem2_entry (SeHomo.ng N ne) (SeHomo.ng N ne) M a b v HsM)
            as (M' & EM & HsM' & HM')
      end; [rewrite ng_eq; lia | rewrite ng_eq; lia |].
      exists M'. split; [done|]. split; [done|].
      intros x y. rewrite HM'.
      destruct (Z.eqb_spec x ((k - 1) * N + 1 + i)) as [->|]; [|done].
      destruct (Z.eqb_spec y ((k - 1) * N + 1 + j)) as [->|]; [|done]. cbn.
      f_equal; lia.
    + exists Kb. split; [done|]. split; [done|].
      intros x y. rewrite HKb, HK. rewrite (acc_snoc 1 k) by lia.
      replace (k + 1 - 1)%Z with k by lia.
      match goal with
      | |- (if ?c then _ else _) = _ => destruct c eqn:Hc
      end.
      * (* inside of the block *)
        assert (SeClosed.in_block N k x y = true) as Hin.
        { rewrite <- Hc. unfold SeClosed.in_block. zprune. }
        assert (SeClosed.acc 1 k
                  (fun e => StiffnessClosed.block N
                              (fun _ => Np.entry Ke) e x y)
                = StiffnessClosed.corners N (Np.entry Ke N N) 1 k x y) as ->.
        { unfold StiffnessClosed.corners. apply acc_ext. intros e He.
          revert Hin.
          unfold StiffnessClosed.block, SeClosed.in_block.
          destruct (Z.leb_spec ((k - 1) * N) x), (Z.leb_spec x (k * N)),
            (Z.leb_spec ((k - 1) * N) y), (Z.leb_spec y (k * N));
            cbn [andb]; try done. intros _.
          destruct (Z.leb_spec ((e - 1) * N) x), (Z.leb_spec x (e * N)),
            (Z.leb_spec ((e - 1) * N) y), (Z.leb_spec y (e * N)),
            (Z.eqb_spec x (e * N)), (Z.eqb_spec y (e * N)); cbn [andb];
            try done; try nia.
          f_equal; nia. }
        unfold StiffnessClosed.block. rewrite Hin.
        replace (x - ((k - 1) * N + 1) + 1)%Z with (x - (k - 1) * N)%Z by lia.
        replace (y - ((k - 1) * N + 1) + 1)%Z with (y - (k - 1) * N)%Z by lia.
        lra.
      * assert (SeClosed.in_block N k x y = false) as Hout.
        { rewrite <- Hc. unfold SeClosed.in_block. zprune. }
        rewrite (corners_step N (Np.entry Ke N N) k x y) by (lia || done).
        unfold StiffnessClosed.block. rewrite Hout. lra.
  - exists K. split; [done|]. split; [done|]. intros x y. rewrite HK.
    by replace (ne + 1 - 1)%Z with ne by lia.
Qed.

End HomoBlocks.

Section HomoBoundaries.

Variables (N ne : Z) (Ke : list (list R)).
Hypothesis HN : (1 <= N)%Z.
Hypothesis Hne : (1 <= ne)%Z.
Hypothesis HsKe : Py.shape2 (N + 1) (N + 1) Ke.

(** The second loop puts the sum of the two corners at every shared
    node, which is what adding the blocks would have left there. *)
Lemma homo_K_boundaries_entries (K0 : list (list R)) :
  Py.shape2 (SeHomo.ng N ne) (SeHomo.ng N ne) K0 ->
  (forall x y, Np.entry K0 x y =
     (StiffnessClosed.additive N ne (fun _ => Np.entry Ke) x y
      - StiffnessClosed.corners N (Np.entry Ke N N) 1 ne x y)%R) ->
  exists K, SeHomo.K_boundaries N ne Ke K0 = Returned K /\
    Py.shape2 (SeHomo.ng N ne) (SeHomo.ng N ne) K /\
    forall x y, Np.entry K x y =
      StiffnessClosed.additive N ne (fun _ => Np.entry Ke) x y.
Proof.
  intros HsK0 HK0. unfold SeHomo.K_boundaries.
  match goal with
  | |- exists K, for_ _ ?body _ = _ /\ _ =>
      destruct (for_range_inv
                  (fun k K => Py.shape2 (SeHomo.ng N ne) (SeHomo.ng N ne) K /\
                     forall x y, Np.entry K x y =
                       (StiffnessClosed.additive N ne
                          (fun _ => Np.entry Ke) x y
                        - StiffnessClosed.corners N (Np.entry Ke N N)
                            (k - 1) ne x y)%R)
                  2 (ne + 1) body K0) as (K & E & Hs & HK)
  end; [lia | split; [done | intros x y; by rewrite HK0] | |].
  - intros k K [Hk1 Hk2] (HsK & HK). cbn zeta.
    assert (0 <= (k - 1) * N /\ (k - 1) * N <= ne * N - N)%Z as [? ?] by nia.
    rewrite !(getitem2_entry (N + 1) (N + 1) Ke) by (done || lia).
    rewrite !bind_Returned.
    destruct (setitem2_entry (SeHomo.ng N ne) (SeHomo.ng N ne) K
                ((k - 1) * N) ((k - 1) * N)
                (Np.entry Ke 0 0 + Np.entry Ke N N) HsK) as (K' & -> & Hs' & HK');
      [rewrite ng_eq; lia | rewrite ng_eq; lia |].
    exists K'. split; [done|]. split; [done|].
    intros x y. rewrite HK'. replace (k + 1 - 1)%Z with k by lia.
    destruct ((x =? (k - 1) * N)%Z && (y =? (k - 1) * N)%Z) eqn:Hc.
    + apply andb_true_iff in Hc as [Hx%Z.eqb_eq Hy%Z.eqb_eq]. subst x y.
      rewrite (additive_shared N ne (fun _ => Np.entry Ke) (k - 1))
        by lia.
      unfold StiffnessClosed.corners. rewrite acc_zero; [lra|].
      intros e He.
      destruct (Z.eqb_spec ((k - 1) * N) (e * N)); [nia | done].
    + rewrite HK. unfold StiffnessClosed.corners.
      rewrite (acc_first (k - 1) ne) by lia.
      rewrite Hc. replace (k - 1 + 1)%Z with k by lia. lra.
  - exists K. split; [done|]. split; [done|]. intros x y. rewrite HK.
    unfold StiffnessClosed.corners. rewrite acc_nil by lia. lra.
Qed.

End HomoBoundaries.

(** The stiffness matrix of the homogeneous notebook holds, in every
    cell, the sum over the elements of the entry of [Ke] that falls on
    it: the two loops together add the blocks. *)
Lemma homo_K_entries (xmax vs rho : R) (N ne : Z) (w : list R)
    (l1d : list (list R)) :
  (1 <= N)%Z -> (1 <= ne)%Z ->
  Z.of_nat (length w) = (N + 1)%Z ->
  Py.shape2 (N + 1) (N + 1) l1d ->
  exists K, SeHomo.K xmax vs rho N ne w l1d = Returned K /\
    Py.shape2 (SeHomo.ng N ne) (SeHomo.ng N ne) K /\
    forall x y, Np.entry K x y =
      StiffnessClosed.additive N ne
        (fun _ => SeClosed.homo_Ke xmax vs rho N ne w l1d) x y.
Proof.
  intros HN Hne Hw Hl1d.
  destruct (homo_Ke_spec xmax vs rho N ne w l1d ltac:(lia) Hw Hl1d)
    as (Ke & EKe & HsKe & HKe).
  destruct (homo_K_blocks_entries N ne Ke HN Hne HsKe) as (K1 & E1 & Hs1 & HK1).
  destruct (homo_K_boundaries_entries N ne Ke HN Hne HsKe K1 Hs1 HK1)
    as (K & E & Hs & HK).
  exists K. split.
  { unfold SeHomo.K. by rewrite EKe, bind_Returned, E1, bind_Returned. }
  split; [done|]. intros x y. rewrite HK.
  apply additive_ext. intros e a b _ Ha Hb. by apply HKe.
Qed.

Lemma hetero_K_additive (xmax : R) (N ne : Z) (mu w : list R)
    (l1d : list (list R)) (x y : Z) :
  SeClosed.hetero_K xmax N ne mu w l1d x y =
  StiffnessClosed.additive N ne
    (fun e => SeClosed.hetero_Ke xmax N ne mu w l1d ((e - 1) * N)) x y.
Proof. done. Qed.

(** A row of an elemental matrix sums to zero when the columns of the
    derivative matrix do. *)
Lemma homo_Ke_row (xmax vs rho : R) (N ne : Z) (w : list R)
    (l1d : list (list R)) (a : Z) :
  (forall k, (0 <= k <= N)%Z ->
     SeClosed.acc 0 (N + 1) (fun b => Np.entry l1d b k) = 0%R) ->
  SeClosed.acc 0 (N + 1) (SeClosed.homo_Ke xmax vs rho N ne w l1d a) = 0%R.
Proof.
  intros Hcol. unfold SeClosed.homo_Ke. rewrite acc_swap.
  apply acc_zero. intros k Hk. unfold SeClosed.homo_term.
  rewrite acc_scale, Hcol by lia. ring.
Qed.

Lemma hetero_Ke_row (xmax : R) (N ne : Z) (mu w : list R)
    (l1d : list (list R)) (xe a : Z) :
  (forall k, (0 <= k <= N)%Z ->
     SeClosed.acc 0 (N + 1) (fun b => Np.entry l1d b k) = 0%R) ->
  SeClosed.acc 0 (N + 1) (SeClosed.hetero_Ke xmax N ne mu w l1d xe a) = 0%R.
Proof.
  intros Hcol. unfold SeClosed.hetero_Ke. rewrite acc_swap.
  apply acc_zero. intros k Hk. unfold SeClosed.hetero_term.
  rewrite acc_scale, Hcol by lia. ring.
Qed.

(** The spectral-element stiffness matrices applied to the vector of
    ones. *)
Lemma se_stiffness_row_sums (xmax vs rho : R) (N ne : Z)
    (mu w : list R) (l1d : list (list R)) :
  (1 <= N)%Z -> (1 <= ne)%Z -> xmax <> 0%R ->
  Z.of_nat (length mu) = SeHomo.ng N ne ->
  Z.of_nat (length w) = (N + 1)%Z ->
  Py.shape2 (N + 1) (N + 1) l1d ->
  (forall k, (0 <= k <= N)%Z ->
     SeClosed.acc 0 (N + 1) (fun b => Np.entry l1d b k) = 0%R) ->
  exists Kh Kt,
    SeHomo.K xmax vs rho N ne w l1d = Returned Kh /\
    SeHetero.K xmax N ne mu w l1d = Returned Kt /\
    forall x, (0 <= x < SeHomo.ng N ne)%Z ->
      Np.item (Np.matvec Kh (replicate (Z.to_nat (SeHomo.ng N ne)) 1%R)) x
      = 0%R /\
      Np.item (Np.matvec Kt (replicate (Z.to_nat (SeHomo.ng N ne)) 1%R)) x
      = 0%R.
Proof.
  intros HN Hne Hxmax Hmu Hw Hl1d Hcol.
  destruct (homo_K_entries xmax vs rho N ne w l1d HN Hne Hw Hl1d)
    as (Kh & Eh & Hsh & HKh).
  destruct (hetero_K_spec xmax N ne mu w l1d ltac:(lia) Hne Hmu Hw Hl1d)
    as (Kt & Et & Hst & HKt).
  exists Kh, Kt. split; [done|]. split; [done|].
  intros x Hx. split.
  - rewrite (matvec_ones _ _ _ _ Hsh Hx).
    rewrite (acc_ext _ _ _ _ (fun y _ => HKh x y)).
    apply additive_row; try done.
    intros e a _ _. by apply homo_Ke_row.
  - rewrite (matvec_ones _ _ _ _ Hst Hx).
    rewrite (acc_ext _ _ _ _ (fun y _ => HKt x y)).
    rewrite (acc_ext _ _ _ _ (fun y _ => hetero_K_additive xmax N ne mu w l1d x y)).
    apply additive_row; try done.
    intros e a _ _. by apply hetero_Ke_row.
Qed.

(** X15. The stiffness matrices of both spectral-element notebooks
    send a constant displacement to zero: for a domain of a length other
    than zero, when the columns of the derivative matrix [l1d] sum to
    zero (the Lagrange polynomials sum to one), every row of the
    assembled [K] sums to zero, the rows of the shared nodes
    included. *)
Theorem se_stiffness_times_ones (xmax vs rho : R) (N ne : Z)
    (mu w : list R) (l1d : list (list R)) :
  (1 <= N)%Z -> (1 <= ne)%Z -> xmax <> 0%R ->
  Z.of_nat (length mu) = SeHomo.ng N ne ->
  Z.of_nat (length w) = (N + 1)%Z ->
  Py.shape2 (N + 1) (N + 1) l1d ->
  (forall k, (0 <= k <= N)%Z ->
     SeClosed.acc 0 (N + 1) (fun b => Np.entry l1d b k) = 0%R) ->
  exists Kh Kt,
    SeHomo.K xmax vs rho N ne w l1d = Returned Kh /\
    SeHetero.K xmax N ne mu w l1d = Returned Kt /\
    forall x, (0 <= x < SeHomo.ng N ne)%Z ->
      Np.item (Np.matvec Kh (replicate (Z.to_nat (SeHomo.ng N ne)) 1%R)) x
      = 0%R /\
      Np.item (Np.matvec Kt (replicate (Z.to_nat (SeHomo.ng N ne)) 1%R)) x
      = 0%R.
Proof. exact (se_stiffness_row_sums xmax vs rho N ne mu w l1d). Qed.

Lemma se_stiffness_times_ones_witness :
  exists Kh Kt,
    SeHomo.K 2 1 1 1 2 Sample.w Sample.l1d = Returned Kh /\
    SeHetero.K 2 1 2 Sample.mu Sample.w Sample.l1d = Returned Kt /\
    Np.item (Np.matvec Kh [1; 1; 1]%R) 1 = 0%R /\
    Np.item (Np.matvec Kt [1; 1; 1]%R) 1 = 0%R.
Proof.
  destruct (se_stiffness_times_ones 2 1 1 1 2 Sample.mu Sample.w Sample.l1d)
    as (Kh & Kt & Eh & Et & H).
  - lia.
  - lia.
  - lra.
  - reflexivity.
  - reflexivity.
  - split; [reflexivity | repeat constructor].
  - intros k Hk. assert (k = 0 \/ k = 1)%Z as [-> | ->] by lia;
      unfold SeClosed.acc, Np.entry, Np.item, Sample.l1d; simpl; lra.
  - exists Kh, Kt. split; [exact Eh|]. split; [exact Et|].
    apply (H 1%Z). unfold SeHomo.ng. lia.
Defined.

Lemma hetero_Ke_constant (xmax vs rho : R) (N ne : Z) (mu w : list R)
    (l1d : list (list R)) (e a b : Z) :
  (0 <= N)%Z -> (1 <= e <= ne)%Z -> xmax <> 0%R ->
  (forall i, (0 <= i < SeHomo.ng N ne)%Z ->
     Np.item mu i = SeHomo.mu vs rho) ->
  SeClosed.hetero_Ke xmax N ne mu w l1d ((e - 1) * N) a b
  = SeClosed.homo_Ke xmax vs rho N ne w l1d a b.
Proof.
  intros HN He Hx Hmu. unfold SeClosed.hetero_Ke, SeClosed.homo_Ke.
  replace (-1)%Z with (0 + -1)%Z at 1 by lia.
  replace N with (N + 1 + -1)%Z at 1 by lia.
  rewrite acc_shift. apply acc_ext. intros k Hk.
  unfold SeClosed.hetero_term, SeClosed.homo_term.
  replace (k + -1 + 1)%Z with k by lia.
  rewrite Hmu by (rewrite ng_eq; nia).
  assert (IZR ne <> 0%R) by (apply not_0_IZR; lia).
  unfold SeHetero.Ji, SeHetero.J, SeHetero.le, SeHomo.Ji, SeHomo.J, SeHomo.le.
  field. done.
Qed.

(** X16. With a shear modulus that is the same at every grid point,
    the stiffness matrix assembled by the heterogeneous notebook (one
    elemental matrix per element, blocks added) is, entry by entry, the
    one assembled by the homogeneous notebook (one elemental matrix,
    blocks assigned and the shared nodes set afterwards). *)
Theorem se_hetero_stiffness_of_constant_mu (xmax vs rho : R) (N ne : Z)
    (mu w : list R) (l1d : list (list R)) :
  (1 <= N)%Z -> (1 <= ne)%Z -> xmax <> 0%R ->
  Z.of_nat (length mu) = SeHomo.ng N ne ->
  Z.of_nat (length w) = (N + 1)%Z ->
  Py.shape2 (N + 1) (N + 1) l1d ->
  (forall i, (0 <= i < SeHomo.ng N ne)%Z ->
     Np.item mu i = SeHomo.mu vs rho) ->
  exists Kh Kt,
    SeHomo.K xmax vs rho N ne w l1d = Returned Kh /\
    SeHetero.K xmax N ne mu w l1d = Returned Kt /\
    forall x y, Np.entry Kt x y = Np.entry Kh x y.
Proof.
  intros HN Hne Hx Hmu Hw Hl1d Hconst.
  destruct (homo_K_entries xmax vs rho N ne w l1d HN Hne Hw Hl1d)
    as (Kh & Eh & Hsh & HKh).
  destruct (hetero_K_spec xmax N ne mu w l1d ltac:(lia) Hne Hmu Hw Hl1d)
    as (Kt & Et & Hst & HKt).
  exists Kh, Kt. split; [done|]. split; [done|].
  intros x y. rewrite HKt, HKh, hetero_K_additive.
  apply additive_ext. intros e a b He _ _.
  apply hetero_Ke_constant; done || lia.
Qed.

Lemma se_hetero_stiffness_of_constant_mu_witness :
  exists Kh Kt,
    SeHomo.K 2 1 3 1 2 Sample.w Sample.l1d = Returned Kh /\
    SeHetero.K 2 1 2 [3; 3; 3]%R Sample.w Sample.l1d = Returned Kt /\
    forall x y, Np.entry Kt x y = Np.entry Kh x y.
Proof.
  apply (se_hetero_stiffness_of_constant_mu 2 1 3 1 2 [3; 3; 3]%R
           Sample.w Sample.l1d).
  - lia.
  - lia.
  - lra.
  - reflexivity.
  - reflexivity.
  - split; [reflexivity | repeat constructor].
  - intros i Hi. unfold SeHomo.ng in Hi.
    assert (i = 0 \/ i = 1 \/ i = 2)%Z as [->|[->| ->]] by lia;
      unfold Np.item, SeHomo.mu; simpl; lra.
Defined.

(** ** The low-velocity zone *)

Lemma max_replicate (n : nat) (x : R) :
  LowVelocityZone.max (replicate (S n) x) = Returned x.
Proof.
  cbn. f_equal. induction n as [|n IH]; cbn; [done|].
  rewrite Rmax_left by lra. done.
Qed.

Lemma scale_replicate (c x : R) (n : nat) :
  Np.scale c (replicate n x) = replicate n (c * x)%R.
Proof. unfold Np.scale. induction n as [|n IH]; cbn; [done | by rewrite IH]. Qed.

Lemma item_replicate (n : nat) (x : R) (i : Z) :
  (0 <= i < Z.of_nat n)%Z -> Np.item (replicate n x) i = x.
Proof.
  intros Hi. unfold Np.item. destruct (Z.leb_spec 0 i); [|lia].
  rewrite lookup_replicate_2 by lia. done.
Qed.

(** The cell returns for every grid of at least one point, and slows
    the points of the slice, whose bounds are Python's. *)
Lemma zone_spec (N ne el_span : Z) (percent vs rho : R) :
  (0 <= N * ne)%Z ->
  let len := (N * ne + 1)%Z in
  let b := ((N * ne + 1) / 2)%Z in
  let h := Z.quot (el_span * N + 1) 2 in
  exists vs' rho' mu,
    LowVelocityZone.zone N ne el_span percent vs rho
    = Returned (vs', rho', mu) /\
    Z.of_nat (length vs') = len /\ Z.of_nat (length rho') = len /\
    Z.of_nat (length mu) = len /\
    forall i, (0 <= i < len)%Z ->
      Np.item vs' i =
        (if ((LowVelocityZone.bound len (b - h) <=? i)
             && (i <? LowVelocityZone.bound len (b + h)))%Z
         then vs * percent else vs)%R /\
      Np.item rho' i = rho /\
      Np.item mu i = (rho * Np.item vs' i ^ 2)%R.
Proof.
  intros Hng len b h. unfold LowVelocityZone.zone, LowVelocityZone.ones.
  destruct (Z.ltb_spec (N * ne + 1) 0); [lia|].
  rewrite !bind_Returned. cbv zeta.
  destruct (Z.to_nat (N * ne + 1)) as [|n] eqn:En; [lia|].
  rewrite !scale_replicate.
  rewrite max_replicate, bind_Returned, <- En.
  set (vs0 := replicate (Z.to_nat (N * ne + 1)) (vs * 1)%R).
  assert (Z.of_nat (length vs0) = len) as Hl0
    by (unfold vs0; rewrite length_replicate; lia).
  set (vs' := LowVelocityZone.setslice vs0 _ _ _).
  assert (Z.of_nat (length vs') = len) as Hl'.
  { unfold vs', LowVelocityZone.setslice, Cheby.fill.
    by rewrite length_imap. }
  set (rho' := replicate (Z.to_nat (N * ne + 1)) (rho * 1)%R).
  assert (Z.of_nat (length rho') = len) as Hlr.
  { unfold rho'. rewrite length_replicate. lia. }
  eexists _, _, _. split; [reflexivity|].
  split; [done|]. split; [done|]. split.
  { unfold Np.mul. rewrite length_zip_with, length_map. lia. }
  intros i Hi.
  assert (Np.item vs' i =
            (if ((LowVelocityZone.bound len (b - h) <=? i)
                 && (i <? LowVelocityZone.bound len (b + h)))%Z
             then vs * percent else vs)%R) as Hv.
  { unfold vs', LowVelocityZone.setslice. rewrite item_fill by lia.
    rewrite Hl0.
    unfold vs0. rewrite item_replicate by lia.
    destruct (_ && _); lra. }
  assert (Np.item rho' i = rho) as Hr.
  { unfold rho'. rewrite item_replicate by lia. lra. }
  split; [done|]. split; [done|].
  unfold Np.mul. rewrite item_zip_with, item_map, Hr by (rewrite ?length_map; lia).
  done.
Qed.

(** X17. For a zone of at most [ne] elements the slowed grid points of
    the heterogeneous notebook are those of the index window
    [b - a÷2 <= i < b + a÷2] around the middle [b] of the grid, which
    lies inside of the grid; there the velocity is [percent] times the
    one outside, and [mu] is [rho * vs^2] at every point. *)
Theorem low_velocity_zone_window (N ne el_span : Z) (percent vs rho : R) :
  (1 <= N)%Z -> (0 <= el_span <= ne)%Z ->
  let len := (N * ne + 1)%Z in
  let b := ((N * ne + 1) / 2)%Z in
  let h := Z.quot (el_span * N + 1) 2 in
  (0 <= b - h)%Z /\ (b + h <= len)%Z /\
  exists vs' rho' mu,
    LowVelocityZone.zone N ne el_span percent vs rho
    = Returned (vs', rho', mu) /\
    forall i, (0 <= i < len)%Z ->
      Np.item vs' i =
        (if ((b - h <=? i) && (i <? b + h))%Z then vs * percent else vs)%R /\
      Np.item mu i = (rho * Np.item vs' i ^ 2)%R.
Proof.
  intros HN Hspan len b h.
  assert (0 <= N * ne)%Z by nia.
  assert (0 <= h <= b)%Z as Hh.
  { unfold h, b. rewrite Z.quot_div_nonneg by nia. split.
    - apply Z.div_pos; nia.
    - apply Z.div_le_mono; nia. }
  assert (2 * b <= len)%Z as Hb.
  { unfold b, len. pose proof (Z.mul_div_le (N * ne + 1) 2). lia. }
  assert (0 <= b - h /\ b + h <= len)%Z as [? ?]
    by (clearbody len b h; lia).
  split; [done|]. split; [done|].
  destruct (zone_spec N ne el_span percent vs rho ltac:(done))
    as (vs' & rho' & mu & E & _ & _ & _ & Hz).
  exists vs', rho', mu. split; [done|].
  intros i Hi. destruct (Hz i Hi) as (Hv & _ & Hm). split; [|done].
  rewrite Hv. fold b h len. unfold LowVelocityZone.bound.
  clearbody len b h.
  destruct (Z.ltb_spec (b - h) 0); [lia|].
  destruct (Z.ltb_spec (b + h) 0); [lia|].
  by rewrite !Z.min_l by lia.
Qed.

Lemma low_velocity_zone_window_witness :
  exists vs' rho' mu,
    LowVelocityZone.zone 3 4 2 (1 / 2) 2 1 = Returned (vs', rho', mu) /\
    Np.item vs' 2 = 2%R /\ Np.item vs' 3 = (2 * (1 / 2))%R /\
    Np.item vs' 8 = (2 * (1 / 2))%R /\ Np.item vs' 9 = 2%R.
Proof.
  destruct (low_velocity_zone_window 3 4 2 (1 / 2) 2 1)
    as (_ & _ & vs' & rho' & mu & E & H); [lia | lia |].
  exists vs', rho', mu. split; [exact E|].
  destruct (H 2%Z) as [-> _]; [lia|].
  destruct (H 3%Z) as [-> _]; [lia|].
  destruct (H 8%Z) as [-> _]; [lia|].
  destruct (H 9%Z) as [-> _]; [lia|].
  repeat split; reflexivity.
Defined.

(** X18. A zone wider than the grid is not clipped to it: when the lower
    bound [b - a÷2] of the slice is negative it counts from the end of
    the array, and the slowed points are those from [len + (b - a÷2)]
    on, the last few of the grid. *)
Theorem low_velocity_zone_wraps (N ne el_span : Z) (percent vs rho : R) :
  (0 <= N * ne)%Z ->
  let len := (N * ne + 1)%Z in
  let b := ((N * ne + 1) / 2)%Z in
  let h := Z.quot (el_span * N + 1) 2 in
  (- len <= b - h < 0)%Z ->
  exists vs' rho' mu,
    LowVelocityZone.zone N ne el_span percent vs rho
    = Returned (vs', rho', mu) /\
    forall i, (0 <= i < len)%Z ->
      Np.item vs' i =
        (if (len + (b - h) <=? i)%Z then vs * percent else vs)%R.
Proof.
  intros Hng len b h Hlo.
  assert (0 <= b)%Z by (apply Z.div_pos; lia).
  assert (2 * b <= len < 2 * b + 2)%Z as Hb.
  { unfold b, len. pose proof (Z.mul_div_le (N * ne + 1) 2).
    pose proof (Z.mul_succ_div_gt (N * ne + 1) 2). lia. }
  destruct (zone_spec N ne el_span percent vs rho Hng)
    as (vs' & rho' & mu & E & _ & _ & _ & Hz).
  exists vs', rho', mu. split; [done|].
  intros i Hi. destruct (Hz i Hi) as (Hv & _ & _).
  rewrite Hv. fold b h len. unfold LowVelocityZone.bound.
  clearbody len b h.
  destruct (Z.ltb_spec (b - h) 0); [|lia].
  destruct (Z.ltb_spec (b + h) 0); [lia|].
  rewrite Z.max_l by lia.
  assert (len <= b + h)%Z by lia.
  rewrite Z.min_r by lia.
  replace (b - h + len)%Z with (len + (b - h))%Z by lia.
  destruct (Z.leb_spec (len + (b - h)) i), (Z.ltb_spec i len);
    cbn [andb]; done || lia.
Qed.

Lemma low_velocity_zone_wraps_witness :
  exists vs' rho' mu,
    LowVelocityZone.zone 2 2 3 (1 / 2) 2 1 = Returned (vs', rho', mu) /\
    Np.item vs' 0 = 2%R /\ Np.item vs' 3 = 2%R /\
    Np.item vs' 4 = (2 * (1 / 2))%R.
Proof.
  destruct (low_velocity_zone_wraps 2 2 3 (1 / 2) 2 1)
    as (vs' & rho' & mu & E & H);
    [lia | vm_compute; split; [discriminate | reflexivity] |].
  exists vs', rho', mu. split; [exact E|].
  rewrite (H 0%Z), (H 3%Z), (H 4%Z) by lia.
  repeat split; reflexivity.
Defined.

(** ** Two-dimensional arrays of the 2D Fourier notebook *)

Lemma each_map {A B : Type} (f : A -> outcome B) (g : A -> B) (l : list A) :
  Forall (fun x => f x = Returned (g x)) l ->
  Np2.each f l = Returned (map g l).
Proof.
  induction 1 as [|x l Hx _ IH]; cbn; [done|].
  by rewrite Hx, bind_Returned, IH, bind_Returned.
Qed.

Lemma getcol_shape (r c : Z) (m : list (list R)) (j : Z) :
  Py.shape2 r c m -> (0 <= j < c)%Z ->
  Np2.getcol m j = Returned (map (fun row => Np.item row j) m).
Proof.
  intros [_ Hrows] Hj. apply each_map.
  eapply Forall_impl; [exact Hrows|]. intros row Hrow. cbn in Hrow.
  apply getitem_item. lia.
Qed.

Lemma fit_same (n : nat) (v : list R) :
  length v = n -> Np2.fit n v = Returned v.
Proof. intros H. unfold Np2.fit. by rewrite H, Nat.eqb_refl. Qed.

Lemma setcol_shape (r c : Z) (m : list (list R)) (j : Z) (v : list R) :
  Py.shape2 r c m -> (0 <= j < c)%Z -> Z.of_nat (length v) = r ->
  exists m', Np2.setcol m j v = Returned m' /\ Py.shape2 r c m'.
Proof.
  intros Hm Hj Hv. pose proof Hm as [Hl Hrows]. unfold Np2.setcol.
  rewrite (getcol_shape r c) by done. rewrite bind_Returned.
  rewrite fit_same by lia. rewrite bind_Returned.
  rewrite (each_map _ (fun p => <[Z.to_nat j := p.2]> p.1)).
  - eexists. split; [done|]. split.
    + rewrite length_map, length_zip. lia.
    + apply Forall_fmap, Forall_forall. intros [row x] Hin. cbn.
      rewrite length_insert. rewrite Forall_forall in Hrows.
      apply Hrows. by apply elem_of_zip_l in Hin.
  - apply Forall_forall. intros [row x] Hin. cbn.
    apply setitem_nonneg. rewrite Forall_forall in Hrows.
    apply elem_of_zip_l in Hin. rewrite (Hrows row Hin). lia.
Qed.

Lemma broadcast2_shape (f : R -> R -> R) (r c : Z) (a b : list (list R)) :
  Py.shape2 r c a -> Py.shape2 r c b ->
  exists m, Np2.broadcast2 f a b = Returned m /\ Py.shape2 r c m.
Proof.
  intros [Hla Ha] [Hlb Hb]. unfold Np2.broadcast2.
  replace (length a =? length b)%nat with true
    by (symmetry; apply Nat.eqb_eq; lia).
  rewrite Forall_forall in Ha. rewrite Forall_forall in Hb.
  rewrite (each_map _ (fun p => zip_with f p.1 p.2)).
  - eexists. split; [done|]. split.
    + rewrite length_map, length_zip. lia.
    + apply Forall_fmap, Forall_forall. intros [u v] Hin. cbn.
      rewrite length_zip_with.
      pose proof (Ha u ltac:(by apply elem_of_zip_l in Hin)).
      pose proof (Hb v ltac:(by apply elem_of_zip_r in Hin)). lia.
  - apply Forall_forall. intros [u v] Hin. cbn. apply broadcast_same.
    pose proof (Ha u ltac:(by apply elem_of_zip_l in Hin)).
    pose proof (Hb v ltac:(by apply elem_of_zip_r in Hin)). lia.
Qed.

Lemma getrow_shape (r c : Z) (m : list (list R)) (i : Z) :
  Py.shape2 r c m -> (0 <= i < r)%Z ->
  exists row, Py.getitem m i = Returned row /\ Z.of_nat (length row) = c /\
    m !! Z.to_nat i = Some row.
Proof.
  intros Hm Hi. pose proof Hm as [Hl _].
  destruct (lookup_lt_is_Some_2 m (Z.to_nat i)) as [row Hrow]; [lia|].
  exists row. split; [apply getitem_nonneg; [lia | done]|].
  split; [|done]. by apply (shape2_row r c m (Z.to_nat i)).
Qed.

Lemma stencil_spec (dx : R) (get : Z -> outcome (list R)) (i : Z) (n : nat) :
  (forall j, (i - 2 <= j <= i + 2)%Z ->
     exists v, get j = Returned v /\ length v = n) ->
  exists v, Fourier2D.stencil dx get i = Returned v /\ length v = n.
Proof.
  intros Hget. unfold Fourier2D.stencil.
  destruct (Hget (i + 2)%Z ltac:(lia)) as (a & -> & Ha).
  destruct (Hget (i + 1)%Z ltac:(lia)) as (b & -> & Hb).
  destruct (Hget i ltac:(lia)) as (e & -> & He).
  destruct (Hget (i - 1)%Z ltac:(lia)) as (g & -> & Hg).
  destruct (Hget (i - 2)%Z ltac:(lia)) as (k & -> & Hk).
  rewrite !bind_Returned, badd_same by (rewrite !length_scale; lia).
  rewrite !bind_Returned, bsub_same
    by (rewrite length_add, !length_scale; lia).
  rewrite !bind_Returned, badd_same
    by (rewrite length_sub, length_add, !length_scale; lia).
  rewrite !bind_Returned, bsub_same
    by (rewrite length_add, length_sub, length_add, !length_scale; lia).
  rewrite bind_Returned. eexists. split; [done|].
  rewrite length_map, length_sub, length_add, length_sub, length_add,
    !length_scale. lia.
Qed.

Lemma bound_inside (n i : Z) :
  (0 <= i <= n)%Z -> LowVelocityZone.bound n i = i.
Proof.
  intros H. unfold LowVelocityZone.bound.
  destruct (Z.ltb_spec i 0); lia.
Qed.

Lemma bound_range (n i : Z) :
  (0 <= n)%Z -> (0 <= LowVelocityZone.bound n i <= n)%Z.
Proof.
  intros H. unfold LowVelocityZone.bound.
  destruct (Z.ltb_spec i 0); lia.
Qed.

Lemma length_python_slice {A : Type} (a : list A) (lo hi : Z) :
  Z.of_nat (length (Np2.slice a lo hi))
  = Np2.slice_len (Z.of_nat (length a)) lo hi.
Proof.
  unfold Np2.slice, Np2.slice_len.
  pose proof (bound_range (Z.of_nat (length a)) lo ltac:(lia)).
  pose proof (bound_range (Z.of_nat (length a)) hi ltac:(lia)).
  rewrite length_take, length_drop. lia.
Qed.

Lemma shape2_block (r c : Z) (m : list (list R)) (r0 r1 c0 c1 : Z) :
  Py.shape2 r c m ->
  Py.shape2 (Np2.slice_len r r0 r1) (Np2.slice_len c c0 c1)
    (Np2.block m r0 r1 c0 c1).
Proof.
  intros [Hl Hrows]. unfold Np2.block. split.
  - by rewrite length_map, length_python_slice, Hl.
  - apply Forall_fmap. unfold Np2.slice at 1.
    apply Forall_take, Forall_drop.
    eapply Forall_impl; [exact Hrows|]. intros row Hrow.
    change (Z.of_nat (length (Np2.slice row c0 c1)) = Np2.slice_len c c0 c1).
    cbn in Hrow. by rewrite length_python_slice, Hrow.
Qed.

Lemma shape2_transpose (r c : Z) (m : list (list R)) :
  (0 <= c)%Z -> Z.of_nat (length m) = r ->
  Py.shape2 c r (Np2.transpose c m).
Proof.
  intros Hc Hl. unfold Np2.transpose. split.
  - rewrite length_map, length_range. lia.
  - apply Forall_fmap, Forall_forall. intros j _. cbn.
    by rewrite length_map.
Qed.

Lemma fit2_same (r c : Z) (v : list (list R)) :
  Py.shape2 r c v -> Np2.fit2 r c v = Returned v.
Proof.
  intros [Hl Hrows]. unfold Np2.fit2.
  rewrite (each_map (Np2.fit (Z.to_nat c)) (fun row => row) v).
  - rewrite bind_Returned, map_id.
    replace (length v =? Z.to_nat r)%nat with true; [done|].
    symmetry. apply Nat.eqb_eq. lia.
  - eapply Forall_impl; [exact Hrows|]. intros row Hrow. cbn in *.
    apply fit_same. lia.
Qed.

Lemma setslot_spec (res : list (list (list R))) (k r c : Z)
    (v : list (list R)) :
  (0 <= k < Z.of_nat (length res))%Z -> Py.shape2 r c v ->
  Np2.setslot res k r c v = Returned (<[Z.to_nat k := v]> res).
Proof.
  intros Hk Hv. unfold Np2.setslot.
  destruct (lookup_lt_is_Some_2 res (Z.to_nat k)) as [old Hold]; [lia|].
  rewrite (getitem_nonneg res k old) by (done || lia).
  rewrite bind_Returned, (fit2_same r c v Hv), bind_Returned.
  by apply setitem_nonneg.
Qed.

Lemma lookup_slice {A : Type} (a : list A) (lo hi : Z) (i : nat) :
  (0 <= lo <= hi)%Z -> (hi <= Z.of_nat (length a))%Z ->
  (Z.of_nat i < hi - lo)%Z ->
  Np2.slice a lo hi !! i = a !! (Z.to_nat lo + i)%nat.
Proof.
  intros Hlo Hhi Hi. unfold Np2.slice. rewrite !bound_inside by lia.
  rewrite lookup_take. destruct (decide (i < Z.to_nat (hi - lo))%nat); [|lia].
  apply lookup_drop.
Qed.

Lemma entry_neg_abs (m : list (list R)) (x y : Z) :
  Np.entry (Np2.neg_abs m) x y = (- Rabs (Np.entry m x y))%R.
Proof.
  unfold Np.entry, Py.cell, Np2.neg_abs.
  destruct ((0 <=? x) && (0 <=? y))%Z; [|cbn; rewrite Rabs_R0; lra].
  rewrite list_lookup_fmap.
  destruct (m !! Z.to_nat x) as [row|]; cbn; [|rewrite Rabs_R0; lra].
  rewrite list_lookup_fmap.
  destruct (row !! Z.to_nat y); cbn; [done | rewrite Rabs_R0; lra].
Qed.

Lemma entry_block (r c : Z) (m : list (list R)) (r0 r1 c0 c1 x y : Z) :
  Py.shape2 r c m -> (0 <= r0 <= r1)%Z -> (r1 <= r)%Z ->
  (0 <= c0 <= c1)%Z -> (c1 <= c)%Z ->
  (0 <= x < r1 - r0)%Z -> (0 <= y < c1 - c0)%Z ->
  Np.entry (Np2.block m r0 r1 c0 c1) x y = Np.entry m (r0 + x) (c0 + y).
Proof.
  intros Hm Hr0 Hr1 Hc0 Hc1 Hx Hy. pose proof Hm as [Hl _].
  unfold Np.entry, Py.cell, Np2.block.
  destruct (Z.leb_spec 0 x), (Z.leb_spec 0 y); try lia.
  destruct (Z.leb_spec 0 (r0 + x)), (Z.leb_spec 0 (c0 + y)); try lia.
  cbn [andb]. rewrite list_lookup_fmap, lookup_slice by lia.
  replace (Z.to_nat r0 + Z.to_nat x)%nat with (Z.to_nat (r0 + x)) by lia.
  destruct (m !! Z.to_nat (r0 + x)) as [row|] eqn:Hrow; [|done]. cbn.
  pose proof (shape2_row r c m _ _ Hm Hrow).
  rewrite lookup_slice by lia.
  by replace (Z.to_nat c0 + Z.to_nat y)%nat with (Z.to_nat (c0 + y)) by lia.
Qed.

Lemma lookup_range (a b : Z) (i : nat) :
  (Z.of_nat i < b - a)%Z -> range a b !! i = Some (a + Z.of_nat i)%Z.
Proof.
  intros Hi. unfold range. rewrite list_lookup_fmap, lookup_seq_lt by lia.
  done.
Qed.

Lemma entry_transpose (c : Z) (m : list (list R)) (x y : Z) :
  (0 <= x < c)%Z -> (0 <= y < Z.of_nat (length m))%Z ->
  Np.entry (Np2.transpose c m) x y = Np.entry m y x.
Proof.
  intros Hx Hy. unfold Np.entry, Py.cell, Np2.transpose.
  destruct (Z.leb_spec 0 x), (Z.leb_spec 0 y); try lia. cbn [andb].
  rewrite list_lookup_fmap, lookup_range by lia. cbn.
  rewrite list_lookup_fmap.
  destruct (m !! Z.to_nat y) as [row|]; [|done]. cbn.
  unfold Np.item. replace (0 + Z.of_nat (Z.to_nat x))%Z with x by lia.
  destruct (Z.leb_spec 0 x); [|lia]. by destruct (row !! Z.to_nat x).
Qed.

(** ** The time loop of the 2D Fourier notebook *)

Section Fourier2DLoop.

Variables (nx nt idisp : Z) (c dt dx : R).
Variables (sg : list (list R)) (src : list R).
Variable filter : list R -> list R -> list R.

Hypothesis Hnx : (4 <= nx)%Z.
Hypothesis Heven : Z.even nx = true.
Hypothesis Hdx : dx <> 0%R.
Hypothesis Hfilter :
  forall m g : list R, length m = length g -> length (filter m g) = length g.
Hypothesis Hsg : Py.shape2 nx nx sg.
Hypothesis Hd : (0 < idisp)%Z.
Hypothesis Hsrc : (nt <= Z.of_nat (length src))%Z.

Let rows : Z := (- (- nt / idisp))%Z.

Lemma f2_half : (nx = 2 * Z.quot nx 2)%Z.
Proof using Hnx Heven.
  clear Hdx Hfilter Hsg Hd Hsrc rows.
  rewrite Z.quot_div_nonneg by lia.
  pose proof (Z.div_mod nx 2 ltac:(lia)) as H.
  rewrite Zmod_even, Heven in H. lia.
Qed.

Lemma f2_fder (f : list R) :
  Z.of_nat (length f) = nx ->
  exists d, Fourier2D.fder filter f dx = Returned d /\
    Z.of_nat (length d) = nx.
Proof using Hnx Heven Hdx Hfilter.
  clear Hsg Hd Hsrc rows.
  intros Hf.
  destruct (fourier_derivative_shape filter f dx ltac:(lia) Hdx Hfilter)
    as [He _].
  destruct He as (d & E & Hl); [by rewrite Hf|].
  exists d. split; [done | lia].
Qed.

Lemma f2_fourier_spec (it : Z) (st : Fourier2D.state) :
  (0 <= it < nt)%Z -> Fourier2D.ready nx rows st ->
  exists st', Fourier2D.fourier nx c dt dx sg src filter it st = Returned st' /\
    Fourier2D.ready nx rows st' /\
    Fourier2D.ap st' = Fourier2D.ap st /\
    Fourier2D.apold st' = Fourier2D.apold st /\
    Fourier2D.ap_results st' = Fourier2D.ap_results st /\
    Fourier2D.sp_results st' = Fourier2D.sp_results st.
Proof using Hnx Heven Hdx Hfilter Hsg Hsrc.
  clear Hd.
  intros Hit (Hsp & Hspo & Hdx2 & Hdz2 & Hap & Hapo & Hax & Haz & Hra & Hrs).
  unfold Fourier2D.nz in *. unfold Fourier2D.fourier, Fourier2D.nz.
  destruct (for_range_keeps (Py.shape2 nx nx) 0 nx
              (fun j sd2px =>
                 col ← Np2.getcol (Fourier2D.sp st) j;
                 d ← Fourier2D.fder filter col dx; Np2.setcol sd2px j d)
              (Fourier2D.sd2px st) Hdx2) as (dxs & -> & Hdxs).
  { intros j m Hj Hm. rewrite (getcol_shape nx nx) by done.
    rewrite bind_Returned.
    destruct (f2_fder (map (fun row => Np.item row j) (Fourier2D.sp st)))
      as (d & -> & Hl).
    { rewrite length_map. by destruct Hsp. }
    rewrite bind_Returned. by apply setcol_shape. }
  rewrite bind_Returned.
  destruct (for_range_keeps (Py.shape2 nx nx) 0 nx
              (fun i sd2pz =>
                 row ← Py.getitem (Fourier2D.sp st) i;
                 d ← Fourier2D.fder filter row dx; Np.setrow sd2pz i d)
              (Fourier2D.sd2pz st) Hdz2) as (dzs & -> & Hdzs).
  { intros i m Hi Hm.
    destruct (getrow_shape nx nx (Fourier2D.sp st) i Hsp Hi)
      as (row & -> & Hrow & _).
    rewrite bind_Returned. destruct (f2_fder row Hrow) as (d & -> & Hl).
    rewrite bind_Returned.
    destruct (setrow_spec nx nx m i d Hm Hi Hl) as [-> Hs]. eauto. }
  rewrite bind_Returned.
  destruct (broadcast2_shape Rminus nx nx (Np.scale2 2 (Fourier2D.sp st))
              (Fourier2D.spold st)) as (a & -> & Ha);
    [by apply shape2_scale2 | done |].
  rewrite bind_Returned.
  destruct (broadcast2_shape Rplus nx nx dxs dzs Hdxs Hdzs) as (b & -> & Hb).
  rewrite bind_Returned.
  destruct (broadcast2_shape Rplus nx nx a
              (Np.scale2 (c ^ 2 * dt ^ 2) b)) as (n1 & -> & Hn1);
    [done | by apply shape2_scale2 |].
  rewrite bind_Returned, (getitem_item src it) by lia.
  rewrite bind_Returned.
  destruct (broadcast2_shape Rplus nx nx n1
              (Np2.times (Np2.times sg (Np.item src it)) (dt ^ 2)))
    as (n2 & -> & Hn2);
    [done | by apply shape2_map_map, shape2_map_map |].
  rewrite bind_Returned. eexists. split; [done|].
  unfold Fourier2D.ready, Fourier2D.nz. cbn. tauto.
Qed.

Lemma f2_fd5_spec (it : Z) (st : Fourier2D.state) :
  (0 <= it < nt)%Z -> Fourier2D.ready nx rows st ->
  exists st', Fourier2D.fd5 nx c dt dx sg src it st = Returned st' /\
    Fourier2D.ready nx rows st' /\
    Fourier2D.sp st' = Fourier2D.sp st /\
    Fourier2D.spold st' = Fourier2D.spold st /\
    Fourier2D.ap_results st' = Fourier2D.ap_results st /\
    Fourier2D.sp_results st' = Fourier2D.sp_results st.
Proof using Hnx Hsg Hsrc.
  clear Heven Hdx Hfilter Hd filter.
  intros Hit (Hsp & Hspo & Hdx2 & Hdz2 & Hap & Hapo & Hax & Haz & Hra & Hrs).
  unfold Fourier2D.nz in *. unfold Fourier2D.fd5, Fourier2D.nz.
  destruct (for_range_keeps (Py.shape2 nx nx) 2 (nx - 2)
              (fun i ad2px =>
                 v ← Fourier2D.stencil dx (Py.getitem (Fourier2D.ap st)) i;
                 Np.setrow ad2px i v)
              (Fourier2D.ad2px st) Hax) as (axs & -> & Haxs).
  { intros i m Hi Hm.
    destruct (stencil_spec dx (Py.getitem (Fourier2D.ap st)) i (Z.to_nat nx))
      as (v & -> & Hv).
    { intros j Hj.
      destruct (getrow_shape nx nx _ j Hap ltac:(lia)) as (a & -> & Hla & _).
      exists a. split; [done | lia]. }
    rewrite bind_Returned.
    destruct (setrow_spec nx nx m i v Hm ltac:(lia) ltac:(lia)) as [-> Hs].
    eauto. }
  rewrite bind_Returned.
  destruct (for_range_keeps (Py.shape2 nx nx) 2 (nx - 2)
              (fun i ad2pz =>
                 v ← Fourier2D.stencil dx (Np2.getcol (Fourier2D.ap st)) i;
                 Np2.setcol ad2pz i v)
              (Fourier2D.ad2pz st) Haz) as (azs & -> & Hazs).
  { intros i m Hi Hm.
    destruct (stencil_spec dx (Np2.getcol (Fourier2D.ap st)) i (Z.to_nat nx))
      as (v & -> & Hv).
    { intros j Hj. rewrite (getcol_shape nx nx) by (done || lia).
      eexists. split; [done|]. destruct Hap as [Hl _].
      rewrite length_map. lia. }
    rewrite bind_Returned. apply setcol_shape; [done | lia | lia]. }
  rewrite bind_Returned.
  destruct (broadcast2_shape Rminus nx nx (Np.scale2 2 (Fourier2D.ap st))
              (Fourier2D.apold st)) as (a & -> & Ha);
    [by apply shape2_scale2 | done |].
  rewrite bind_Returned.
  destruct (broadcast2_shape Rplus nx nx axs azs Haxs Hazs) as (b & -> & Hb).
  rewrite bind_Returned.
  destruct (broadcast2_shape Rplus nx nx a
              (Np.scale2 (dt ^ 2 * c ^ 2) b)) as (n1 & -> & Hn1);
    [done | by apply shape2_scale2 |].
  rewrite bind_Returned, (getitem_item src it) by lia.
  rewrite bind_Returned.
  destruct (broadcast2_shape Rplus nx nx n1
              (Np2.times (Np2.times sg (Np.item src it)) (dt ^ 2)))
    as (n2 & -> & Hn2);
    [done | by apply shape2_map_map, shape2_map_map |].
  rewrite bind_Returned. eexists. split; [done|].
  unfold Fourier2D.ready, Fourier2D.nz. cbn. tauto.
Qed.

Lemma f2_sp_section_shape (m : list (list R)) :
  Py.shape2 nx nx m ->
  Py.shape2 (nx - Z.quot nx 2 - 1) (Z.quot nx 2 - 1)
    (Fourier2D.sp_section nx m).
Proof using Hnx Heven.
  clear Hdx Hfilter Hsg Hd Hsrc rows.
  intros Hm. pose proof f2_half as Hh. unfold Fourier2D.sp_section, Fourier2D.nz.
  apply shape2_map_map.
  pose proof (shape2_block nx nx m 1 (Z.quot nx 2) 1 (Z.quot nx 2) Hm) as H.
  unfold Np2.slice_len in H. rewrite !bound_inside in H by lia.
  by replace (Z.max 0 (Z.quot nx 2 - 1)) with (nx - Z.quot nx 2 - 1)%Z in H at 1
    by lia; replace (Z.max 0 (Z.quot nx 2 - 1)) with (Z.quot nx 2 - 1)%Z in H
    by lia.
Qed.

Lemma f2_ap_section_shape (m : list (list R)) :
  Py.shape2 nx nx m ->
  Py.shape2 (Z.quot nx 2 - 1) (Z.quot nx 2) (Fourier2D.ap_section nx m).
Proof using Hnx Heven.
  clear Hdx Hfilter Hsg Hd Hsrc rows.
  intros Hm. pose proof f2_half as Hh. unfold Fourier2D.ap_section, Fourier2D.nz.
  apply shape2_map_map.
  pose proof (shape2_block nx nx m (Z.quot nx 2) nx 1 (Z.quot nx 2) Hm)
    as [Hl _].
  unfold Np2.slice_len in *. rewrite !bound_inside in * by lia.
  replace (Z.max 0 (Z.quot nx 2 - 1)) with (Z.quot nx 2 - 1)%Z by lia.
  apply shape2_transpose; lia.
Qed.

Lemma f2_save_spec (it : Z) (st : Fourier2D.state) :
  (0 <= it < nt)%Z -> Fourier2D.ready nx rows st ->
  Fourier2D.save nx idisp it (Fourier2D.sections nx st) =
  Returned
    (Fourier2D.State (Fourier2D.sp st) (Fourier2D.spold st)
       (Fourier2D.spnew st) (Fourier2D.sd2px st) (Fourier2D.sd2pz st)
       (Fourier2D.ap st) (Fourier2D.apold st) (Fourier2D.apnew st)
       (Fourier2D.ad2px st) (Fourier2D.ad2pz st)
       (Fourier2D.sp_section nx (Fourier2D.sp st))
       (Fourier2D.ap_section nx (Fourier2D.ap st))
       (if (it mod idisp =? 0)%Z
        then <[Z.to_nat (it / idisp) :=
                 Fourier2D.ap_section nx (Fourier2D.ap st)]>
               (Fourier2D.ap_results st)
        else Fourier2D.ap_results st)
       (if (it mod idisp =? 0)%Z
        then <[Z.to_nat (it / idisp) :=
                 Fourier2D.sp_section nx (Fourier2D.sp st)]>
               (Fourier2D.sp_results st)
        else Fourier2D.sp_results st)).
Proof using Hnx Heven Hd.
  clear Hdx Hfilter Hsg Hsrc.
  intros Hit (Hsp & Hspo & Hdx2 & Hdz2 & Hap & Hapo & Hax & Haz & Hra & Hrs).
  unfold Fourier2D.nz in *.
  unfold Fourier2D.save, Fourier2D.sections, Fourier2D.nz,
    PyInt.mod_, PyInt.int_truediv. cbn.
  destruct (Z.eqb_spec idisp 0); [lia|]. rewrite bind_Returned.
  destruct (Z.eqb_spec (it mod idisp) 0); [|done].
  pose proof (ceil_div_gt it nt idisp Hd Hit) as Hlt. fold rows in Hlt.
  pose proof (Z.div_pos it idisp ltac:(lia) Hd).
  assert (Z.quot it idisp = it / idisp)%Z as Hq
    by (apply Z.quot_div_nonneg; lia).
  rewrite !bind_Returned, Hq.
  rewrite setslot_spec; [| lia | by apply f2_ap_section_shape].
  rewrite !bind_Returned, ?Hq.
  rewrite setslot_spec; [| lia | by apply f2_sp_section_shape].
  by rewrite bind_Returned.
Qed.

(** One step of the loop: it returns, keeps the invariant, and writes
    both logs at the entry of its index when the index is a multiple of
    the stride, and leaves them alone otherwise. *)
Lemma f2_step_spec (it : Z) (st : Fourier2D.state) :
  (0 <= it < nt)%Z -> Fourier2D.ready nx rows st ->
  exists st',
    Fourier2D.step nx idisp c dt dx sg src filter it st = Returned st' /\
    Fourier2D.ready nx rows st' /\
    Fourier2D.sp_results st' =
      (if (it mod idisp =? 0)%Z
       then <[Z.to_nat (it / idisp) :=
                Fourier2D.sp_section nx (Fourier2D.sp st')]>
              (Fourier2D.sp_results st)
       else Fourier2D.sp_results st) /\
    Fourier2D.ap_results st' =
      (if (it mod idisp =? 0)%Z
       then <[Z.to_nat (it / idisp) :=
                Fourier2D.ap_section nx (Fourier2D.ap st')]>
              (Fourier2D.ap_results st)
       else Fourier2D.ap_results st).
Proof using Hnx Heven Hdx Hfilter Hsg Hd Hsrc.
  intros Hit Hr.
  destruct (f2_fourier_spec it st Hit Hr)
    as (s1 & E1 & Hr1 & _ & _ & Hra1 & Hrs1).
  destruct (f2_fd5_spec it s1 Hit Hr1)
    as (s2 & E2 & Hr2 & _ & _ & Hra2 & Hrs2).
  unfold Fourier2D.step. rewrite E1, bind_Returned, E2, bind_Returned.
  rewrite (f2_save_spec it s2 Hit Hr2). eexists. split; [done|]. cbn.
  rewrite Hra2, Hra1, Hrs2, Hrs1. split; [|done].
  destruct Hr2 as (Hsp & Hspo & Hdx2 & Hdz2 & Hap & Hapo & Hax & Haz & Hra & Hrs).
  unfold Fourier2D.ready. cbn.
  repeat (split; [done|]).
  rewrite <- Hra1, <- Hra2, <- Hrs1, <- Hrs2.
  destruct (it mod idisp =? 0)%Z; rewrite ?length_insert; done.
Qed.

(** A stretch of the loop: it returns, keeps the invariant, and leaves
    alone every entry of the logs that none of its steps writes. *)
Lemma f2_run_segment (a b : Z) (s : Fourier2D.state) (r : nat) :
  (0 <= a <= b)%Z -> (b <= nt)%Z -> Fourier2D.ready nx rows s ->
  (forall i, (a <= i < b)%Z -> (i mod idisp = 0)%Z -> Z.to_nat (i / idisp) <> r) ->
  exists s',
    for_ (range a b) (Fourier2D.step nx idisp c dt dx sg src filter) s
      = Returned s' /\
    Fourier2D.ready nx rows s' /\
    Fourier2D.sp_results s' !! r = Fourier2D.sp_results s !! r /\
    Fourier2D.ap_results s' !! r = Fourier2D.ap_results s !! r.
Proof using Hnx Heven Hdx Hfilter Hsg Hd Hsrc.
  intros Hab Hb Hready Hr.
  destruct (for_range_inv
              (fun _ s' =>
                 Fourier2D.ready nx rows s' /\
                 Fourier2D.sp_results s' !! r = Fourier2D.sp_results s !! r /\
                 Fourier2D.ap_results s' !! r = Fourier2D.ap_results s !! r)
              a b (Fourier2D.step nx idisp c dt dx sg src filter) s)
    as (s' & E & H); [lia | done | | by exists s'].
  intros i s1 Hi (Hr1 & Hrow & Hrow').
  destruct (f2_step_spec i s1 ltac:(lia) Hr1) as (s2 & E & Hr2 & Hs & Ha).
  exists s2. split; [done|]. split; [done|]. rewrite Hs, Ha, <- Hrow, <- Hrow'.
  destruct (Z.eqb_spec (i mod idisp) 0) as [Hm|]; [|done].
  split; apply list_lookup_insert_ne; by apply Hr.
Qed.

Lemma f2_init_ready :
  (0 <= nt)%Z ->
  exists st0, Fourier2D.init nx nt idisp = Returned st0 /\
    Fourier2D.ready nx rows st0.
Proof using Hnx Heven Hd.
  clear Hdx Hfilter Hsg Hsrc.
  intros Hnt. pose proof f2_half as Hh.
  assert (0 <= rows)%Z as Hrows.
  { unfold rows. assert (- nt / idisp <= 0)%Z; [|lia].
    apply Z.div_le_upper_bound; lia. }
  unfold Fourier2D.init, Fourier2D.nz, Np2.zeros2, Np2.zeros3, Py.ceil_div.
  destruct (Z.ltb_spec nx 0); [lia|]. cbn [orb]. rewrite bind_Returned.
  destruct (Z.eqb_spec idisp 0); [lia|]. rewrite bind_Returned.
  fold rows.
  destruct (Z.ltb_spec rows 0); [lia|].
  destruct (Z.ltb_spec (Z.quot nx 2 - 1) 0); [lia|].
  destruct (Z.ltb_spec (Z.quot nx 2) 0); [lia|].
  destruct (Z.ltb_spec (nx - Z.quot nx 2 - 1) 0); [lia|].
  cbn [orb]. rewrite !bind_Returned. eexists. split; [done|].
  unfold Fourier2D.ready, Fourier2D.nz. cbn.
  pose proof (shape2_zeros2 nx nx ltac:(lia) ltac:(lia)).
  repeat (split; [done|]). rewrite !length_replicate. lia.
Qed.

(** The log of the 2D loop: the run returns, both logs have
    ceil(nt/idisp) entries, and the step of every index that is a
    multiple of the stride writes the two sections of its fields, which
    the entries still hold at the end of the run. *)
Lemma f2_log :
  (0 <= nt)%Z ->
  exists st0 final,
    Fourier2D.init nx nt idisp = Returned st0 /\
    Fourier2D.run nx nt idisp c dt dx sg src filter st0 = Returned final /\
    Z.of_nat (length (Fourier2D.sp_results final)) = rows /\
    Z.of_nat (length (Fourier2D.ap_results final)) = rows /\
    (forall it, (0 <= it < nt)%Z -> (it mod idisp = 0)%Z ->
       exists st_it,
         for_ (range 0 (it + 1))
           (Fourier2D.step nx idisp c dt dx sg src filter) st0
           = Returned st_it /\
         Py.shape2 nx nx (Fourier2D.sp st_it) /\
         Py.shape2 nx nx (Fourier2D.ap st_it) /\
         Fourier2D.sp_results st_it !! Z.to_nat (it / idisp)
           = Some (Fourier2D.sp_section nx (Fourier2D.sp st_it)) /\
         Fourier2D.sp_results final !! Z.to_nat (it / idisp)
           = Some (Fourier2D.sp_section nx (Fourier2D.sp st_it)) /\
         Fourier2D.ap_results st_it !! Z.to_nat (it / idisp)
           = Some (Fourier2D.ap_section nx (Fourier2D.ap st_it)) /\
         Fourier2D.ap_results final !! Z.to_nat (it / idisp)
           = Some (Fourier2D.ap_section nx (Fourier2D.ap st_it))).
Proof using Hnx Heven Hdx Hfilter Hsg Hd Hsrc.
  intros Hnt. destruct (f2_init_ready Hnt) as (st0 & E0 & Hr0).
  set (far := S (Z.to_nat rows)).
  assert (forall a b i, (0 <= a)%Z -> (b <= nt)%Z -> (a <= i < b)%Z ->
            Z.to_nat (i / idisp) <> far) as Hfar.
  { intros a b i Ha Hb Hi. pose proof (ceil_div_gt i nt idisp Hd ltac:(lia)).
    pose proof (Z.div_pos i idisp ltac:(lia) Hd). unfold far, rows. lia. }
  destruct (f2_run_segment 0 nt st0 far) as (final & Ef & Hrf & _);
    try done; try lia.
  { intros i Hi _. by apply (Hfar 0%Z nt). }
  exists st0, final. split; [done|]. split; [done|].
  split; [apply Hrf|]. split; [apply Hrf|].
  intros it Hit Hm.
  destruct (f2_run_segment 0 it st0 far) as (s_pre & Epre & Hrpre & _);
    try done; try lia.
  { intros i Hi _. apply (Hfar 0%Z it); lia. }
  destruct (f2_step_spec it s_pre Hit Hrpre) as (st_it & Estep & Hrit & Hs & Ha).
  pose proof (ceil_div_gt it nt idisp Hd Hit) as Hlt.
  pose proof (Z.div_pos it idisp ltac:(lia) Hd) as Hge.
  assert (Fourier2D.sp_results st_it !! Z.to_nat (it / idisp)
          = Some (Fourier2D.sp_section nx (Fourier2D.sp st_it))) as Hrow.
  { rewrite Hs. destruct (Z.eqb_spec (it mod idisp) 0); [|done].
    apply list_lookup_insert_eq.
    destruct Hrpre as (_ & _ & _ & _ & _ & _ & _ & _ & _ & Hl).
    fold rows in Hlt. lia. }
  assert (Fourier2D.ap_results st_it !! Z.to_nat (it / idisp)
          = Some (Fourier2D.ap_section nx (Fourier2D.ap st_it))) as Hrow'.
  { rewrite Ha. destruct (Z.eqb_spec (it mod idisp) 0); [|done].
    apply list_lookup_insert_eq.
    destruct Hrpre as (_ & _ & _ & _ & _ & _ & _ & _ & Hl & _).
    fold rows in Hlt. lia. }
  assert (for_ (range 0 (it + 1))
            (Fourier2D.step nx idisp c dt dx sg src filter) st0
          = Returned st_it) as Eit.
  { rewrite range_snoc, for_app, Epre by lia.
    rewrite bind_Returned. cbn [for_]. by rewrite Estep. }
  exists st_it. split; [done|].
  split; [apply Hrit|]. split; [apply Hrit|].
  split; [done|].
  destruct (f2_run_segment (it + 1) nt st_it (Z.to_nat (it / idisp)))
    as (final' & Ef' & _ & Hkeep & Hkeep'); try done; try lia.
  { intros i Hi Him.
    pose proof (stride_rows_differ it i idisp Hd Hm Him ltac:(lia)). lia. }
  assert (final' = final) as ->.
  { unfold Fourier2D.run in Ef.
    rewrite (range_app 0 (it + 1) nt), for_app, Eit, bind_Returned in Ef by lia.
    congruence. }
  by rewrite Hkeep, Hkeep'.
Qed.

(** What the two sections hold, entry by entry. *)
Lemma f2_section_entries (m : list (list R)) :
  Py.shape2 nx nx m ->
  (forall x y, (0 <= x < Z.quot nx 2 - 1)%Z -> (0 <= y < Z.quot nx 2 - 1)%Z ->
     Np.entry (Fourier2D.sp_section nx m) x y
     = (- Rabs (Np.entry m (1 + x) (1 + y)))%R) /\
  (forall x y, (0 <= x < Z.quot nx 2 - 1)%Z -> (0 <= y < Z.quot nx 2)%Z ->
     Np.entry (Fourier2D.ap_section nx m) x y
     = (- Rabs (Np.entry m (Z.quot nx 2 + y) (1 + x)))%R).
Proof using Hnx Heven.
  clear Hdx Hfilter Hsg Hd Hsrc rows.
  intros Hm. pose proof f2_half as Hh. split; intros x y Hx Hy.
  - unfold Fourier2D.sp_section, Fourier2D.nz.
    by rewrite entry_neg_abs, (entry_block nx nx) by (done || lia).
  - unfold Fourier2D.ap_section, Fourier2D.nz, Np2.slice_len.
    rewrite !bound_inside by lia.
    pose proof (shape2_block nx nx m (Z.quot nx 2) nx 1 (Z.quot nx 2) Hm)
      as [Hl _].
    unfold Np2.slice_len in Hl. rewrite !bound_inside in Hl by lia.
    rewrite entry_neg_abs, entry_transpose by lia.
    by rewrite (entry_block nx nx) by (done || lia).
Qed.

End Fourier2DLoop.

Lemma f2_fourier_results (nx : Z) (c dt dx : R) (sg : list (list R))
    (src : list R) (filter : list R -> list R -> list R) (it : Z)
    (st st' : Fourier2D.state) :
  Fourier2D.fourier nx c dt dx sg src filter it st = Returned st' ->
  Fourier2D.ap_results st' = Fourier2D.ap_results st /\
  Fourier2D.sp_results st' = Fourier2D.sp_results st.
Proof.
  unfold Fourier2D.fourier. intros H.
  apply bind_inv in H as (? & _ & H). apply bind_inv in H as (? & _ & H).
  apply bind_inv in H as (? & _ & H). apply bind_inv in H as (? & _ & H).
  apply bind_inv in H as (? & _ & H). apply bind_inv in H as (? & _ & H).
  apply bind_inv in H as (? & _ & H). by injection H as <-.
Qed.

Lemma f2_fd5_results (nx : Z) (c dt dx : R) (sg : list (list R))
    (src : list R) (it : Z) (st st' : Fourier2D.state) :
  Fourier2D.fd5 nx c dt dx sg src it st = Returned st' ->
  Fourier2D.ap_results st' = Fourier2D.ap_results st /\
  Fourier2D.sp_results st' = Fourier2D.sp_results st.
Proof.
  unfold Fourier2D.fd5. intros H.
  apply bind_inv in H as (? & _ & H). apply bind_inv in H as (? & _ & H).
  apply bind_inv in H as (? & _ & H). apply bind_inv in H as (? & _ & H).
  apply bind_inv in H as (? & _ & H). apply bind_inv in H as (? & _ & H).
  apply bind_inv in H as (? & _ & H). by injection H as <-.
Qed.

(** A step whose index is not a multiple of the stride leaves both
    logs as they are. *)
Lemma f2_step_off_stride (nx idisp : Z) (c dt dx : R) (sg : list (list R))
    (src : list R) (filter : list R -> list R -> list R) (it : Z)
    (st st' : Fourier2D.state) :
  (it mod idisp <> 0)%Z ->
  Fourier2D.step nx idisp c dt dx sg src filter it st = Returned st' ->
  Fourier2D.ap_results st' = Fourier2D.ap_results st /\
  Fourier2D.sp_results st' = Fourier2D.sp_results st.
Proof.
  intros Hm. unfold Fourier2D.step, Fourier2D.save, PyInt.mod_. intros H.
  apply bind_inv in H as (s1 & H1 & H). apply bind_inv in H as (s2 & H2 & H).
  apply f2_fourier_results in H1 as [Ha1 Hs1].
  apply f2_fd5_results in H2 as [Ha2 Hs2].
  destruct (Z.eqb_spec idisp 0); [discriminate|]. rewrite bind_Returned in H.
  destruct (Z.eqb_spec (it mod idisp) 0); [lia|].
  injection H as <-. cbn. by rewrite Ha2, Ha1, Hs2, Hs1.
Qed.

(** The log of the 2D loop, for a grid of an even number [nx >= 4] of
    points in each direction. *)
Lemma f2_snapshot_log (nx nt idisp : Z) (c dt dx : R) (sg : list (list R))
    (src : list R) (filter : list R -> list R -> list R) :
  (4 <= nx)%Z -> Z.even nx = true -> dx <> 0%R ->
  (forall m g : list R, length m = length g -> length (filter m g) = length g) ->
  Py.shape2 nx nx sg -> (0 < idisp)%Z ->
  (0 <= nt <= Z.of_nat (length src))%Z ->
  exists st0 final,
    Fourier2D.init nx nt idisp = Returned st0 /\
    Fourier2D.run nx nt idisp c dt dx sg src filter st0 = Returned final /\
    Z.of_nat (length (Fourier2D.sp_results final)) = (- (- nt / idisp))%Z /\
    Z.of_nat (length (Fourier2D.ap_results final)) = (- (- nt / idisp))%Z /\
    (forall it, (0 <= it < nt)%Z -> (it mod idisp = 0)%Z ->
       exists st_it,
         for_ (range 0 (it + 1))
           (Fourier2D.step nx idisp c dt dx sg src filter) st0
           = Returned st_it /\
         Py.shape2 nx nx (Fourier2D.sp st_it) /\
         Py.shape2 nx nx (Fourier2D.ap st_it) /\
         Fourier2D.sp_results st_it !! Z.to_nat (it / idisp)
           = Some (Fourier2D.sp_section nx (Fourier2D.sp st_it)) /\
         Fourier2D.sp_results final !! Z.to_nat (it / idisp)
           = Some (Fourier2D.sp_section nx (Fourier2D.sp st_it)) /\
         Fourier2D.ap_results st_it !! Z.to_nat (it / idisp)
           = Some (Fourier2D.ap_section nx (Fourier2D.ap st_it)) /\
         Fourier2D.ap_results final !! Z.to_nat (it / idisp)
           = Some (Fourier2D.ap_section nx (Fourier2D.ap st_it))) /\
    (forall m, Py.shape2 nx nx m ->
       Py.shape2 (Z.quot nx 2 - 1) (Z.quot nx 2 - 1)
         (Fourier2D.sp_section nx m) /\
       Py.shape2 (Z.quot nx 2 - 1) (Z.quot nx 2)
         (Fourier2D.ap_section nx m) /\
       (forall x y,
          (0 <= x < Z.quot nx 2 - 1)%Z -> (0 <= y < Z.quot nx 2 - 1)%Z ->
          Np.entry (Fourier2D.sp_section nx m) x y
          = (- Rabs (Np.entry m (1 + x) (1 + y)))%R) /\
       (forall x y,
          (0 <= x < Z.quot nx 2 - 1)%Z -> (0 <= y < Z.quot nx 2)%Z ->
          Np.entry (Fourier2D.ap_section nx m) x y
          = (- Rabs (Np.entry m (Z.quot nx 2 + y) (1 + x)))%R)) /\
    (forall it st st', (it mod idisp <> 0)%Z ->
       Fourier2D.step nx idisp c dt dx sg src filter it st = Returned st' ->
       Fourier2D.ap_results st' = Fourier2D.ap_results st /\
       Fourier2D.sp_results st' = Fourier2D.sp_results st).
Proof.
  intros Hnx Heven Hdx Hfilter Hsg Hd [Hnt Hsrc].
  destruct (f2_log nx nt idisp c dt dx sg src filter Hnx Heven Hdx Hfilter
              Hsg Hd Hsrc Hnt)
    as (st0 & final & E0 & Ef & Hls & Hla & Hlog).
  exists st0, final. do 4 (split; [done|]). split; [exact Hlog|]. split.
  - intros m Hm. pose proof (f2_half nx Hnx Heven) as Hh.
    pose proof (f2_sp_section_shape nx Hnx Heven m Hm) as Hs.
    replace (nx - Z.quot nx 2 - 1)%Z with (Z.quot nx 2 - 1)%Z in Hs by lia.
    split; [done|]. split; [by apply f2_ap_section_shape|].
    by apply f2_section_entries.
  - intros it st st'. apply f2_step_off_stride.
Qed.

(** C8, the run that refutes the claim on the 2D notebook: on four by
    four grid points, a run of one step logs, for the pseudospectral
    field, an array of one row that holds [-1] where the field holds
    [1], and the field has four rows. *)
Lemma fourier2d_log_is_not_the_field :
  exists st0 final row,
    Fourier2D.init 4 1 1 = Returned st0 /\
    Fourier2D.run 4 1 1 1 1 1 Sample.sg4 [1%R] (fun _ g => g) st0
      = Returned final /\
    Fourier2D.sp_results final !! 0%nat = Some row /\
    length row = 1%nat /\ Np.entry row 0 0 = (-1)%R /\
    length (Fourier2D.sp final) = 4%nat /\
    Np.entry (Fourier2D.sp final) 1 1 = 1%R.
Proof.
  assert (forall m g : list R, length m = length g ->
            length ((fun _ g : list R => g) m g) = length g) as Hfilter by done.
  assert (Py.shape2 4 4 Sample.sg4) as Hsg
    by (split; [reflexivity | repeat constructor]).
  assert (1 <= Z.of_nat (length [1%R]))%Z as Hsrc by (cbn; lia).
  assert ((1 : R) <> 0%R) as Hdx by lra.
  destruct (f2_init_ready 4 1 1 ltac:(lia) ltac:(reflexivity) ltac:(lia)
              ltac:(lia)) as (st0 & E0 & Hr0).
  assert (st0 = Fourier2D.State (Np.zeros2 4 4) (Np.zeros2 4 4)
                  (Np.zeros2 4 4) (Np.zeros2 4 4) (Np.zeros2 4 4)
                  (Np.zeros2 4 4) (Np.zeros2 4 4) (Np.zeros2 4 4)
                  (Np.zeros2 4 4) (Np.zeros2 4 4)
                  (Fourier2D.sp_section 4 (Np.zeros2 4 4))
                  (Fourier2D.ap_section 4 (Np.zeros2 4 4))
                  (replicate 1 (Np.zeros2 1 2))
                  (replicate 1 (Np.zeros2 1 1))) as Hst0.
  { vm_compute in E0. injection E0 as <-. vm_compute. reflexivity. }
  assert (forall f : list R, length f = 4%nat ->
            Fourier2D.fder (fun _ g => g) f 1 = Returned f) as Hfder.
  { intros f Hf.
    destruct (fourier_derivative_shape (fun _ g => g) f 1) as [He _];
      [rewrite Hf; lia | done | done |].
    destruct He as (d & E & _); [by rewrite Hf|].
    unfold Fourier2D.fder. rewrite E.
    unfold FourierDerivative.fourier_derivative_2nd in E.
    by apply bind_inv in E as (k & _ & [= <-]). }
  destruct (f2_fourier_spec 4 1 1 1 1 1 Sample.sg4 [1%R] (fun _ g => g)
              ltac:(lia) ltac:(reflexivity) Hdx Hfilter Hsg Hsrc
              0 st0 ltac:(lia) Hr0)
    as (s1 & E1 & Hr1 & _).
  assert (Np.entry (Fourier2D.sp s1) 1 1 = 1%R) as Hval.
  { revert E1. rewrite Hst0. unfold Fourier2D.fourier, Fourier2D.nz.
    cbn [Fourier2D.sp Fourier2D.sd2px Fourier2D.sd2pz Fourier2D.spold].
    repeat (rewrite range_cons by lia; cbn [for_ Z.add Pos.add Pos.succ]).
    rewrite range_nil by lia. cbn [for_].
    repeat first
      [ rewrite bind_Returned
      | rewrite Hfder by reflexivity
      | progress vm_compute (Np2.getcol _ _)
      | progress vm_compute (Np2.setcol _ _ _)
      | progress vm_compute (Py.getitem _ _)
      | progress vm_compute (Np.setrow _ _ _)
      | progress vm_compute (Np2.broadcast2 _ _ _) ].
    intros [= <-]. vm_compute. lra. }
  destruct (f2_fd5_spec 4 1 1 1 1 1 Sample.sg4 [1%R]
              ltac:(lia) Hsg Hsrc 0 s1 ltac:(lia) Hr1)
    as (s2 & E2 & Hr2 & Hsp2 & _).
  pose proof (f2_save_spec 4 1 1 ltac:(lia) ltac:(reflexivity) ltac:(lia)
                0 s2 ltac:(lia) Hr2) as E3.
  pose proof Hr2 as (Hshape & _ & _ & _ & _ & _ & _ & _ & _ & Hlen).
  unfold Fourier2D.nz in Hshape.
  pose proof (f2_sp_section_shape 4 ltac:(lia) ltac:(reflexivity)
                (Fourier2D.sp s2) Hshape) as [Hrow _].
  pose proof (f2_section_entries 4 ltac:(lia) ltac:(reflexivity)
                (Fourier2D.sp s2) Hshape) as [Hent _].
  eexists st0, _, (Fourier2D.sp_section 4 (Fourier2D.sp s2)).
  split; [done|]. split.
  { unfold Fourier2D.run. rewrite range_cons, range_nil by lia. cbn [for_].
    unfold Fourier2D.step. rewrite E1, bind_Returned, E2, bind_Returned, E3.
    reflexivity. }
  change (0 mod 1 =? 0)%Z with true. change (Z.to_nat (0 / 1)) with 0%nat.
  cbn [Fourier2D.sp_results Fourier2D.sp].
  change (- (- (1) / 1))%Z with 1%Z in Hlen.
  change (4 - Z.quot 4 2 - 1)%Z with 1%Z in Hrow.
  change (Z.quot 4 2 - 1)%Z with 1%Z in Hent.
  split; [apply list_lookup_insert_eq; lia|].
  split; [lia|]. split.
  - rewrite (Hent 0%Z 0%Z) by lia.
    change (1 + 0)%Z with 1%Z. rewrite Hsp2, Hval, Rabs_R1. done.
  - split; [destruct Hshape; lia | by rewrite Hsp2].
Qed.

(** C8. Both logs are written at the steps whose index is a multiple of
    the stride, and hold what these steps wrote until the end of the run.

    Spectral-element loop: a run of [nt] steps with stride [idisp]
    returns; its log has ceil(nt/idisp) rows; the step of every index
    [it] that is a multiple of [idisp] writes the values of its current
    field into row [it/idisp], and the row still holds these values at
    the end of the run, whatever the later steps bind and write; every
    row of the log is the snapshot of such a step; a step whose index is
    not a multiple of [idisp] leaves the log as it is.

    Loop of the 2D Fourier notebook, on [nx = nz] grid points, [nx] even
    and at least 4: the run returns; both logs have ceil(nt/idisp)
    entries; the step of every index [it] that is a multiple of [idisp]
    writes into the entry [it/idisp] of [sp_results] the section
    [-np.abs(sp[1:nx/2, 1:nz/2])] of its pseudospectral field and into
    the entry [it/idisp] of [ap_results] the section
    [-np.abs(ap[nx/2:nx, 1:nz/2].T)] of its finite-difference field, and
    both entries still hold them at the end of the run; the sections have
    [nx/2 - 1] rows of [nx/2 - 1] and of [nx/2] values, the negated
    magnitudes of the values of the field; every entry of the logs is
    written by such a step; a step whose index is not a multiple of
    [idisp] leaves both logs as they are. *)
Theorem snapshots_are_copies_at_stride
    (N ne nt idisp : Z) (dt : R) (src : list R) (Minv K : list (list R))
    (nx nt2 idisp2 : Z) (c dt2 dx : R) (sg : list (list R)) (src2 : list R)
    (filter : list R -> list R -> list R) :
  (1 <= SeHomo.ng N ne)%Z -> (0 <= nt)%Z -> (0 < idisp)%Z ->
  Py.shape2 (SeHomo.ng N ne) (SeHomo.ng N ne) Minv ->
  Py.shape2 (SeHomo.ng N ne) (SeHomo.ng N ne) K ->
  (4 <= nx)%Z -> Z.even nx = true -> dx <> 0%R ->
  (forall m g : list R, length m = length g -> length (filter m g) = length g) ->
  Py.shape2 nx nx sg -> (0 < idisp2)%Z ->
  (0 <= nt2 <= Z.of_nat (length src2))%Z ->
  (exists st0 final,
     SeHomo.init N ne nt idisp = Returned st0 /\
     SeHomo.run N ne nt idisp dt src Minv K st0 = Returned final /\
     Z.of_nat (length (SeHomo.u_results final)) = (- (- nt / idisp))%Z /\
     (forall it, (0 <= it < nt)%Z -> (it mod idisp = 0)%Z ->
        exists st_it,
          for_ (range 0 (it + 1)) (SeHomo.step N ne idisp dt src Minv K) st0
            = Returned st_it /\
          SeHomo.u_results st_it !! Z.to_nat (it / idisp)
            = Some (load (SeHomo.heap st_it) (SeHomo.u st_it)) /\
          SeHomo.u_results final !! Z.to_nat (it / idisp)
            = Some (load (SeHomo.heap st_it) (SeHomo.u st_it))) /\
     (forall k, (0 <= k < - (- nt / idisp))%Z ->
        (0 <= k * idisp < nt)%Z /\ ((k * idisp) mod idisp = 0)%Z /\
        (k * idisp / idisp = k)%Z) /\
     (forall it st st', (it mod idisp <> 0)%Z ->
        SeHomo.step N ne idisp dt src Minv K it st = Returned st' ->
        SeHomo.u_results st' = SeHomo.u_results st)) /\
  (exists st0 final,
     Fourier2D.init nx nt2 idisp2 = Returned st0 /\
     Fourier2D.run nx nt2 idisp2 c dt2 dx sg src2 filter st0
       = Returned final /\
     Z.of_nat (length (Fourier2D.sp_results final))
       = (- (- nt2 / idisp2))%Z /\
     Z.of_nat (length (Fourier2D.ap_results final))
       = (- (- nt2 / idisp2))%Z /\
     (forall it, (0 <= it < nt2)%Z -> (it mod idisp2 = 0)%Z ->
        exists st_it,
          for_ (range 0 (it + 1))
            (Fourier2D.step nx idisp2 c dt2 dx sg src2 filter) st0
            = Returned st_it /\
          Py.shape2 nx nx (Fourier2D.sp st_it) /\
          Py.shape2 nx nx (Fourier2D.ap st_it) /\
          Fourier2D.sp_results st_it !! Z.to_nat (it / idisp2)
            = Some (Fourier2D.sp_section nx (Fourier2D.sp st_it)) /\
          Fourier2D.sp_results final !! Z.to_nat (it / idisp2)
            = Some (Fourier2D.sp_section nx (Fourier2D.sp st_it)) /\
          Fourier2D.ap_results st_it !! Z.to_nat (it / idisp2)
            = Some (Fourier2D.ap_section nx (Fourier2D.ap st_it)) /\
          Fourier2D.ap_results final !! Z.to_nat (it / idisp2)
            = Some (Fourier2D.ap_section nx (Fourier2D.ap st_it))) /\
     (forall m, Py.shape2 nx nx m ->
        Py.shape2 (Z.quot nx 2 - 1) (Z.quot nx 2 - 1)
          (Fourier2D.sp_section nx m) /\
        Py.shape2 (Z.quot nx 2 - 1) (Z.quot nx 2)
          (Fourier2D.ap_section nx m) /\
        (forall x y,
           (0 <= x < Z.quot nx 2 - 1)%Z -> (0 <= y < Z.quot nx 2 - 1)%Z ->
           Np.entry (Fourier2D.sp_section nx m) x y
           = (- Rabs (Np.entry m (1 + x) (1 + y)))%R) /\
        (forall x y,
           (0 <= x < Z.quot nx 2 - 1)%Z -> (0 <= y < Z.quot nx 2)%Z ->
           Np.entry (Fourier2D.ap_section nx m) x y
           = (- Rabs (Np.entry m (Z.quot nx 2 + y) (1 + x)))%R)) /\
     (forall k, (0 <= k < - (- nt2 / idisp2))%Z ->
        (0 <= k * idisp2 < nt2)%Z /\ ((k * idisp2) mod idisp2 = 0)%Z /\
        (k * idisp2 / idisp2 = k)%Z) /\
     (forall it st st', (it mod idisp2 <> 0)%Z ->
        Fourier2D.step nx idisp2 c dt2 dx sg src2 filter it st
          = Returned st' ->
        Fourier2D.ap_results st' = Fourier2D.ap_results st /\
        Fourier2D.sp_results st' = Fourier2D.sp_results st)).
Proof.
  intros Hng Hnt Hd HM HK Hnx Heven Hdx Hfilter Hsg Hd2 Hnt2. split.
  - by apply se_snapshot_log.
  - destruct (f2_snapshot_log nx nt2 idisp2 c dt2 dx sg src2 filter
                Hnx Heven Hdx Hfilter Hsg Hd2 Hnt2)
      as (st0 & final & E0 & Ef & Hls & Hla & Hlog & Hsec & Hoff).
    exists st0, final. do 6 (split; [done|]). split; [|done].
    intros k Hk. pose proof (ceil_div_row k nt2 idisp2 Hd2 Hk).
    split; [done|]. split; [apply Z.mod_mul; lia | apply Z.div_mul; lia].
Qed.

Lemma snapshots_are_copies_at_stride_witness :
  (exists st0 final,
     SeHomo.init 1 1 3 2 = Returned st0 /\
     SeHomo.run 1 1 3 2 1 Sample.src Sample.Minv Sample.K st0 = Returned final /\
     Z.of_nat (length (SeHomo.u_results final)) = (- (- 3 / 2))%Z /\
     (forall it, (0 <= it < 3)%Z -> (it mod 2 = 0)%Z ->
        exists st_it,
          for_ (range 0 (it + 1))
            (SeHomo.step 1 1 2 1 Sample.src Sample.Minv Sample.K) st0
            = Returned st_it /\
          SeHomo.u_results st_it !! Z.to_nat (it / 2)
            = Some (load (SeHomo.heap st_it) (SeHomo.u st_it)) /\
          SeHomo.u_results final !! Z.to_nat (it / 2)
            = Some (load (SeHomo.heap st_it) (SeHomo.u st_it))) /\
     (forall k, (0 <= k < - (- 3 / 2))%Z ->
        (0 <= k * 2 < 3)%Z /\ ((k * 2) mod 2 = 0)%Z /\
        (k * 2 / 2 = k)%Z) /\
     (forall it st st', (it mod 2 <> 0)%Z ->
        SeHomo.step 1 1 2 1 Sample.src Sample.Minv Sample.K it st
          = Returned st' ->
        SeHomo.u_results st' = SeHomo.u_results st)) /\
  (exists st0 final,
     Fourier2D.init 4 3 2 = Returned st0 /\
     Fourier2D.run 4 3 2 1 1 1 Sample.sg4
       [1; 1; 1]%R (fun _ g => g) st0
       = Returned final /\
     Z.of_nat (length (Fourier2D.sp_results final))
       = (- (- 3 / 2))%Z /\
     Z.of_nat (length (Fourier2D.ap_results final))
       = (- (- 3 / 2))%Z /\
     (forall it, (0 <= it < 3)%Z -> (it mod 2 = 0)%Z ->
        exists st_it,
          for_ (range 0 (it + 1))
            (Fourier2D.step 4 2 1 1 1 Sample.sg4
              [1; 1; 1]%R (fun _ g => g)) st0
            = Returned st_it /\
          Py.shape2 4 4 (Fourier2D.sp st_it) /\
          Py.shape2 4 4 (Fourier2D.ap st_it) /\
          Fourier2D.sp_results st_it !! Z.to_nat (it / 2)
            = Some (Fourier2D.sp_section 4 (Fourier2D.sp st_it)) /\
          Fourier2D.sp_results final !! Z.to_nat (it / 2)
            = Some (Fourier2D.sp_section 4 (Fourier2D.sp st_it)) /\
          Fourier2D.ap_results st_it !! Z.to_nat (it / 2)
            = Some (Fourier2D.ap_section 4 (Fourier2D.ap st_it)) /\
          Fourier2D.ap_results final !! Z.to_nat (it / 2)
            = Some (Fourier2D.ap_section 4 (Fourier2D.ap st_it))) /\
     (forall m, Py.shape2 4 4 m ->
        Py.shape2 (Z.quot 4 2 - 1) (Z.quot 4 2 - 1)
          (Fourier2D.sp_section 4 m) /\
        Py.shape2 (Z.quot 4 2 - 1) (Z.quot 4 2)
          (Fourier2D.ap_section 4 m) /\
        (forall x y,
           (0 <= x < Z.quot 4 2 - 1)%Z -> (0 <= y < Z.quot 4 2 - 1)%Z ->
           Np.entry (Fourier2D.sp_section 4 m) x y
           = (- Rabs (Np.entry m (1 + x) (1 + y)))%R) /\
        (forall x y,
           (0 <= x < Z.quot 4 2 - 1)%Z -> (0 <= y < Z.quot 4 2)%Z ->
           Np.entry (Fourier2D.ap_section 4 m) x y
           = (- Rabs (Np.entry m (Z.quot 4 2 + y) (1 + x)))%R)) /\
     (forall k, (0 <= k < - (- 3 / 2))%Z ->
        (0 <= k * 2 < 3)%Z /\ ((k * 2) mod 2 = 0)%Z /\
        (k * 2 / 2 = k)%Z) /\
     (forall it st st', (it mod 2 <> 0)%Z ->
        Fourier2D.step 4 2 1 1 1 Sample.sg4
              [1; 1; 1]%R (fun _ g => g) it st
          = Returned st' ->
        Fourier2D.ap_results st' = Fourier2D.ap_results st /\
        Fourier2D.sp_results st' = Fourier2D.sp_results st)).
Proof.
  apply (snapshots_are_copies_at_stride 1 1 3 2 1 Sample.src Sample.Minv
           Sample.K 4 3 2 1 1 1 Sample.sg4 [1; 1; 1]%R (fun _ g => g)).
  - unfold SeHomo.ng. lia.
  - lia.
  - lia.
  - split; [reflexivity|]. repeat constructor.
  - split; [reflexivity|]. repeat constructor.
  - lia.
  - reflexivity.
  - lra.
  - intros m g _. reflexivity.
  - split; [reflexivity|]. repeat constructor.
  - lia.
  - cbn. lia.
Defined.
